(* ===== verification/_CoqProject ===== *)
-Q . S2P
Prelude.v
GoStrings.v
GoHttp.v
GoValues.v
CelEnv.v
Facts.v
Policy.v
Evaluate.v
ExtProc.v
Log.v
AccessLog.v
GrpcServer.v
GoPath.v
Metrics.v
HttpServer.v
Instances.v
LoadTheorems.v
EvalTheorems.v
ServerTheorems.v
LogTheorems.v
Reload.v
ReloadTheorems.v
GoNet.v
Net.v
GoRegexp.v
Glob.v
GoEncoding.v
ConfigWatch.v
JsonPath.v
CelFunctions.v
Lifecycle.v
Url.v
Slog.v
ServerLogs.v
Main.v
System.v
CelLibrary.v
