(* ===== verification/Prelude.v ===== *)
(** * request-validator: a verification development

    request-validator is a service that Envoy asks about HTTP traffic.  A YAML
    policy holds groups of rules written in CEL.  An HTTP endpoint answers
    ext_authz requests with an allow or deny verdict; a gRPC stream answers
    ext_proc messages with mutations of requests and responses.  The policy may
    refer to facts (inline values, files, URLs refreshed in the background), is
    reloaded on SIGHUP or when its file changes, and every decision is logged with
    sensitive data masked and counted in metrics.

    ** The parts and the files that model them

    - Prelude: errors as values ([result]), run-time panics ([outcome]), 64-bit
      integers, tactics and the hint database [go].
    - GoStrings, GoHttp, GoPath, GoValues: what the code uses of Go's library:
      byte strings, UTF-8, [strings], [strconv], [sort]; [http.Header] with
      canonical keys, query parsing; path cleaning and the routing of ServeMux; the
      dynamic values ([any]) that decoders and CEL exchange.  A map is a [gmap] and
      the order in which Go ranges over it is the class [GoRange]: nothing is
      assumed of it but that it lists every entry once.
    - CelEnv (internal/celenv/env.go): the two environments, the program cache, the
      typed evaluators.  cel-go is the class [CelGo].
    - The functions offered to the expressions.  Net and Url (internal/celenv/net.go):
      CIDR tests and address classes, on GoNet, Go's address parsing and prefixes;
      [parseURL], on Go's [url.Parse].  Glob (strings.go): [glob] and [globAny] with
      the cache of compiled patterns, on GoRegexp, the meaning of the regular
      expressions that globs become.  CelFunctions (http.go, data.go, encoding.go):
      header shortcuts, [parseJSON], [parseYAML], [jsonPath], [sha256Hex] and
      [parseJWTUnverified], on GoEncoding, base64, hexadecimal and SHA-256.
    - Facts (internal/facts/facts.go): declarations, [Start], the refresh goroutines
      as steps, [Stop], [Snapshot].
    - Policy (internal/policy/policy.go): the policy's types, sizes, defaults,
      validation, compilation, [LoadBytes].  Evaluate: the same file's [Evaluate]
      with the projection of a request into CEL variables, and the documented
      semantics as relations.  ExtProc (internal/policy/extproc.go): [EvaluateProc]
      and its specification [proc_spec].
    - CelLibrary: the six libraries of functions as the tables they are in the code,
      each overload with its declared types and its binding; the clock that [now]
      reads is an argument.
    - Log (internal/log/log.go): levels, [Configure] and the console handler.  Slog: the
      JSON handler with the [ReplaceAttr] of [Configure], the level check and the
      helpers.  AccessLog (internal/accesslog/accesslog.go).  ServerLogs: the records
      of both servers on their way through the handlers.
    - GrpcServer (internal/grpcserver/server.go): [Process], one stream as a loop
      over the messages received, the policy loaded anew for each.
    - Metrics (internal/httpserver/metrics.go): [record], as a function and as the
      atomic steps of concurrent calls.  HttpServer (internal/httpserver/server.go):
      [handle], the response writer and the routes.
    - Reload (cmd/main.go): boot, [reload] on a store of configurations shared by
      pointer, and [reload] cut into steps for interleavings.  Lifecycle: the whole
      process after boot, with the SIGHUP loop, the watcher's callbacks, the refresh
      loops, the listeners of both servers (their [Run] and [Stop]) and main's select
      and shutdown, all interleaved.  Main: the command line as Go's flag package reads
      it, [--version], the fatal errors of boot.  System: the process of Lifecycle with
      the requests and streams it is serving; a handler loads the policy in one step
      and evaluates, answers and logs in a later one.
    - ConfigWatch (internal/configwatch/watch.go): the loop with its debounce timer
      on inputs that carry their time.
    - JsonPath (internal/jsonpath/jsonpath.go): [Compile] and [Eval].
    - Instances: one concrete instance of every class (a miniature CEL included)
      and the sample policy on which the theorems are exercised.

    How they interact: main boots a policy with [LoadFile] (Policy, which calls
    CelEnv and Facts), starts its facts and hands one pointer to both servers; the
    servers call [Evaluate] or [EvaluateProc] with a snapshot of the facts, log
    through AccessLog and Log, and count in Metrics; ConfigWatch and SIGHUP call
    [reload], which swaps the pointer and stops the old policy.  The invariant that
    carries from one part to the next is [loaded] (Policy): the servers' theorems
    are proved from it, [LoadBytes] establishes it and reloads keep it.  System puts
    the parts together.  The theorems on a handler or a stream alone treat the records
    it logs as data; those of ServerLogs and System include their rendering.

    ** What the theorems show

    - LoadTheorems: [LoadBytes] only returns valid, completely compiled policies;
      [validate] accepts exactly the declarative [Config_ok]; every variable an
      expression mentions is bound when it is evaluated; the program cache is
      transparent; the life of the facts registry; sizes with units.
    - EvalTheorems: [Evaluate] and [EvaluateProc] never panic on a loaded policy
      and implement the documented semantics; fail-closed; legality of mutations;
      the header projection.
    - ServerTheorems: the contract of the HTTP handler and its enforcement; the
      ext_proc protocol for any stream, body accumulation and overflow, dry run;
      no decision lost under concurrent counting; routes and settings that escape
      the policy.
    - LogTheorems: masking bounds, what is logged of headers and queries, one line
      per record, the effect of [Configure].
    - ReloadTheorems: a reload is all or nothing; both servers always hold one
      started policy through any sequence of reloads; what concurrent and failed
      reloads leave behind.
    - Lifecycle: under any interleaving the HTTP server's policy is never a stopped
      one; after a signal main can always finish, and it leaves no policy running
      that was ever installed; a server that fails ends the process with status 1.
    - System: however traffic, reloads, refreshes and shutdown interleave, every request
      is answered by the policy installed when it came and counted once, every message
      of a stream is answered in order, and no handler panics, unless a policy has a
      setting that validation misses or a header called [time] comes; one such message
      ends the process.
    - Slog, ServerLogs: one line per record whatever it holds, strings read back by a
      JSON reader, and exactly which headers make the JSON handler panic.
    - Main: printed flags are read back; the four ways a start can end.
    - CelLibrary: every overload returns a value of its declared type, and never
      panics, on arguments of its declared types; which representations of lists
      [inCIDR] and [globAny] accept.
    - Net, Url: address and prefix tests agree with the arithmetic of prefixes; a URL
      is taken apart into its parts, and the host reported is never misleading.
    - Glob: globs have their documented meaning, whatever the cache holds.
    - CelFunctions: the shortcuts agree with [http.Header]; malformed documents, paths
      and tokens give empty values; [jsonPath] after [parseJSON] selects what the
      path means; tokens round trip.
    - ConfigWatch, JsonPath: debouncing; totality, round trip, selection.

    ** Bounds and fuel

    Four definitions run on fuel.  The loop of the JSONPath compiler gets
    [len + 3] iterations, proved enough in [Compile_total].  The loop that reads
    an IPv6 address gets nine turns, and [parse6_loop_fuel] shows that more change
    nothing.  Printing a decimal gets as many turns as the number has bits;
    [Atoi_Itoa] reads every number back.  The parser of regular
    expressions gets one turn per rune, each turn taking at least one; the proofs
    about globs go through [parse_items_le], which shows that more turns change
    nothing.  Everything else is structural
    recursion.  Sizes are unbounded except where the code computes with [int] or
    [int64]: there the arithmetic wraps.

    ** Not modelled

    cel-go, yaml.v3, encoding/json, regexp, fsnotify, net/http's listener and gRPC
    are parameters (classes with the documented facts the code relies on), and so is
    what [url.Parse] makes of a host with square brackets, which changed between patch
    releases of Go.  Contexts and timeouts only appear as failing evaluations or
    fetches.  An evaluation is a function of the program and its variables: a call of
    [now] is a fixed reading of the clock during it.  The records one handler logs are
    rendered in one step, under the logger installed at that moment, and the float,
    time and [any] values go through encoding/json and fmt, which are the classes
    [JsonTables] and [FmtTables].  Not modelled: the usage text of the flag package;
    accepting connections and draining them ([Shutdown] and [GracefulStop] always
    return here); the writing of the records of boot, reload and shutdown, which are
    kept as records; [Options.Writer], which is the standard output throughout. *)

From Stdlib Require Export Ascii String ZArith Lia.
From stdpp Require Export prelude strings gmap list sorting fin_maps fin_sets.

#[global] Set Default Proof Using "Type".

Declare Scope go_scope.
Delimit Scope go_scope with go.
#[global] Open Scope string_scope.
#[global] Open Scope list_scope.

(** The empty Go string. *)
Notation "'ε'" := EmptyString : go_scope.
#[global] Open Scope go_scope.

(** ** Errors as values

    A Go function returning [(T, error)] is a function into [result E T], where
    [E] enumerates the errors the function can build. *)
Inductive result (E A : Type) : Type :=
| Ok (a : A)
| Err (e : E).
Arguments Ok {E A} a.
Arguments Err {E A} e.

#[global] Instance result_ret E : MRet (result E) := λ A a, Ok a.
#[global] Instance result_bind E : MBind (result E) := λ A B f r,
  match r with Ok a => f a | Err e => Err e end.

Definition is_ok {E A} (r : result E A) : bool :=
  match r with Ok _ => true | Err _ => false end.

(** [check b e] is the guard [if b { return e }] of a validator. *)
Definition reject {E} (b : bool) (e : E) : result E unit :=
  if b then Err e else Ok ().

(** ** Run-time panics

    Code that can dereference a nil pointer or slice out of range returns an
    [outcome]: [Panic] is the Go run-time panic, which unwinds the handler. *)
Inductive outcome (A : Type) : Type :=
| Ret (a : A)
| Panic.
Arguments Ret {A} a.
Arguments Panic {A}.

#[global] Instance outcome_ret : MRet outcome := λ A a, Ret a.
#[global] Instance outcome_bind : MBind outcome := λ A B f r,
  match r with Ret a => f a | Panic => Panic end.

Definition no_panic {A} (o : outcome A) : Prop := ∃ a, o = Ret a.

(** ** Machine integers

    Go's [int] and [int64] (the service is built for 64-bit targets): values are
    kept in [Z] and every operation that may leave the range wraps. *)
Definition int64_min : Z := (- 2 ^ 63)%Z.
Definition int64_max : Z := (2 ^ 63 - 1)%Z.
Definition int64_ok (z : Z) : Prop := (int64_min ≤ z ≤ int64_max)%Z.
Definition wrap64 (z : Z) : Z := ((z + 2 ^ 63) mod 2 ^ 64 - 2 ^ 63)%Z.
Definition wrapu64 (z : Z) : Z := (z mod 2 ^ 64)%Z.

#[global] Instance int64_ok_dec z : Decision (int64_ok z).
Proof. unfold int64_ok. apply _. Defined.

(** ** Automation *)
Create HintDb go.

(** Case analysis on the boolean tests and matches of a translated body. *)
Ltac go_case :=
  match goal with
  | |- context [if ?b then _ else _] => destruct b eqn:?
  | |- context [match ?x with _ => _ end] => destruct x eqn:?
  end.

Ltac go_case_in H :=
  match type of H with
  | context [if ?b then _ else _] => destruct b eqn:?
  | context [match ?x with _ => _ end] => destruct x eqn:?
  end.

(** Turns the string and boolean tests of the code into propositions. *)
Ltac bool_simpl :=
  repeat match goal with
  | H : (_ =? _)%string = true |- _ => apply String.eqb_eq in H
  | H : (_ =? _)%string = false |- _ => apply String.eqb_neq in H
  | H : andb _ _ = true |- _ => apply andb_true_iff in H as [? ?]
  | H : orb _ _ = false |- _ => apply orb_false_iff in H as [? ?]
  | H : negb _ = true |- _ => apply negb_true_iff in H
  | H : negb _ = false |- _ => apply negb_false_iff in H
  end.

(** ** Lemmas shared by the components *)

Lemma reject_ok {E} b (e : E) u : reject b e = Ok u ↔ b = false.
Proof. destruct u, b; unfold reject; split; congruence. Qed.

Lemma result_bind_ok {E A B} (r : result E A) (f : A → result E B) b :
  (r ≫= f) = Ok b ↔ ∃ a, r = Ok a ∧ f a = Ok b.
Proof. destruct r as [a|e]; cbn; naive_solver. Qed.

Lemma reject_bind_ok {E A} b (e : E) (k : result E A) a :
  (reject b e;; k) = Ok a ↔ b = false ∧ k = Ok a.
Proof. destruct b; cbn; naive_solver. Qed.

Lemma outcome_bind_ret {A B} (r : outcome A) (f : A → outcome B) b :
  (r ≫= f) = Ret b ↔ ∃ a, r = Ret a ∧ f a = Ret b.
Proof. destruct r as [a|]; cbn; naive_solver. Qed.

Lemma existsb_false_iff {A} (p : A → bool) (l : list A) :
  existsb p l = false ↔ ∀ x, x ∈ l → p x = false.
Proof.
  rewrite <- not_true_iff_false, existsb_exists. setoid_rewrite <- list_elem_of_In. split.
  - intros Hn x Hx. destruct (p x) eqn:E; [|done]. destruct Hn. eauto.
  - intros Hall (x & Hx & E). by rewrite Hall in E.
Qed.

Lemma no_panic_ret {A} (a : A) : no_panic (Ret a).
Proof. by exists a. Qed.

Lemma no_panic_bind {A B} (r : outcome A) (f : A → outcome B) :
  no_panic r → (∀ a, r = Ret a → no_panic (f a)) → no_panic (r ≫= f).
Proof. intros [a ->] Hf. cbn. by apply Hf. Qed.

#[export] Hint Resolve no_panic_ret no_panic_bind : go.

Lemma wrap64_id z : int64_ok z → wrap64 z = z.
Proof.
  unfold int64_ok, int64_min, int64_max, wrap64. intros [? ?].
  rewrite Z.mod_small; lia.
Qed.

Lemma wrap64_ok z : int64_ok (wrap64 z).
Proof.
  unfold int64_ok, int64_min, int64_max, wrap64.
  pose proof (Z.mod_pos_bound (z + 2 ^ 63) (2 ^ 64)). lia.
Qed.

#[export] Hint Resolve wrap64_ok wrap64_id : go.
