(* ===== verification/GoStrings.v ===== *)
(** * Go's standard library: strings, utf8, strconv

    The functions of Go's standard library that the program calls on strings.  A
    Go string (and a byte slice) is a sequence of bytes, modelled by [string],
    whose characters are the 256 bytes; [string(b)] and [[]byte(s)] are then the
    identity.  Case folding needs Unicode's tables, which are data of the Go
    distribution: above the ASCII range the lower-case mapping is the parameter
    [unicode_lower] of the class [UnicodeTables], and [strconv.Quote] consults
    [unicode_print]. *)

From S2P Require Import Prelude.
Local Open Scope Z_scope.

#[global] Arguments String.append !s1 s2 / : simpl nomatch, rename.

(** ** Bytes *)

Definition byteZ (c : ascii) : Z := Z.of_N (N_of_ascii c).
Definition chr (z : Z) : ascii := ascii_of_N (Z.to_N z).
Definition len (s : string) : Z := Z.of_nat (String.length s).

Fixpoint str_take (n : nat) (s : string) : string :=
  match n, s with
  | S n', String c s' => String c (str_take n' s')
  | _, _ => ε
  end.

Fixpoint str_drop (n : nat) (s : string) : string :=
  match n, s with
  | S n', String _ s' => str_drop n' s'
  | _, _ => s
  end.

Fixpoint str_concat (l : list string) : string :=
  match l with [] => ε | s :: l' => s +:+ str_concat l' end.

Fixpoint str_map (f : ascii → ascii) (s : string) : string :=
  match s with ε => ε | String c s' => String (f c) (str_map f s') end.

Fixpoint str_forall (p : ascii → bool) (s : string) : bool :=
  match s with ε => true | String c s' => p c && str_forall p s' end.

Definition str1 (c : ascii) : string := String c ε.

(** [strings.Repeat]. *)
Fixpoint Repeat (s : string) (n : nat) : string :=
  match n with O => ε | S n' => s +:+ Repeat s n' end.

(** ** Searching and splitting *)

(** [strings.IndexByte]; [None] is Go's [-1]. *)
Fixpoint IndexByte (s : string) (c : ascii) : option nat :=
  match s with
  | ε => None
  | String d s' => if Ascii.eqb d c then Some O else S <$> IndexByte s' c
  end.

Fixpoint LastIndexByte (s : string) (c : ascii) : option nat :=
  match s with
  | ε => None
  | String d s' =>
      match LastIndexByte s' c with
      | Some i => Some (S i)
      | None => if Ascii.eqb d c then Some O else None
      end
  end.

Definition ContainsByte (s : string) (c : ascii) : bool :=
  match IndexByte s c with Some _ => true | None => false end.

Definition HasPrefix (s pre : string) : bool := String.prefix pre s.

Definition HasSuffix (s suf : string) : bool :=
  (String.length suf <=? String.length s)%nat &&
  String.eqb (str_drop (String.length s - String.length suf) s) suf.

Definition TrimPrefix (s pre : string) : string :=
  if HasPrefix s pre then str_drop (String.length pre) s else s.

(** [strings.Split] and [strings.Join] for a one-byte separator. *)
Fixpoint Split (s : string) (c : ascii) : list string :=
  match s with
  | ε => [ε]
  | String d s' =>
      if Ascii.eqb d c then ε :: Split s' c
      else match Split s' c with
           | p :: ps => String d p :: ps
           | [] => [str1 d]
           end
  end.

Fixpoint Join (l : list string) (sep : string) : string :=
  match l with
  | [] => ε
  | [s] => s
  | s :: l' => s +:+ sep +:+ Join l' sep
  end.

(** [strings.Cut] around the first occurrence of a byte. *)
Definition Cut (s : string) (c : ascii) : string * string :=
  match IndexByte s c with
  | Some i => (str_take i s, str_drop (S i) s)
  | None => (s, ε)
  end.

(** ** UTF-8 *)

Definition in_range (lo hi x : Z) : bool := (lo <=? x) && (x <=? hi).

Definition RuneError : Z := 65533.

(** [utf8.DecodeRuneInString]: the first rune and its width in bytes; an invalid
    encoding is [RuneError] of width one. *)
Definition decode_rune (s : string) : Z * nat :=
  match s with
  | ε => (RuneError, O)
  | String c0 s1 =>
    let b0 := byteZ c0 in
    if b0 <? 128 then (b0, 1%nat)
    else match s1 with
    | ε => (RuneError, 1%nat)
    | String c1 s2 =>
      let b1 := byteZ c1 in
      if in_range 194 223 b0 then
        if in_range 128 191 b1
        then ((b0 - 192) * 64 + (b1 - 128), 2%nat) else (RuneError, 1%nat)
      else match s2 with
      | ε => (RuneError, 1%nat)
      | String c2 s3 =>
        let b2 := byteZ c2 in
        if in_range 224 239 b0 then
          let lo := if b0 =? 224 then 160 else 128 in
          let hi := if b0 =? 237 then 159 else 191 in
          if in_range lo hi b1 && in_range 128 191 b2
          then ((b0 - 224) * 4096 + (b1 - 128) * 64 + (b2 - 128), 3%nat)
          else (RuneError, 1%nat)
        else match s3 with
        | ε => (RuneError, 1%nat)
        | String c3 _ =>
          let b3 := byteZ c3 in
          if in_range 240 244 b0 then
            let lo := if b0 =? 240 then 144 else 128 in
            let hi := if b0 =? 244 then 143 else 191 in
            if in_range lo hi b1 && in_range 128 191 b2 && in_range 128 191 b3
            then ((b0 - 240) * 262144 + (b1 - 128) * 4096 + (b2 - 128) * 64 +
                  (b3 - 128), 4%nat)
            else (RuneError, 1%nat)
          else (RuneError, 1%nat)
        end
      end
    end
  end.

(** The runes a [range] loop over a string sees, each with the bytes it was
    decoded from; [k] bytes are still to be skipped. *)
Fixpoint runes_from (k : nat) (s : string) : list (Z * string) :=
  match s with
  | ε => []
  | String _ s' =>
      match k with
      | S k' => runes_from k' s'
      | O => let rw := decode_rune s in
             (rw.1, str_take rw.2 s) :: runes_from (rw.2 - 1) s'
      end
  end.

Definition runes (s : string) : list (Z * string) := runes_from O s.

(** [utf8.AppendRune]. *)
Definition encode_rune (r : Z) : string :=
  if r <? 128 then str1 (chr r)
  else if r <? 2048 then
    String (chr (192 + r / 64)) (str1 (chr (128 + r mod 64)))
  else
    let r := if in_range 55296 57343 r || (1114111 <? r) then RuneError else r in
    if r <? 65536 then
      String (chr (224 + r / 4096)) (String (chr (128 + (r / 64) mod 64))
        (str1 (chr (128 + r mod 64))))
    else
      String (chr (240 + r / 262144)) (String (chr (128 + (r / 4096) mod 64))
        (String (chr (128 + (r / 64) mod 64)) (str1 (chr (128 + r mod 64))))).

(** [unicode.IsSpace]. *)
Definition IsSpace (r : Z) : bool :=
  in_range 9 13 r || (r =? 32) || (r =? 133) || (r =? 160) || (r =? 5760) ||
  in_range 8192 8202 r || (r =? 8232) || (r =? 8233) || (r =? 8239) ||
  (r =? 8287) || (r =? 12288).

(** Above the ASCII range: the simple lower-case mapping, and the runes
    [strconv.IsPrint] accepts. *)
Class UnicodeTables := {
  unicode_lower : Z → Z;
  unicode_print : Z → bool;
}.

(** [unicode.ToLower]. *)
Definition rune_lower `{UnicodeTables} (r : Z) : Z :=
  if r <? 128 then (if in_range 65 90 r then r + 32 else r) else unicode_lower r.

(** [strings.ToLower] is [strings.Map(unicode.ToLower, s)]; its fast path for
    ASCII strings computes the same bytes. *)
Definition ToLower `{UnicodeTables} (s : string) : string :=
  str_concat (map (λ rc, encode_rune (rune_lower rc.1)) (runes s)).

Fixpoint drop_spaces (l : list (Z * string)) : list (Z * string) :=
  match l with
  | rc :: l' => if IsSpace rc.1 then drop_spaces l' else l
  | [] => []
  end.

(** [strings.TrimSpace]. *)
Definition TrimSpace (s : string) : string :=
  str_concat (map snd (reverse (drop_spaces (reverse (drop_spaces (runes s)))))).

(** ** strconv *)

Definition is_digit (c : ascii) : bool := in_range 48 57 (byteZ c).

Fixpoint digits_val (acc : Z) (s : string) : option Z :=
  match s with
  | ε => Some acc
  | String c s' =>
      if is_digit c then digits_val (acc * 10 + (byteZ c - 48)) s' else None
  end.

(** [strconv.ParseInt(s, 10, 64)] and [strconv.Atoi]: [None] is any of the
    syntax and range errors. *)
Definition ParseInt (s : string) : option Z :=
  let '(neg, ds) :=
    match s with
    | String "-" s' => (true, s')
    | String "+" s' => (false, s')
    | _ => (false, s)
    end in
  if String.eqb ds ε then None
  else match digits_val 0 ds with
       | None => None
       | Some n =>
           let v := if neg : bool then - n else n in
           if bool_decide (int64_ok v) then Some v else None
       end.

Definition Atoi (s : string) : option Z := ParseInt s.

Fixpoint fmt_dec (fuel : nat) (n : Z) (acc : string) : string :=
  match fuel with
  | O => acc
  | S f =>
      if n <? 10 then String (chr (48 + n)) acc
      else fmt_dec f (n / 10) (String (chr (48 + n mod 10)) acc)
  end.

(** [strconv.Itoa] and the verb [%d]: a number below [2^k] has at most [k]
    digits, so the fuel suffices. *)
Definition Itoa (z : Z) : string :=
  let n := Z.abs z in
  let ds := fmt_dec (S (Z.to_nat (Z.log2 n))) n ε in
  if z <? 0 then String "-" ds else ds.

(** ** Ordering *)

(** Go's [<=] on strings: lexicographic on bytes. *)
Definition string_leb (s t : string) : bool :=
  match String.compare s t with Gt => false | _ => true end.

Fixpoint insert_sorted (k : string) (l : list string) : list string :=
  match l with
  | [] => [k]
  | x :: l' => if string_leb k x then k :: l else x :: insert_sorted k l'
  end.

(** [sort.Strings]. *)
Definition sort_Strings (l : list string) : list string := foldr insert_sorted [] l.

(** ** Hexadecimal and quoting *)

Definition hex_digit (z : Z) : ascii := if z <? 10 then chr (48 + z) else chr (87 + z).

(** The last [n] lower-case hexadecimal digits of a number. *)
Fixpoint hex_digits (n : nat) (z : Z) : string :=
  match n with
  | O => ε
  | S n' => String (hex_digit ((z / 16 ^ Z.of_nat n') mod 16)) (hex_digits n' z)
  end.

Definition IsPrint `{UnicodeTables} (r : Z) : bool :=
  if r <? 128 then in_range 32 126 r else unicode_print r.

Definition quote_rune `{UnicodeTables} (rc : Z * string) : string :=
  let '(r, bytes) := rc in
  match bytes with
  | String c ε => if r =? RuneError then "\x" +:+ hex_digits 2 (byteZ c) else
    if (r =? 34) || (r =? 92) then String "\" bytes
    else if IsPrint r then bytes
    else if r =? 7 then "\a" else if r =? 8 then "\b" else if r =? 12 then "\f"
    else if r =? 10 then "\n" else if r =? 13 then "\r" else if r =? 9 then "\t"
    else if r =? 11 then "\v" else "\x" +:+ hex_digits 2 r
  | _ =>
    if IsPrint r then bytes
    else if r <? 65536 then "\u" +:+ hex_digits 4 r else "\U" +:+ hex_digits 8 r
  end.

(** [strconv.Quote] and the verb [%q]. *)
Definition Quote `{UnicodeTables} (s : string) : string :=
  String (chr 34) (str_concat (map quote_rune (runes s)) +:+ str1 (chr 34)).

(** ** Facts *)

Lemma length_append s t : String.length (s +:+ t) = (String.length s + String.length t)%nat.
Proof. induction s as [|c s IH]; cbn; [done|by rewrite IH]. Qed.

Lemma append_nil_r s : s +:+ ε = s.
Proof. induction s as [|c s IH]; cbn; [done|by rewrite IH]. Qed.

Lemma append_assoc s t u : (s +:+ t) +:+ u = s +:+ (t +:+ u).
Proof. induction s as [|c s IH]; cbn; [done|by rewrite IH]. Qed.

Lemma str_take_drop n s : str_take n s +:+ str_drop n s = s.
Proof. revert s. induction n as [|n IH]; intros [|c s]; cbn; try done. by rewrite IH. Qed.

Lemma str_take_all n s : (String.length s ≤ n)%nat → str_take n s = s.
Proof.
  revert s. induction n as [|n IH]; intros [|c s]; cbn; intros; [done|lia|done|].
  rewrite IH; [done|lia].
Qed.

Lemma length_str_take n s : String.length (str_take n s) = Nat.min n (String.length s).
Proof. revert s. induction n as [|n IH]; intros [|c s]; cbn; try done. by rewrite IH. Qed.

Lemma length_str_drop n s : String.length (str_drop n s) = (String.length s - n)%nat.
Proof. revert s. induction n as [|n IH]; intros [|c s]; cbn; try done. Qed.

Lemma str_drop_append s t : str_drop (String.length s) (s +:+ t) = t.
Proof. induction s as [|c s IH]; cbn; [by destruct t|done]. Qed.

Lemma str_take_append s t : str_take (String.length s) (s +:+ t) = s.
Proof. induction s as [|c s IH]; cbn; [by destruct t|by rewrite IH]. Qed.

Lemma length_Repeat c n : String.length (Repeat (str1 c) n) = n.
Proof. induction n as [|n IH]; cbn; [done|by rewrite IH]. Qed.

Lemma str_concat_app l k : str_concat (l ++ k) = str_concat l +:+ str_concat k.
Proof. induction l as [|s l IH]; cbn; [done|by rewrite IH, append_assoc]. Qed.

Lemma str_forall_append p s t : str_forall p (s +:+ t) = str_forall p s && str_forall p t.
Proof. induction s as [|c s IH]; cbn; [done|by rewrite IH, andb_assoc]. Qed.

Create Rewrite HintDb gostr.
#[export] Hint Rewrite length_append append_nil_r str_take_drop length_str_take
  length_str_drop length_Repeat str_concat_app : gostr.

(** *** IndexByte *)

Lemma IndexByte_Some s c i :
  IndexByte s c = Some i →
  s = str_take i s +:+ String c (str_drop (S i) s) ∧ IndexByte (str_take i s) c = None.
Proof.
  revert i. induction s as [|d s IH]; intros i; cbn; [done|].
  destruct (Ascii.eqb_spec d c) as [->|Hne].
  - intros [= <-]. by destruct s.
  - destruct (IndexByte s c) as [j|] eqn:E; [|done]. intros [= <-].
    destruct (IH j eq_refl) as [H1 H2]. split; [exact (f_equal (String d) H1)|].
    cbn. destruct (Ascii.eqb_spec d c); [done|]. by rewrite H2.
Qed.

Lemma IndexByte_append s t c :
  IndexByte (s +:+ t) c =
    match IndexByte s c with
    | Some i => Some i
    | None => (λ j, (String.length s + j)%nat) <$> IndexByte t c
    end.
Proof.
  induction s as [|d s IH]; cbn; [by destruct (IndexByte t c)|].
  destruct (Ascii.eqb d c); [done|]. rewrite IH.
  by destruct (IndexByte s c), (IndexByte t c).
Qed.

Lemma IndexByte_lt s c i : IndexByte s c = Some i → (i < String.length s)%nat.
Proof.
  revert i. induction s as [|d s IH]; intros i; cbn; [done|].
  destruct (Ascii.eqb d c); [intros [= <-]; lia|].
  destruct (IndexByte s c) as [j|]; [|done]. intros [= <-]. specialize (IH j eq_refl). lia.
Qed.

(** *** Split and Join *)

Lemma Split_nonempty s c : Split s c ≠ [].
Proof. destruct s as [|d s]; cbn; [done|]. destruct (Ascii.eqb d c), (Split s c); done. Qed.

Lemma Join_cons s l sep : l ≠ [] → Join (s :: l) sep = s +:+ sep +:+ Join l sep.
Proof. by destruct l. Qed.

(** Joining the parts of a string gives the string back. *)
Lemma Join_Split s c : Join (Split s c) (str1 c) = s.
Proof.
  induction s as [|d s IH]; [done|]. cbn [Split].
  pose proof (Split_nonempty s c) as Hne.
  destruct (Ascii.eqb_spec d c) as [->|].
  - rewrite Join_cons by done. rewrite IH. done.
  - destruct (Split s c) as [|p ps]; [done|]. destruct ps; cbn in *; by rewrite IH.
Qed.

Lemma Split_no_sep s c : IndexByte s c = None → Split s c = [s].
Proof.
  induction s as [|d s IH]; cbn; [done|]. destruct (Ascii.eqb d c); [done|].
  destruct (IndexByte s c); [done|]. intros _. by rewrite IH.
Qed.

Lemma Split_append s c t :
  IndexByte s c = None → Split (s +:+ String c t) c = s :: Split t c.
Proof.
  induction s as [|d s IH]; cbn; [by rewrite Ascii.eqb_refl|].
  destruct (Ascii.eqb d c); [done|]. destruct (IndexByte s c); [done|]. intros _.
  by rewrite IH.
Qed.

(** No part of a split contains the separator. *)
Lemma Split_parts s c : Forall (λ p, IndexByte p c = None) (Split s c).
Proof.
  induction s as [|d s IH]; cbn; [by repeat constructor|].
  destruct (Ascii.eqb d c) eqn:E; [by constructor|].
  destruct (Split s c) as [|p ps]; [by repeat constructor; cbn; rewrite E|].
  apply Forall_cons in IH as [Hp Hps]. constructor; [|done]. cbn. by rewrite E, Hp.
Qed.

(** Splitting a join of separator-free parts gives the parts back. *)
Lemma Split_Join l c :
  l ≠ [] → Forall (λ p, IndexByte p c = None) l → Split (Join l (str1 c)) c = l.
Proof.
  induction l as [|s l IH]; [done|]. intros _ [Hs Hl]%Forall_cons.
  destruct (decide (l = [])) as [->|Hne]; [by apply Split_no_sep|].
  rewrite Join_cons by done. cbn. rewrite Split_append by done. by rewrite IH.
Qed.

(** *** Runes *)

Lemma decode_rune_width s : s ≠ ε → (1 ≤ (decode_rune s).2)%nat.
Proof.
  intros Hs. unfold decode_rune. destruct s as [|c s]; [done|].
  repeat (first [go_case | lia]); cbn; lia.
Qed.

Lemma runes_from_concat k s : str_concat (map snd (runes_from k s)) = str_drop k s.
Proof.
  revert k. induction s as [|c s IH]; intros k; [by destruct k|]. destruct k as [|k]; [|by apply IH].
  cbn [runes_from map str_concat]. rewrite IH.
  pose proof (decode_rune_width (String c s) ltac:(done)) as Hw.
  destruct (decode_rune (String c s)) as [r [|w]]; cbn in *; [lia|].
  by rewrite Nat.sub_0_r, str_take_drop.
Qed.

(** The bytes of the runes are the bytes of the string. *)
Lemma runes_concat s : str_concat (map snd (runes s)) = s.
Proof. unfold runes. rewrite runes_from_concat. by destruct s. Qed.

(** *** ASCII strings *)

Definition is_ascii (s : string) : bool := str_forall (λ c, byteZ c <? 128) s.
Definition ascii_lower (c : ascii) : ascii :=
  if in_range 65 90 (byteZ c) then chr (byteZ c + 32) else c.

Lemma byteZ_range c : 0 ≤ byteZ c < 256.
Proof. unfold byteZ. pose proof (N_ascii_bounded c). lia. Qed.

Lemma chr_byteZ c : chr (byteZ c) = c.
Proof. unfold chr, byteZ. by rewrite N2Z.id, ascii_N_embedding. Qed.

Lemma byteZ_chr z : 0 ≤ z < 256 → byteZ (chr z) = z.
Proof. intros. unfold chr, byteZ. rewrite N_ascii_embedding; lia. Qed.

Lemma runes_ascii s :
  is_ascii s = true → runes s = map (λ c, (byteZ c, str1 c)) (String.list_ascii_of_string s).
Proof.
  unfold runes. induction s as [|c s IH]; [done|]. intros [Hc Hs]%andb_true_iff.
  specialize (IH Hs). unfold runes_from; fold runes_from. unfold decode_rune. rewrite Hc.
  cbn -[runes_from]. by rewrite IH.
Qed.

Lemma ToLower_ascii `{UnicodeTables} s : is_ascii s = true → ToLower s = str_map ascii_lower s.
Proof.
  intros Hs. unfold ToLower. rewrite runes_ascii by done. revert Hs.
  induction s as [|c s IH]; [done|]. intros [Hc Hs]%andb_true_iff.
  cbn [String.list_ascii_of_string map str_concat fst str_map]. rewrite IH by done.
  unfold rune_lower, ascii_lower. rewrite Hc. pose proof (byteZ_range c).
  apply Z.ltb_lt in Hc. unfold encode_rune.
  destruct (in_range 65 90 (byteZ c)) eqn:E; unfold in_range in E.
  - rewrite (proj2 (Z.ltb_lt _ _)) by lia. done.
  - rewrite (proj2 (Z.ltb_lt _ _)) by lia. by rewrite chr_byteZ.
Qed.

Lemma ascii_lower_ascii c : byteZ c < 128 → byteZ (ascii_lower c) < 128.
Proof.
  intros. unfold ascii_lower. destruct (in_range 65 90 (byteZ c)) eqn:E; [|done].
  unfold in_range in E. rewrite byteZ_chr; lia.
Qed.

Lemma ascii_lower_idem c : ascii_lower (ascii_lower c) = ascii_lower c.
Proof.
  unfold ascii_lower at 1. destruct (in_range 65 90 (byteZ (ascii_lower c))) eqn:E; [|done].
  exfalso. unfold ascii_lower in E. pose proof (byteZ_range c).
  destruct (in_range 65 90 (byteZ c)) eqn:E'; unfold in_range in *; [|lia].
  rewrite byteZ_chr in E; lia.
Qed.

Lemma is_ascii_lower s : is_ascii s = true → is_ascii (str_map ascii_lower s) = true.
Proof.
  unfold is_ascii. induction s as [|c s IH]; [done|]. cbn. intros [Hc Hs]%andb_true_iff.
  rewrite IH by done. rewrite andb_true_r. apply Z.ltb_lt, ascii_lower_ascii. by apply Z.ltb_lt.
Qed.

Lemma ToLower_ascii_idem `{UnicodeTables} s :
  is_ascii s = true → ToLower (ToLower s) = ToLower s.
Proof.
  intros Hs. rewrite (ToLower_ascii s) by done.
  rewrite ToLower_ascii by by apply is_ascii_lower.
  clear Hs. induction s as [|c s IH]; cbn; [done|]. by rewrite IH, ascii_lower_idem.
Qed.

#[export] Hint Resolve is_ascii_lower ToLower_ascii ToLower_ascii_idem : go.

(** *** Decimal numbers *)

Lemma digits_val_fmt_dec f n acc :
  0 ≤ n < 2 ^ Z.of_nat f → digits_val 0 (fmt_dec f n acc) = digits_val n acc.
Proof.
  revert n acc. induction f as [|f IH]; intros n acc Hn; [by replace n with 0 by lia|].
  cbn [fmt_dec]. rewrite Nat2Z.inj_succ, Z.pow_succ_r in Hn by lia.
  pose proof (Z.div_mod n 10). pose proof (Z.mod_pos_bound n 10).
  destruct (Z.ltb_spec n 10).
  - cbn [digits_val]. unfold is_digit. rewrite byteZ_chr by lia. unfold in_range.
    rewrite (proj2 (Z.leb_le _ _)), (proj2 (Z.leb_le _ _)) by lia. cbn [andb]. f_equal. lia.
  - rewrite IH by (split; [lia|]; nia).
    cbn [digits_val]. unfold is_digit. rewrite byteZ_chr by lia. unfold in_range.
    rewrite (proj2 (Z.leb_le _ _)), (proj2 (Z.leb_le _ _)) by lia. cbn [andb]. f_equal. lia.
Qed.

Lemma fmt_dec_digit f n acc :
  0 ≤ n → ∃ c s, fmt_dec (S f) n acc = String c s ∧ is_digit c = true.
Proof.
  revert n acc. induction f as [|f IH]; intros n acc Hn; cbn [fmt_dec].
  - pose proof (Z.mod_pos_bound n 10). destruct (Z.ltb_spec n 10);
      eexists _, _; (split; [done|]); unfold is_digit, in_range; rewrite byteZ_chr; lia.
  - destruct (Z.ltb_spec n 10); [|apply IH; apply Z.div_pos; lia].
    eexists _, _; (split; [done|]); unfold is_digit, in_range; rewrite byteZ_chr; lia.
Qed.

(** What holds of the ten digits holds of every byte of a printed number. *)
Lemma fmt_dec_forall (P : ascii → bool) f n acc :
  (∀ d, 0 ≤ d < 10 → P (chr (48 + d)) = true) → 0 ≤ n → str_forall P acc = true →
  str_forall P (fmt_dec f n acc) = true.
Proof.
  intros HP. revert n acc. induction f as [|f IH]; intros n acc Hn Ha; [done|]. cbn [fmt_dec].
  pose proof (Z.mod_pos_bound n 10). destruct (Z.ltb_spec n 10).
  - cbn [str_forall]. by rewrite HP, Ha by lia.
  - apply IH; [apply Z.div_pos; lia|]. cbn [str_forall]. by rewrite HP, Ha by lia.
Qed.

Lemma fmt_dec_digits f n acc :
  0 ≤ n → str_forall is_digit acc = true → str_forall is_digit (fmt_dec f n acc) = true.
Proof.
  apply fmt_dec_forall. intros d Hd. unfold is_digit, in_range. rewrite byteZ_chr by lia. lia.
Qed.

(** [Atoi] reads back what [Itoa] prints. *)
Lemma Atoi_Itoa z : int64_ok z → Atoi (Itoa z) = Some z.
Proof.
  intros Hz. unfold Atoi, ParseInt, Itoa. set (n := Z.abs z).
  destruct (fmt_dec_digit (Z.to_nat (Z.log2 n)) n ε ltac:(lia)) as (c & s & Es & Hc).
  assert (digits_val 0 (String c s) = Some n) as Hd.
  { rewrite <- Es, digits_val_fmt_dec; [done|]. rewrite Nat2Z.inj_succ, Z2Nat.id by apply Z.log2_nonneg.
    split; [lia|]. destruct (decide (n = 0)) as [->|]; [cbn; lia|]. apply Z.log2_spec; lia. }
  rewrite Es. destruct (Z.ltb_spec z 0) as [Hneg|Hpos].
  - cbn [String.eqb]. rewrite Hd. rewrite bool_decide_true by (replace (- n) with z by lia; done).
    f_equal; lia.
  - assert (c ≠ "-"%char ∧ c ≠ "+"%char) as [Hm Hp] by (split; intros ->; cbn in Hc; discriminate).
    assert (∀ (A : Type) (x y w : A),
      match c with "-"%char => x | "+"%char => y | _ => w end = w) as Hsel.
    { intros. by repeat (go_case; try done). }
    replace (match String c s with String "-" s' => (true, s') | String "+" s' => (false, s')
             | _ => (false, String c s) end) with (false, String c s)
      by (cbn; repeat (go_case; try done)).
    cbn [String.eqb]. rewrite Hd. rewrite bool_decide_true by (replace n with z by lia; done).
    f_equal; lia.
Qed.

(** *** Sorting *)

Definition string_le (s t : string) : Prop := string_leb s t = true.

#[global] Instance string_le_dec : RelDecision string_le.
Proof. intros s t. unfold string_le. apply _. Defined.

Lemma ascii_compare_N a b : Ascii.compare a b = N.compare (N_of_ascii a) (N_of_ascii b).
Proof. done. Qed.

Lemma compare_refl s : String.compare s s = Eq.
Proof.
  induction s as [|c s IH]; cbn; [done|]. by rewrite ascii_compare_N, N.compare_refl.
Qed.

#[global] Instance string_le_refl : Reflexive string_le.
Proof. intros s. unfold string_le, string_leb. by rewrite compare_refl. Qed.

Lemma string_compare_cons a s b t :
  String.compare (String a s) (String b t) =
    match N.compare (N_of_ascii a) (N_of_ascii b) with
    | Eq => String.compare s t | c => c end.
Proof. done. Qed.

#[global] Instance string_le_trans : Transitive string_le.
Proof.
  unfold string_le, string_leb. intros s. induction s as [|a s IH]; intros t u.
  { by destruct u. }
  destruct t as [|b t]; [done|]. destruct u as [|c u]; [by intros _|].
  rewrite !string_compare_cons. specialize (IH t u).
  destruct (N.compare_spec (N_of_ascii a) (N_of_ascii b)),
    (N.compare_spec (N_of_ascii b) (N_of_ascii c)),
    (N.compare_spec (N_of_ascii a) (N_of_ascii c)); try done; lia.
Qed.

#[global] Instance string_le_total : Total string_le.
Proof.
  intros s t. unfold string_le, string_leb. rewrite (String.compare_antisym s t).
  destruct (String.compare t s); cbn; auto.
Qed.

#[global] Instance string_le_antisymm : AntiSymm (=) string_le.
Proof.
  intros s t. unfold string_le, string_leb. rewrite (String.compare_antisym s t).
  destruct (String.compare t s) eqn:E; cbn; try done.
  intros _ _. symmetry. by apply String.compare_eq_iff.
Qed.

Lemma insert_sorted_perm k l : insert_sorted k l ≡ₚ k :: l.
Proof.
  induction l as [|x l IH]; cbn; [done|]. destruct (string_leb k x); [done|].
  rewrite IH. apply Permutation_swap.
Qed.

Lemma sort_Strings_perm l : sort_Strings l ≡ₚ l.
Proof. induction l as [|x l IH]; cbn; [done|]. by rewrite insert_sorted_perm, IH. Qed.

Lemma insert_sorted_sorted k l : StronglySorted string_le l → StronglySorted string_le (insert_sorted k l).
Proof.
  induction 1 as [|x l Hl IH Hx]; cbn; [by repeat constructor|].
  destruct (string_leb k x) eqn:E.
  - constructor; [by constructor|]. constructor; [done|].
    eapply Forall_impl; [exact Hx|]. intros y Hy. by transitivity x.
  - constructor; [done|]. rewrite insert_sorted_perm. constructor; [|done].
    destruct (total string_le k x) as [Hle|]; [|done]. unfold string_le in Hle. congruence.
Qed.

Lemma sort_Strings_sorted l : StronglySorted string_le (sort_Strings l).
Proof. induction l as [|x l IH]; cbn; [constructor|]. by apply insert_sorted_sorted. Qed.

(** A sorted list is determined by its elements. *)
Lemma sorted_unique l k :
  StronglySorted string_le l → StronglySorted string_le k → l ≡ₚ k → l = k.
Proof. apply (StronglySorted_unique string_le). Qed.
