(* ===== verification/GoHttp.v ===== *)
(** * Go's standard library: maps, net/http headers, net/url, net.SplitHostPort

    The parts of Go's standard library that the two servers and the access log
    use on requests.  A Go map is a [gmap]; a [range] loop over it visits the
    entries in an order Go leaves unspecified, modelled by the class [GoRange]
    whose only law is that every entry is visited once. *)

From S2P Require Import Prelude GoStrings.
Local Open Scope Z_scope.

(** ** Iteration over maps *)

Class GoRange := {
  range_map : ∀ {K : Type} {HE : EqDecision K} {HC : Countable K} {V : Type},
    gmap K V → list (K * V);
  range_map_perm : ∀ (K : Type) (HE : EqDecision K) (HC : Countable K) (V : Type) (m : gmap K V),
    range_map m ≡ₚ map_to_list m;
}.

(** One admissible order, for running the model. *)
Definition range_in_order : GoRange :=
  {| range_map := λ K HE HC V m, map_to_list m;
     range_map_perm := λ K HE HC V m, Permutation_refl _ |}.

(** ** net/http.Header *)

Abbreviation Header := (gmap string (list string)).

(** The bytes of a token of RFC 7230. *)
Definition validHeaderFieldByte (c : ascii) : bool :=
  let b := byteZ c in
  in_range 48 57 b || in_range 65 90 b || in_range 97 122 b ||
  existsb (Z.eqb b) [33; 35; 36; 37; 38; 39; 42; 43; 45; 46; 94; 95; 96; 124; 126].

Definition ascii_upper (c : ascii) : ascii :=
  if in_range 97 122 (byteZ c) then chr (byteZ c - 32) else c.

Fixpoint canon_from (upper : bool) (s : string) : string :=
  match s with
  | ε => ε
  | String c s' =>
      let c' := if upper then ascii_upper c else ascii_lower c in
      String c' (canon_from (Ascii.eqb c' "-") s')
  end.

Definition valid_token (s : string) : bool := str_forall validHeaderFieldByte s.

(** [textproto.CanonicalMIMEHeaderKey]. *)
Definition CanonicalHeaderKey (s : string) : string :=
  if valid_token s then canon_from true s else s.

Definition header_values (h : Header) (key : string) : list string :=
  default [] (h !! CanonicalHeaderKey key).

Definition Header_Add (h : Header) (key value : string) : Header :=
  <[CanonicalHeaderKey key := header_values h key ++ [value]]> h.

Definition Header_Get (h : Header) (key : string) : string :=
  match header_values h key with v :: _ => v | [] => ε end.

Definition Header_Set (h : Header) (key value : string) : Header :=
  <[CanonicalHeaderKey key := [value]]> h.

(** ** net/url *)

Definition hex_val (c : ascii) : option Z :=
  let b := byteZ c in
  if in_range 48 57 b then Some (b - 48)
  else if in_range 97 102 b then Some (b - 87)
  else if in_range 65 70 b then Some (b - 55)
  else None.

(** [url.QueryUnescape]: [None] is an [EscapeError]. *)
Fixpoint QueryUnescape (s : string) : option string :=
  match s with
  | ε => Some ε
  | String "%" s1 =>
      match s1 with
      | String a (String b s3) =>
          match hex_val a, hex_val b with
          | Some x, Some y => String (chr (16 * x + y)) <$> QueryUnescape s3
          | _, _ => None
          end
      | _ => None
      end
  | String "+" s1 => String " " <$> QueryUnescape s1
  | String c s1 => String c <$> QueryUnescape s1
  end.

(** One iteration of the loop of [url.ParseQuery]; the flag records whether an
    error was met. *)
Definition parse_query_pair (acc : gmap string (list string) * bool) (pair : string) :
    gmap string (list string) * bool :=
  let '(m, bad) := acc in
  if ContainsByte pair ";" then (m, true)
  else if String.eqb pair ε then (m, bad)
  else
    let '(key, value) := Cut pair "=" in
    match QueryUnescape key with
    | None => (m, true)
    | Some key =>
        match QueryUnescape value with
        | None => (m, true)
        | Some value => (<[key := default [] (m !! key) ++ [value]]> m, bad)
        end
    end.

(** [url.ParseQuery]; [None] when it returns an error. *)
Definition ParseQuery (query : string) : option (gmap string (list string)) :=
  let '(m, bad) := foldl parse_query_pair (∅, false) (Split query "&") in
  if bad then None else Some m.

(** ** net.SplitHostPort *)

(** Host and port; [None] is an [AddrError]. *)
Definition SplitHostPort (hostport : string) : option (string * string) :=
  match LastIndexByte hostport ":" with
  | None => None
  | Some i =>
      let port := str_drop (S i) hostport in
      match hostport with
      | String "[" _ =>
          match IndexByte hostport "]" with
          | None => None
          | Some e =>
              if negb (Nat.eqb (S e) i) then None
              else if ContainsByte (str_drop 1 hostport) "[" then None
              else if ContainsByte (str_drop (S e) hostport) "]" then None
              else Some (str_take (e - 1) (str_drop 1 hostport), port)
          end
      | _ =>
          let host := str_take i hostport in
          if ContainsByte host ":" then None
          else if ContainsByte hostport "[" then None
          else if ContainsByte hostport "]" then None
          else Some (host, port)
      end
  end.

(** ** Facts *)

Lemma range_map_lookup `{GoRange, Countable K} {V} (m : gmap K V) k v :
  (k, v) ∈ range_map m ↔ m !! k = Some v.
Proof. rewrite range_map_perm. apply elem_of_map_to_list. Qed.

Lemma range_map_keys_NoDup `{GoRange, Countable K} {V} (m : gmap K V) : NoDup (range_map m).*1.
Proof. rewrite range_map_perm. apply NoDup_fst_map_to_list. Qed.

Lemma length_range_map `{GoRange, Countable K} {V} (m : gmap K V) : length (range_map m) = size m.
Proof. by rewrite range_map_perm, length_map_to_list. Qed.

(** *** Canonical header keys *)

Lemma ascii_upper_lower c : ascii_upper (ascii_lower c) = ascii_upper c.
Proof.
  unfold ascii_upper, ascii_lower. pose proof (byteZ_range c).
  destruct (in_range 65 90 (byteZ c)) eqn:E1; unfold in_range in *; [|done].
  rewrite byteZ_chr by lia.
  replace ((97 <=? byteZ c + 32) && (byteZ c + 32 <=? 122)) with true by lia.
  replace ((97 <=? byteZ c) && (byteZ c <=? 122)) with false by lia.
  replace (byteZ c + 32 - 32) with (byteZ c) by lia. apply chr_byteZ.
Qed.

Lemma ascii_lower_upper c : ascii_lower (ascii_upper c) = ascii_lower c.
Proof.
  unfold ascii_upper, ascii_lower. pose proof (byteZ_range c).
  destruct (in_range 97 122 (byteZ c)) eqn:E1; unfold in_range in *; [|done].
  rewrite byteZ_chr by lia.
  replace ((65 <=? byteZ c - 32) && (byteZ c - 32 <=? 90)) with true by lia.
  replace ((65 <=? byteZ c) && (byteZ c <=? 90)) with false by lia.
  replace (byteZ c - 32 + 32) with (byteZ c) by lia. apply chr_byteZ.
Qed.

Lemma canon_from_lower u s : str_map ascii_lower (canon_from u s) = str_map ascii_lower s.
Proof.
  revert u. induction s as [|c s IH]; intros u; cbn; [done|]. rewrite IH.
  destruct u; [by rewrite ascii_lower_upper|by rewrite ascii_lower_idem].
Qed.

Lemma dash_lower c : Ascii.eqb (ascii_lower c) "-" = Ascii.eqb c "-".
Proof. by destruct c as [[] [] [] [] [] [] [] []]. Qed.

Lemma dash_upper c : Ascii.eqb (ascii_upper c) "-" = Ascii.eqb c "-".
Proof. by destruct c as [[] [] [] [] [] [] [] []]. Qed.

Lemma canon_from_of_lower u s : canon_from u (str_map ascii_lower s) = canon_from u s.
Proof.
  revert u. induction s as [|c s IH]; intros u; cbn; [done|]. destruct u.
  - by rewrite ascii_upper_lower, IH.
  - by rewrite ascii_lower_idem, IH.
Qed.

Lemma valid_byte_lower c : validHeaderFieldByte (ascii_lower c) = validHeaderFieldByte c.
Proof. by destruct c as [[] [] [] [] [] [] [] []]. Qed.

Lemma valid_byte_ascii c : validHeaderFieldByte c = true → (byteZ c <? 128) = true.
Proof. by destruct c as [[] [] [] [] [] [] [] []]. Qed.

Lemma valid_token_lower s : valid_token (str_map ascii_lower s) = valid_token s.
Proof.
  unfold valid_token. induction s as [|c s IH]; cbn; [done|].
  by rewrite valid_byte_lower, IH.
Qed.

Lemma valid_token_ascii s : valid_token s = true → is_ascii s = true.
Proof.
  unfold valid_token, is_ascii. induction s as [|c s IH]; cbn; [done|].
  intros [Hc Hs]%andb_true_iff. rewrite IH by done. by rewrite valid_byte_ascii.
Qed.

Lemma valid_token_canon s : valid_token s = true → valid_token (CanonicalHeaderKey s) = true.
Proof.
  intros Hs. unfold CanonicalHeaderKey. rewrite Hs.
  by rewrite <- valid_token_lower, canon_from_lower, valid_token_lower.
Qed.

(** Lower-casing a canonical key gives the lower-cased original back. *)
Lemma ToLower_Canonical `{UnicodeTables} s :
  valid_token s = true → ToLower (CanonicalHeaderKey s) = ToLower s.
Proof.
  intros Hs. rewrite !ToLower_ascii by auto using valid_token_ascii, valid_token_canon.
  unfold CanonicalHeaderKey. by rewrite Hs, canon_from_lower.
Qed.

(** Two tokens name the same header exactly when they agree up to case. *)
Lemma Canonical_eq `{UnicodeTables} s t :
  valid_token s = true → valid_token t = true →
  CanonicalHeaderKey s = CanonicalHeaderKey t ↔ ToLower s = ToLower t.
Proof.
  intros Hs Ht. split.
  - intros E. by rewrite <- (ToLower_Canonical s), <- (ToLower_Canonical t), E.
  - intros E. rewrite !ToLower_ascii in E by auto using valid_token_ascii.
    unfold CanonicalHeaderKey. rewrite Hs, Ht.
    by rewrite <- (canon_from_of_lower true s), E, canon_from_of_lower.
Qed.

Lemma Canonical_idem s : CanonicalHeaderKey (CanonicalHeaderKey s) = CanonicalHeaderKey s.
Proof.
  destruct (valid_token s) eqn:Hs; [|unfold CanonicalHeaderKey; by rewrite Hs, Hs].
  pose proof (valid_token_canon s Hs) as Hv. unfold CanonicalHeaderKey at 1. rewrite Hv.
  unfold CanonicalHeaderKey. rewrite Hs.
  by rewrite <- (canon_from_of_lower true (canon_from true s)), canon_from_lower, canon_from_of_lower.
Qed.

(** *** Header maps *)

(** Every key of a header map is a canonical token: what [Header.Add] and the
    HTTP server build for well-formed header names. *)
Definition header_wf (h : Header) : Prop :=
  map_Forall (λ k _, valid_token k = true ∧ CanonicalHeaderKey k = k) h.

Lemma header_wf_empty : header_wf ∅.
Proof. apply map_Forall_empty. Qed.

Lemma header_wf_Add h k v : valid_token k = true → header_wf h → header_wf (Header_Add h k v).
Proof.
  intros Hk Hh. apply map_Forall_insert_2; [|done].
  split; [by apply valid_token_canon|apply Canonical_idem].
Qed.

#[export] Hint Resolve header_wf_empty header_wf_Add : go.

Lemma header_values_Add h k v k' :
  header_values (Header_Add h k v) k' =
    if bool_decide (CanonicalHeaderKey k = CanonicalHeaderKey k')
    then header_values h k' ++ [v] else header_values h k'.
Proof.
  unfold Header_Add, header_values at 1. case_bool_decide as E.
  - rewrite <- E, lookup_insert_eq. cbn. unfold header_values. by rewrite E.
  - by rewrite lookup_insert_ne.
Qed.

Lemma Header_Get_Set h k v : Header_Get (Header_Set h k v) k = v.
Proof. unfold Header_Get, header_values, Header_Set. by rewrite lookup_insert_eq. Qed.
