(* ===== verification/GoValues.v ===== *)
(** * Dynamic Go values

    The values of Go type [any] that flow between the decoders, the facts
    registry and CEL.  A [map[string]any] is the list of its entries in the order
    a [range] loop would visit them, so that two lists that are permutations of
    each other are the same Go map; [gval_wf] says that the keys are distinct. *)

From Stdlib Require Import SpecFloat.
From S2P Require Import Prelude GoStrings.

#[warnings="-register-all"]
Inductive gval : Type :=
| GNil
| GBool (b : bool)
| GInt (z : Z)                                  (** [int] *)
| GInt32 (z : Z)
| GInt64 (z : Z)
| GFloat (f : spec_float)                       (** [float64] *)
| GString (s : string)
| GStrings (l : list string)                    (** [[]string] *)
| GList (l : list gval)                         (** [[]any] *)
| GRefList (l : list gval)                      (** [[]ref.Val], each by its [Value()] *)
| GMap (m : list (string * gval))               (** [map[string]any] *)
| GMapStrings (m : gmap string (list string))   (** [map[string][]string] *)
| GMapString (m : gmap string string)           (** [map[string]string] *)
| GMapAny (m : list (gval * gval))              (** [map[any]any] *)
| GRefMap (m : list (gval * gval))              (** [map[ref.Val]ref.Val] *)
| GOpaque (go_type : string).                   (** any other dynamic type *)

(** The induction principle with hypotheses for the elements of lists and maps. *)
Section gval_rec.
Context (P : gval → Prop).
Context (Hatom : ∀ v,
  match v with GList _ | GRefList _ | GMap _ | GMapAny _ | GRefMap _ => True | _ => P v end).
Context (HGList : ∀ l, Forall P l → P (GList l)).
Context (HGRefList : ∀ l, Forall P l → P (GRefList l)).
Context (HGMap : ∀ m, Forall (λ kv, P kv.2) m → P (GMap m)).
Context (HGMapAny : ∀ m, Forall (λ kv, P kv.1 ∧ P kv.2) m → P (GMapAny m)).
Context (HGRefMap : ∀ m, Forall (λ kv, P kv.1 ∧ P kv.2) m → P (GRefMap m)).

Fixpoint gval_ind' (v : gval) : P v :=
  let list_ind := fix go (l : list gval) : Forall P l :=
    match l with
    | [] => Forall_nil_2 _
    | x :: l' => Forall_cons_2 _ _ _ (gval_ind' x) (go l')
    end in
  let pairs_ind := fix go (m : list (gval * gval)) : Forall (λ kv, P kv.1 ∧ P kv.2) m :=
    match m with
    | [] => Forall_nil_2 _
    | kv :: m' => Forall_cons_2 _ _ _ (conj (gval_ind' kv.1) (gval_ind' kv.2)) (go m')
    end in
  match v as v return
    (match v with GList _ | GRefList _ | GMap _ | GMapAny _ | GRefMap _ => True | _ => P v end → P v)
  with
  | GList l => λ _, HGList l (list_ind l)
  | GRefList l => λ _, HGRefList l (list_ind l)
  | GMap m => λ _, HGMap m
      ((fix go (m : list (string * gval)) : Forall (λ kv, P kv.2) m :=
        match m with
        | [] => Forall_nil_2 _
        | kv :: m' => Forall_cons_2 _ _ _ (gval_ind' kv.2) (go m')
        end) m)
  | GMapAny m => λ _, HGMapAny m (pairs_ind m)
  | GRefMap m => λ _, HGRefMap m (pairs_ind m)
  | _ => λ H, H
  end (Hatom v).
End gval_rec.

(** [m[k]] for a [map[string]any]. *)
Fixpoint map_get {V} (m : list (string * V)) (k : string) : option V :=
  match m with
  | [] => None
  | (k', v) :: m' => if String.eqb k' k then Some v else map_get m' k
  end.

(** [m[k] = v]: overwrites the entry of an existing key, adds a new one. *)
Fixpoint map_set {V} (m : list (string * V)) (k : string) (v : V) : list (string * V) :=
  match m with
  | [] => [(k, v)]
  | (k', v') :: m' => if String.eqb k' k then (k', v) :: m' else (k', v') :: map_set m' k v
  end.

(** The keys of every [map[string]any] inside the value are distinct. *)
Fixpoint gval_wf (v : gval) : Prop :=
  match v with
  | GList l | GRefList l =>
      (fix go l := match l with [] => True | x :: l' => gval_wf x ∧ go l' end) l
  | GMap m =>
      NoDup m.*1 ∧
      (fix go (m : list (string * gval)) :=
         match m with [] => True | kv :: m' => gval_wf kv.2 ∧ go m' end) m
  | GMapAny m | GRefMap m =>
      (fix go (m : list (gval * gval)) :=
         match m with [] => True | kv :: m' => gval_wf kv.1 ∧ gval_wf kv.2 ∧ go m' end) m
  | _ => True
  end.

(** The verb [%T]. *)
Definition go_type_name (v : gval) : string :=
  match v with
  | GNil => "<nil>"
  | GBool _ => "bool"
  | GInt _ => "int"
  | GInt32 _ => "int32"
  | GInt64 _ => "int64"
  | GFloat _ => "float64"
  | GString _ => "string"
  | GStrings _ => "[]string"
  | GList _ => "[]interface {}"
  | GRefList _ => "[]ref.Val"
  | GMap _ => "map[string]interface {}"
  | GMapStrings _ => "map[string][]string"
  | GMapString _ => "map[string]string"
  | GMapAny _ => "map[interface {}]interface {}"
  | GRefMap _ => "map[ref.Val]ref.Val"
  | GOpaque t => t
  end.

(** [v.(string)]. *)
Definition as_string (v : gval) : option string :=
  match v with GString s => Some s | _ => None end.

(** ** Facts *)

Lemma map_get_set {V} (m : list (string * V)) k k' v :
  map_get (map_set m k v) k' = if String.eqb k k' then Some v else map_get m k'.
Proof.
  induction m as [|[k1 v1] m IH]; cbn; [done|].
  destruct (String.eqb_spec k1 k) as [->|Hne]; cbn; [by destruct (String.eqb k k')|].
  rewrite IH. destruct (String.eqb_spec k1 k') as [->|]; [|done].
  by destruct (String.eqb_spec k k') as [->|].
Qed.

Lemma map_get_Some {V} (m : list (string * V)) k v : map_get m k = Some v → (k, v) ∈ m.
Proof.
  induction m as [|[k1 v1] m IH]; cbn; [done|].
  destruct (String.eqb_spec k1 k) as [->|]; [intros [= ->]; left|intros; right; auto].
Qed.

Lemma map_get_elem {V} (m : list (string * V)) k v :
  NoDup m.*1 → (k, v) ∈ m → map_get m k = Some v.
Proof.
  induction m as [|[k1 v1] m IH]; cbn; [by intros _ ?%elem_of_nil|].
  intros [Hk Hm]%NoDup_cons [[= -> ->]|Hin]%elem_of_cons; [by rewrite String.eqb_refl|].
  destruct (String.eqb_spec k1 k) as [->|]; [|auto].
  destruct Hk. apply list_elem_of_fmap. by exists (k, v).
Qed.

Lemma map_get_None {V} (m : list (string * V)) k : map_get m k = None ↔ k ∉ m.*1.
Proof.
  induction m as [|[k1 v1] m IH]; cbn; [set_solver|].
  destruct (String.eqb_spec k1 k) as [->|]; set_solver.
Qed.

Lemma map_set_keys_NoDup {V} (m : list (string * V)) k v :
  NoDup m.*1 → NoDup (map_set m k v).*1.
Proof.
  assert (∀ m : list (string * V), ∀ x, x ∈ (map_set m k v).*1 → x = k ∨ x ∈ m.*1) as Hin.
  { clear m. intros m x. induction m as [|[k1 v1] m IH]; cbn; [set_solver|].
    destruct (String.eqb_spec k1 k); set_solver. }
  induction m as [|[k1 v1] m IH]; cbn; [intros; apply NoDup_singleton|].
  intros [Hk Hm]%NoDup_cons. destruct (String.eqb_spec k1 k) as [->|]; cbn; constructor; auto.
  intros [->|?]%Hin; auto.
Qed.

(** Lookup does not depend on the order of the entries. *)
Lemma map_get_perm {V} (m m' : list (string * V)) k :
  NoDup m.*1 → m ≡ₚ m' → map_get m k = map_get m' k.
Proof.
  intros Hnd Hp. assert (NoDup m'.*1) as Hnd' by by rewrite <- Hp.
  destruct (map_get m k) as [v|] eqn:E.
  - symmetry. apply map_get_elem; [done|]. rewrite <- Hp. by apply map_get_Some.
  - symmetry. apply map_get_None. rewrite <- Hp. by apply map_get_None.
Qed.
