(* ===== verification/CelEnv.v ===== *)
(** * internal/celenv/env.go: the CEL environments, the program cache, evaluation

    cel-go is not part of the repository: the class [CelGo] lists the entry points
    the code calls, with the two documented facts the proofs use (a program that
    evaluates without error returns a value; a compiled program only mentions
    variables the environment declares).  Everything env.go itself does, the two
    environments, the cache and the conversions of results, is defined here. *)

From S2P Require Import Prelude GoStrings GoHttp GoValues.

(** ** cel-go *)

Inductive cel_type : Type :=
| BoolType
| StringType
| IntType
| DynType
| TimestampType
| ListType (elem : cel_type)
| MapType (key value : cel_type)
| OtherType (name : string).

#[global] Instance cel_type_eq_dec : EqDecision cel_type.
Proof. solve_decision. Defined.

Inductive cel_option : Type :=
| cel_Variable (name : string) (t : cel_type)
| cel_Lib (name : string).

(** A [ref.Val]: the result types the code switches on, the instants that [now]
    returns (in nanoseconds), and any other value through its [Value()]. *)
Inductive refval : Type :=
| types_Bool (b : bool)
| types_String (s : string)
| types_Int (z : Z)
| types_Timestamp (ns : Z)
| ref_other (native : gval).

Definition Value (v : refval) : gval :=
  match v with
  | types_Bool b => GBool b
  | types_String s => GString s
  | types_Int z => GInt64 z
  | types_Timestamp _ => GOpaque "time.Time"
  | ref_other n => n
  end.

Definition declared (opts : list cel_option) : list string :=
  omap (λ o, match o with cel_Variable x _ => Some x | cel_Lib _ => None end) opts.

Class CelGo := {
  cel_Env : Type;
  cel_Ast : Type;
  Program : Type;
  cel_NewEnv : list cel_option → result string cel_Env;
  cel_Compile : cel_Env → string → result string cel_Ast;
  OutputType : cel_Ast → cel_type;
  cel_Program : cel_Env → cel_Ast → result string Program;
  (** the result interface may be nil, hence the [option] *)
  ContextEval : Program → gmap string gval → result string (option refval);
  prog_vars : Program → list string;
  ContextEval_non_nil : ∀ p vars, ContextEval p vars ≠ Ok None;
  cel_Compile_scoped : ∀ opts env src ast p,
    cel_NewEnv opts = Ok env → cel_Compile env src = Ok ast → cel_Program env ast = Ok p →
    prog_vars p ⊆ declared opts;
}.

(** ** Scopes and the environment *)

Inductive Scope : Type := ScopeRequest | ScopeResponse.

#[global] Instance Scope_eq_dec : EqDecision Scope.
Proof. solve_decision. Defined.

#[global] Instance Scope_countable : Countable Scope.
Proof.
  refine (inj_countable' (λ s, match s with ScopeRequest => true | ScopeResponse => false end)
    (λ b : bool, if b then ScopeRequest else ScopeResponse) _).
  by intros [].
Defined.

Record cacheKey := mkCacheKey { ck_scope : Scope; ck_kind : string; ck_src : string }.

#[global] Instance cacheKey_eq_dec : EqDecision cacheKey.
Proof. solve_decision. Defined.

#[global] Instance cacheKey_countable : Countable cacheKey.
Proof.
  refine (inj_countable' (λ k, (ck_scope k, ck_kind k, ck_src k))
    (λ t, mkCacheKey t.1.1 t.1.2 t.2) _).
  by intros [].
Defined.

Inductive celenv_error : Type :=
| ErrBuildEnv (scope : Scope) (err : string)
| ErrCompile (src : string) (scope : Scope) (err : string)
| ErrReturnType (expected got : cel_type) (src : string)
| ErrProgram (src : string) (err : string).

Section celenv.
Context `{CelGo, UnicodeTables, GoRange}.

Record Env := mkEnv {
  requestEnv : cel_Env;
  responseEnv : cel_Env;
  cache : gmap cacheKey Program;
}.

Definition commonOpts : list cel_option :=
  map cel_Lib ["ext.Strings"; "ext.Encoders"; "ext.Lists"; "ext.Sets"; "ext.Math";
    "ext.Bindings"; "rv.net"; "rv.strings"; "rv.encoding"; "rv.time"; "rv.data"; "rv.http"].

Definition reqOpts : list cel_option :=
  [cel_Variable "request" DynType; cel_Variable "facts" DynType] ++ commonOpts.

Definition respOpts : list cel_option :=
  [cel_Variable "request" DynType; cel_Variable "response" DynType;
   cel_Variable "facts" DynType] ++ commonOpts.

(** [celenv.New]. *)
Definition celenv_New : result celenv_error Env :=
  match cel_NewEnv reqOpts with
  | Err err => Err (ErrBuildEnv ScopeRequest err)
  | Ok reqEnv =>
      match cel_NewEnv respOpts with
      | Err err => Err (ErrBuildEnv ScopeResponse err)
      | Ok respEnv => Ok (mkEnv reqEnv respEnv ∅)
      end
  end.

Definition envForScope (e : Env) (scope : Scope) : cel_Env :=
  match scope with ScopeRequest => requestEnv e | ScopeResponse => responseEnv e end.

Definition cache_store (e : Env) (k : cacheKey) (p : Program) : Env :=
  mkEnv (requestEnv e) (responseEnv e) (<[k := p]> (cache e)).

(** The body of [Env.compile] past the cache lookup. *)
Definition compile_uncached (e : Env) (src : string) (scope : Scope) (expectedType : cel_type) :
    result celenv_error Program :=
  let cenv := envForScope e scope in
  match cel_Compile cenv src with
  | Err err => Err (ErrCompile src scope err)
  | Ok ast =>
      let t := OutputType ast in
      if bool_decide (t ≠ expectedType) && bool_decide (t ≠ DynType)
      then Err (ErrReturnType expectedType t src)
      else match cel_Program cenv ast with
           | Err err => Err (ErrProgram src err)
           | Ok prog => Ok prog
           end
  end.

(** [Env.compile]: the cache is read first and written on success. *)
Definition Env_compile (e : Env) (src : string) (scope : Scope) (kind : string)
    (expectedType : cel_type) : result celenv_error (Program * Env) :=
  let key := mkCacheKey scope kind src in
  match cache e !! key with
  | Some p => Ok (p, e)
  | None =>
      match compile_uncached e src scope expectedType with
      | Err err => Err err
      | Ok prog => Ok (prog, cache_store e key prog)
      end
  end.

Definition Compile (e : Env) (src : string) (scope : Scope) :=
  Env_compile e src scope "bool" BoolType.
Definition CompileString (e : Env) (src : string) (scope : Scope) :=
  Env_compile e src scope "string" StringType.
Definition CompileInt (e : Env) (src : string) (scope : Scope) :=
  Env_compile e src scope "int" IntType.
Definition CompileStringMap (e : Env) (src : string) (scope : Scope) :=
  Env_compile e src scope "stringmap" (MapType StringType StringType).

(** ** Evaluation

    A program field that was never compiled is a nil interface ([None]): calling
    [ContextEval] on it panics, and so does reading the value of a nil result. *)

Definition govars := option (gmap string gval).

Definition run (prog : option Program) (vars : govars) : outcome (result string (option refval)) :=
  match prog with
  | None => Panic
  | Some p => Ret (ContextEval p (default ∅ vars))
  end.

(** [celenv.Eval]. *)
Definition EvalBool (prog : option Program) (vars : govars) : outcome (result string bool) :=
  r ← run prog vars;
  match r with
  | Err err => Ret (Err err)
  | Ok None => Panic
  | Ok (Some (types_Bool v)) => Ret (Ok v)
  | Ok (Some out) =>
      match Value out with
      | GBool b => Ret (Ok b)
      | v => Ret (Err ("expression did not evaluate to a bool, got " +:+ go_type_name v))
      end
  end.

Definition EvalString (prog : option Program) (vars : govars) : outcome (result string string) :=
  r ← run prog vars;
  match r with
  | Err err => Ret (Err err)
  | Ok None => Panic
  | Ok (Some (types_String v)) => Ret (Ok v)
  | Ok (Some out) =>
      match Value out with
      | GString s => Ret (Ok s)
      | v => Ret (Err ("expression did not evaluate to a string, got " +:+ go_type_name v))
      end
  end.

Definition EvalInt (prog : option Program) (vars : govars) : outcome (result string Z) :=
  r ← run prog vars;
  match r with
  | Err err => Ret (Err err)
  | Ok None => Panic
  | Ok (Some (types_Int v)) => Ret (Ok v)
  | Ok (Some out) =>
      match Value out with
      | GInt64 z | GInt z | GInt32 z => Ret (Ok z)
      | v => Ret (Err ("expression did not evaluate to an int, got " +:+ go_type_name v))
      end
  end.

(** The entries [reflect.Value.MapRange] yields; [None] when the kind is not a map. *)
Definition map_entries (v : gval) : option (list (gval * gval)) :=
  match v with
  | GMap m => Some (map (λ kv, (GString kv.1, kv.2)) m)
  | GMapStrings m => Some (map (λ kv, (GString kv.1, GStrings kv.2)) (range_map m))
  | GMapString m => Some (map (λ kv, (GString kv.1, GString kv.2)) (range_map m))
  | GMapAny m | GRefMap m => Some m
  | _ => None
  end.

(** The loop of [EvalStringMap] over the entries of the result. *)
Fixpoint string_entries (l : list (gval * gval)) (res : gmap string string) :
    result string (gmap string string) :=
  match l with
  | [] => Ok res
  | (k, v) :: l' =>
      match k with
      | GString kStr =>
          match v with
          | GString vStr => string_entries l' (<[kStr := vStr]> res)
          | _ => Err ("directResponse headers must be map<string,string>, value for key " +:+
                      Quote kStr +:+ " is " +:+ go_type_name v)
          end
      | _ => Err ("directResponse headers must be map<string,string>, key is not a string (got " +:+
                  go_type_name k +:+ ")")
      end
  end.

Definition EvalStringMap (prog : option Program) (vars : govars) :
    outcome (result string (gmap string string)) :=
  r ← run prog vars;
  match r with
  | Err err => Ret (Err err)
  | Ok None => Ret (Err "expression evaluated to nil")
  | Ok (Some out) =>
      match Value out with
      | GNil => Ret (Err "expression evaluated to a nil value")
      | val =>
          match map_entries val with
          | None => Ret (Err ("expression did not evaluate to a map, got " +:+ go_type_name val))
          | Some l => Ret (string_entries l ∅)
          end
      end
  end.

(** ** Correctness of the cache *)

(** The result type each kind of expression is compiled for. *)
Definition kind_type (kind : string) : cel_type :=
  if String.eqb kind "bool" then BoolType
  else if String.eqb kind "string" then StringType
  else if String.eqb kind "int" then IntType
  else MapType StringType StringType.

(** Every cached program is what compiling its key gives. *)
Definition cache_coherent (e : Env) : Prop :=
  map_Forall (λ k p,
    compile_uncached e (ck_src k) (ck_scope k) (kind_type (ck_kind k)) = Ok p) (cache e).

Lemma celenv_New_coherent e : celenv_New = Ok e → cache_coherent e.
Proof.
  unfold celenv_New. repeat (go_case; [|done]). intros [= <-]. apply map_Forall_empty.
Qed.

Lemma compile_uncached_store e k p src scope t :
  compile_uncached (cache_store e k p) src scope t = compile_uncached e src scope t.
Proof. by destruct scope. Qed.

Lemma Env_compile_coherent e src scope kind p e' :
  cache_coherent e → Env_compile e src scope kind (kind_type kind) = Ok (p, e') →
  compile_uncached e src scope (kind_type kind) = Ok p ∧ cache_coherent e' ∧
  requestEnv e' = requestEnv e ∧ responseEnv e' = responseEnv e.
Proof.
  unfold Env_compile. intros Hc. destruct (cache e !! _) as [q|] eqn:E.
  - intros [= -> ->]. split; [|done]. exact (Hc _ _ E).
  - destruct (compile_uncached e src scope (kind_type kind)) as [q|] eqn:Eq; [|done].
    intros [= <- <-]. repeat split. intros k' p'. cbn.
    rewrite lookup_insert_Some. rewrite compile_uncached_store.
    intros [[<- <-]|[_ Hk]]; [done|]. exact (Hc _ _ Hk).
Qed.

Lemma EvalBool_no_panic p vars : no_panic (EvalBool (Some p) vars).
Proof.
  unfold EvalBool. cbn. pose proof (ContextEval_non_nil p (default ∅ vars)).
  repeat (go_case; eauto with go); done.
Qed.

Lemma EvalString_no_panic p vars : no_panic (EvalString (Some p) vars).
Proof.
  unfold EvalString. cbn. pose proof (ContextEval_non_nil p (default ∅ vars)).
  repeat (go_case; eauto with go); done.
Qed.

Lemma EvalInt_no_panic p vars : no_panic (EvalInt (Some p) vars).
Proof.
  unfold EvalInt. cbn. pose proof (ContextEval_non_nil p (default ∅ vars)).
  repeat (go_case; eauto with go); done.
Qed.

Lemma EvalStringMap_no_panic p vars : no_panic (EvalStringMap (Some p) vars).
Proof.
  unfold EvalStringMap. cbn. repeat (go_case; eauto with go); done.
Qed.

End celenv.

#[export] Hint Resolve EvalBool_no_panic EvalString_no_panic EvalInt_no_panic
  EvalStringMap_no_panic : go.
