(* ===== verification/Facts.v ===== *)
(** * internal/facts/facts.go: the facts registry

    The declarations, the registry with its entries and refresh goroutines, and
    the operations [New], [Start], [spawnURL], [Stop], [Snapshot], [Names] and
    [fetch].  A goroutine is an element of [procs]; one turn of its loop is a
    transition, so that refreshes, cancellation and exit interleave freely.
    Files and the network are parameters: [ReadFile] and the HTTP client. *)

From S2P Require Import Prelude GoStrings GoHttp GoValues.
Local Open Scope Z_scope.

Record File := mkFile { file_Path : string }.

(** Durations are in nanoseconds. *)
Record URL := mkURL {
  url_Address : string;
  url_Interval : Z;
  url_Timeout : Z;
  url_Headers : gmap string string;
}.

Record Spec := mkSpec {
  spec_Name : string;
  spec_Method : string;
  spec_Value : gval;
  spec_File : option File;
  spec_URL : option URL;
}.

(** [e_value] is the atomic pointer: [None] is nil. *)
Record entry := mkEntry { e_spec : Spec; e_value : option gval }.

Record goroutine := mkGoroutine { g_entry : string; g_cancelled : bool; g_done : bool }.

(** [cancels] holds the cancel functions, each as the index of its goroutine. *)
Record Registry := mkRegistry {
  entries : gmap string entry;
  cancels : list nat;
  procs : list goroutine;
}.

Inductive facts_error : Type :=
| ErrFactMissingName (i : nat)
| ErrFactDuplicate (i : nat) (name : string)
| ErrFactValueExtra (name : string)
| ErrFactFilePath (name : string)
| ErrFactFileExtra (name : string)
| ErrFactURLAddress (name : string)
| ErrFactURLExtra (name : string)
| ErrFactMethod (name method : string)
| ErrFactFileRead (name err : string)
| ErrFactURLFetch (name err : string).

Definition is_nil (v : gval) : bool := match v with GNil => true | _ => false end.
Definition is_some {A} (o : option A) : bool := match o with Some _ => true | None => false end.

Definition minute : Z := 60000000000.
Definition second : Z := 1000000000.

Definition url_defaults (u : URL) : URL :=
  mkURL (url_Address u)
    (if url_Interval u <=? 0 then 10 * minute else url_Interval u)
    (if url_Timeout u <=? 0 then 15 * second else url_Timeout u)
    (url_Headers u).

(** The method switch of [New]; a url spec comes back with its defaults filled in. *)
Definition check_spec (s : Spec) : result facts_error Spec :=
  let name := spec_Name s in
  if String.eqb (spec_Method s) "value" then
    if is_some (spec_File s) || is_some (spec_URL s)
    then Err (ErrFactValueExtra name) else Ok s
  else if String.eqb (spec_Method s) "file" then
    match spec_File s with
    | None => Err (ErrFactFilePath name)
    | Some f =>
        if String.eqb (file_Path f) ε then Err (ErrFactFilePath name)
        else if negb (is_nil (spec_Value s)) || is_some (spec_URL s)
        then Err (ErrFactFileExtra name) else Ok s
    end
  else if String.eqb (spec_Method s) "url" then
    match spec_URL s with
    | None => Err (ErrFactURLAddress name)
    | Some u =>
        if String.eqb (url_Address u) ε then Err (ErrFactURLAddress name)
        else if negb (is_nil (spec_Value s)) || is_some (spec_File s)
        then Err (ErrFactURLExtra name)
        else Ok (mkSpec name (spec_Method s) (spec_Value s) (spec_File s)
                   (Some (url_defaults u)))
    end
  else Err (ErrFactMethod name (spec_Method s)).

Definition new_entry (s : Spec) : entry :=
  mkEntry s (if String.eqb (spec_Method s) "value" then Some (spec_Value s) else None).

Fixpoint New_loop (i : nat) (specs : list Spec) (seen : gset string)
    (es : gmap string entry) : result facts_error (gmap string entry) :=
  match specs with
  | [] => Ok es
  | s :: specs' =>
      if String.eqb (spec_Name s) ε then Err (ErrFactMissingName i)
      else if bool_decide (spec_Name s ∈ seen) then Err (ErrFactDuplicate i (spec_Name s))
      else
        s' ← check_spec s;
        New_loop (S i) specs' ({[spec_Name s]} ∪ seen) (<[spec_Name s := new_entry s']> es)
  end.

(** [facts.New]. *)
Definition facts_New (specs : list Spec) : result facts_error Registry :=
  es ← New_loop O specs ∅ ∅;
  Ok (mkRegistry es [] []).

(** [e.value.Store(&v)]. *)
Definition store_value (r : Registry) (name : string) (v : gval) : Registry :=
  mkRegistry (alter (λ e, mkEntry (e_spec e) (Some v)) name (entries r)) (cancels r) (procs r).

(** [Registry.spawnURL]: registers the cancel function and launches the goroutine. *)
Definition spawnURL (r : Registry) (name : string) : Registry :=
  mkRegistry (entries r) (cancels r ++ [length (procs r)])
    (procs r ++ [mkGoroutine name false false]).

(** ** The outside world *)

(** [resp_body] is what [io.ReadAll(resp.Body)] returns. *)
Record http_response := mkHttpResponse {
  resp_StatusCode : Z;
  resp_Status : string;
  resp_body : result string string;
}.

Class FactsWorld := {
  ReadFile : string → result string string;
  http_NewRequest : string → result string unit;
  http_Do : string → Header → Z → result string http_response;
}.

Section facts.
Context `{GoRange, FactsWorld}.

Definition set_headers (h : Header) (l : list (string * string)) : Header :=
  foldl (λ h kv, Header_Set h kv.1 kv.2) h l.

(** [fetch]: a GET with the configured headers; only a 2xx status is accepted. *)
Definition fetch (u : URL) : result string string :=
  match http_NewRequest (url_Address u) with
  | Err err => Err err
  | Ok _ =>
      let h := set_headers (Header_Set ∅ "User-Agent" "request-validator")
                 (range_map (url_Headers u)) in
      match http_Do (url_Address u) h (url_Timeout u) with
      | Err err => Err err
      | Ok resp =>
          if (resp_StatusCode resp <? 200) || (300 <=? resp_StatusCode resp)
          then Err ("non-2xx response: " +:+ resp_Status resp)
          else resp_body resp
      end
  end.

(** One iteration of the loop of [Start]: a nil [File] or [URL] would panic. *)
Definition start_entry (r : Registry) (name : string) (s : Spec) :
    outcome (Registry * option facts_error) :=
  if String.eqb (spec_Method s) "file" then
    match spec_File s with
    | None => Panic
    | Some f =>
        match ReadFile (file_Path f) with
        | Err err => Ret (r, Some (ErrFactFileRead name err))
        | Ok b => Ret (store_value r name (GString b), None)
        end
    end
  else if String.eqb (spec_Method s) "url" then
    match spec_URL s with
    | None => Panic
    | Some u =>
        match fetch u with
        | Err err => Ret (r, Some (ErrFactURLFetch name err))
        | Ok b => Ret (spawnURL (store_value r name (GString b)) name, None)
        end
    end
  else Ret (r, None).

Fixpoint Start_loop (r : Registry) (l : list (string * entry)) :
    outcome (Registry * option facts_error) :=
  match l with
  | [] => Ret (r, None)
  | (name, e) :: l' =>
      res ← start_entry r name (e_spec e);
      match res with
      | (r', Some err) => Ret (r', Some err)
      | (r', None) => Start_loop r' l'
      end
  end.

(** [Registry.Start]; the registry it leaves behind on failure is returned too. *)
Definition Registry_Start (r : Registry) : outcome (Registry * option facts_error) :=
  Start_loop r (range_map (entries r)).

(** [Registry.Snapshot]. *)
Definition Snapshot (r : Registry) : gmap string gval :=
  (λ e, default GNil (e_value e)) <$> entries r.

(** [Registry.Names]. *)
Definition Names (r : Registry) : list string := (range_map (entries r)).*1.

(** ** The goroutines

    One turn of a refresh loop: the ticker fires and [fetch] returns [res], or the
    context is done and the goroutine returns. *)

Definition refresh (r : Registry) (i : nat) (res : result string string) : option Registry :=
  match procs r !! i with
  | Some p =>
      if g_done p then None
      else match res with
           | Ok b => Some (store_value r (g_entry p) (GString b))
           | Err _ => Some r
           end
  | None => None
  end.

Definition exit_proc (r : Registry) (i : nat) : option Registry :=
  match procs r !! i with
  | Some p =>
      if g_cancelled p && negb (g_done p)
      then Some (mkRegistry (entries r) (cancels r)
                   (<[i := mkGoroutine (g_entry p) true true]> (procs r)))
      else None
  | None => None
  end.

Definition cancel_proc (ps : list goroutine) (i : nat) : list goroutine :=
  alter (λ p, mkGoroutine (g_entry p) true (g_done p)) i ps.

(** [Registry.Stop] up to [wg.Wait]: takes the cancel functions and calls them. *)
Definition Stop_cancel (r : Registry) : Registry :=
  mkRegistry (entries r) [] (foldl cancel_proc (procs r) (cancels r)).

(** [wg.Wait] returns in this state. *)
Definition drained (r : Registry) : Prop := Forall (λ p, g_done p = true) (procs r).

Inductive reg_step : Registry → Registry → Prop :=
| step_refresh r i res r' : refresh r i res = Some r' → reg_step r r'
| step_exit r i r' : exit_proc r i = Some r' → reg_step r r'
| step_stop r : reg_step r (Stop_cancel r).

(** ** Declarative specification of the declarations *)

Definition Spec_ok (s : Spec) : Prop :=
  spec_Name s ≠ ε ∧
  ((spec_Method s = "value" ∧ spec_File s = None ∧ spec_URL s = None) ∨
   (spec_Method s = "file" ∧ spec_Value s = GNil ∧ spec_URL s = None ∧
    ∃ f, spec_File s = Some f ∧ file_Path f ≠ ε) ∨
   (spec_Method s = "url" ∧ spec_Value s = GNil ∧ spec_File s = None ∧
    ∃ u, spec_URL s = Some u ∧ url_Address u ≠ ε)).

Definition Specs_ok (specs : list Spec) : Prop :=
  Forall Spec_ok specs ∧ NoDup (map spec_Name specs).

(** What a registry built by [New] holds for a declaration. *)
Definition Spec_filled (s : Spec) : Spec :=
  mkSpec (spec_Name s) (spec_Method s) (spec_Value s) (spec_File s)
    (if String.eqb (spec_Method s) "url" then url_defaults <$> spec_URL s else spec_URL s).

(** Every live goroutine can still be cancelled through the registry. *)
Definition procs_owned (r : Registry) : Prop :=
  ∀ i p, procs r !! i = Some p → g_cancelled p = false → i ∈ cancels r.

(** Every declared fact has a value. *)
Definition populated (r : Registry) : Prop :=
  map_Forall (λ _ e, is_Some (e_value e)) (entries r).

(** ** Facts about the declarations *)

Lemma check_spec_ok s s' :
  spec_Name s ≠ ε → check_spec s = Ok s' ↔ Spec_ok s ∧ s' = Spec_filled s.
Proof.
  intros Hn. unfold check_spec, Spec_ok, Spec_filled.
  destruct s as [n m v f u]; cbn in *.
  destruct (String.eqb_spec m "value") as [->|]; [destruct f, u; cbn; naive_solver|].
  destruct (String.eqb_spec m "file") as [->|].
  { destruct f as [f|]; cbn; [|naive_solver].
    destruct (String.eqb_spec (file_Path f) ε); [naive_solver|]. destruct v, u; naive_solver. }
  destruct (String.eqb_spec m "url") as [->|]; [|naive_solver].
  destruct u as [u|]; cbn; [|naive_solver].
  destruct (String.eqb_spec (url_Address u) ε); [naive_solver|]. destruct v, f; naive_solver.
Qed.

Definition spec_entries (specs : list Spec) : list (string * entry) :=
  map (λ s, (spec_Name s, new_entry (Spec_filled s))) specs.

Lemma spec_entries_fst specs : (spec_entries specs).*1 = map spec_Name specs.
Proof. unfold spec_entries. induction specs as [|s specs IH]; cbn; [done|by rewrite IH]. Qed.

Lemma New_loop_ok i specs seen es es' :
  New_loop i specs seen es = Ok es' ↔
  Forall Spec_ok specs ∧ NoDup (map spec_Name specs) ∧
  Forall (λ s, spec_Name s ∉ seen) specs ∧
  es' = foldl (λ m kv, <[kv.1 := kv.2]> m) es (spec_entries specs).
Proof.
  revert i seen es. induction specs as [|s specs IH]; intros i seen es; cbn.
  { split; [intros [= <-]; repeat constructor|intros (_&_&_&->); done]. }
  rewrite NoDup_cons, !Forall_cons.
  destruct (String.eqb_spec (spec_Name s) ε) as [He|Hne].
  { split; [done|]. intros ([[? _] _]&_). done. }
  case_bool_decide as Hseen; [split; [done|]; naive_solver|].
  rewrite result_bind_ok. setoid_rewrite (check_spec_ok s _ Hne). setoid_rewrite IH.
  assert (Forall (λ x, spec_Name x ∉ {[spec_Name s]} ∪ seen) specs ↔
          Forall (λ x, spec_Name x ∉ seen) specs ∧ spec_Name s ∉ map spec_Name specs) as Hs.
  { rewrite !Forall_forall. split.
    - intros Hx. split; [set_solver|]. intros (x & Hx1 & Hx2)%list_elem_of_fmap.
      specialize (Hx x Hx2). set_solver.
    - intros [H1 H2] x Hx. apply not_elem_of_union. split; [|by apply H1].
      intros Hx'%elem_of_singleton. apply H2, list_elem_of_fmap. by exists x. }
  setoid_rewrite Hs. naive_solver.
Qed.

Lemma foldl_insert_list_to_map (l : list (string * entry)) (m : gmap string entry) k :
  NoDup l.*1 →
  foldl (λ m kv, <[kv.1 := kv.2]> m) m l !! k =
    match map_get l k with Some e => Some e | None => m !! k end.
Proof.
  revert m. induction l as [|[k1 e1] l IH]; intros m; cbn; [done|].
  intros [Hk Hl]%NoDup_cons. rewrite IH by done.
  destruct (String.eqb_spec k1 k) as [->|].
  - rewrite (proj2 (map_get_None l k)) by done. by rewrite lookup_insert_eq.
  - destruct (map_get l k); [done|]. by rewrite lookup_insert_ne.
Qed.

(** The entries [New] builds: the declared names, each with its filled-in
    declaration. *)
Lemma New_entries specs r k :
  facts_New specs = Ok r → entries r !! k = map_get (spec_entries specs) k.
Proof.
  unfold facts_New. rewrite result_bind_ok. intros (es & Hes & [= <-]).
  apply New_loop_ok in Hes as (_ & Hnd & _ & ->). cbn.
  rewrite foldl_insert_list_to_map by by rewrite spec_entries_fst.
  by destruct (map_get _ _).
Qed.

Lemma New_procs specs r : facts_New specs = Ok r → cancels r = [] ∧ procs r = [].
Proof. unfold facts_New. rewrite result_bind_ok. by intros (es & _ & [= <-]). Qed.

Lemma facts_New_ok specs : (∃ r, facts_New specs = Ok r) ↔ Specs_ok specs.
Proof.
  unfold facts_New. setoid_rewrite result_bind_ok. setoid_rewrite New_loop_ok.
  unfold Specs_ok. split; [naive_solver|].
  intros [H1 H2]. eexists _, _. repeat split; try done. apply Forall_forall; set_solver.
Qed.

(** ** Facts about the runtime *)

(** An entry as [New] leaves it: a complete declaration, with a value exactly for
    the inline method. *)
Definition entry_ok (e : entry) : Prop :=
  (spec_Method (e_spec e) = "value" ∧ is_Some (e_value e)) ∨
  (spec_Method (e_spec e) = "file" ∧ is_Some (spec_File (e_spec e))) ∨
  (spec_Method (e_spec e) = "url" ∧ is_Some (spec_URL (e_spec e))).

Lemma New_entry_ok specs r : facts_New specs = Ok r → map_Forall (λ _, entry_ok) (entries r).
Proof.
  intros Hr k e. rewrite (New_entries _ _ _ Hr). intros Hk%map_get_Some.
  apply list_elem_of_fmap in Hk as (s & [= -> ->] & Hs).
  destruct (proj1 (facts_New_ok specs) (ex_intro _ r Hr)) as [Hok _].
  rewrite Forall_forall in Hok. unfold entry_ok, new_entry, Spec_filled. cbn.
  destruct (Hok s Hs) as [_ [(->&_)|[(->&_&_&f&->&_)|(->&_&_&u&->&_)]]]; cbn; eauto 6.
Qed.

Lemma store_value_lookup r n v k :
  entries (store_value r n v) !! k =
    if bool_decide (n = k) then (λ e, mkEntry (e_spec e) (Some v)) <$> entries r !! k
    else entries r !! k.
Proof.
  unfold store_value. cbn. case_bool_decide as E.
  - subst. by rewrite lookup_alter_eq.
  - by rewrite lookup_alter_ne.
Qed.

Lemma store_value_populated r n v : populated r → populated (store_value r n v).
Proof.
  intros Hp k e. rewrite store_value_lookup. case_bool_decide; [|apply Hp].
  destruct (entries r !! k); [|done]. intros [= <-]. by eexists.
Qed.

(** What one iteration of [Start] does to a complete entry. *)
Lemma start_entry_spec r name e :
  entry_ok e → entries r !! name = Some e →
  ∃ r' err, start_entry r name (e_spec e) = Ret (r', err) ∧
    (procs_owned r → procs_owned r') ∧
    (∀ k, k ≠ name → entries r' !! k = entries r !! k) ∧
    (∃ e', entries r' !! name = Some e' ∧ e_spec e' = e_spec e ∧
           (err = None → is_Some (e_value e'))) ∧
    (Forall (λ p, g_cancelled p = false) (procs r) →
     Forall (λ p, g_cancelled p = false) (procs r')).
Proof.
  intros Hok Hr. unfold start_entry.
  assert (∀ b, ∃ e', entries (store_value r name (GString b)) !! name = Some e' ∧
      e_spec e' = e_spec e ∧ is_Some (e_value e')) as Hst.
  { intros b. rewrite store_value_lookup, bool_decide_true, Hr by done. eexists. eauto. }
  assert (∀ b k, k ≠ name → entries (store_value r name (GString b)) !! k = entries r !! k) as Hoth.
  { intros b k Hk. rewrite store_value_lookup, bool_decide_false by congruence. done. }
  destruct Hok as [[-> Hv]|[[-> [f ->]]|[-> [u ->]]]]; cbn.
  - eexists _, _. split; [done|]. eauto 10.
  - destruct (ReadFile (file_Path f)) as [b|err].
    + destruct (Hst b) as (e' & ? & ? & ?). eexists _, _. split; [done|]. eauto 10.
    + eexists _, _. split; [done|]. repeat split; try done. exists e. repeat split; done.
  - destruct (fetch u) as [b|err].
    + destruct (Hst b) as (e' & ? & ? & ?). eexists _, _. split; [done|]. split_and!; [|exact (Hoth b)|exists e'; done|].
      * intros Hown i p. cbn. rewrite lookup_app_Some, elem_of_app.
        intros [Hi|[Hge Hi]]; [left; eauto|]. apply list_lookup_singleton_Some in Hi as [Hi _].
        intros _. right. apply list_elem_of_singleton. lia.
      * intros Hf. cbn. apply Forall_app. split; [done|]. by repeat constructor.
    + eexists _, _. split; [done|]. repeat split; try done. exists e. repeat split; done.
Qed.

Lemma Start_loop_spec r l :
  NoDup l.*1 → (∀ k e, (k, e) ∈ l → entry_ok e ∧ entries r !! k = Some e) →
  ∃ r' err, Start_loop r l = Ret (r', err) ∧
    (procs_owned r → procs_owned r') ∧
    (∀ k, k ∉ l.*1 → entries r' !! k = entries r !! k) ∧
    (∀ k, k ∈ l.*1 → ∃ e', entries r' !! k = Some e' ∧ (err = None → is_Some (e_value e'))) ∧
    (Forall (λ p, g_cancelled p = false) (procs r) →
     Forall (λ p, g_cancelled p = false) (procs r')).
Proof.
  revert r. induction l as [|[n e] l IH]; intros r; cbn.
  { intros _ _. eexists _, _. split; [done|]. repeat split; auto. set_solver. }
  intros [Hn Hnd]%NoDup_cons Hl.
  destruct (Hl n e ltac:(left)) as [Hok Hr].
  destruct (start_entry_spec r n e Hok Hr) as (r1 & err1 & -> & Hown & Hoth & (e1 & He1 & Hs1 & Hv1) & Hc1).
  assert (∀ k e', (k, e') ∈ l → k ≠ n) as Hkn.
  { intros k e' Hin ->. apply Hn, list_elem_of_fmap. by exists (n, e'). }
  cbn. destruct err1 as [err1|].
  { eexists _, _. split; [done|]. repeat split; auto.
    - intros k Hk. apply Hoth. set_solver.
    - intros k [->|Hk]%elem_of_cons; [eauto|].
      apply list_elem_of_fmap in Hk as ([k' e'] & -> & Hin). cbn.
      exists e'. rewrite Hoth by eauto. split; [by apply Hl; right|done]. }
  destruct (IH r1 Hnd) as (r2 & err2 & -> & Hown2 & Hoth2 & Hv2 & Hc2).
  { intros k e' Hin. rewrite Hoth by eauto. by apply Hl; right. }
  eexists _, _. split; [done|]. repeat split; auto.
  - intros k Hk. rewrite Hoth2, Hoth by set_solver. done.
  - intros k [->|Hk]%elem_of_cons; [|eauto].
    exists e1. rewrite Hoth2 by done. auto.
Qed.

(** [Start] on a registry with complete entries. *)
Lemma Registry_Start_spec r :
  map_Forall (λ _, entry_ok) (entries r) →
  ∃ r' err, Registry_Start r = Ret (r', err) ∧
    (procs_owned r → procs_owned r') ∧ dom (entries r') = dom (entries r) ∧
    (err = None → populated r') ∧
    (Forall (λ p, g_cancelled p = false) (procs r) →
     Forall (λ p, g_cancelled p = false) (procs r')).
Proof.
  intros Hok. unfold Registry_Start.
  destruct (Start_loop_spec r (range_map (entries r))) as (r' & err & -> & Hown & Hoth & Hv & Hc).
  { apply range_map_keys_NoDup. }
  { intros k e Hin%range_map_lookup. split; [by eapply Hok|done]. }
  assert (∀ k, k ∈ (range_map (entries r)).*1 ↔ k ∈ dom (entries r)) as Hdom.
  { intros k. rewrite range_map_perm. rewrite elem_of_dom, list_elem_of_fmap. split.
    - intros ([k' e] & -> & Hin%elem_of_map_to_list). by eexists.
    - intros [e He]. exists (k, e). split; [done|]. by apply elem_of_map_to_list. }
  eexists _, _. split; [done|]. repeat split; auto.
  - apply set_eq. intros k. split.
    + intros Hk. destruct (decide (k ∈ dom (entries r))) as [|Hn]; [done|].
      rewrite elem_of_dom, Hoth, <- elem_of_dom in Hk by by rewrite Hdom. done.
    + intros Hk. apply Hdom, Hv in Hk as (e & He & _). apply elem_of_dom. by eexists.
  - intros -> k e He. destruct (decide (k ∈ dom (entries r))) as [Hin|Hn].
    + apply Hdom, Hv in Hin as (e' & He' & Hval). rewrite He in He'. injection He' as ->. by apply Hval.
    + rewrite Hoth in He by by rewrite Hdom. apply not_elem_of_dom in Hn. congruence.
Qed.

(** *** Transitions *)

Lemma cancel_proc_lookup ps i j :
  cancel_proc ps i !! j =
    if bool_decide (i = j) then (λ p, mkGoroutine (g_entry p) true (g_done p)) <$> ps !! j
    else ps !! j.
Proof.
  unfold cancel_proc. case_bool_decide as E; [subst; apply list_lookup_alter_eq|].
  by apply list_lookup_alter_ne.
Qed.

Lemma foldl_cancel_lookup cs ps j :
  foldl cancel_proc ps cs !! j =
    if bool_decide (j ∈ cs) then (λ p, mkGoroutine (g_entry p) true (g_done p)) <$> ps !! j
    else ps !! j.
Proof.
  revert ps. induction cs as [|i cs IH]; intros ps; cbn; [done|].
  rewrite IH, cancel_proc_lookup. destruct (decide (i = j)) as [->|Hne].
  - rewrite (bool_decide_true (j = j)) by done. rewrite (bool_decide_true (j ∈ j :: cs)) by set_solver.
    case_bool_decide; [|done]. by destruct (ps !! j).
  - rewrite (bool_decide_false (i = j)) by done.
    rewrite (bool_decide_ext (j ∈ i :: cs) (j ∈ cs)) by set_solver. done.
Qed.

Lemma reg_step_owned r r' : reg_step r r' → procs_owned r → procs_owned r'.
Proof.
  intros [r0 i res r1 E|r0 i r1 E|r0]; intros Hown j p.
  - unfold refresh in E. repeat go_case_in E; simplify_eq; apply Hown.
  - unfold exit_proc in E. repeat go_case_in E; simplify_eq. cbn.
    rewrite list_lookup_insert_Some. intros [(-> & <- & _)|[_ Hj]]; [done|]. by apply Hown.
  - cbn. rewrite foldl_cancel_lookup. case_bool_decide as Hin.
    + destruct (procs r0 !! j); [|done]. by intros [= <-].
    + intros Hj Hc. by destruct (Hin (Hown _ _ Hj Hc)).
Qed.

Lemma reg_step_populated r r' :
  reg_step r r' → populated r → populated r' ∧ dom (entries r') = dom (entries r).
Proof.
  intros [r0 i res r1 E|r0 i r1 E|r0] Hp.
  - unfold refresh in E. repeat go_case_in E; simplify_eq; [|done].
    split; [by apply store_value_populated|]. apply dom_alter_L.
  - unfold exit_proc in E. repeat go_case_in E; by simplify_eq.
  - done.
Qed.

Lemma rtc_reg_step_inv r r' :
  rtc reg_step r r' → procs_owned r → populated r →
  procs_owned r' ∧ populated r' ∧ dom (entries r') = dom (entries r).
Proof.
  induction 1 as [r|r1 r2 r3 Hs _ IH]; [done|]. intros Ho Hp.
  destruct (reg_step_populated _ _ Hs Hp) as [Hp2 <-].
  apply IH; eauto using reg_step_owned.
Qed.

(** Once cancelled, the goroutines can all return. *)
Lemma drain_exits r :
  Forall (λ p, g_cancelled p = true) (procs r) →
  ∃ r', rtc (λ r r', ∃ i, exit_proc r i = Some r') r r' ∧ drained r'.
Proof.
  intros Hc. remember (length (filter (λ p, g_done p = false) (procs r))) as n eqn:En.
  revert r Hc En. induction n as [n IH] using lt_wf_ind. intros r Hc En.
  destruct (decide (drained r)) as [|Hnd]; [by exists r; split; [apply rtc_refl|]|].
  apply (not_Forall_Exists _), Exists_exists in Hnd as (p & Hin & Hp). apply list_elem_of_lookup in Hin as [i Hi].
  assert (g_cancelled p = true) as Hpc by (rewrite Forall_lookup in Hc; eauto).
  set (r1 := mkRegistry (entries r) (cancels r) (<[i := mkGoroutine (g_entry p) true true]> (procs r))).
  assert (exit_proc r i = Some r1) as Hex.
  { unfold exit_proc. cbn in Hp. rewrite Hi, Hpc. by destruct (g_done p). }
  destruct (IH (length (filter (λ p, g_done p = false) (procs r1)))) with (r := r1) as (r' & Hr & Hd); [| |done|].
  - subst n. cbn in Hp |- *. apply not_true_is_false in Hp.
    rewrite insert_take_drop by by eapply lookup_lt_Some.
    rewrite <- (take_drop_middle _ _ _ Hi) at 3.
    rewrite !filter_app, !filter_cons, !length_app. cbn.
    rewrite decide_False by done. rewrite decide_True by done. cbn. lia.
  - cbn. by apply Forall_insert.
  - exists r'. split; [|done]. by eapply rtc_l; [eexists|].
Qed.

Lemma drain_all r :
  Forall (λ p, g_cancelled p = true) (procs r) → ∃ r', rtc reg_step r r' ∧ drained r'.
Proof.
  intros (r' & Hr & Hd)%drain_exits. exists r'. split; [|done].
  eapply rtc_subrel; [|done]. intros r1 r2 [i Hi]. by eapply step_exit.
Qed.

Lemma drained_step r r' :
  drained r → reg_step r r' → drained r' ∧ entries r' = entries r.
Proof.
  intros Hd Hs. revert Hd. destruct Hs as [r0 i res r1 E|r0 i r1 E|r0]; intros Hd.
  - unfold refresh in E. destruct (procs r0 !! i) as [p|] eqn:Hi; [|done].
    unfold drained in Hd. rewrite Forall_lookup in Hd. by rewrite (Hd i p Hi) in E.
  - unfold exit_proc in E. destruct (procs r0 !! i) as [p|] eqn:Hi; [|done].
    unfold drained in Hd. rewrite Forall_lookup in Hd. rewrite (Hd i p Hi), andb_false_r in E. done.
  - split; [|done]. unfold drained in *. cbn. rewrite Forall_lookup in *. intros j p.
    rewrite foldl_cancel_lookup. case_bool_decide; [|apply Hd].
    destruct (procs r0 !! j) as [q|] eqn:Hq; [|done]. intros [= <-]. by apply (Hd j q).
Qed.

End facts.
