(* ===== verification/Policy.v ===== *)
(** * internal/policy/policy.go: the policy file

    The configuration types, [BytesSize], [applyDefaults], [validate], [compile]
    and [LoadBytes].  A program field is [option Program]: [None] is the nil
    interface of a field that was never compiled.  gopkg.in/yaml.v3 is not part of
    the repository: the class [YamlPolicy] is its decoder, with the documented
    fact that it leaves unexported fields alone. *)

From S2P Require Import Prelude GoStrings GoHttp GoValues CelEnv Facts.
Local Open Scope Z_scope.

(** ** Configuration types *)

Section types.
Context `{CelGo}.

Record Mutation := mkMutation {
  m_Op : string;
  m_Name : string;
  m_Value : string;
  m_Code : string;
  m_Status : Z;
  m_Headers : string;
  m_Body : string;
  m_valueProg : option Program;
  m_codeProg : option Program;
  m_headersProg : option Program;
  m_bodyProg : option Program;
}.

Record Validation := mkValidation { v_Action : string }.

Record Rule := mkRule {
  r_Name : string;
  r_Description : string;
  r_Match : string;
  r_Validation : option Validation;
  r_Mutations : list Mutation;
  r_DryRun : bool;
  r_matchProg : option Program;
}.

Record Parameters := mkParameters { p_Engine : string; p_Mode : string; p_Phase : string }.

Record Group := mkGroup {
  g_Name : string;
  g_Description : string;
  g_Parameters : Parameters;
  g_Match : string;
  g_Rules : list Rule;
  g_matchProg : option Program;
}.

Record ExtAuthzDefaults := mkExtAuthzDefaults {
  ea_Action : string;
  ea_DenyStatus : Z;
  ea_DenyBody : string;
  ea_AllowOnError : bool;
  ea_MaxBodyBytes : Z;
}.

Record ExtProcDefaults := mkExtProcDefaults {
  ep_MaxBodyBytes : Z;
  ep_OnBodyOverflow : string;
}.

Record Defaults := mkDefaults {
  d_ExtAuthz : ExtAuthzDefaults;
  d_ExtProc : ExtProcDefaults;
  d_DryRun : bool;
}.

(** A nil slice ([None]) is told apart from an empty one. *)
Record Logging := mkLogging {
  l_Level : string;
  l_Format : string;
  l_LogBody : bool;
  l_ExcludeHeaders : option (list string);
  l_RedactHeaders : option (list string);
  l_RedactReveal : Z;
  l_RedactQueryParams : option (list string);
}.

Record Config := mkConfig {
  c_Defaults : Defaults;
  c_Logging : Logging;
  c_Facts : list Spec;
  c_Groups : list Group;
  c_env : option Env;
  c_registry : option Registry;
}.

End types.

(** ** BytesSize *)

Inductive bytes_error : Type :=
| ErrNotScalar
| ErrInvalidSize (value : string).

(** The suffix switch of [UnmarshalYAML]: multiplier and suffix length. *)
Definition size_suffix (lower : string) : Z * nat :=
  if HasSuffix lower "kib" then (2 ^ 10, 3%nat)
  else if HasSuffix lower "mib" then (2 ^ 20, 3%nat)
  else if HasSuffix lower "gib" then (2 ^ 30, 3%nat)
  else if HasSuffix lower "kb" then (1000, 2%nat)
  else if HasSuffix lower "mb" then (1000 * 1000, 2%nat)
  else if HasSuffix lower "b" then (1, 1%nat)
  else (1, 0%nat).

(** [BytesSize.UnmarshalYAML] on a node: its kind and its value. *)
Definition UnmarshalYAML `{UnicodeTables} (scalar : bool) (value : string) :
    result bytes_error Z :=
  if negb scalar then Err ErrNotScalar
  else
    let s := TrimSpace value in
    match ParseInt s with
    | Some v => Ok v
    | None =>
        let '(mul, n) := size_suffix (ToLower s) in
        let s := str_take (String.length s - n) s in
        match ParseInt (TrimSpace s) with
        | None => Err (ErrInvalidSize value)
        | Some v => Ok (wrap64 (v * mul))
        end
    end.

(** ** Errors *)

Inductive mutation_error : Type :=
| MStatusRange (got : Z)
| MFieldRequired (field : string)
| MFieldForbidden (field : string)
| MPhase (got : string)
| MUnknownOp.

Inductive policy_error : Type :=
| ErrDefaultAction (got : string)
| ErrDefaultOverflow (got : string)
| ErrNoGroups
| ErrGroupMissingName (gi : nat)
| ErrGroupDuplicate (name : string)
| ErrEngine (g got : string)
| ErrModeExtAuthz (g got : string)
| ErrModeExtProc (g got : string)
| ErrPhase (g got : string)
| ErrPhaseForbidden (g got : string)
| ErrNoRules (g : string)
| ErrRuleMissingName (g : string) (ri : nat)
| ErrRuleDuplicate (g r : string)
| ErrMatchEmpty (g r : string)
| ErrValidationMissing (g r : string)
| ErrMutationsForbidden (g r : string)
| ErrAction (g r got : string)
| ErrActionMatchAll (g r got : string)
| ErrValidationForbidden (g r : string)
| ErrDirectExclusive (g r : string)
| ErrMutation (g r : string) (mi : nat) (op : string) (why : mutation_error).

Inductive load_error : Type :=
| LErrYaml (err : string)
| LErrValidate (err : policy_error)
| LErrCelEnv (err : celenv_error)
| LErrFacts (err : facts_error)
| LErrGroupMatch (g : string) (err : celenv_error)
| LErrRuleMatch (g r : string) (err : celenv_error)
| LErrMutation (g r : string) (mi : nat) (field op : string) (err : celenv_error)
| LErrReadFile (err : string).

Definition map_err {E F A} (f : E → F) (r : result E A) : result F A :=
  match r with Ok a => Ok a | Err e => Err (f e) end.

Section policy.
Context `{CelGo, UnicodeTables}.

(** ** applyDefaults *)

Definition or_str (s d : string) : string := if String.eqb s ε then d else s.
Definition or_int (z d : Z) : Z := if z =? 0 then d else z.

Definition defaults_filled (d : Defaults) : Defaults :=
  let a := d_ExtAuthz d in
  let p := d_ExtProc d in
  mkDefaults
    (mkExtAuthzDefaults (or_str (ea_Action a) "deny") (or_int (ea_DenyStatus a) 403)
       (or_str (ea_DenyBody a) "Forbidden") (ea_AllowOnError a)
       (or_int (ea_MaxBodyBytes a) (Z.shiftl 1 20)))
    (mkExtProcDefaults (or_int (ep_MaxBodyBytes p) (Z.shiftl 1 20))
       (or_str (ep_OnBodyOverflow p) "fail"))
    (d_DryRun d).

Definition logging_filled (l : Logging) : Logging :=
  mkLogging (or_str (l_Level l) "info") (or_str (l_Format l) "json") (l_LogBody l)
    (Some (default ["cookie"; "set-cookie"] (l_ExcludeHeaders l)))
    (Some (default ["authorization"; "proxy-authorization"; "x-api-key"; "x-auth-token"]
             (l_RedactHeaders l)))
    (or_int (l_RedactReveal l) 6)
    (Some (default ["access_token"; "id_token"; "code"] (l_RedactQueryParams l))).

Definition applyDefaults (c : Config) : Config :=
  mkConfig (defaults_filled (c_Defaults c)) (logging_filled (c_Logging c))
    (c_Facts c) (c_Groups c) (c_env c) (c_registry c).

(** ** validate *)

Definition blank (s : string) : bool := String.eqb (TrimSpace s) ε.
Definition is_in (s : string) (l : list string) : bool := existsb (String.eqb s) l.

Definition response_phases : list string := ["responseHeaders"; "responseBody"].
Definition body_phases : list string := ["requestBody"; "responseBody"].
Definition all_phases : list string :=
  ["requestHeaders"; "requestBody"; "responseHeaders"; "responseBody"].

(** The switch over [m.Op] in [validate]. *)
Definition validate_mutation (phase : string) (m : Mutation) : result mutation_error unit :=
  let op := m_Op m in
  if String.eqb op "directResponse" then
    reject ((m_Status m <=? 0) || (599 <? m_Status m)) (MStatusRange (m_Status m));;
    reject (blank (m_Headers m)) (MFieldRequired "headers");;
    reject (blank (m_Body m)) (MFieldRequired "body");;
    reject (negb (String.eqb (m_Name m) ε)) (MFieldForbidden "name");;
    reject (negb (String.eqb (m_Value m) ε)) (MFieldForbidden "value");;
    reject (negb (String.eqb (m_Code m) ε)) (MFieldForbidden "code");;
    reject (negb (is_in phase response_phases)) (MPhase phase)
  else if String.eqb op "setHeader" || String.eqb op "appendHeader" then
    reject (blank (m_Name m)) (MFieldRequired "name");;
    reject (blank (m_Value m)) (MFieldRequired "value");;
    reject (negb (String.eqb (m_Code m) ε)) (MFieldForbidden "code")
  else if String.eqb op "removeHeader" then
    reject (blank (m_Name m)) (MFieldRequired "name");;
    reject (negb (String.eqb (m_Value m) ε)) (MFieldForbidden "value");;
    reject (negb (String.eqb (m_Code m) ε)) (MFieldForbidden "code")
  else if String.eqb op "setBody" then
    reject (blank (m_Value m)) (MFieldRequired "value");;
    reject (negb (String.eqb (m_Name m) ε)) (MFieldForbidden "name");;
    reject (negb (String.eqb (m_Code m) ε)) (MFieldForbidden "code");;
    reject (negb (is_in phase body_phases)) (MPhase phase)
  else if String.eqb op "setStatus" then
    reject (blank (m_Code m)) (MFieldRequired "code");;
    reject (negb (String.eqb (m_Name m) ε)) (MFieldForbidden "name");;
    reject (negb (String.eqb (m_Value m) ε)) (MFieldForbidden "value");;
    reject (negb (is_in phase response_phases)) (MPhase phase)
  else Err MUnknownOp.

Fixpoint validate_mutations (g r phase : string) (mi : nat) (ms : list Mutation) :
    result policy_error unit :=
  match ms with
  | [] => Ok ()
  | m :: ms' =>
      match validate_mutation phase m with
      | Err why => Err (ErrMutation g r mi (m_Op m) why)
      | Ok _ => validate_mutations g r phase (S mi) ms'
      end
  end.

Definition is_direct (m : Mutation) : bool := String.eqb (m_Op m) "directResponse".

(** The body of the rule loop of [validate] past the name checks. *)
Definition validate_rule (g : string) (p : Parameters) (r : Rule) : result policy_error unit :=
  reject (blank (r_Match r)) (ErrMatchEmpty g (r_Name r));;
  if String.eqb (p_Engine p) "extAuthz" then
    match r_Validation r with
    | None => Err (ErrValidationMissing g (r_Name r))
    | Some v =>
        reject (0 <? length (r_Mutations r))%nat (ErrMutationsForbidden g (r_Name r));;
        reject (negb (is_in (v_Action v) ["allow"; "deny"])) (ErrAction g (r_Name r) (v_Action v));;
        reject (String.eqb (p_Mode p) "matchAll" && negb (String.eqb (v_Action v) "allow"))
          (ErrActionMatchAll g (r_Name r) (v_Action v))
    end
  else
    reject (is_some (r_Validation r)) (ErrValidationForbidden g (r_Name r));;
    reject (existsb is_direct (r_Mutations r) && (1 <? length (r_Mutations r))%nat)
      (ErrDirectExclusive g (r_Name r));;
    validate_mutations g (r_Name r) (p_Phase p) O (r_Mutations r).

Fixpoint validate_rules (g : string) (p : Parameters) (ri : nat) (seen : gset string)
    (rs : list Rule) : result policy_error unit :=
  match rs with
  | [] => Ok ()
  | r :: rs' =>
      reject (String.eqb (r_Name r) ε) (ErrRuleMissingName g ri);;
      reject (bool_decide (r_Name r ∈ seen)) (ErrRuleDuplicate g (r_Name r));;
      validate_rule g p r;;
      validate_rules g p (S ri) ({[r_Name r]} ∪ seen) rs'
  end.

(** The engine, mode and phase checks of a group. *)
Definition validate_parameters (g : string) (p : Parameters) : result policy_error unit :=
  reject (negb (is_in (p_Engine p) ["extAuthz"; "extProc"])) (ErrEngine g (p_Engine p));;
  (if String.eqb (p_Engine p) "extAuthz" then
     reject (negb (is_in (p_Mode p) ["firstMatch"; "matchAll"])) (ErrModeExtAuthz g (p_Mode p))
   else
     reject (negb (is_in (p_Mode p) ["firstMatch"; "applyAll"])) (ErrModeExtProc g (p_Mode p)));;
  (if String.eqb (p_Engine p) "extProc" then
     reject (negb (is_in (p_Phase p) all_phases)) (ErrPhase g (p_Phase p))
   else
     reject (negb (String.eqb (p_Phase p) ε)) (ErrPhaseForbidden g (p_Phase p))).

Fixpoint validate_groups (gi : nat) (seen : gset string) (gs : list Group) :
    result policy_error unit :=
  match gs with
  | [] => Ok ()
  | g :: gs' =>
      reject (String.eqb (g_Name g) ε) (ErrGroupMissingName gi);;
      reject (bool_decide (g_Name g ∈ seen)) (ErrGroupDuplicate (g_Name g));;
      validate_parameters (g_Name g) (g_Parameters g);;
      reject (length (g_Rules g) =? 0)%nat (ErrNoRules (g_Name g));;
      validate_rules (g_Name g) (g_Parameters g) O ∅ (g_Rules g);;
      validate_groups (S gi) ({[g_Name g]} ∪ seen) gs'
  end.

(** [Config.validate]. *)
Definition validate (c : Config) : result policy_error unit :=
  let action := ea_Action (d_ExtAuthz (c_Defaults c)) in
  let overflow := ep_OnBodyOverflow (d_ExtProc (c_Defaults c)) in
  reject (negb (is_in action ["allow"; "deny"])) (ErrDefaultAction action);;
  reject (negb (is_in overflow ["skip"; "fail"])) (ErrDefaultOverflow overflow);;
  reject (length (c_Groups c) =? 0)%nat ErrNoGroups;;
  validate_groups O ∅ (c_Groups c).

(** ** compile *)

(** The scope a group's expressions are compiled in. *)
Definition group_scope (p : Parameters) : Scope :=
  if String.eqb (p_Engine p) "extAuthz" then ScopeRequest
  else if is_in (p_Phase p) ["requestHeaders"; "requestBody"] then ScopeRequest
  else if is_in (p_Phase p) response_phases then ScopeResponse
  else ScopeRequest.

(** A loop that updates the elements in place while threading a state. *)
Fixpoint map_state {S A E} (f : nat → S → A → result E (A * S)) (i : nat) (s : S) (l : list A) :
    result E (list A * S) :=
  match l with
  | [] => Ok ([], s)
  | a :: l' =>
      '(a', s') ← f i s a;
      '(l'', s'') ← map_state f (Datatypes.S i) s' l';
      Ok (a' :: l'', s'')
  end.

Definition compile_mutation (g r : string) (scope : Scope) (mi : nat) (e : Env) (m : Mutation) :
    result load_error (Mutation * Env) :=
  let op := m_Op m in
  let err field := LErrMutation g r mi field op in
  if String.eqb op "directResponse" then
    '(hp, e) ← map_err (err "headers") (CompileStringMap e (m_Headers m) scope);
    '(bp, e) ← map_err (err "body") (CompileString e (m_Body m) scope);
    Ok (mkMutation op (m_Name m) (m_Value m) (m_Code m) (m_Status m) (m_Headers m) (m_Body m)
          (m_valueProg m) (m_codeProg m) (Some hp) (Some bp), e)
  else if is_in op ["setHeader"; "appendHeader"; "setBody"] then
    '(vp, e) ← map_err (err "value") (CompileString e (m_Value m) scope);
    Ok (mkMutation op (m_Name m) (m_Value m) (m_Code m) (m_Status m) (m_Headers m) (m_Body m)
          (Some vp) (m_codeProg m) (m_headersProg m) (m_bodyProg m), e)
  else if String.eqb op "setStatus" then
    '(cp, e) ← map_err (err "code") (CompileInt e (m_Code m) scope);
    Ok (mkMutation op (m_Name m) (m_Value m) (m_Code m) (m_Status m) (m_Headers m) (m_Body m)
          (m_valueProg m) (Some cp) (m_headersProg m) (m_bodyProg m), e)
  else Ok (m, e).

Definition compile_rule (g : string) (scope : Scope) (ri : nat) (e : Env) (r : Rule) :
    result load_error (Rule * Env) :=
  '(p, e) ← map_err (LErrRuleMatch g (r_Name r)) (Compile e (r_Match r) scope);
  '(ms, e) ← map_state (compile_mutation g (r_Name r) scope) O e (r_Mutations r);
  Ok (mkRule (r_Name r) (r_Description r) (r_Match r) (r_Validation r) ms (r_DryRun r) (Some p), e).

Definition compile_group (gi : nat) (e : Env) (g : Group) : result load_error (Group * Env) :=
  let scope := group_scope (g_Parameters g) in
  '(gp, e) ←
    (if blank (g_Match g) then Ok (g_matchProg g, e)
     else '(p, e) ← map_err (LErrGroupMatch (g_Name g)) (Compile e (g_Match g) scope);
          Ok (Some p, e));
  '(rs, e) ← map_state (compile_rule (g_Name g) scope) O e (g_Rules g);
  Ok (mkGroup (g_Name g) (g_Description g) (g_Parameters g) (g_Match g) rs gp, e).

(** [Config.compile], on a configuration whose environment is [e]. *)
Definition Config_compile (c : Config) (e : Env) : result load_error Config :=
  '(gs, e) ← map_state compile_group O e (c_Groups c);
  Ok (mkConfig (c_Defaults c) (c_Logging c) (c_Facts c) gs (Some e) (c_registry c)).

(** ** LoadBytes *)

(** A configuration as the decoder builds it: no program, no environment. *)
Definition uncompiled (c : Config) : Prop :=
  c_env c = None ∧ c_registry c = None ∧
  Forall (λ g, g_matchProg g = None ∧
    Forall (λ r, r_matchProg r = None ∧
      Forall (λ m, m_valueProg m = None ∧ m_codeProg m = None ∧
                   m_headersProg m = None ∧ m_bodyProg m = None) (r_Mutations r))
      (g_Rules g)) (c_Groups c).

(** ** Declarative specification of valid policies *)

(** What a mutation must look like in a group of the given phase. *)
Definition mutation_ok (phase : string) (m : Mutation) : Prop :=
  (m_Op m = "directResponse" ∧ 0 < m_Status m ≤ 599 ∧
     blank (m_Headers m) = false ∧ blank (m_Body m) = false ∧
     m_Name m = ε ∧ m_Value m = ε ∧ m_Code m = ε ∧ phase ∈ response_phases) ∨
  (m_Op m ∈ ["setHeader"; "appendHeader"] ∧
     blank (m_Name m) = false ∧ blank (m_Value m) = false ∧ m_Code m = ε) ∨
  (m_Op m = "removeHeader" ∧ blank (m_Name m) = false ∧ m_Value m = ε ∧ m_Code m = ε) ∨
  (m_Op m = "setBody" ∧ blank (m_Value m) = false ∧ m_Name m = ε ∧ m_Code m = ε ∧
     phase ∈ body_phases) ∨
  (m_Op m = "setStatus" ∧ blank (m_Code m) = false ∧ m_Name m = ε ∧ m_Value m = ε ∧
     phase ∈ response_phases).

(** A rule of an extAuthz group carries a verdict and no mutation; a rule of an
    extProc group carries mutations, a direct response only alone. *)
Definition rule_ok (p : Parameters) (r : Rule) : Prop :=
  r_Name r ≠ ε ∧ blank (r_Match r) = false ∧
  if String.eqb (p_Engine p) "extAuthz" then
    ∃ v, r_Validation r = Some v ∧ r_Mutations r = [] ∧ v_Action v ∈ ["allow"; "deny"] ∧
         (p_Mode p = "matchAll" → v_Action v = "allow")
  else
    r_Validation r = None ∧
    ((∃ m, m ∈ r_Mutations r ∧ m_Op m = "directResponse") → length (r_Mutations r) = 1%nat) ∧
    Forall (mutation_ok (p_Phase p)) (r_Mutations r).

Definition parameters_ok (p : Parameters) : Prop :=
  (p_Engine p = "extAuthz" ∧ p_Mode p ∈ ["firstMatch"; "matchAll"] ∧ p_Phase p = ε) ∨
  (p_Engine p = "extProc" ∧ p_Mode p ∈ ["firstMatch"; "applyAll"] ∧ p_Phase p ∈ all_phases).

Definition group_ok (g : Group) : Prop :=
  g_Name g ≠ ε ∧ parameters_ok (g_Parameters g) ∧ g_Rules g ≠ [] ∧
  Forall (rule_ok (g_Parameters g)) (g_Rules g) ∧ NoDup (map r_Name (g_Rules g)).

Definition Config_ok (c : Config) : Prop :=
  ea_Action (d_ExtAuthz (c_Defaults c)) ∈ ["allow"; "deny"] ∧
  ep_OnBodyOverflow (d_ExtProc (c_Defaults c)) ∈ ["skip"; "fail"] ∧
  c_Groups c ≠ [] ∧ Forall group_ok (c_Groups c) ∧ NoDup (map g_Name (c_Groups c)).

(** ** validate decides the specification *)

Lemma is_in_true s l : is_in s l = true ↔ s ∈ l.
Proof.
  unfold is_in. rewrite existsb_exists. setoid_rewrite String.eqb_eq.
  setoid_rewrite <- list_elem_of_In. naive_solver.
Qed.

Lemma not_in_false s l : negb (is_in s l) = false ↔ s ∈ l.
Proof. by rewrite negb_false_iff, is_in_true. Qed.

Lemma not_empty_false s : negb (String.eqb s ε) = false ↔ s = ε.
Proof. by rewrite negb_false_iff, String.eqb_eq. Qed.

Lemma validate_mutation_ok phase m u :
  validate_mutation phase m = Ok u ↔ mutation_ok phase m.
Proof.
  unfold validate_mutation, mutation_ok. destruct u.
  destruct (String.eqb_spec (m_Op m) "directResponse") as [->|N1].
  { rewrite !reject_bind_ok, reject_ok, not_in_false, !not_empty_false, orb_false_iff, Z.leb_gt,
      Z.ltb_ge. set_unfold. intuition (congruence || lia). }
  destruct (String.eqb_spec (m_Op m) "setHeader") as [->|N2].
  { cbn [orb]. rewrite !reject_bind_ok, reject_ok, not_empty_false. set_unfold.
    intuition congruence. }
  destruct (String.eqb_spec (m_Op m) "appendHeader") as [->|N3].
  { cbn [orb]. rewrite !reject_bind_ok, reject_ok, not_empty_false. set_unfold.
    intuition congruence. }
  cbn [orb]. destruct (String.eqb_spec (m_Op m) "removeHeader") as [->|N4].
  { rewrite !reject_bind_ok, reject_ok, !not_empty_false. set_unfold. intuition congruence. }
  destruct (String.eqb_spec (m_Op m) "setBody") as [->|N5].
  { rewrite !reject_bind_ok, reject_ok, !not_empty_false, not_in_false. set_unfold.
    intuition congruence. }
  destruct (String.eqb_spec (m_Op m) "setStatus") as [->|N6].
  { rewrite !reject_bind_ok, reject_ok, !not_empty_false, not_in_false. set_unfold.
    intuition congruence. }
  set_unfold. intuition congruence.
Qed.

Lemma validate_mutations_ok g r phase mi ms u :
  validate_mutations g r phase mi ms = Ok u ↔ Forall (mutation_ok phase) ms.
Proof.
  destruct u. revert mi. induction ms as [|m ms IH]; intros mi; cbn; [done|].
  rewrite Forall_cons. destruct (validate_mutation phase m) as [[]|e] eqn:E.
  - apply validate_mutation_ok in E. rewrite IH. naive_solver.
  - split; [done|]. intros [Hm _]. apply (validate_mutation_ok _ _ ()) in Hm. congruence.
Qed.

Lemma existsb_direct ms :
  existsb is_direct ms = true ↔ ∃ m, m ∈ ms ∧ m_Op m = "directResponse".
Proof.
  rewrite existsb_exists. unfold is_direct. setoid_rewrite String.eqb_eq.
  by setoid_rewrite <- list_elem_of_In.
Qed.

Lemma direct_exclusive ms :
  existsb is_direct ms && (1 <? length ms)%nat = false ↔
  ((∃ m, m ∈ ms ∧ m_Op m = "directResponse") → length ms = 1%nat).
Proof.
  rewrite <- existsb_direct. destruct (existsb is_direct ms) eqn:E; [|naive_solver].
  rewrite andb_true_l, Nat.ltb_ge. destruct ms as [|m ms]; [done|]. cbn [length].
  split; [lia|]. intros Hl. by rewrite Hl.
Qed.

Lemma validate_rule_ok g p r u :
  r_Name r ≠ ε → validate_rule g p r = Ok u ↔ rule_ok p r.
Proof.
  intros Hn. unfold validate_rule, rule_ok. rewrite reject_bind_ok. destruct u.
  destruct (String.eqb (p_Engine p) "extAuthz").
  - destruct (r_Validation r) as [v|]; [|naive_solver].
    rewrite !reject_bind_ok, reject_ok, not_in_false, Nat.ltb_ge, andb_false_iff, negb_false_iff,
      String.eqb_neq, String.eqb_eq.
    assert (length (r_Mutations r) ≤ 0 ↔ r_Mutations r = [])%nat as ->
      by (destruct (r_Mutations r); cbn; split; intros; (done || lia)).
    destruct (decide (p_Mode p = "matchAll")); naive_solver.
  - rewrite !reject_bind_ok, validate_mutations_ok, direct_exclusive.
    destruct (r_Validation r); naive_solver.
Qed.

(** A fresh-name test over a growing set is distinctness of the names. *)
Lemma seen_step {A} (f : A → string) (x : A) (l : list A) (seen : gset string) :
  Forall (λ y, f y ∉ {[f x]} ∪ seen) l ↔ Forall (λ y, f y ∉ seen) l ∧ f x ∉ map f l.
Proof.
  rewrite !Forall_forall. split.
  - intros Hl. split; [set_solver|]. intros (y & Hy1 & Hy2)%list_elem_of_fmap.
    specialize (Hl y Hy2). set_solver.
  - intros [H1 H2] y Hy. apply not_elem_of_union. split; [|by apply H1].
    intros Hy'%elem_of_singleton. apply H2, list_elem_of_fmap. by exists y.
Qed.

Lemma validate_rules_ok g p ri seen rs u :
  validate_rules g p ri seen rs = Ok u ↔
  Forall (rule_ok p) rs ∧ NoDup (map r_Name rs) ∧ Forall (λ r, r_Name r ∉ seen) rs.
Proof.
  destruct u. revert ri seen. induction rs as [|r rs IH]; intros ri seen; cbn.
  { split; [repeat constructor|done]. }
  rewrite !reject_bind_ok, result_bind_ok, !Forall_cons, NoDup_cons, String.eqb_neq,
    bool_decide_eq_false.
  setoid_rewrite IH. setoid_rewrite seen_step. split.
  - intros (Hn & Hs & [] & Hr & Hrs & Hnd & Hf & Hnin).
    apply validate_rule_ok in Hr; [|done]. naive_solver.
  - intros ([Hr Hrs] & [Hnin Hnd] & [Hs Hf]). pose proof Hr as [Hn _].
    repeat split; auto. exists (). by rewrite validate_rule_ok.
Qed.

Lemma validate_parameters_ok g p u : validate_parameters g p = Ok u ↔ parameters_ok p.
Proof.
  destruct u. unfold validate_parameters, parameters_ok.
  rewrite reject_bind_ok, not_in_false.
  destruct (String.eqb_spec (p_Engine p) "extAuthz") as [->|N1].
  - change (String.eqb "extAuthz" "extProc") with false. cbn iota.
    rewrite reject_bind_ok, reject_ok, not_in_false, not_empty_false. set_unfold.
    intuition congruence.
  - rewrite reject_bind_ok, not_in_false.
    destruct (String.eqb_spec (p_Engine p) "extProc") as [->|N2].
    + rewrite reject_ok, not_in_false. set_unfold. intuition congruence.
    + set_unfold. intuition congruence.
Qed.

Lemma validate_groups_ok gi seen gs u :
  validate_groups gi seen gs = Ok u ↔
  Forall group_ok gs ∧ NoDup (map g_Name gs) ∧ Forall (λ g, g_Name g ∉ seen) gs.
Proof.
  destruct u. revert gi seen. induction gs as [|g gs IH]; intros gi seen; cbn [validate_groups].
  { split; [repeat constructor|done]. }
  cbn [map]. rewrite !reject_bind_ok, result_bind_ok, !Forall_cons, NoDup_cons, String.eqb_neq,
    bool_decide_eq_false.
  setoid_rewrite validate_parameters_ok. setoid_rewrite reject_bind_ok.
  setoid_rewrite result_bind_ok. setoid_rewrite validate_rules_ok. setoid_rewrite IH.
  setoid_rewrite seen_step. unfold group_ok.
  assert ((length (g_Rules g) =? 0)%nat = false ↔ g_Rules g ≠ []) as Hne
    by (destruct (g_Rules g); done).
  rewrite Nat.eqb_neq in Hne. setoid_rewrite Nat.eqb_neq. split.
  - intros (Hn & Hs & [] & Hp & Hr & [] & (Hrs & Hnd & _) & Hgs & Hgnd & Hf & Hnin).
    repeat split; auto. by apply Hne.
  - intros ([(Hn & Hp & Hr & Hrs & Hnd) Hgs] & [Hnin Hgnd] & [Hs Hf]).
    split; [done|]. split; [done|]. exists (). split; [done|]. split; [by apply Hne|].
    exists (). repeat split; auto. apply Forall_forall. set_solver.
Qed.

Lemma validate_ok c u : validate c = Ok u ↔ Config_ok c.
Proof.
  destruct u. unfold validate, Config_ok.
  rewrite !reject_bind_ok, !not_in_false, validate_groups_ok.
  assert ((length (c_Groups c) =? 0)%nat = false ↔ c_Groups c ≠ []) as ->
    by (destruct (c_Groups c); done).
  split; [naive_solver|]. intros (? & ? & ? & ? & ?). repeat split; auto.
  apply Forall_forall. set_solver.
Qed.

(** ** What compile establishes *)

(** [p] is the program of the source [src] in the environment [e]. *)
Definition prog_for (e : Env) (scope : Scope) (kind src : string) (p : Program) : Prop :=
  compile_uncached e src scope (kind_type kind) = Ok p.

Definition mutation_compiled (e : Env) (scope : Scope) (m : Mutation) : Prop :=
  (m_Op m = "directResponse" →
     ∃ hp bp, m_headersProg m = Some hp ∧ prog_for e scope "stringmap" (m_Headers m) hp ∧
              m_bodyProg m = Some bp ∧ prog_for e scope "string" (m_Body m) bp) ∧
  (m_Op m ∈ ["setHeader"; "appendHeader"; "setBody"] →
     ∃ vp, m_valueProg m = Some vp ∧ prog_for e scope "string" (m_Value m) vp) ∧
  (m_Op m = "setStatus" →
     ∃ cp, m_codeProg m = Some cp ∧ prog_for e scope "int" (m_Code m) cp).

Definition rule_compiled (e : Env) (scope : Scope) (r : Rule) : Prop :=
  (∃ p, r_matchProg r = Some p ∧ prog_for e scope "bool" (r_Match r) p) ∧
  Forall (mutation_compiled e scope) (r_Mutations r).

Definition group_compiled (e : Env) (g : Group) : Prop :=
  let scope := group_scope (g_Parameters g) in
  (if blank (g_Match g) then g_matchProg g = None
   else ∃ p, g_matchProg g = Some p ∧ prog_for e scope "bool" (g_Match g) p) ∧
  Forall (rule_compiled e scope) (g_Rules g).

(** The source fields, without the programs. *)
Definition erase_mutation (m : Mutation) : Mutation :=
  mkMutation (m_Op m) (m_Name m) (m_Value m) (m_Code m) (m_Status m) (m_Headers m) (m_Body m)
    None None None None.
Definition erase_rule (r : Rule) : Rule :=
  mkRule (r_Name r) (r_Description r) (r_Match r) (r_Validation r)
    (map erase_mutation (r_Mutations r)) (r_DryRun r) None.
Definition erase_group (g : Group) : Group :=
  mkGroup (g_Name g) (g_Description g) (g_Parameters g) (g_Match g)
    (map erase_rule (g_Rules g)) None.

Lemma map_state_inv {S A E} (f : nat → S → A → result E (A * S)) (I : S → Prop)
    (Q : A → A → Prop) i s l l' s' :
  (∀ i s a a' s', a ∈ l → I s → f i s a = Ok (a', s') → I s' ∧ Q a a') →
  I s → map_state f i s l = Ok (l', s') → I s' ∧ Forall2 Q l l'.
Proof.
  revert i s l'. induction l as [|a l IH]; intros i s l' Hf Hs; cbn.
  { intros [= <- <-]. by repeat constructor. }
  rewrite result_bind_ok. intros ([a1 s1] & Ha & Hl).
  rewrite result_bind_ok in Hl. destruct Hl as ([l2 s2] & Hl & [= <- <-]).
  destruct (Hf _ _ _ _ _ ltac:(left) Hs Ha) as [Hs1 HQ].
  destruct (IH _ _ _ (λ i s a a' s' Hin, Hf i s a a' s' ltac:(by right)) Hs1 Hl) as [? ?].
  split; [done|by constructor].
Qed.

(** The state of the loops: a coherent cache over the same two environments. *)
Definition env_over (e0 e : Env) : Prop :=
  cache_coherent e ∧ requestEnv e = requestEnv e0 ∧ responseEnv e = responseEnv e0.

Lemma prog_for_over e0 e scope kind src p :
  env_over e0 e → prog_for e scope kind src p → prog_for e0 scope kind src p.
Proof.
  intros (_ & Hq & Hp). unfold prog_for, compile_uncached, envForScope. destruct scope.
  - by rewrite Hq.
  - by rewrite Hp.
Qed.

Lemma Env_compile_over e0 e src scope kind p e' :
  env_over e0 e → Env_compile e src scope kind (kind_type kind) = Ok (p, e') →
  env_over e0 e' ∧ prog_for e0 scope kind src p.
Proof.
  intros Hov Hc. pose proof Hov as (Hco & Hq & Hp).
  apply Env_compile_coherent in Hc as (Hu & Hco' & Hq' & Hp'); [|done]. split.
  - split; [done|]. by rewrite Hq', Hp'.
  - by eapply prog_for_over.
Qed.

Lemma map_err_ok {E F A} (f : E → F) (r : result E A) a : map_err f r = Ok a ↔ r = Ok a.
Proof. destruct r; cbn; naive_solver. Qed.

Lemma compile_mutation_over g r scope e0 mi e m m' e' :
  env_over e0 e → compile_mutation g r scope mi e m = Ok (m', e') →
  env_over e0 e' ∧ mutation_compiled e0 scope m' ∧ erase_mutation m' = erase_mutation m.
Proof.
  intros Hov. unfold compile_mutation, mutation_compiled.
  destruct (String.eqb_spec (m_Op m) "directResponse") as [E1|N1].
  { intros Hc. rewrite result_bind_ok in Hc. destruct Hc as ([hp e1] & H1%map_err_ok & Hc).
    rewrite result_bind_ok in Hc. destruct Hc as ([bp e2] & H2%map_err_ok & [= <- <-]).
    apply (Env_compile_over e0 _ _ _ "stringmap") in H1 as [Hov1 Hp1]; [|done].
    apply (Env_compile_over e0 _ _ _ "string") in H2 as [Hov2 Hp2]; [|done].
    split; [done|]. split; [|done]. cbn. rewrite E1.
    split_and!; [eauto 10|by intros ?%is_in_true|done]. }
  destruct (is_in (m_Op m) _) eqn:E2.
  { apply is_in_true in E2.
    intros Hc. rewrite result_bind_ok in Hc. destruct Hc as ([vp e1] & H1%map_err_ok & [= <- <-]).
    apply (Env_compile_over e0 _ _ _ "string") in H1 as [Hov1 Hp1]; [|done].
    split; [done|]. split; [|done]. cbn. split_and!; [done|eauto|].
    intros E3. rewrite E3 in E2. by apply is_in_true in E2. }
  apply not_true_iff_false in E2. rewrite is_in_true in E2.
  destruct (String.eqb_spec (m_Op m) "setStatus") as [E3|N3].
  { intros Hc. rewrite result_bind_ok in Hc. destruct Hc as ([cp e1] & H1%map_err_ok & [= <- <-]).
    apply (Env_compile_over e0 _ _ _ "int") in H1 as [Hov1 Hp1]; [|done].
    split; [done|]. split; [|done]. cbn. rewrite E3.
    split_and!; [done|by intros ?%is_in_true|eauto]. }
  intros [= <- <-]. split; [done|]. by split_and!.
Qed.

Lemma Forall2_erase {A B} (f : A → B) (P : A → Prop) l l' :
  Forall2 (λ a a', P a' ∧ f a' = f a) l l' → Forall P l' ∧ map f l' = map f l.
Proof.
  induction 1 as [|a a' l l' [HP Hf] _ [IH1 IH2]]; cbn; [done|].
  split; [by constructor|by rewrite Hf, IH2].
Qed.

Lemma compile_rule_over g scope e0 ri e r r' e' :
  env_over e0 e → compile_rule g scope ri e r = Ok (r', e') →
  env_over e0 e' ∧ rule_compiled e0 scope r' ∧ erase_rule r' = erase_rule r.
Proof.
  intros Hov Hc. unfold compile_rule in Hc. rewrite result_bind_ok in Hc.
  destruct Hc as ([p e1] & H1%map_err_ok & Hc). rewrite result_bind_ok in Hc.
  destruct Hc as ([ms e2] & H2 & [= <- <-]).
  apply (Env_compile_over e0 _ _ _ "bool") in H1 as [Hov1 Hp1]; [|done].
  eapply (map_state_inv _ (env_over e0)
    (λ m m', mutation_compiled e0 scope m' ∧ erase_mutation m' = erase_mutation m)) in H2
    as [Hov2 Hms]; [|by eauto using compile_mutation_over|done].
  apply Forall2_erase in Hms as [Hms Her].
  split; [done|]. split; [split; cbn; eauto|]. unfold erase_rule. cbn. by rewrite Her.
Qed.

Lemma compile_group_over e0 gi e g g' e' :
  g_matchProg g = None → env_over e0 e → compile_group gi e g = Ok (g', e') →
  env_over e0 e' ∧ group_compiled e0 g' ∧ erase_group g' = erase_group g.
Proof.
  intros Hnone Hov Hc. unfold compile_group in Hc. rewrite result_bind_ok in Hc.
  destruct Hc as ([gp e1] & H1 & Hc). rewrite result_bind_ok in Hc.
  destruct Hc as ([rs e2] & H2 & [= <- <-]).
  assert (env_over e0 e1 ∧ (if blank (g_Match g) then gp = None
    else ∃ p, gp = Some p ∧ prog_for e0 (group_scope (g_Parameters g)) "bool" (g_Match g) p))
    as [Hov1 Hgp].
  { destruct (blank (g_Match g)); [by injection H1 as <- <-|].
    rewrite result_bind_ok in H1. destruct H1 as ([p e3] & H1%map_err_ok & [= <- <-]).
    apply (Env_compile_over e0 _ _ _ "bool") in H1 as [Hov1 Hp1]; [|done]. eauto. }
  eapply (map_state_inv _ (env_over e0)
    (λ r r', rule_compiled e0 (group_scope (g_Parameters g)) r' ∧ erase_rule r' = erase_rule r)) in H2
    as [Hov2 Hrs]; [|by eauto using compile_rule_over|done].
  apply Forall2_erase in Hrs as [Hrs Her].
  split; [done|]. split; [split; cbn; done|]. unfold erase_group. cbn. by rewrite Her.
Qed.

(** *** Validity only looks at the source fields *)

Lemma rule_ok_erase p r : rule_ok p (erase_rule r) ↔ rule_ok p r.
Proof.
  unfold rule_ok. cbn. rewrite length_map. destruct (String.eqb (p_Engine p) "extAuthz").
  - assert (map erase_mutation (r_Mutations r) = [] ↔ r_Mutations r = []) as Hnil
      by by destruct (r_Mutations r).
    by setoid_rewrite Hnil.
  - rewrite Forall_map.
    change (Forall (λ x, mutation_ok (p_Phase p) (erase_mutation x)) (r_Mutations r))
      with (Forall (mutation_ok (p_Phase p)) (r_Mutations r)).
    assert ((∃ m, m ∈ map erase_mutation (r_Mutations r) ∧ m_Op m = "directResponse") ↔
            (∃ m, m ∈ r_Mutations r ∧ m_Op m = "directResponse")) as ->; [|done].
    split; intros (m & Hm & Hop).
    + apply list_elem_of_fmap in Hm as (m' & -> & Hm). by exists m'.
    + exists (erase_mutation m). split; [apply list_elem_of_fmap; eauto|done].
Qed.

Lemma group_ok_erase g : group_ok (erase_group g) ↔ group_ok g.
Proof.
  unfold group_ok. cbn. rewrite Forall_map, map_map.
  change (map (λ x, r_Name (erase_rule x)) (g_Rules g)) with (map r_Name (g_Rules g)).
  assert (map erase_rule (g_Rules g) = [] ↔ g_Rules g = []) as -> by by destruct (g_Rules g).
  assert (Forall (λ r, rule_ok (g_Parameters g) (erase_rule r)) (g_Rules g) ↔
          Forall (rule_ok (g_Parameters g)) (g_Rules g)) as ->; [|done].
  apply Forall_iff. intros r. apply rule_ok_erase.
Qed.

Lemma groups_ok_erase gs gs' :
  map erase_group gs' = map erase_group gs → Forall group_ok gs → Forall group_ok gs'.
Proof.
  intros He Hgs. apply (Forall_iff (λ g, group_ok (erase_group g))); [intros; apply group_ok_erase|].
  rewrite <- Forall_map, He, Forall_map. eapply Forall_impl; [done|]. intros g. apply group_ok_erase.
Qed.

End policy.

Class YamlPolicy `{CelGo} := {
  yaml_Unmarshal_Config : string → result string Config;
  yaml_unexported : ∀ b c, yaml_Unmarshal_Config b = Ok c → uncompiled c;
}.

Section load.
Context `{CelGo, UnicodeTables, !YamlPolicy}.

(** [LoadBytes]. *)
Definition LoadBytes (b : string) : result load_error Config :=
  match yaml_Unmarshal_Config b with
  | Err err => Err (LErrYaml err)
  | Ok c =>
      let c := applyDefaults c in
      map_err LErrValidate (validate c);;
      env ← map_err LErrCelEnv celenv_New;
      reg ← map_err LErrFacts (facts_New (c_Facts c));
      let c := mkConfig (c_Defaults c) (c_Logging c) (c_Facts c) (c_Groups c)
                 (Some env) (Some reg) in
      Config_compile c env
  end.

(** [Config.Start] and [Config.Stop]; [Stop] is its effect on the registry up to
    the wait. *)
Definition Config_Start `{GoRange, FactsWorld} (c : Config) : outcome (Config * option facts_error) :=
  match c_registry c with
  | None => Ret (c, None)
  | Some reg =>
      '(reg', err) ← Registry_Start reg;
      Ret (mkConfig (c_Defaults c) (c_Logging c) (c_Facts c) (c_Groups c) (c_env c) (Some reg'), err)
  end.

Definition Config_Stop (c : Config) : Config :=
  mkConfig (c_Defaults c) (c_Logging c) (c_Facts c) (c_Groups c) (c_env c)
    (Stop_cancel <$> c_registry c).

(** ** What LoadBytes establishes *)

(** A policy the servers may install: valid, with its defaults filled in, every
    expression compiled in the scope of its group, the declared facts in its
    registry, whatever their values. *)
Definition loaded (c : Config) : Prop :=
  Config_ok c ∧
  defaults_filled (c_Defaults c) = c_Defaults c ∧ logging_filled (c_Logging c) = c_Logging c ∧
  ∃ e reg reg0, celenv_New = Ok e ∧ Forall (group_compiled e) (c_Groups c) ∧
    c_registry c = Some reg ∧ facts_New (c_Facts c) = Ok reg0 ∧
    dom (entries reg) = dom (entries reg0).

(** The registry as [New] builds it: not started yet. *)
Definition unstarted (c : Config) : Prop :=
  ∃ reg, c_registry c = Some reg ∧ facts_New (c_Facts c) = Ok reg.

Definition with_registry (c : Config) (reg : Registry) : Config :=
  mkConfig (c_Defaults c) (c_Logging c) (c_Facts c) (c_Groups c) (c_env c) (Some reg).

Lemma or_str_idem s d : or_str (or_str s d) d = or_str s d.
Proof.
  unfold or_str. destruct (String.eqb_spec s ε) as [->|Hs].
  - by destruct (String.eqb_spec d ε).
  - by destruct (String.eqb_spec s ε).
Qed.

Lemma or_int_idem z d : or_int (or_int z d) d = or_int z d.
Proof. unfold or_int. destruct (z =? 0) eqn:E; [by destruct (d =? 0)|by rewrite E]. Qed.

Lemma defaults_filled_idem d : defaults_filled (defaults_filled d) = defaults_filled d.
Proof. unfold defaults_filled. cbn. by rewrite !or_str_idem, !or_int_idem. Qed.

Lemma logging_filled_idem l : logging_filled (logging_filled l) = logging_filled l.
Proof. unfold logging_filled. cbn. by rewrite !or_str_idem, or_int_idem. Qed.

Lemma map_erase_names gs gs' :
  map erase_group gs' = map erase_group gs → map g_Name gs' = map g_Name gs.
Proof.
  intros He. apply (f_equal (map g_Name)) in He. rewrite !map_map in He. exact He.
Qed.

Lemma LoadBytes_loaded b c : LoadBytes b = Ok c → loaded c ∧ unstarted c.
Proof.
  unfold LoadBytes. destruct (yaml_Unmarshal_Config b) as [c0|] eqn:Ey; [|done].
  apply yaml_unexported in Ey as (_ & _ & Hun).
  rewrite result_bind_ok. intros ([] & Hv%map_err_ok & Hl). apply validate_ok in Hv.
  rewrite result_bind_ok in Hl. destruct Hl as (e & He%map_err_ok & Hl).
  rewrite result_bind_ok in Hl. destruct Hl as (reg & Hr%map_err_ok & Hl).
  unfold Config_compile in Hl. rewrite result_bind_ok in Hl.
  destruct Hl as ([gs e'] & Hgs & [= <-]). cbn in *.
  eapply (map_state_inv _ (env_over e)
    (λ g g', group_compiled e g' ∧ erase_group g' = erase_group g)) in Hgs as [_ Hgs].
  - apply Forall2_erase in Hgs as [Hco Her].
    destruct Hv as (Hact & Hovf & Hne & Hok & Hnd). split; [|by eexists]. repeat split; try done.
    + cbn. intros ->. symmetry in Her. by apply map_eq_nil in Her.
    + by eapply groups_ok_erase.
    + cbn. rewrite (map_erase_names _ _ Her). exact Hnd.
    + apply defaults_filled_idem.
    + apply logging_filled_idem.
    + eauto 10.
  - intros i s g g' s' Hin Hov. apply compile_group_over; [|done].
    rewrite Forall_forall in Hun. by apply Hun.
  - split; [by apply celenv_New_coherent|done].
Qed.

(** Replacing the registry by a later state of it keeps a policy loaded. *)
Lemma loaded_with_registry c reg reg' :
  loaded c → c_registry c = Some reg → dom (entries reg') = dom (entries reg) →
  loaded (with_registry c reg').
Proof.
  intros (Hok & Hd & Hl & e & r & r0 & He & Hg & Hr & Hn & Hdom) Hreg Hdom'.
  split_and!; try done. exists e, reg', r0. split_and!; try done. congruence.
Qed.

(** A program compiled for a group mentions only the variables of its scope. *)
Lemma prog_for_vars e scope kind src p :
  celenv_New = Ok e → prog_for e scope kind src p →
  prog_vars p ⊆ declared (match scope with ScopeRequest => reqOpts | ScopeResponse => respOpts end).
Proof.
  unfold celenv_New, prog_for, compile_uncached, envForScope.
  destruct (cel_NewEnv reqOpts) as [q|] eqn:Eq; [|done].
  destruct (cel_NewEnv respOpts) as [p'|] eqn:Ep; [|done]. intros [= <-]. cbn.
  destruct scope; repeat (go_case; try done); intros [= <-]; by eapply cel_Compile_scoped.
Qed.

End load.
