(* ===== verification/Evaluate.v ===== *)
(** * internal/policy/policy.go: requests, and the ext-authz evaluator

    The projection of a request and a response into the values CEL sees
    ([buildRequestVar], [buildResponseVar]), and [Evaluate] with [evalGroup] and
    [errorDecision].  encoding/json and yaml.v3 decoding bodies are the class
    [Decoders]. *)

From S2P Require Import Prelude GoStrings GoHttp GoValues CelEnv Facts Policy.
Local Open Scope Z_scope.

Record Decision := mkDecision {
  Allowed : bool;
  d_Rule : string;
  d_Reason : string;
  d_Dry : bool;
}.

Record Request := mkRequest {
  q_Method : string;
  q_Scheme : string;
  q_Host : string;
  q_Path : string;
  q_RawQuery : string;
  q_RemoteIP : string;
  q_Headers : Header;
  q_Body : string;
}.

Record Response := mkResponse {
  s_Status : Z;
  s_Headers : Header;
  s_Body : string;
}.

(** [None] is a decoding error; [sprint_other] is [fmt.Sprint] on the values whose
    rendering needs Go's formatting tables (floats, times). *)
Class Decoders := {
  json_Unmarshal : string → option gval;
  yaml_Unmarshal : string → option gval;
  sprint_other : gval → string;
}.

Section request.
Context `{UnicodeTables, GoRange, Decoders}.

(** [fmt.Sprint] on a map key. *)
Definition Sprint (v : gval) : string :=
  match v with
  | GString s => s
  | GInt z | GInt32 z | GInt64 z => Itoa z
  | GBool b => if b then "true" else "false"
  | GNil => "<nil>"
  | _ => sprint_other v
  end.

(** [normaliseDecoded]: a [map[any]any] becomes a [map[string]any], its entries
    written in iteration order. *)
Fixpoint normaliseDecoded (v : gval) : gval :=
  match v with
  | GMapAny m =>
      GMap (foldl (λ out kv, map_set out kv.1 kv.2) []
              (map (λ kv, (Sprint kv.1, normaliseDecoded kv.2)) m))
  | GMap m => GMap (map (λ kv, (kv.1, normaliseDecoded kv.2)) m)
  | GList l => GList (map normaliseDecoded l)
  | _ => v
  end.

Definition tryJSON (b : string) : option gval :=
  if len b =? 0 then None else normaliseDecoded <$> json_Unmarshal b.

Definition tryYAML (b : string) : option gval :=
  if len b =? 0 then None else normaliseDecoded <$> yaml_Unmarshal b.

(** The loop shared by both projections: every value and first value per
    lower-cased header name. *)
Definition header_step (acc : gmap string (list string) * gmap string string)
    (kv : string * list string) : gmap string (list string) * gmap string string :=
  let lk := ToLower kv.1 in
  (<[lk := kv.2]> acc.1,
   match kv.2 with v :: _ => <[lk := v]> acc.2 | [] => acc.2 end).

Definition project_headers (h : Header) : gmap string (list string) * gmap string string :=
  foldl header_step (∅, ∅) (range_map h).

(** The same over the parsed query, whose keys are kept as they are. *)
Definition query_step (acc : gmap string (list string) * gmap string string)
    (kv : string * list string) : gmap string (list string) * gmap string string :=
  (<[kv.1 := kv.2]> acc.1,
   match kv.2 with v :: _ => <[kv.1 := v]> acc.2 | [] => acc.2 end).

Definition project_query (rawQuery : string) : gmap string (list string) * gmap string string :=
  if String.eqb rawQuery ε then (∅, ∅)
  else match ParseQuery rawQuery with
       | Some qs => foldl query_step (∅, ∅) (range_map qs)
       | None => (∅, ∅)
       end.

Definition body_var (body contentType : string) : list (string * gval) :=
  [("raw", GString body); ("size", GInt64 (len body)); ("contentType", GString contentType)] ++
  match tryJSON body with
  | Some jv => [("json", jv); ("jsonOk", GBool true)]
  | None => [("json", GMap []); ("jsonOk", GBool false)]
  end ++
  match tryYAML body with
  | Some yv => [("yaml", yv); ("yamlOk", GBool true)]
  | None => [("yaml", GMap []); ("yamlOk", GBool false)]
  end.

(** [buildRequestVar]. *)
Definition buildRequestVar (r : Request) : gval :=
  let '(headersAll, headersFirst) := project_headers (q_Headers r) in
  let '(queryAll, queryFirst) := project_query (q_RawQuery r) in
  GMap [("method", GString (q_Method r)); ("scheme", GString (q_Scheme r));
        ("host", GString (q_Host r)); ("path", GString (q_Path r));
        ("remoteIp", GString (q_RemoteIP r)); ("headers", GMapStrings headersAll);
        ("header", GMapString headersFirst); ("queries", GMapStrings queryAll);
        ("query", GMapString queryFirst);
        ("body", GMap (body_var (q_Body r) (default ε (headersFirst !! "content-type"))))].

(** [buildResponseVar]; a nil response is the empty map. *)
Definition buildResponseVar (resp : option Response) : gval :=
  match resp with
  | None => GMap []
  | Some resp =>
      let '(headersAll, headersFirst) := project_headers (s_Headers resp) in
      GMap [("status", GInt64 (s_Status resp)); ("headers", GMapStrings headersAll);
            ("header", GMapString headersFirst);
            ("body", GMap (body_var (s_Body resp) (default ε (headersFirst !! "content-type"))))]
  end.

End request.

(** ** The evaluator *)

Section evaluate.
Context `{CelGo, UnicodeTables, GoRange, Decoders}.

(** [Config.snapshot]. *)
Definition snapshot (c : Config) : gmap string gval :=
  match c_registry c with None => ∅ | Some reg => Snapshot reg end.

Definition request_vars (r : Request) (factsVar : gmap string gval) : gmap string gval :=
  <["request" := buildRequestVar r]> (<["facts" := GMap (range_map factsVar)]> ∅).

(** [errorDecision]. *)
Definition errorDecision (c : Config) (rule reason : string) (dry : bool) : Decision :=
  if ea_AllowOnError (d_ExtAuthz (c_Defaults c))
  then mkDecision true rule (reason +:+ " (allowOnError)") dry
  else mkDecision false rule reason dry.

Definition rule_id (g : Group) (r : Rule) : string := g_Name g +:+ "/" +:+ r_Name r.

Definition matchAll_failed (g : Group) (r : Rule) : Decision :=
  mkDecision false (rule_id g r) ("matchAll: rule " +:+ r_Name r +:+ " failed") (r_DryRun r).

Definition matchAll_held (g : Group) : Decision :=
  mkDecision true (g_Name g) "matchAll: all rules held" false.

Definition matched (g : Group) (r : Rule) (v : Validation) : Decision :=
  mkDecision (String.eqb (v_Action v) "allow") (rule_id g r) "matched" (r_DryRun r).

Definition rule_error (c : Config) (g : Group) (r : Rule) (err : string) : Decision :=
  errorDecision c (rule_id g r) ("match error: " +:+ err) (r_DryRun r).

Definition group_error (c : Config) (g : Group) (err : string) : Decision :=
  errorDecision c (g_Name g) ("group match error: " +:+ err) false.

(** The loop of the mode [matchAll]. *)
Fixpoint matchAll_loop (c : Config) (g : Group) (vars : gmap string gval) (rs : list Rule) :
    outcome Decision :=
  match rs with
  | [] => Ret (matchAll_held g)
  | r :: rs' =>
      res ← EvalBool (r_matchProg r) (Some vars);
      match res with
      | Err err => Ret (rule_error c g r err)
      | Ok false => Ret (matchAll_failed g r)
      | Ok true => matchAll_loop c g vars rs'
      end
  end.

(** The loop of the mode [firstMatch]: [None] when no rule decides. *)
Fixpoint firstMatch_loop (c : Config) (g : Group) (vars : gmap string gval) (rs : list Rule) :
    outcome (option Decision) :=
  match rs with
  | [] => Ret None
  | r :: rs' =>
      res ← EvalBool (r_matchProg r) (Some vars);
      match res with
      | Err err => Ret (Some (rule_error c g r err))
      | Ok true =>
          match r_Validation r with
          | None => Panic
          | Some v => Ret (Some (matched g r v))
          end
      | Ok false => firstMatch_loop c g vars rs'
      end
  end.

Definition eval_rules (c : Config) (g : Group) (vars : gmap string gval) :
    outcome (option Decision) :=
  if String.eqb (p_Mode (g_Parameters g)) "matchAll"
  then d ← matchAll_loop c g vars (g_Rules g); Ret (Some d)
  else firstMatch_loop c g vars (g_Rules g).

(** [evalGroup]. *)
Definition evalGroup (c : Config) (g : Group) (vars : gmap string gval) :
    outcome (option Decision) :=
  match g_matchProg g with
  | None => eval_rules c g vars
  | Some p =>
      res ← EvalBool (Some p) (Some vars);
      match res with
      | Err err => Ret (Some (group_error c g err))
      | Ok false => Ret None
      | Ok true => eval_rules c g vars
      end
  end.

Definition default_decision (c : Config) : Decision :=
  mkDecision (String.eqb (ea_Action (d_ExtAuthz (c_Defaults c))) "allow")
    "<defaults>" "no group matched" false.

Definition is_extAuthz (g : Group) : bool := String.eqb (p_Engine (g_Parameters g)) "extAuthz".

Fixpoint eval_groups (c : Config) (vars : gmap string gval) (gs : list Group) : outcome Decision :=
  match gs with
  | [] => Ret (default_decision c)
  | g :: gs' =>
      if negb (is_extAuthz g) then eval_groups c vars gs'
      else
        d ← evalGroup c g vars;
        match d with
        | Some d => Ret d
        | None => eval_groups c vars gs'
        end
  end.

(** [Config.Evaluate]. *)
Definition Evaluate (c : Config) (r : Request) : outcome Decision :=
  eval_groups c (request_vars r (snapshot c)) (c_Groups c).

(** ** The documented semantics

    The verdict a group produces, as the documentation states it: the optional
    group expression filters; in [firstMatch] the first rule that matches decides;
    in [matchAll] every rule must match; an evaluation error decides according to
    [allowOnError]. *)

Definition matches (vars : gmap string gval) (b : bool) (r : Rule) : Prop :=
  EvalBool (r_matchProg r) (Some vars) = Ret (Ok b).
Definition match_fails (vars : gmap string gval) (err : string) (r : Rule) : Prop :=
  EvalBool (r_matchProg r) (Some vars) = Ret (Err err).

Inductive rules_verdict (c : Config) (g : Group) (vars : gmap string gval) :
    option Decision → Prop :=
| RV_first pre r v post :
    p_Mode (g_Parameters g) = "firstMatch" → g_Rules g = pre ++ r :: post →
    Forall (matches vars false) pre → matches vars true r → r_Validation r = Some v →
    rules_verdict c g vars (Some (matched g r v))
| RV_first_error pre r post err :
    p_Mode (g_Parameters g) = "firstMatch" → g_Rules g = pre ++ r :: post →
    Forall (matches vars false) pre → match_fails vars err r →
    rules_verdict c g vars (Some (rule_error c g r err))
| RV_first_none :
    p_Mode (g_Parameters g) = "firstMatch" → Forall (matches vars false) (g_Rules g) →
    rules_verdict c g vars None
| RV_all :
    p_Mode (g_Parameters g) = "matchAll" → Forall (matches vars true) (g_Rules g) →
    rules_verdict c g vars (Some (matchAll_held g))
| RV_all_failed pre r post :
    p_Mode (g_Parameters g) = "matchAll" → g_Rules g = pre ++ r :: post →
    Forall (matches vars true) pre → matches vars false r →
    rules_verdict c g vars (Some (matchAll_failed g r))
| RV_all_error pre r post err :
    p_Mode (g_Parameters g) = "matchAll" → g_Rules g = pre ++ r :: post →
    Forall (matches vars true) pre → match_fails vars err r →
    rules_verdict c g vars (Some (rule_error c g r err)).

Inductive group_verdict (c : Config) (g : Group) (vars : gmap string gval) :
    option Decision → Prop :=
| GV_unguarded d :
    g_matchProg g = None → rules_verdict c g vars d → group_verdict c g vars d
| GV_guard_true p d :
    g_matchProg g = Some p → EvalBool (Some p) (Some vars) = Ret (Ok true) →
    rules_verdict c g vars d → group_verdict c g vars d
| GV_guard_false p :
    g_matchProg g = Some p → EvalBool (Some p) (Some vars) = Ret (Ok false) →
    group_verdict c g vars None
| GV_guard_error p err :
    g_matchProg g = Some p → EvalBool (Some p) (Some vars) = Ret (Err err) →
    group_verdict c g vars (Some (group_error c g err)).

(** Groups in declared order, extAuthz groups only; the first verdict wins. *)
Inductive policy_verdict (c : Config) (vars : gmap string gval) : Decision → Prop :=
| PV_group pre g post d :
    filter (λ g, is_extAuthz g = true) (c_Groups c) = pre ++ g :: post →
    Forall (λ g, group_verdict c g vars None) pre → group_verdict c g vars (Some d) →
    policy_verdict c vars d
| PV_default :
    Forall (λ g, group_verdict c g vars None) (filter (λ g, is_extAuthz g = true) (c_Groups c)) →
    policy_verdict c vars (default_decision c).

(** ** Lemmas *)

(** A group of a loaded policy that takes part in ext-authz. *)
Definition authz_ready (g : Group) : Prop :=
  p_Mode (g_Parameters g) ∈ ["firstMatch"; "matchAll"] ∧
  Forall (λ r, is_Some (r_matchProg r) ∧ is_Some (r_Validation r)) (g_Rules g).

Lemma loaded_authz_ready c g :
  loaded c → g ∈ c_Groups c → is_extAuthz g = true → authz_ready g.
Proof.
  intros ((_ & _ & _ & Hok & _) & _ & _ & e & reg & reg0 & _ & Hco & _) Hg He.
  rewrite Forall_forall in Hok, Hco. destruct (Hok g Hg) as (_ & Hp & _ & Hr & _).
  destruct (Hco g Hg) as [_ Hrc]. unfold is_extAuthz in He. split.
  - apply String.eqb_eq in He. destruct Hp as [(_&?&_)|(E&_)]; [done|]. congruence.
  - rewrite Forall_forall in Hr, Hrc |- *. intros r Hin.
    destruct (Hrc r Hin) as [(p & -> & _) _]. destruct (Hr r Hin) as (_ & _ & Hv).
    rewrite He in Hv. destruct Hv as (v & -> & _). eauto.
Qed.

Lemma eval_matchAll c g vars rs :
  Forall (λ r, is_Some (r_matchProg r)) rs →
  ∃ d, matchAll_loop c g vars rs = Ret d ∧
  ((d = matchAll_held g ∧ Forall (matches vars true) rs) ∨
   (∃ pre r post, rs = pre ++ r :: post ∧ Forall (matches vars true) pre ∧
      ((d = matchAll_failed g r ∧ matches vars false r) ∨
       (∃ err, d = rule_error c g r err ∧ match_fails vars err r)))).
Proof.
  induction rs as [|r rs IH]; intros Hs.
  { eexists. split; [done|]. left. by split. }
  apply Forall_cons in Hs as [[p Hp] Hs]. cbn. rewrite Hp.
  destruct (EvalBool_no_panic p (Some vars)) as [res Hres]. rewrite Hres. cbn.
  destruct res as [[|]|err].
  - destruct (IH Hs) as (d & -> & Hd). exists d. split; [done|].
    assert (matches vars true r) by (unfold matches; by rewrite Hp).
    destruct Hd as [[-> Hall]|(pre & r' & post & -> & Hpre & Hcase)].
    + left. split; [done|by constructor].
    + right. exists (r :: pre), r', post. split_and!; [done|by constructor|done].
  - eexists. split; [done|]. right. exists [], r, rs. split_and!; [done|done|]. left.
    split; [done|]. unfold matches. by rewrite Hp.
  - eexists. split; [done|]. right. exists [], r, rs. split_and!; [done|done|]. right.
    exists err. split; [done|]. unfold match_fails. by rewrite Hp.
Qed.

Lemma eval_firstMatch c g vars rs :
  Forall (λ r, is_Some (r_matchProg r) ∧ is_Some (r_Validation r)) rs →
  ∃ d, firstMatch_loop c g vars rs = Ret d ∧
  ((d = None ∧ Forall (matches vars false) rs) ∨
   (∃ pre r post, rs = pre ++ r :: post ∧ Forall (matches vars false) pre ∧
      ((∃ v, d = Some (matched g r v) ∧ r_Validation r = Some v ∧ matches vars true r) ∨
       (∃ err, d = Some (rule_error c g r err) ∧ match_fails vars err r)))).
Proof.
  induction rs as [|r rs IH]; intros Hs.
  { eexists. split; [done|]. left. by split. }
  apply Forall_cons in Hs as [[[p Hp] [v Hv]] Hs]. cbn. rewrite Hp, Hv.
  destruct (EvalBool_no_panic p (Some vars)) as [res Hres]. rewrite Hres. cbn.
  destruct res as [[|]|err].
  - eexists. split; [done|]. right. exists [], r, rs. split_and!; [done|done|]. left.
    exists v. split_and!; [done|done|]. unfold matches. by rewrite Hp.
  - destruct (IH Hs) as (d & -> & Hd). exists d. split; [done|].
    assert (matches vars false r) by (unfold matches; by rewrite Hp).
    destruct Hd as [[-> Hall]|(pre & r' & post & -> & Hpre & Hcase)].
    + left. split; [done|by constructor].
    + right. exists (r :: pre), r', post. split_and!; [done|by constructor|done].
  - eexists. split; [done|]. right. exists [], r, rs. split_and!; [done|done|]. right.
    exists err. split; [done|]. unfold match_fails. by rewrite Hp.
Qed.

(** Running the rules gives the documented verdict. *)
Lemma eval_rules_verdict c g vars :
  authz_ready g → ∃ d, eval_rules c g vars = Ret d ∧ rules_verdict c g vars d.
Proof.
  intros [Hm Hr]. unfold eval_rules.
  destruct (String.eqb_spec (p_Mode (g_Parameters g)) "matchAll") as [Em|Nm].
  - destruct (eval_matchAll c g vars (g_Rules g)) as (d & -> & Hd).
    { eapply Forall_impl; [exact Hr|]. by intros r [? _]. }
    eexists. split; [done|].
    destruct Hd as [[-> Hall]|(pre & r & post & E & Hpre & [[-> ?]|(err & -> & ?)])];
      eauto using rules_verdict.
  - assert (p_Mode (g_Parameters g) = "firstMatch") as Ef by set_solver.
    destruct (eval_firstMatch c g vars (g_Rules g) Hr) as (d & -> & Hd).
    eexists. split; [done|].
    destruct Hd as [[-> Hall]|(pre & r & post & E & Hpre & [(v & -> & ? & ?)|(err & -> & ?)])];
      eauto using rules_verdict.
Qed.

Lemma evalGroup_verdict c g vars :
  authz_ready g → ∃ d, evalGroup c g vars = Ret d ∧ group_verdict c g vars d.
Proof.
  intros Hg. destruct (eval_rules_verdict c g vars Hg) as (d & Hd & Hv). unfold evalGroup.
  destruct (g_matchProg g) as [p|] eqn:Ep; [|eauto using group_verdict].
  destruct (EvalBool_no_panic p (Some vars)) as [res Hres]. rewrite Hres. cbn.
  destruct res as [[|]|err]; eauto using group_verdict.
Qed.

Lemma eval_groups_verdict c vars gs :
  (∀ g, g ∈ gs → is_extAuthz g = true → authz_ready g) →
  ∃ d, eval_groups c vars gs = Ret d ∧
  ((∃ pre g post, filter (λ g, is_extAuthz g = true) gs = pre ++ g :: post ∧
      Forall (λ g, group_verdict c g vars None) pre ∧ group_verdict c g vars (Some d)) ∨
   (d = default_decision c ∧
    Forall (λ g, group_verdict c g vars None) (filter (λ g, is_extAuthz g = true) gs))).
Proof.
  induction gs as [|g gs IH]; intros Hr.
  { eexists. split; [done|]. right. done. }
  cbn [eval_groups]. rewrite filter_cons. destruct (is_extAuthz g) eqn:E; cbn [negb].
  - rewrite decide_True by done. cbn.
    destruct (evalGroup_verdict c g vars) as (o & -> & Ho); [apply Hr; [left|done]|]. cbn.
    destruct o as [d|].
    + exists d. split; [done|]. left. by eexists [], g, _.
    + destruct IH as (d & -> & Hd); [intros; apply Hr; [by right|done]|].
      exists d. split; [done|].
      destruct Hd as [(pre & g' & post & -> & Hpre & Hg')|[-> Hall]].
      * left. exists (g :: pre), g', post. split_and!; [done|by constructor|done].
      * right. split; [done|by constructor].
  - rewrite decide_False by done. apply IH. intros; apply Hr; [by right|done].
Qed.

Lemma Evaluate_verdict c r :
  loaded c → ∃ d, Evaluate c r = Ret d ∧ policy_verdict c (request_vars r (snapshot c)) d.
Proof.
  intros Hl. unfold Evaluate.
  destruct (eval_groups_verdict c (request_vars r (snapshot c)) (c_Groups c)) as (d & Hd & Hv).
  { intros g Hg He. by eapply loaded_authz_ready. }
  exists d. split; [done|].
  destruct Hv as [(pre & g & post & E & Hpre & Hg)|[-> Hall]]; eauto using policy_verdict.
Qed.

End evaluate.
