(* ===== verification/ExtProc.v ===== *)
(** * internal/policy/extproc.go: the ext_proc evaluator

    [EvaluateProc] walks the extProc groups of a phase and resolves the mutations
    of the rules that match; evaluation errors never abort, they skip the group,
    the rule or the mutation they occur in. *)

From S2P Require Import Prelude GoStrings GoHttp GoValues CelEnv Facts Policy Evaluate.
Local Open Scope Z_scope.

Record ResolvedMutation := mkResolved {
  rm_Op : string;
  rm_Name : string;
  rm_Value : string;
  rm_Status : Z;
  rm_RespStatus : Z;
  rm_RespHeaders : gmap string string;
  rm_RespBody : string;
  rm_Rule : string;
  rm_DryRun : bool;
}.

Section extproc.
Context `{CelGo, UnicodeTables, GoRange, Decoders}.

(** One iteration of the loop of [resolveMutations]: [None] is [continue]. *)
Definition resolve_mutation (ruleName : string) (dry : bool) (vars : gmap string gval)
    (m : Mutation) : outcome (option ResolvedMutation) :=
  let op := m_Op m in
  if String.eqb op "directResponse" then
    hdrs ← EvalStringMap (m_headersProg m) (Some vars);
    match hdrs with
    | Err _ => Ret None
    | Ok hdrs =>
        body ← EvalString (m_bodyProg m) (Some vars);
        match body with
        | Err _ => Ret None
        | Ok body => Ret (Some (mkResolved op ε ε 0 (m_Status m) hdrs body ruleName dry))
        end
    end
  else if String.eqb op "setHeader" || String.eqb op "appendHeader" then
    val ← EvalString (m_valueProg m) (Some vars);
    match val with
    | Err _ => Ret None
    | Ok val => Ret (Some (mkResolved op (m_Name m) val 0 0 ∅ ε ruleName dry))
    end
  else if String.eqb op "setBody" then
    val ← EvalString (m_valueProg m) (Some vars);
    match val with
    | Err _ => Ret None
    | Ok val => Ret (Some (mkResolved op ε val 0 0 ∅ ε ruleName dry))
    end
  else if String.eqb op "setStatus" then
    code ← EvalInt (m_codeProg m) (Some vars);
    match code with
    | Err _ => Ret None
    | Ok code => Ret (Some (mkResolved op ε ε code 0 ∅ ε ruleName dry))
    end
  else if String.eqb op "removeHeader" then
    Ret (Some (mkResolved op (m_Name m) ε 0 0 ∅ ε ruleName dry))
  else Ret None.

Fixpoint resolve_list (ruleName : string) (dry : bool) (vars : gmap string gval)
    (ms : list Mutation) : outcome (list ResolvedMutation) :=
  match ms with
  | [] => Ret []
  | m :: ms' =>
      o ← resolve_mutation ruleName dry vars m;
      l ← resolve_list ruleName dry vars ms';
      Ret (match o with Some x => x :: l | None => l end)
  end.

(** [resolveMutations]. *)
Definition resolveMutations (g : Group) (r : Rule) (vars : gmap string gval) :
    outcome (list ResolvedMutation) :=
  resolve_list (rule_id g r) (r_DryRun r) vars (r_Mutations r).

(** The rule loop of the mode [firstMatch]. *)
Fixpoint proc_firstMatch (g : Group) (vars : gmap string gval) (rs : list Rule) :
    outcome (list ResolvedMutation) :=
  match rs with
  | [] => Ret []
  | r :: rs' =>
      res ← EvalBool (r_matchProg r) (Some vars);
      match res with
      | Ok true => resolveMutations g r vars
      | Ok false | Err _ => proc_firstMatch g vars rs'
      end
  end.

(** The rule loop of the mode [applyAll]. *)
Fixpoint proc_applyAll (g : Group) (vars : gmap string gval) (rs : list Rule) :
    outcome (list ResolvedMutation) :=
  match rs with
  | [] => Ret []
  | r :: rs' =>
      res ← EvalBool (r_matchProg r) (Some vars);
      match res with
      | Ok true =>
          l ← resolveMutations g r vars;
          l' ← proc_applyAll g vars rs';
          Ret (l ++ l')
      | Ok false | Err _ => proc_applyAll g vars rs'
      end
  end.

Definition proc_group (g : Group) (vars : gmap string gval) : outcome (list ResolvedMutation) :=
  let run :=
    if String.eqb (p_Mode (g_Parameters g)) "firstMatch" then proc_firstMatch g vars (g_Rules g)
    else if String.eqb (p_Mode (g_Parameters g)) "applyAll" then proc_applyAll g vars (g_Rules g)
    else Ret [] in
  match g_matchProg g with
  | None => run
  | Some p =>
      res ← EvalBool (Some p) (Some vars);
      match res with Ok true => run | Ok false | Err _ => Ret [] end
  end.

Definition in_phase (phase : string) (g : Group) : bool :=
  String.eqb (p_Engine (g_Parameters g)) "extProc" && String.eqb (p_Phase (g_Parameters g)) phase.

Fixpoint proc_groups (phase : string) (vars : gmap string gval) (gs : list Group) :
    outcome (list ResolvedMutation) :=
  match gs with
  | [] => Ret []
  | g :: gs' =>
      if negb (in_phase phase g) then proc_groups phase vars gs'
      else
        l ← proc_group g vars;
        l' ← proc_groups phase vars gs';
        Ret (l ++ l')
  end.

(** The variables of an evaluation: [response] is bound in the response phases. *)
Definition proc_vars (c : Config) (phase : string) (req : Request) (resp : option Response) :
    gmap string gval :=
  let vars := request_vars req (snapshot c) in
  if is_in phase response_phases && is_some resp
  then <["response" := buildResponseVar resp]> vars else vars.

(** [Config.EvaluateProc]; a nil request yields the empty result. *)
Definition EvaluateProc (c : Config) (phase : string) (req : option Request)
    (resp : option Response) : outcome (list ResolvedMutation) :=
  match req with
  | None => Ret []
  | Some req => proc_groups phase (proc_vars c phase req resp) (c_Groups c)
  end.

(** ** The documented semantics, as a comprehension *)

(** An expression holds when it evaluates to true; an error counts as false. *)
Definition holds (p : option Program) (vars : gmap string gval) : bool :=
  match EvalBool p (Some vars) with Ret (Ok b) => b | _ => false end.

(** The mutation an entry resolves to, if its expressions evaluate. *)
Definition resolved (ruleName : string) (dry : bool) (vars : gmap string gval) (m : Mutation) :
    option ResolvedMutation :=
  match resolve_mutation ruleName dry vars m with Ret o => o | Panic => None end.

Definition selected_rules (g : Group) (vars : gmap string gval) : list Rule :=
  let on := filter (λ r, holds (r_matchProg r) vars = true) (g_Rules g) in
  if String.eqb (p_Mode (g_Parameters g)) "firstMatch" then take 1 on else on.

Definition guard_open (g : Group) (vars : gmap string gval) : bool :=
  match g_matchProg g with None => true | Some p => holds (Some p) vars end.

Definition proc_spec (c : Config) (phase : string) (vars : gmap string gval) :
    list ResolvedMutation :=
  g ← filter (λ g, in_phase phase g = true ∧ guard_open g vars = true) (c_Groups c);
  r ← selected_rules g vars;
  omap (resolved (rule_id g r) (r_DryRun r) vars) (r_Mutations r).

(** ** Lemmas *)

(** A rule of a loaded extProc group: its programs are compiled. *)
Definition rule_ready (r : Rule) : Prop :=
  is_Some (r_matchProg r) ∧
  Forall (λ m, ∀ n d vars, no_panic (resolve_mutation n d vars m)) (r_Mutations r).

Definition proc_ready (g : Group) : Prop :=
  p_Mode (g_Parameters g) ∈ ["firstMatch"; "applyAll"] ∧ Forall rule_ready (g_Rules g).

Lemma resolve_mutation_no_panic e scope m n d vars :
  mutation_compiled e scope m → no_panic (resolve_mutation n d vars m).
Proof.
  intros (Hd & Hv & Hs). unfold resolve_mutation.
  destruct (String.eqb_spec (m_Op m) "directResponse") as [E|_].
  { destruct (Hd E) as (hp & bp & -> & _ & -> & _).
    apply no_panic_bind; [apply EvalStringMap_no_panic|]. intros [hdrs|] _; eauto with go.
    apply no_panic_bind; [apply EvalString_no_panic|]. intros [body|] _; eauto with go. }
  destruct (String.eqb (m_Op m) "setHeader" || String.eqb (m_Op m) "appendHeader") eqn:E1.
  { destruct Hv as (vp & -> & _).
    { apply orb_true_iff in E1 as [E1|E1]; apply String.eqb_eq in E1; rewrite E1; set_solver. }
    apply no_panic_bind; [apply EvalString_no_panic|]. intros [?|] _; eauto with go. }
  destruct (String.eqb_spec (m_Op m) "setBody") as [E|_].
  { destruct Hv as (vp & -> & _); [rewrite E; set_solver|].
    apply no_panic_bind; [apply EvalString_no_panic|]. intros [?|] _; eauto with go. }
  destruct (String.eqb_spec (m_Op m) "setStatus") as [E|_].
  { destruct (Hs E) as (cp & -> & _).
    apply no_panic_bind; [apply EvalInt_no_panic|]. intros [?|] _; eauto with go. }
  destruct (String.eqb (m_Op m) "removeHeader"); eauto with go.
Qed.

Lemma loaded_proc_ready c phase g :
  loaded c → g ∈ c_Groups c → in_phase phase g = true → proc_ready g.
Proof.
  intros ((_ & _ & _ & Hok & _) & _ & _ & e & reg & reg0 & _ & Hco & _) Hg Hp.
  rewrite Forall_forall in Hok, Hco. destruct (Hok g Hg) as (_ & Hpar & _).
  destruct (Hco g Hg) as [_ Hrc]. unfold in_phase in Hp. apply andb_true_iff in Hp as [He _].
  apply String.eqb_eq in He. split.
  - destruct Hpar as [(E & _)|(_ & ? & _)]; [congruence|done].
  - eapply Forall_impl; [exact Hrc|]. intros r [(p & Hp & _) Hms]. split; [by exists p|].
    eapply Forall_impl; [exact Hms|]. intros m Hm n d vars. by eapply resolve_mutation_no_panic.
Qed.

Lemma resolve_list_spec n d vars ms :
  Forall (λ m, ∀ n d vars, no_panic (resolve_mutation n d vars m)) ms →
  resolve_list n d vars ms = Ret (omap (resolved n d vars) ms).
Proof.
  induction ms as [|m ms IH]; [done|]. intros [Hm Hms]%Forall_cons. cbn.
  destruct (Hm n d vars) as [o Ho]. unfold resolved at 1. rewrite Ho. cbn. rewrite IH by done.
  by destruct o.
Qed.

Lemma holds_eval p vars :
  ∃ res, EvalBool (Some p) (Some vars) = Ret res ∧
         holds (Some p) vars = match res with Ok b => b | Err _ => false end.
Proof.
  destruct (EvalBool_no_panic p (Some vars)) as [res Hres]. exists res. split; [done|].
  unfold holds. by rewrite Hres.
Qed.

Lemma proc_firstMatch_spec g vars rs :
  Forall rule_ready rs →
  proc_firstMatch g vars rs =
    Ret (r ← take 1 (filter (λ r, holds (r_matchProg r) vars = true) rs);
         omap (resolved (rule_id g r) (r_DryRun r) vars) (r_Mutations r)).
Proof.
  induction rs as [|r rs IH]; [done|]. intros [[[p Hp] Hms] Hrs]%Forall_cons.
  cbn [proc_firstMatch]. rewrite filter_cons, Hp.
  destruct (holds_eval p vars) as (res & -> & Hh). rewrite Hh. cbn [mbind outcome_bind].
  destruct res as [[|]|err].
  - rewrite decide_True by done. unfold resolveMutations. rewrite resolve_list_spec by done.
    cbn. by rewrite app_nil_r.
  - rewrite decide_False by done. by rewrite IH.
  - rewrite decide_False by done. by rewrite IH.
Qed.

Lemma proc_applyAll_spec g vars rs :
  Forall rule_ready rs →
  proc_applyAll g vars rs =
    Ret (r ← filter (λ r, holds (r_matchProg r) vars = true) rs;
         omap (resolved (rule_id g r) (r_DryRun r) vars) (r_Mutations r)).
Proof.
  induction rs as [|r rs IH]; [done|]. intros [[[p Hp] Hms] Hrs]%Forall_cons.
  cbn [proc_applyAll]. rewrite filter_cons, Hp.
  destruct (holds_eval p vars) as (res & -> & Hh). rewrite Hh. cbn [mbind outcome_bind].
  destruct res as [[|]|err].
  - rewrite decide_True by done. unfold resolveMutations. rewrite resolve_list_spec by done.
    cbn. by rewrite IH.
  - rewrite decide_False by done. by rewrite IH.
  - rewrite decide_False by done. by rewrite IH.
Qed.

Lemma proc_group_spec g vars :
  proc_ready g →
  proc_group g vars =
    Ret (if guard_open g vars then
           r ← selected_rules g vars;
           omap (resolved (rule_id g r) (r_DryRun r) vars) (r_Mutations r)
         else []).
Proof.
  intros [Hm Hr]. unfold proc_group, guard_open, selected_rules.
  assert ((if String.eqb (p_Mode (g_Parameters g)) "firstMatch" then proc_firstMatch g vars (g_Rules g)
    else if String.eqb (p_Mode (g_Parameters g)) "applyAll" then proc_applyAll g vars (g_Rules g)
    else Ret []) =
    Ret (r ← (let on := filter (λ r, holds (r_matchProg r) vars = true) (g_Rules g) in
              if String.eqb (p_Mode (g_Parameters g)) "firstMatch" then take 1 on else on);
         omap (resolved (rule_id g r) (r_DryRun r) vars) (r_Mutations r))) as ->.
  { destruct (String.eqb_spec (p_Mode (g_Parameters g)) "firstMatch") as [E|N].
    - by apply proc_firstMatch_spec.
    - assert (p_Mode (g_Parameters g) = "applyAll") as -> by set_solver.
      by apply proc_applyAll_spec. }
  destruct (g_matchProg g) as [p|]; [|done].
  destruct (holds_eval p vars) as (res & -> & ->). cbn. by destruct res as [[|]|].
Qed.

Lemma proc_groups_spec phase vars gs :
  (∀ g, g ∈ gs → in_phase phase g = true → proc_ready g) →
  proc_groups phase vars gs =
    Ret (g ← filter (λ g, in_phase phase g = true ∧ guard_open g vars = true) gs;
         r ← selected_rules g vars;
         omap (resolved (rule_id g r) (r_DryRun r) vars) (r_Mutations r)).
Proof.
  induction gs as [|g gs IH]; intros Hr; [done|]. cbn [proc_groups]. rewrite filter_cons.
  destruct (in_phase phase g) eqn:E; cbn [negb].
  - rewrite proc_group_spec by (apply Hr; [left|done]). cbn.
    rewrite IH by (intros; apply Hr; [by right|done]). cbn.
    destruct (guard_open g vars) eqn:Eg.
    + rewrite decide_True by done. done.
    + rewrite decide_False by naive_solver. done.
  - rewrite decide_False by naive_solver. apply IH. intros; apply Hr; [by right|done].
Qed.

Lemma EvaluateProc_eq c phase req resp :
  loaded c →
  EvaluateProc c phase (Some req) resp = Ret (proc_spec c phase (proc_vars c phase req resp)).
Proof.
  intros Hl. cbn. unfold proc_spec. rewrite proc_groups_spec; [done|].
  intros g Hg Hp. by eapply loaded_proc_ready.
Qed.

(** *** Legality of what is resolved *)

(** The shape of a resolved mutation, and the phases it may appear in. *)
Definition resolved_ok (phase : string) (m : ResolvedMutation) : Prop :=
  (rm_Op m = "directResponse" ∧ phase ∈ response_phases ∧ 0 < rm_RespStatus m ≤ 599) ∨
  (rm_Op m ∈ ["setHeader"; "appendHeader"; "removeHeader"] ∧ blank (rm_Name m) = false) ∨
  (rm_Op m = "setBody" ∧ phase ∈ body_phases) ∨
  (rm_Op m = "setStatus" ∧ phase ∈ response_phases).

Lemma resolved_legal phase n d vars m x :
  mutation_ok phase m → resolved n d vars m = Some x → resolved_ok phase x ∧ rm_DryRun x = d.
Proof.
  intros Hok. unfold resolved, resolve_mutation, resolved_ok.
  destruct Hok as [(-> & Hs & _ & _ & _ & _ & _ & Hp)|[(Hop & Hn & _)|[(-> & Hn & _)|[(-> & _ & _ & _ & Hp)|(-> & _ & _ & _ & Hp)]]]].
  - cbn. destruct (EvalStringMap _ _) as [[?|]|]; cbn; [|done|done].
    destruct (EvalString _ _) as [[?|]|]; cbn; [|done|done]. intros [= <-]. cbn. naive_solver.
  - apply list_elem_of_In in Hop as [<-|[<-|[]]]; cbn;
      destruct (EvalString _ _) as [[?|]|]; cbn; try done; intros [= <-]; cbn;
      (split; [|done]); right; left; (split; [set_solver|done]).
  - cbn. intros [= <-]. cbn. split; [|done]. right; left. split; [set_solver|done].
  - cbn. destruct (EvalString _ _) as [[?|]|]; cbn; [|done|done]. intros [= <-]. cbn. naive_solver.
  - cbn. destruct (EvalInt _ _) as [[?|]|]; cbn; [|done|done]. intros [= <-]. cbn. naive_solver.
Qed.

Lemma selected_rules_in g vars r : r ∈ selected_rules g vars → r ∈ g_Rules g.
Proof.
  unfold selected_rules. destruct (String.eqb _ _).
  - intros Hr%elem_of_take. destruct Hr as (i & Hr & _). apply list_elem_of_lookup_2 in Hr.
    by apply list_elem_of_filter in Hr as [_ ?].
  - by intros [_ ?]%list_elem_of_filter.
Qed.

(** Every resolved mutation comes from a rule of a group of the phase. *)
Lemma proc_spec_origin c phase vars x :
  x ∈ proc_spec c phase vars →
  ∃ g r m, g ∈ c_Groups c ∧ in_phase phase g = true ∧ r ∈ g_Rules g ∧ m ∈ r_Mutations r ∧
           resolved (rule_id g r) (r_DryRun r) vars m = Some x.
Proof.
  unfold proc_spec. intros (g & Hx & Hg)%list_elem_of_bind.
  apply list_elem_of_bind in Hx as (r & Hx & Hr). apply list_elem_of_omap in Hx as (m & Hm & Hx).
  apply list_elem_of_filter in Hg as [[Hp _] Hg]. apply selected_rules_in in Hr. eauto 10.
Qed.

Lemma proc_spec_legal c phase vars :
  Config_ok c → Forall (resolved_ok phase) (proc_spec c phase vars).
Proof.
  intros (_ & _ & _ & Hok & _). apply Forall_forall. intros x Hx.
  apply proc_spec_origin in Hx as (g & r & m & Hg & Hp & Hr & Hm & Hx).
  rewrite Forall_forall in Hok. destruct (Hok g Hg) as (_ & _ & _ & Hrs & _).
  rewrite Forall_forall in Hrs. destruct (Hrs r Hr) as (_ & _ & Hrule).
  unfold in_phase in Hp. apply andb_true_iff in Hp as [He Hph]. apply String.eqb_eq in He, Hph.
  rewrite He in Hrule. destruct Hrule as (_ & _ & Hms).
  rewrite Hph in Hms. rewrite Forall_forall in Hms.
  by eapply resolved_legal in Hx as [? _]; [|apply Hms].
Qed.

End extproc.
