(* ===== verification/Log.v ===== *)
(** * internal/log/log.go: the logger

    log/slog's attributes and records, the configuration of the global logger
    ([Configure], [SetLevel], [parseLevel]) and the console handler with its
    rendering ([Handle], [writeAttr], [formatValue], [levelTag]).  Rendering a
    float, a duration, a time or a value with the verb [%v] is left to the class
    [FmtTables]; the JSON handler is slog's own. *)

From Stdlib Require Import SpecFloat.
From S2P Require Import Prelude GoStrings GoValues.
Local Open Scope Z_scope.

(** ** slog *)

Inductive slog_value : Type :=
| SString (s : string)
| SInt64 (z : Z)
| SUint64 (z : Z)
| SFloat64 (f : spec_float)
| SBool (b : bool)
| SDuration (ns : Z)
| STime (ns : Z)
| SStrings (l : list string)   (** [slog.Any] of a [[]string] *)
| SAny (v : gval).             (** [slog.Any] of anything else *)

#[warnings="-register-all"]
Inductive attr : Type :=
| Attr (key : string) (v : slog_value)
| Group_ (key : string) (l : list attr).   (** [slog.Group] *)

Definition LevelDebug : Z := -4.
Definition LevelInfo : Z := 0.
Definition LevelWarn : Z := 4.
Definition LevelError : Z := 8.

Record log_record := mkRecord { lr_level : Z; lr_msg : string; lr_attrs : list attr }.

Class FmtTables := {
  fmt_float : spec_float → string;
  fmt_duration : Z → string;
  fmt_time : Z → string;
  fmt_any : gval → string;
}.

Section log.
Context `{UnicodeTables, FmtTables}.

(** ** Configuration *)

Inductive log_error : Type :=
| ErrUnknownLevel (name : string)
| ErrUnknownFormat (name : string).

Inductive handler_kind : Type := ConsoleHandler | JSONHandler.

(** The global state: [levelVar] and the handler behind [current]. *)
Record log_state := mkLogState { levelVar : Z; current : handler_kind }.

Record Options := mkOptions { o_Level : string; o_Format : string }.

Definition parseLevel (name : string) : result log_error Z :=
  let n := ToLower (TrimSpace name) in
  if String.eqb n ε || String.eqb n "info" then Ok LevelInfo
  else if String.eqb n "debug" then Ok LevelDebug
  else if String.eqb n "warn" || String.eqb n "warning" then Ok LevelWarn
  else if String.eqb n "error" then Ok LevelError
  else Err (ErrUnknownLevel name).

(** [Configure]: the level is set before the format is looked at. *)
Definition Configure (st : log_state) (opts : Options) : log_state * option log_error :=
  match parseLevel (o_Level opts) with
  | Err err => (st, Some err)
  | Ok lvl =>
      let st := mkLogState lvl (current st) in
      if String.eqb (o_Format opts) "console" then (mkLogState lvl ConsoleHandler, None)
      else if String.eqb (o_Format opts) ε || String.eqb (o_Format opts) "json"
      then (mkLogState lvl JSONHandler, None)
      else (st, Some (ErrUnknownFormat (o_Format opts)))
  end.

Definition SetLevel (st : log_state) (name : string) : log_state * option log_error :=
  match parseLevel name with
  | Err err => (st, Some err)
  | Ok lvl => (mkLogState lvl (current st), None)
  end.

(** ** The console handler *)

Record consoleHandler := mkConsole { h_group : string; h_attrs : list attr }.

Definition Enabled (st : log_state) (l : Z) : bool := levelVar st <=? l.

Definition WithAttrs (h : consoleHandler) (attrs : list attr) : consoleHandler :=
  mkConsole (h_group h) (h_attrs h ++ attrs).

Definition WithGroup (h : consoleHandler) (name : string) : consoleHandler :=
  mkConsole (if String.eqb (h_group h) ε then name else h_group h +:+ "." +:+ name) (h_attrs h).

(** [strings.ContainsAny] with the set of a space, [=], tab, newline and quote. *)
Definition needs_quoting (s : string) : bool :=
  negb (str_forall (λ c, negb (existsb (Z.eqb (byteZ c)) [32; 61; 9; 10; 34])) s).

(** The verb [%v] on a slice of strings. *)
Definition fmt_strings (l : list string) : string := "[" +:+ Join l " " +:+ "]".

Definition formatValue (v : slog_value) : string :=
  match v with
  | SString s => if needs_quoting s then Quote s else s
  | SInt64 z | SUint64 z => Itoa z
  | SFloat64 f => fmt_float f
  | SBool b => if b then "true" else "false"
  | SDuration d => fmt_duration d
  | STime t => fmt_time t
  | SStrings l => fmt_strings l
  | SAny v => fmt_any v
  end.

Definition is_zero_attr (key : string) (v : slog_value) : bool :=
  String.eqb key ε && match v with SAny GNil => true | _ => false end.

Fixpoint writeAttr (prefix : string) (a : attr) : string :=
  match a with
  | Group_ key l =>
      let gp := if String.eqb key ε then prefix
                else (if String.eqb prefix ε then ε else prefix +:+ ".") +:+ key in
      str_concat (map (writeAttr gp) l)
  | Attr key v =>
      if is_zero_attr key v then ε
      else " " +:+ (if String.eqb prefix ε then ε else prefix +:+ ".") +:+
           key +:+ "=" +:+ formatValue v
  end.

Definition levelTag (l : Z) : string :=
  if LevelError <=? l then "ERROR"
  else if LevelWarn <=? l then "WARN "
  else if LevelInfo <=? l then "INFO "
  else "DEBUG".

(** [Handle]: the line written for a record; [clock] is the formatted time. *)
Definition Handle (h : consoleHandler) (clock : string) (r : log_record) : string :=
  clock +:+ " " +:+ levelTag (lr_level r) +:+ " " +:+ lr_msg r +:+
  str_concat (map (writeAttr (h_group h)) (h_attrs h)) +:+
  str_concat (map (writeAttr (h_group h)) (lr_attrs r)) +:+ str1 (chr 10).

End log.
