(* ===== verification/AccessLog.v ===== *)
(** * internal/accesslog/accesslog.go: the access-log records

    [RequestAttrs] and [ResponseAttrs] with [lowerSet], [mask] and
    [redactedQuery]: what of a request or a response reaches the log. *)

From S2P Require Import Prelude GoStrings GoHttp GoValues CelEnv Facts Policy Evaluate.
From S2P Require Import Log.
Local Open Scope Z_scope.

Section accesslog.
Context `{UnicodeTables, GoRange}.

(** [lowerSet]: blank entries are ignored. *)
Definition lowerSet (xs : option (list string)) : gset string :=
  foldl (λ out x, let x := TrimSpace (ToLower x) in
                  if String.eqb x ε then out else {[x]} ∪ out) ∅ (default [] xs).

(** [mask]: [2*n] wraps, and slicing past the end panics. *)
Definition mask (v : string) (n : Z) : outcome string :=
  if String.eqb v ε then Ret ε
  else if (n <=? 0) || (len v <? wrap64 (2 * n)) then Ret (Repeat "*" (String.length v))
  else if len v <? n then Panic
  else Ret (str_take (Z.to_nat n) v +:+ Repeat "*" (String.length v - Z.to_nat n)).

(** The body of the loop of [redactedQuery]. *)
Definition redact_pair (sensitive : gset string) (p : string) : string :=
  match IndexByte p "=" with
  | None => p
  | Some eq =>
      let name := default ε (QueryUnescape (str_take eq p)) in
      if bool_decide (ToLower name ∈ sensitive) then str_take (S eq) p +:+ "***" else p
  end.

(** [redactedQuery]. *)
Definition redactedQuery (raw : string) (lg : Logging) : string :=
  if String.eqb raw ε then ε
  else
    let sensitive := lowerSet (l_RedactQueryParams lg) in
    if bool_decide (sensitive = ∅) then raw
    else Join (map (redact_pair sensitive) (Split raw "&")) "&".

(** One iteration of the header loop shared by both functions; [None] is
    [continue]. *)
Definition header_attr (exclude redact : gset string) (reveal : Z) (kv : string * list string) :
    outcome (option attr) :=
  let lk := ToLower kv.1 in
  if bool_decide (lk ∈ exclude) then Ret None
  else
    let joined := Join kv.2 ", " in
    joined ← (if bool_decide (lk ∈ redact) then mask joined reveal else Ret joined);
    Ret (Some (Attr lk (SString joined))).

Fixpoint header_loop (exclude redact : gset string) (reveal : Z) (l : list (string * list string)) :
    outcome (list attr) :=
  match l with
  | [] => Ret []
  | kv :: l' =>
      o ← header_attr exclude redact reveal kv;
      hdrs ← header_loop exclude redact reveal l';
      Ret (match o with Some a => a :: hdrs | None => hdrs end)
  end.

Definition header_attrs (h : Header) (lg : Logging) : outcome (list attr) :=
  header_loop (lowerSet (l_ExcludeHeaders lg)) (lowerSet (l_RedactHeaders lg))
    (l_RedactReveal lg) (range_map h).

Definition body_attr (h : Header) (body : string) (lg : Logging) : attr :=
  let base := [Attr "size" (SInt64 (len body));
               Attr "content_type" (SString (ToLower (Header_Get h "Content-Type")))] in
  if l_LogBody lg && (0 <? len body)
  then Group_ "body" (base ++ [Attr "raw" (SString body)])
  else Group_ "body" base.

(** [RequestAttrs]. *)
Definition RequestAttrs (req : Request) (lg : Logging) : outcome attr :=
  hdrs ← header_attrs (q_Headers req) lg;
  Ret (Group_ "request"
    [Attr "method" (SString (q_Method req)); Attr "scheme" (SString (q_Scheme req));
     Attr "host" (SString (q_Host req)); Attr "path" (SString (q_Path req));
     Attr "query" (SString (redactedQuery (q_RawQuery req) lg));
     Attr "remote_ip" (SString (q_RemoteIP req));
     Group_ "headers" hdrs;
     body_attr (q_Headers req) (q_Body req) lg]).

(** [ResponseAttrs]. *)
Definition ResponseAttrs (resp : option Response) (lg : Logging) : outcome attr :=
  match resp with
  | None =>
      Ret (Group_ "response"
        [Attr "status" (SInt64 0); Group_ "headers" [];
         Group_ "body" [Attr "size" (SInt64 0); Attr "content_type" (SString ε)]])
  | Some resp =>
      hdrs ← header_attrs (s_Headers resp) lg;
      Ret (Group_ "response"
        [Attr "status" (SInt64 (s_Status resp));
         Group_ "headers" hdrs;
         body_attr (s_Headers resp) (s_Body resp) lg])
  end.

(** ** Lemmas *)

(** Doubling the reveal length does not overflow. *)
Definition reveal_ok (n : Z) : Prop := int64_ok (2 * n).

(** What [mask] keeps of a value. *)
Definition shown (v : string) (n : Z) : nat :=
  if (n <=? 0) || (len v <? 2 * n) then O else Z.to_nat n.

Lemma mask_eq v n :
  reveal_ok n →
  mask v n = Ret (str_take (shown v n) v +:+ Repeat "*" (String.length v - shown v n)).
Proof.
  intros Hn. unfold mask, shown. rewrite wrap64_id by done.
  destruct (String.eqb_spec v ε) as [->|Hv].
  { destruct (_ || _); [done|]. cbn. by destruct (Z.to_nat n). }
  destruct ((n <=? 0) || (len v <? 2 * n)) eqn:E; [by rewrite Nat.sub_0_r|].
  apply orb_false_iff in E as [E1 E2]. destruct (Z.ltb_spec (len v) n); [|done].
  apply Z.leb_gt in E1. apply Z.ltb_ge in E2. lia.
Qed.

Lemma shown_half v n : (2 * shown v n ≤ String.length v)%nat.
Proof.
  unfold shown, len. destruct ((n <=? 0) || _) eqn:E; [lia|].
  apply orb_false_iff in E as [E1 E2]. apply Z.leb_gt in E1. apply Z.ltb_ge in E2. lia.
Qed.

Lemma length_stars n : String.length (Repeat "*" n) = n.
Proof. induction n as [|n IH]; cbn; [done|by rewrite IH]. Qed.

(** The attribute a header is logged as, once [mask] cannot panic. *)
Definition header_shown (exclude redact : gset string) (reveal : Z) (kv : string * list string) :
    option attr :=
  let lk := ToLower kv.1 in
  let joined := Join kv.2 ", " in
  if bool_decide (lk ∈ exclude) then None
  else Some (Attr lk (SString
    (if bool_decide (lk ∈ redact)
     then str_take (shown joined reveal) joined +:+
          Repeat "*" (String.length joined - shown joined reveal)
     else joined))).

Lemma header_attr_eq exclude redact reveal kv :
  reveal_ok reveal →
  header_attr exclude redact reveal kv = Ret (header_shown exclude redact reveal kv).
Proof.
  intros Hr. unfold header_attr, header_shown.
  case_bool_decide; [done|]. case_bool_decide; cbn; [by rewrite mask_eq|done].
Qed.

Lemma header_loop_eq exclude redact reveal l :
  reveal_ok reveal →
  header_loop exclude redact reveal l = Ret (omap (header_shown exclude redact reveal) l).
Proof.
  intros Hr. induction l as [|kv l IH]; [done|]. cbn [header_loop].
  rewrite IH, header_attr_eq by done. cbn. by destruct (header_shown _ _ _ kv).
Qed.

Definition headers_shown (h : Header) (lg : Logging) : list attr :=
  omap (header_shown (lowerSet (l_ExcludeHeaders lg)) (lowerSet (l_RedactHeaders lg))
          (l_RedactReveal lg)) (range_map h).

Lemma header_attrs_eq h lg :
  reveal_ok (l_RedactReveal lg) → header_attrs h lg = Ret (headers_shown h lg).
Proof. intros Hr. unfold header_attrs, headers_shown. by apply header_loop_eq. Qed.

Lemma RequestAttrs_no_panic req lg :
  reveal_ok (l_RedactReveal lg) → no_panic (RequestAttrs req lg).
Proof. intros Hr. unfold RequestAttrs. rewrite header_attrs_eq by done. cbn. eauto with go. Qed.

Lemma ResponseAttrs_no_panic resp lg :
  reveal_ok (l_RedactReveal lg) → no_panic (ResponseAttrs resp lg).
Proof.
  intros Hr. unfold ResponseAttrs. destruct resp as [resp|]; [|eauto with go].
  rewrite header_attrs_eq by done. cbn. eauto with go.
Qed.

(** *** The query *)

Lemma IndexByte_stars p : IndexByte p "&" = None → IndexByte (p +:+ "***") "&" = None.
Proof. intros Hp. by rewrite IndexByte_append, Hp. Qed.

Lemma IndexByte_take n p c : IndexByte p c = None → IndexByte (str_take n p) c = None.
Proof.
  revert n. induction p as [|d p IH]; intros [|n]; cbn; [done..|].
  destruct (Ascii.eqb d c); [done|]. destruct (IndexByte p c); [done|]. intros _.
  by rewrite (IH n eq_refl).
Qed.

Lemma redact_pair_no_amp sens p : IndexByte p "&" = None → IndexByte (redact_pair sens p) "&" = None.
Proof.
  intros Hp. unfold redact_pair. destruct (IndexByte p "=") as [i|]; [|done].
  case_bool_decide; [|done]. by apply IndexByte_stars, IndexByte_take.
Qed.

(** Redaction rewrites the parameters one by one and keeps their number and order. *)
Lemma redactedQuery_pairs raw lg :
  raw ≠ ε → lowerSet (l_RedactQueryParams lg) ≠ ∅ →
  Split (redactedQuery raw lg) "&" =
    map (redact_pair (lowerSet (l_RedactQueryParams lg))) (Split raw "&").
Proof.
  intros Hraw Hs. unfold redactedQuery.
  destruct (String.eqb_spec raw ε) as [|_]; [done|]. rewrite bool_decide_false by done.
  apply (Split_Join _ "&").
  - pose proof (Split_nonempty raw "&"). by destruct (Split raw "&").
  - apply Forall_map. eapply Forall_impl; [apply (Split_parts raw "&")|].
    intros p. apply redact_pair_no_amp.
Qed.

(** A pair of a sensitive parameter. *)
Definition sensitive_pair (sens : gset string) (name value p : string) : Prop :=
  p = name +:+ "=" +:+ value ∧ IndexByte name "=" = None ∧
  ToLower (default ε (QueryUnescape name)) ∈ sens.

Lemma redact_sensitive sens name value p :
  sensitive_pair sens name value p → redact_pair sens p = name +:+ "=***".
Proof.
  intros (-> & Hn & Hs). unfold redact_pair.
  assert (IndexByte (name +:+ "=" +:+ value) "=" = Some (String.length name)) as ->.
  { rewrite IndexByte_append, Hn. cbn. by rewrite Nat.add_0_r. }
  rewrite str_take_append, bool_decide_true by done.
  replace (name +:+ "=" +:+ value) with ((name +:+ "=") +:+ value) by by rewrite append_assoc.
  replace (S (String.length name)) with (String.length (name +:+ "="))
    by (rewrite length_append; cbn; lia).
  rewrite str_take_append. by rewrite append_assoc.
Qed.

End accesslog.
