(* ===== verification/GrpcServer.v ===== *)
(** * internal/grpcserver/server.go: the ext_proc stream

    The messages of Envoy's protocol, the conversion of headers and mutations, and
    [Process]: one stream is a loop over the messages Envoy sends, with the request
    and the response seen so far as its state.  Each iteration loads the policy,
    so an iteration is given the policy installed at that moment; the records
    written to the log are part of its output. *)

From S2P Require Import Prelude GoStrings GoHttp GoValues CelEnv Facts Policy Evaluate.
From S2P Require Import ExtProc Log AccessLog.
Local Open Scope Z_scope.

(** ** The protocol's messages *)

Record HeaderValue := mkHeaderValue { hv_Key : string; hv_Value : string; hv_RawValue : string }.

(** [h] or [h.Headers] may be nil. *)
Abbreviation HttpHeaders := (option (list HeaderValue)).

Inductive ProcessingRequest : Type :=
| ProcessingRequest_RequestHeaders (h : HttpHeaders)
| ProcessingRequest_RequestBody (body : string)
| ProcessingRequest_ResponseHeaders (h : HttpHeaders)
| ProcessingRequest_ResponseBody (body : string)
| ProcessingRequest_Other.

Inductive AppendAction : Type := OVERWRITE_IF_EXISTS_OR_ADD | APPEND_IF_EXISTS_OR_ADD.

Record HeaderValueOption := mkHeaderOption {
  ho_Key : string;
  ho_RawValue : string;
  ho_AppendAction : AppendAction;
}.

Record HeaderMutation := mkHeaderMutation {
  SetHeaders : list HeaderValueOption;
  RemoveHeaders : list string;
}.

(** A CONTINUE response. *)
Record CommonResponse := mkCommon {
  cr_HeaderMutation : option HeaderMutation;
  cr_BodyMutation : option string;
}.

Record ImmediateResponse := mkImmediate {
  ir_Status : Z;
  ir_Headers : option HeaderMutation;
  ir_Body : string;
  ir_Details : string;
}.

Inductive ProcessingResponse : Type :=
| ProcessingResponse_RequestHeaders (r : CommonResponse)
| ProcessingResponse_RequestBody (r : CommonResponse)
| ProcessingResponse_ResponseHeaders (r : CommonResponse)
| ProcessingResponse_ResponseBody (r : CommonResponse)
| ProcessingResponse_Immediate (r : ImmediateResponse).

(** [typev3.StatusCode] is an [int32]. *)
Definition StatusCode (z : Z) : Z := (z + 2 ^ 31) mod 2 ^ 32 - 2 ^ 31.

(** ** Mutations *)

Definition set_option (k v : string) : HeaderValueOption :=
  mkHeaderOption k v OVERWRITE_IF_EXISTS_OR_ADD.

(** [buildHeaderMutationFromMap]. *)
Definition buildHeaderMutationFromMap `{GoRange} (headers : gmap string string) :
    option HeaderMutation :=
  if (size headers =? 0)%nat then None
  else Some (mkHeaderMutation
         (map (λ k, set_option k (default ε (headers !! k)))
            (sort_Strings (range_map headers).*1)) []).

(** The loop of [buildMutations]: headers to set, headers to remove, body. *)
Definition build_step (acc : list HeaderValueOption * list string * option string)
    (m : ResolvedMutation) : list HeaderValueOption * list string * option string :=
  let '(sets, removes, body) := acc in
  let op := rm_Op m in
  if String.eqb op "setHeader" then (sets ++ [set_option (rm_Name m) (rm_Value m)], removes, body)
  else if String.eqb op "appendHeader" then
    (sets ++ [mkHeaderOption (rm_Name m) (rm_Value m) APPEND_IF_EXISTS_OR_ADD], removes, body)
  else if String.eqb op "removeHeader" then (sets, removes ++ [rm_Name m], body)
  else if String.eqb op "setBody" then
    (sets ++ [set_option "content-length" (Itoa (len (rm_Value m)))], removes, Some (rm_Value m))
  else if String.eqb op "setStatus" then
    (sets ++ [set_option ":status" (Itoa (rm_Status m))], removes, body)
  else acc.

(** [buildMutations]. *)
Definition buildMutations (ms : list ResolvedMutation) : option HeaderMutation * option string :=
  let '(sets, removes, body) := foldl build_step ([], [], None) ms in
  (if (0 <? length sets)%nat || (0 <? length removes)%nat
   then Some (mkHeaderMutation sets removes) else None, body).

(** [buildContinueResponse]. *)
Definition buildContinueResponse (msg : ProcessingRequest) : ProcessingResponse :=
  let common := mkCommon None None in
  match msg with
  | ProcessingRequest_RequestHeaders _ => ProcessingResponse_RequestHeaders common
  | ProcessingRequest_RequestBody _ => ProcessingResponse_RequestBody common
  | ProcessingRequest_ResponseHeaders _ => ProcessingResponse_ResponseHeaders common
  | ProcessingRequest_ResponseBody _ => ProcessingResponse_ResponseBody common
  | ProcessingRequest_Other => ProcessingResponse_RequestHeaders common
  end.

(** ** handleProcResult *)

Section handle.
Context `{GoRange}.

(** The log entry of a mutation; a direct response is only ever logged as shadowed. *)
Definition describe (m : ResolvedMutation) : list string :=
  let op := rm_Op m in
  let tag := rm_Rule m +:+ ":" +:+ op in
  if String.eqb op "setHeader" || String.eqb op "appendHeader" then
    [tag +:+ "(" +:+ rm_Name m +:+ "=" +:+ rm_Value m +:+ ")"]
  else if String.eqb op "removeHeader" then [tag +:+ "(" +:+ rm_Name m +:+ ")"]
  else if String.eqb op "setBody" then [tag +:+ "(len=" +:+ Itoa (len (rm_Value m)) +:+ ")"]
  else if String.eqb op "setStatus" then [tag +:+ "(" +:+ Itoa (rm_Status m) +:+ ")"]
  else if String.eqb op "directResponse" then
    [rm_Rule m +:+ ":would directRespond(" +:+ Itoa (rm_RespStatus m) +:+ ")"]
  else [].

Definition effective_dry (dryGlobal : bool) (m : ResolvedMutation) : bool := dryGlobal || rm_DryRun m.

(** The first loop: the first direct response that is applied. *)
Fixpoint find_direct (dryGlobal : bool) (ms : list ResolvedMutation) : option ResolvedMutation :=
  match ms with
  | [] => None
  | m :: ms' =>
      if String.eqb (rm_Op m) "directResponse" && negb (effective_dry dryGlobal m)
      then Some m else find_direct dryGlobal ms'
  end.

(** The second loop: mutations to apply, their log, the log of the shadowed ones. *)
Fixpoint partition_mutations (dryGlobal : bool) (ms : list ResolvedMutation) :
    list ResolvedMutation * list string * list string :=
  match ms with
  | [] => ([], [], [])
  | m :: ms' =>
      let '(applied, appliedLog, shadowLog) := partition_mutations dryGlobal ms' in
      if effective_dry dryGlobal m then (applied, appliedLog, describe m ++ shadowLog)
      else if String.eqb (rm_Op m) "directResponse" then (applied, appliedLog, shadowLog)
      else (m :: applied, describe m ++ appliedLog, shadowLog)
  end.

Definition phase_response (phase : string) (common : CommonResponse) : ProcessingResponse :=
  if String.eqb phase "requestHeaders" then ProcessingResponse_RequestHeaders common
  else if String.eqb phase "requestBody" then ProcessingResponse_RequestBody common
  else if String.eqb phase "responseHeaders" then ProcessingResponse_ResponseHeaders common
  else if String.eqb phase "responseBody" then ProcessingResponse_ResponseBody common
  else ProcessingResponse_RequestHeaders common.

Definition phase_attrs (streamID phase : string) : list attr :=
  [Attr "engine" (SString "extProc"); Attr "stream_id" (SString streamID);
   Attr "phase" (SString phase)].

(** [handleProcResult]: the record it logs and the response. *)
Definition handleProcResult (streamID phase : string) (res : list ResolvedMutation)
    (dryGlobal : bool) : log_record * ProcessingResponse :=
  match find_direct dryGlobal res with
  | Some m =>
      (mkRecord LevelInfo "extProc phase evaluated"
         (phase_attrs streamID phase ++
          [Attr "direct_response" (SString (rm_Rule m +:+ ":" +:+ Itoa (rm_RespStatus m)));
           Attr "dry_run" (SBool false)]),
       ProcessingResponse_Immediate
         (mkImmediate (StatusCode (rm_RespStatus m)) (buildHeaderMutationFromMap (rm_RespHeaders m))
            (rm_RespBody m) ε))
  | None =>
      let '(applied, appliedLog, shadowLog) := partition_mutations dryGlobal res in
      let level := if (length appliedLog =? 0)%nat && (length shadowLog =? 0)%nat
                   then LevelDebug else LevelInfo in
      let '(hm, bm) := buildMutations applied in
      (mkRecord level "extProc phase evaluated"
         (phase_attrs streamID phase ++
          [Attr "applied" (SStrings appliedLog); Attr "shadow" (SStrings shadowLog);
           Attr "dry_run" (SBool dryGlobal)]),
       phase_response phase (mkCommon hm bm))
  end.

End handle.

(** ** Headers *)

Section headers.
Context `{UnicodeTables}.

(** [extractClientIP]. *)
Definition extractClientIP (h : Header) : string :=
  let xff := Header_Get h "X-Forwarded-For" in
  if negb (String.eqb xff ε) then
    match IndexByte xff "," with
    | Some (S i) => TrimSpace (str_take (S i) xff)
    | _ => TrimSpace xff
    end
  else
    let xri := Header_Get h "X-Real-Ip" in
    if negb (String.eqb xri ε) then TrimSpace xri else ε.

Definition header_val (hv : HeaderValue) : string :=
  if String.eqb (hv_Value hv) ε && (0 <? len (hv_RawValue hv)) then hv_RawValue hv else hv_Value hv.

Record pseudo := mkPseudo {
  ps_method : string;
  ps_scheme : string;
  ps_authority : string;
  ps_path : string;
  ps_headers : Header;
}.

(** The loop of [parseRequestHeaders]. *)
Definition request_header_step (p : pseudo) (hv : HeaderValue) : pseudo :=
  let val := header_val hv in
  let key := ToLower (hv_Key hv) in
  if String.eqb key ":method" then
    mkPseudo val (ps_scheme p) (ps_authority p) (ps_path p) (ps_headers p)
  else if String.eqb key ":scheme" then
    mkPseudo (ps_method p) val (ps_authority p) (ps_path p) (ps_headers p)
  else if String.eqb key ":authority" then
    mkPseudo (ps_method p) (ps_scheme p) val (ps_path p) (ps_headers p)
  else if String.eqb key ":path" then
    mkPseudo (ps_method p) (ps_scheme p) (ps_authority p) val (ps_headers p)
  else
    mkPseudo (ps_method p) (ps_scheme p) (ps_authority p) (ps_path p)
      (Header_Add (ps_headers p) (hv_Key hv) val).

(** The path and the raw query of [:path]. *)
Definition split_path (pathAndQuery : string) : string * string :=
  if negb (String.eqb pathAndQuery ε) then
    match IndexByte pathAndQuery "?" with
    | Some idx => (str_take idx pathAndQuery, str_drop (S idx) pathAndQuery)
    | None => (pathAndQuery, ε)
    end
  else (ε, ε).

(** [parseRequestHeaders]. *)
Definition parseRequestHeaders (h : HttpHeaders) : Request :=
  let p := foldl request_header_step (mkPseudo ε ε ε ε ∅) (default [] h) in
  let host := if String.eqb (ps_authority p) ε then Header_Get (ps_headers p) "Host"
              else ps_authority p in
  let '(path, rawQuery) := split_path (ps_path p) in
  mkRequest (ps_method p) (ps_scheme p) host path rawQuery (extractClientIP (ps_headers p))
    (ps_headers p) ε.

Definition response_header_step (acc : string * Header) (hv : HeaderValue) : string * Header :=
  let val := header_val hv in
  if String.eqb (ToLower (hv_Key hv)) ":status" then (val, acc.2)
  else (acc.1, Header_Add acc.2 (hv_Key hv) val).

(** [parseResponseHeaders]. *)
Definition parseResponseHeaders (h : HttpHeaders) : Response :=
  let '(statusStr, respHeaders) := foldl response_header_step (ε, ∅) (default [] h) in
  let status :=
    if String.eqb statusStr ε then 200
    else match Atoi statusStr with Some code => code | None => 200 end in
  mkResponse status respHeaders ε.

End headers.

(** [newStreamID]: the hexadecimal digits of eight random bytes, or of the clock
    when the random source fails. *)
Definition newStreamID (random : option string) (nanos : Z) : string :=
  match random with
  | Some buf => str_concat (map (λ c, hex_digits 2 (byteZ c)) (String.list_ascii_of_string buf))
  | None => hex_digits 16 nanos
  end.

(** ** Process *)

Section process.
Context `{CelGo, UnicodeTables, GoRange, Decoders}.

(** The local variables of a stream. *)
Record stream := mkStream { st_req : option Request; st_resp : option Response }.

Definition step_result : Type := stream * list log_record * ProcessingResponse.

Definition empty_request : Request := mkRequest ε ε ε ε ε ε ∅ ε.
Definition empty_response : Response := mkResponse 0 ∅ ε.

Definition with_body (r : Request) (b : string) : Request :=
  mkRequest (q_Method r) (q_Scheme r) (q_Host r) (q_Path r) (q_RawQuery r) (q_RemoteIP r)
    (q_Headers r) b.

Definition access_record (streamID phase : string) (extra : list attr) (req : Request) : log_record :=
  let reqID := Header_Get (q_Headers req) "x-request-id" in
  mkRecord LevelInfo "extProc access"
    (phase_attrs streamID phase ++ extra ++
     if String.eqb reqID ε then [] else [Attr "request_id" (SString reqID)]).

(** The arm of [ProcessingRequest_RequestHeaders]. *)
Definition on_request_headers (streamID : string) (p : Config) (st : stream) (h : HttpHeaders) :
    outcome step_result :=
  let req := parseRequestHeaders h in
  ra ← RequestAttrs req (c_Logging p);
  res ← EvaluateProc p "requestHeaders" (Some req) None;
  let '(rec, respMsg) := handleProcResult streamID "requestHeaders" res (d_DryRun (c_Defaults p)) in
  Ret (mkStream (Some req) (st_resp st),
       [access_record streamID "requestHeaders" [ra] req; rec], respMsg).

Definition overflow_record (streamID phase : string) (p : Config) (size : Z) : log_record :=
  mkRecord LevelWarn "ext_proc body overflow"
    [Attr "stream_id" (SString streamID); Attr "phase" (SString phase);
     Attr "limit" (SInt64 (ep_MaxBodyBytes (d_ExtProc (c_Defaults p))));
     Attr "body_size" (SInt64 size);
     Attr "action" (SString (ep_OnBodyOverflow (d_ExtProc (c_Defaults p))));
     Attr "dry_run" (SBool (d_DryRun (c_Defaults p)))].

(** The response to a body past the limit; [cont] is the CONTINUE of the phase. *)
Definition overflow_response (p : Config) (cont : CommonResponse → ProcessingResponse) :
    ProcessingResponse :=
  if String.eqb (ep_OnBodyOverflow (d_ExtProc (c_Defaults p))) "fail" then
    if d_DryRun (c_Defaults p) then cont (mkCommon None None)
    else ProcessingResponse_Immediate (mkImmediate (StatusCode 500) None ε "ext_proc body overflow")
  else cont (mkCommon None None).

(** The arm of [ProcessingRequest_RequestBody]. *)
Definition on_request_body (streamID : string) (p : Config) (st : stream) (chunk : string) :
    outcome step_result :=
  let req := default empty_request (st_req st) in
  let req := with_body req (q_Body req +:+ chunk) in
  let st := mkStream (Some req) (st_resp st) in
  let limit := ep_MaxBodyBytes (d_ExtProc (c_Defaults p)) in
  if limit <? len (q_Body req) then
    Ret (st, [overflow_record streamID "requestBody" p (len (q_Body req))],
         overflow_response p ProcessingResponse_RequestBody)
  else
    ra ← RequestAttrs req (c_Logging p);
    res ← EvaluateProc p "requestBody" (Some req) None;
    let '(rec, respMsg) := handleProcResult streamID "requestBody" res (d_DryRun (c_Defaults p)) in
    Ret (st, [access_record streamID "requestBody" [ra] req; rec], respMsg).

(** The arm of [ProcessingRequest_ResponseHeaders]. *)
Definition on_response_headers (streamID : string) (p : Config) (st : stream) (h : HttpHeaders) :
    outcome step_result :=
  let req := default empty_request (st_req st) in
  let resp := parseResponseHeaders h in
  ra ← RequestAttrs req (c_Logging p);
  sa ← ResponseAttrs (Some resp) (c_Logging p);
  res ← EvaluateProc p "responseHeaders" (Some req) (Some resp);
  let '(rec, respMsg) := handleProcResult streamID "responseHeaders" res (d_DryRun (c_Defaults p)) in
  Ret (mkStream (Some req) (Some resp),
       [access_record streamID "responseHeaders" [ra; sa] req; rec], respMsg).

(** The arm of [ProcessingRequest_ResponseBody]. *)
Definition on_response_body (streamID : string) (p : Config) (st : stream) (chunk : string) :
    outcome step_result :=
  let req := default empty_request (st_req st) in
  let resp := default empty_response (st_resp st) in
  let resp := mkResponse (s_Status resp) (s_Headers resp) (s_Body resp +:+ chunk) in
  let st := mkStream (Some req) (Some resp) in
  let limit := ep_MaxBodyBytes (d_ExtProc (c_Defaults p)) in
  if limit <? len (s_Body resp) then
    Ret (st, [overflow_record streamID "responseBody" p (len (s_Body resp))],
         overflow_response p ProcessingResponse_ResponseBody)
  else
    sa ← ResponseAttrs (Some resp) (c_Logging p);
    res ← EvaluateProc p "responseBody" (Some req) (Some resp);
    let '(rec, respMsg) := handleProcResult streamID "responseBody" res (d_DryRun (c_Defaults p)) in
    Ret (st, [mkRecord LevelInfo "extProc access" (phase_attrs streamID "responseBody" ++ [sa]); rec],
         respMsg).

(** One iteration of the loop of [Process], up to the send. *)
Definition Process_step (streamID : string) (policy : option Config) (st : stream)
    (msg : ProcessingRequest) : outcome step_result :=
  match policy with
  | None => Ret (st, [], buildContinueResponse msg)
  | Some p =>
      match msg with
      | ProcessingRequest_RequestHeaders h => on_request_headers streamID p st h
      | ProcessingRequest_RequestBody b => on_request_body streamID p st b
      | ProcessingRequest_ResponseHeaders h => on_response_headers streamID p st h
      | ProcessingRequest_ResponseBody b => on_response_body streamID p st b
      | ProcessingRequest_Other => Ret (st, [], buildContinueResponse msg)
      end
  end.

(** What the environment does in one iteration: the policy installed then, what
    [Recv] returns, and the error of [Send] if any. *)
Inductive recv_result : Type :=
| RecvMsg (msg : ProcessingRequest)
| RecvEOF
| RecvErr (err : string).

Record iteration := mkIteration {
  it_policy : option Config;
  it_recv : recv_result;
  it_send : option string;
}.

(** How the loop ended: returned nil, returned an error, or waits for a message. *)
Inductive stream_end : Type := EndNil | EndErr (err : string) | Waiting.

(** [Process] over the given iterations: responses sent, records logged, the
    state of the stream and how the loop ended. *)
Fixpoint Process (streamID : string) (st : stream) (its : list iteration) :
    outcome (list ProcessingResponse * list log_record * stream * stream_end) :=
  match its with
  | [] => Ret ([], [], st, Waiting)
  | it :: its' =>
      match it_recv it with
      | RecvEOF => Ret ([], [], st, EndNil)
      | RecvErr err => Ret ([], [], st, EndErr err)
      | RecvMsg msg =>
          '(st', logs, respMsg) ← Process_step streamID (it_policy it) st msg;
          match it_send it with
          | Some err => Ret ([], logs, st', EndErr err)
          | None =>
              '(resps, logs', st'', e) ← Process streamID st' its';
              Ret (respMsg :: resps, logs ++ logs', st'', e)
          end
      end
  end.

(** ** Lemmas: the resolution of a phase *)

Definition applied_direct (dryGlobal : bool) (m : ResolvedMutation) : Prop :=
  rm_Op m = "directResponse" ∧ effective_dry dryGlobal m = false.

Lemma applied_direct_true d m :
  String.eqb (rm_Op m) "directResponse" && negb (effective_dry d m) = true ↔ applied_direct d m.
Proof. unfold applied_direct. by rewrite andb_true_iff, String.eqb_eq, negb_true_iff. Qed.

Lemma find_direct_Some d ms m :
  find_direct d ms = Some m ↔
  ∃ pre post, ms = pre ++ m :: post ∧ Forall (λ x, ¬ applied_direct d x) pre ∧ applied_direct d m.
Proof.
  induction ms as [|x ms IH]; cbn.
  { split; [done|]. intros ([|] & ? & ? & _); done. }
  pose proof (applied_direct_true d x) as Ht.
  destruct (String.eqb (rm_Op x) "directResponse" && _).
  - split.
    + intros [= ->]. exists [], ms. split; [done|]. split; [done|by apply Ht].
    + intros ([|y pre] & tl & E & Hpre & Hm); injection E as -> ->; [done|].
      apply Forall_cons in Hpre as [Hy _]. destruct Hy. by apply Ht.
  - rewrite IH. split.
    + intros (pre & tl & -> & Hpre & Hm). exists (x :: pre), tl. split; [done|].
      split; [|done]. constructor; [|done]. intros Hx. by apply Ht in Hx.
    + intros ([|y pre] & tl & E & Hpre & Hm); injection E as -> ->; [by apply Ht in Hm|].
      apply Forall_cons in Hpre as [_ Hpre]. by exists pre, tl.
Qed.

Lemma find_direct_None d ms :
  find_direct d ms = None ↔ Forall (λ x, ¬ applied_direct d x) ms.
Proof.
  induction ms as [|x ms IH]; cbn; [done|]. rewrite Forall_cons, <- IH, <- applied_direct_true.
  destruct (String.eqb (rm_Op x) "directResponse" && _); naive_solver.
Qed.

Lemma find_direct_dry ms : find_direct true ms = None.
Proof. apply find_direct_None, Forall_true. by intros m [_ ?]. Qed.

(** The mutations that reach Envoy. *)
Definition applied_of (d : bool) (ms : list ResolvedMutation) : list ResolvedMutation :=
  filter (λ m, effective_dry d m = false ∧ rm_Op m ≠ "directResponse") ms.

Lemma partition_applied d ms : (partition_mutations d ms).1.1 = applied_of d ms.
Proof.
  unfold applied_of. induction ms as [|m ms IH]; cbn [partition_mutations]; [done|].
  destruct (partition_mutations d ms) as [[a al] sl]. cbn in IH. subst a.
  rewrite filter_cons. destruct (effective_dry d m) eqn:Ed.
  - rewrite decide_False by naive_solver. done.
  - destruct (String.eqb_spec (rm_Op m) "directResponse") as [E|N].
    + rewrite decide_False by naive_solver. done.
    + rewrite decide_True by done. done.
Qed.

Lemma applied_of_dry ms : applied_of true ms = [].
Proof. unfold applied_of. induction ms as [|m ms IH]; [done|]. rewrite filter_cons. done. Qed.

(** The response of [handleProcResult] when nothing short-circuits. *)
Lemma handleProcResult_continue sid phase ms d :
  find_direct d ms = None →
  (handleProcResult sid phase ms d).2 =
    phase_response phase
      (mkCommon (buildMutations (applied_of d ms)).1 (buildMutations (applied_of d ms)).2).
Proof.
  intros Hf. unfold handleProcResult. rewrite Hf. rewrite <- partition_applied.
  destruct (partition_mutations d ms) as [[a al] sl]. cbn.
  by destruct (buildMutations a) as [hm bm].
Qed.

Lemma handleProcResult_direct sid phase ms d m :
  find_direct d ms = Some m →
  (handleProcResult sid phase ms d).2 =
    ProcessingResponse_Immediate (mkImmediate (StatusCode (rm_RespStatus m))
      (buildHeaderMutationFromMap (rm_RespHeaders m)) (rm_RespBody m) ε).
Proof. intros Hf. unfold handleProcResult. by rewrite Hf. Qed.

(** *** buildMutations *)

Definition sets_of (m : ResolvedMutation) : list HeaderValueOption :=
  (build_step ([], [], None) m).1.1.
Definition removes_of (m : ResolvedMutation) : list string := (build_step ([], [], None) m).1.2.
Definition body_of (m : ResolvedMutation) : option string := (build_step ([], [], None) m).2.

Lemma build_step_eq sets removes body m :
  build_step (sets, removes, body) m =
    (sets ++ sets_of m, removes ++ removes_of m,
     match body_of m with Some b => Some b | None => body end).
Proof.
  unfold sets_of, removes_of, body_of, build_step.
  repeat (match goal with |- context [String.eqb (rm_Op m) ?x] =>
    destruct (String.eqb (rm_Op m) x) end; cbn; rewrite ?app_nil_r; [done|]).
  done.
Qed.

Lemma foldl_build sets removes body ms :
  foldl build_step (sets, removes, body) ms =
    (sets ++ (ms ≫= sets_of), removes ++ (ms ≫= removes_of),
     match last (omap body_of ms) with Some b => Some b | None => body end).
Proof.
  revert sets removes body. induction ms as [|m ms IH]; intros sets removes body.
  { cbn. by rewrite !app_nil_r. }
  cbn [foldl]. rewrite build_step_eq, IH. cbn. rewrite !app_assoc. f_equal.
  destruct (body_of m) as [b|]; [|done]. rewrite last_cons.
  by destruct (last (omap body_of ms)).
Qed.

Lemma buildMutations_eq ms :
  buildMutations ms =
    (if decide (ms ≫= sets_of = [] ∧ ms ≫= removes_of = []) then None
     else Some (mkHeaderMutation (ms ≫= sets_of) (ms ≫= removes_of)),
     last (omap body_of ms)).
Proof.
  unfold buildMutations. rewrite foldl_build. cbn.
  replace (match last (omap body_of ms) with Some b => Some b | None => None end)
    with (last (omap body_of ms)) by by destruct (last _).
  f_equal. destruct (ms ≫= sets_of) as [|x l]; cbn.
  - destruct (ms ≫= removes_of) as [|y k]; cbn; [done|]. rewrite decide_False by naive_solver. done.
  - rewrite decide_False by naive_solver. done.
Qed.

Lemma body_of_Some m b :
  body_of m = Some b ↔ rm_Op m = "setBody" ∧ rm_Value m = b.
Proof.
  unfold body_of, build_step.
  destruct (String.eqb_spec (rm_Op m) "setHeader") as [->|]; [naive_solver|].
  destruct (String.eqb_spec (rm_Op m) "appendHeader") as [->|]; [naive_solver|].
  destruct (String.eqb_spec (rm_Op m) "removeHeader") as [->|]; [naive_solver|].
  destruct (String.eqb_spec (rm_Op m) "setBody") as [->|]; [naive_solver|].
  destruct (String.eqb_spec (rm_Op m) "setStatus") as [->|]; naive_solver.
Qed.

Lemma sets_of_body m : rm_Op m = "setBody" →
  sets_of m = [set_option "content-length" (Itoa (len (rm_Value m)))].
Proof. intros E. unfold sets_of, build_step. by rewrite E. Qed.

(** ** Lemmas: the stream *)

(** A response answers a message: same phase, or an immediate response. *)
Definition answers (msg : ProcessingRequest) (r : ProcessingResponse) : Prop :=
  match msg, r with
  | _, ProcessingResponse_Immediate _ => True
  | ProcessingRequest_RequestHeaders _, ProcessingResponse_RequestHeaders _ => True
  | ProcessingRequest_RequestBody _, ProcessingResponse_RequestBody _ => True
  | ProcessingRequest_ResponseHeaders _, ProcessingResponse_ResponseHeaders _ => True
  | ProcessingRequest_ResponseBody _, ProcessingResponse_ResponseBody _ => True
  | ProcessingRequest_Other, ProcessingResponse_RequestHeaders _ => True
  | _, _ => False
  end.

(** A CONTINUE response that changes nothing. *)
Definition is_plain (r : ProcessingResponse) : Prop :=
  match r with
  | ProcessingResponse_RequestHeaders c | ProcessingResponse_RequestBody c
  | ProcessingResponse_ResponseHeaders c | ProcessingResponse_ResponseBody c => c = mkCommon None None
  | ProcessingResponse_Immediate _ => False
  end.

Definition policy_ready (p : Config) : Prop :=
  loaded p ∧ reveal_ok (l_RedactReveal (c_Logging p)).

Lemma handle_phase sid phase ms d :
  (∃ r, (handleProcResult sid phase ms d).2 = ProcessingResponse_Immediate r ∧ d = false) ∨
  (∃ c, (handleProcResult sid phase ms d).2 = phase_response phase c ∧ (d = true → c = mkCommon None None)).
Proof.
  destruct (find_direct d ms) as [m|] eqn:E.
  - left. rewrite (handleProcResult_direct _ _ _ _ _ E). eexists. split; [done|].
    destruct d; [by rewrite find_direct_dry in E|done].
  - right. rewrite (handleProcResult_continue _ _ _ _ E). eexists. split; [done|].
    intros ->. rewrite applied_of_dry. done.
Qed.

(** What an iteration guarantees of its response. *)
Definition step_good (policy : option Config) (msg : ProcessingRequest) (r : ProcessingResponse) : Prop :=
  answers msg r ∧
  ((∀ p, policy = Some p → d_DryRun (c_Defaults p) = true) → is_plain r).

(** The tail of every arm: evaluate the phase and hand the result over. *)
Lemma finish_phase sid p phase req resp msg (st' : stream) (mk : log_record → list log_record) :
  loaded p → (∀ c, answers msg (phase_response phase c)) →
  ∃ logs r,
    (res ← EvaluateProc p phase (Some req) resp;
     let '(rec, respMsg) := handleProcResult sid phase res (d_DryRun (c_Defaults p)) in
     Ret (st', mk rec, respMsg)) = (Ret (st', logs, r) : outcome step_result) ∧
    step_good (Some p) msg r.
Proof.
  intros Hl Ha. rewrite EvaluateProc_eq by done. cbn [mbind outcome_bind].
  set (ms := proc_spec _ _ _).
  pose proof (handle_phase sid phase ms (d_DryRun (c_Defaults p))) as Hp.
  destruct (handleProcResult _ _ _ _) as [rec r]. cbn [snd] in Hp. eexists _, _. split; [done|].
  destruct Hp as [(i & -> & Hd)|(c & -> & Hc)]; split.
  - by destruct msg.
  - intros Hdry. specialize (Hdry p eq_refl). congruence.
  - apply Ha.
  - intros Hdry. rewrite (Hc (Hdry p eq_refl)). unfold phase_response. by repeat go_case.
Qed.

Lemma overflow_good p msg (cont : CommonResponse → ProcessingResponse) :
  answers msg (cont (mkCommon None None)) → is_plain (cont (mkCommon None None)) →
  step_good (Some p) msg (overflow_response p cont).
Proof.
  intros Ha Hp. unfold overflow_response, step_good.
  destruct (String.eqb _ "fail"); [|done]. destruct (d_DryRun (c_Defaults p)) eqn:Ed; [done|].
  split; [by destruct msg|]. intros Hd. specialize (Hd p eq_refl). congruence.
Qed.

(** One iteration: it does not panic, its response answers the message, and under
    global dry-run it changes nothing. *)
Lemma Process_step_ok sid policy st msg :
  (∀ p, policy = Some p → policy_ready p) →
  ∃ st' logs r, Process_step sid policy st msg = Ret (st', logs, r) ∧ step_good policy msg r.
Proof.
  intros Hready. unfold Process_step. destruct policy as [p|].
  2: { eexists _, _, _. split; [done|]. by destruct msg. }
  destruct (Hready p eq_refl) as [Hl Hrev].
  pose proof (λ req, RequestAttrs_no_panic req _ Hrev) as Hra.
  pose proof (λ resp, ResponseAttrs_no_panic resp _ Hrev) as Hsa.
  destruct msg as [h|b|h|b|]; [unfold on_request_headers|unfold on_request_body|
    unfold on_response_headers|unfold on_response_body|]; [| | | |by eexists _, _, _].
  - destruct (Hra (parseRequestHeaders h)) as [ra ->].
    edestruct (finish_phase sid p "requestHeaders" (parseRequestHeaders h) None) as (logs & r & E & G);
      [done| |eexists _, logs, r; split; [exact E|exact G]]. done.
  - go_case; [eexists _, _, _; split; [done|by apply overflow_good]|].
    set (req := with_body _ _). destruct (Hra req) as [ra ->].
    edestruct (finish_phase sid p "requestBody" req None) as (logs & r & E & G);
      [done| |eexists _, logs, r; split; [exact E|exact G]]. done.
  - set (req := default _ _). set (resp := parseResponseHeaders h).
    destruct (Hra req) as [ra ->], (Hsa (Some resp)) as [sa ->].
    edestruct (finish_phase sid p "responseHeaders" req (Some resp)) as (logs & r & E & G);
      [done| |eexists _, logs, r; split; [exact E|exact G]]. done.
  - go_case; [eexists _, _, _; split; [done|by apply overflow_good]|].
    set (req := default _ _). set (resp := mkResponse _ _ _). destruct (Hsa (Some resp)) as [sa ->].
    edestruct (finish_phase sid p "responseBody" req (Some resp)) as (logs & r & E & G);
      [done| |eexists _, logs, r; split; [exact E|exact G]]. done.
Qed.

(** The messages answered: those received before the stream ends or a send fails. *)
Fixpoint answered (its : list iteration) : list ProcessingRequest :=
  match its with
  | [] => []
  | it :: its' =>
      match it_recv it, it_send it with
      | RecvMsg msg, None => msg :: answered its'
      | _, _ => []
      end
  end.

Lemma Process_ok sid st its :
  (∀ it p, it ∈ its → it_policy it = Some p → policy_ready p) →
  ∃ resps logs st' e, Process sid st its = Ret (resps, logs, st', e) ∧
    Forall2 answers (answered its) resps ∧
    ((∀ it p, it ∈ its → it_policy it = Some p → d_DryRun (c_Defaults p) = true) →
     Forall is_plain resps).
Proof.
  revert st. induction its as [|it its IH]; intros st Hr; cbn.
  { eexists _, _, _, _. split; [done|]. split; [constructor|]. constructor. }
  destruct (it_recv it) as [msg| |err]; [|eauto 10..].
  destruct (Process_step_ok sid (it_policy it) st msg) as (st' & logs & r & -> & Ha & Hp).
  { intros p Hp. apply (Hr it p); [left|done]. }
  cbn. destruct (it_send it) as [err|]; [eauto 10|].
  destruct (IH st') as (resps & logs' & st'' & e & -> & Hans & Hpl).
  { intros it' p Hin. apply Hr. by right. }
  cbn. eexists _, _, _, _. split; [done|]. split; [by constructor|].
  intros Hd. constructor.
  - apply Hp. intros p Hp'. apply (Hd it p); [left|done].
  - apply Hpl. intros it' p Hin. apply Hd. by right.
Qed.

End process.
