(* ===== verification/GoPath.v ===== *)
(** * Go's standard library: path, path/filepath and the router of net/http

    [path.Clean] on the segments of a path, [filepath.Base] and [filepath.Dir] on
    a Unix target, and the way [http.ServeMux] chooses a handler. *)

From S2P Require Import Prelude GoStrings GoHttp.
Local Open Scope Z_scope.

(** ** Lexical paths *)

(** The loop of [path.Clean], segment by segment; [acc] is the output so far,
    last segment first. *)
Fixpoint clean_segments (rooted : bool) (acc segs : list string) : list string :=
  match segs with
  | [] => rev acc
  | s :: segs' =>
      if String.eqb s ε || String.eqb s "." then clean_segments rooted acc segs'
      else if String.eqb s ".." then
        match acc with
        | x :: acc' =>
            if String.eqb x ".." then clean_segments rooted (s :: acc) segs'
            else clean_segments rooted acc' segs'
        | [] =>
            if rooted then clean_segments rooted [] segs'
            else clean_segments rooted [s] segs'
        end
      else clean_segments rooted (s :: acc) segs'
  end.

Definition is_rooted (p : string) : bool := HasPrefix p "/".

(** [path.Clean]. *)
Definition Clean (p : string) : string :=
  if String.eqb p ε then "."
  else
    let body := Join (clean_segments (is_rooted p) [] (Split p "/")) "/" in
    if is_rooted p then "/" +:+ body
    else if String.eqb body ε then "." else body.

(** [path] without its trailing slashes. *)
Fixpoint trim_slashes (p : string) : string :=
  match p with
  | ε => ε
  | String c p' =>
      match trim_slashes p' with
      | ε => if Ascii.eqb c "/" then ε else str1 c
      | t => String c t
      end
  end.

(** [filepath.Base]. *)
Definition Base (p : string) : string :=
  if String.eqb p ε then "."
  else
    let t := trim_slashes p in
    let b := match LastIndexByte t "/" with Some i => str_drop (S i) t | None => t end in
    if String.eqb b ε then "/" else b.

(** [filepath.Dir]. *)
Definition Dir (p : string) : string :=
  Clean (match LastIndexByte p "/" with Some i => str_take (S i) p | None => ε end).

(** ** http.ServeMux *)

(** [cleanPath] of net/http. *)
Definition cleanPath (p : string) : string :=
  if String.eqb p ε then "/"
  else
    let p := if is_rooted p then p else "/" +:+ p in
    let np := Clean p in
    if HasSuffix p "/" && negb (String.eqb np "/") then np +:+ "/" else np.

(** [url.PathUnescape]: [None] is an [EscapeError]. *)
Fixpoint PathUnescape (s : string) : option string :=
  match s with
  | ε => Some ε
  | String "%" s1 =>
      match s1 with
      | String a (String b s3) =>
          match hex_val a, hex_val b with
          | Some x, Some y => String (chr (16 * x + y)) <$> PathUnescape s3
          | _, _ => None
          end
      | _ => None
      end
  | String c s1 => String c <$> PathUnescape s1
  end.

(** The literal pattern of one segment a path matches, if any. *)
Definition single_segment (p : string) : option string :=
  match p with
  | String "/" s =>
      if String.eqb s ε || ContainsByte s "/" then None else Some (default s (PathUnescape s))
  | _ => None
  end.

(** What a mux with the pattern [/] and the literal patterns [lits] does with a
    request. *)
Inductive route : Type :=
| RouteLiteral (seg : string)
| RouteRoot
| RouteRedirect (path : string)
| RouteNotFound.

Definition mux_match (lits : list string) (p : string) : route :=
  if String.eqb p ε then RouteNotFound
  else match single_segment p with
       | Some seg => if bool_decide (seg ∈ lits) then RouteLiteral seg else RouteRoot
       | None => RouteRoot
       end.

(** [ServeMux.findHandler]: a path that is not clean is redirected, except for
    CONNECT. *)
Definition findHandler (lits : list string) (method escapedPath : string) : route :=
  if String.eqb method "CONNECT" then mux_match lits escapedPath
  else
    let p := cleanPath escapedPath in
    if String.eqb p escapedPath then mux_match lits p else RouteRedirect p.
