(* ===== verification/Metrics.v ===== *)
(** * internal/httpserver/metrics.go: the decision counters

    [metrics], [record] and the text of [/metrics], and [record] as the atomic
    steps it is made of, so that concurrent calls interleave. *)

From S2P Require Import Prelude GoStrings GoHttp.
Local Open Scope Z_scope.

Record ruleKey := mkRuleKey { rk_rule : string; rk_outcome : string; rk_dryRun : bool }.

#[global] Instance ruleKey_eq_dec : EqDecision ruleKey.
Proof. solve_decision. Defined.

#[global] Instance ruleKey_countable : Countable ruleKey.
Proof.
  refine (inj_countable' (λ k, (rk_rule k, rk_outcome k, rk_dryRun k))
    (λ t, mkRuleKey t.1.1 t.1.2 t.2) _).
  by intros [].
Defined.

(** The counters are [atomic.Uint64]. *)
Record metrics := mkMetrics {
  totalAllowed : Z;
  totalDenied : Z;
  totalErrors : Z;
  perRule : gmap ruleKey Z;
}.

Definition newMetrics : metrics := mkMetrics 0 0 0 ∅.

Definition bump (z : Z) : Z := wrapu64 (z + 1).

(** The switch over the outcome. *)
Definition bump_total (m : metrics) (outcome : string) : metrics :=
  if String.eqb outcome "allow" then
    mkMetrics (bump (totalAllowed m)) (totalDenied m) (totalErrors m) (perRule m)
  else if String.eqb outcome "deny" then
    mkMetrics (totalAllowed m) (bump (totalDenied m)) (totalErrors m) (perRule m)
  else if String.eqb outcome "error" then
    mkMetrics (totalAllowed m) (totalDenied m) (bump (totalErrors m)) (perRule m)
  else m.

(** [metrics.record], run without interference. *)
Definition record (m : metrics) (rule outcome : string) (dryRun : bool) : metrics :=
  let m := bump_total m outcome in
  let k := mkRuleKey rule outcome dryRun in
  mkMetrics (totalAllowed m) (totalDenied m) (totalErrors m)
    (<[k := bump (default 0 (perRule m !! k))]> (perRule m)).

(** ** The exposition *)

Definition boolStr (b : bool) : string := if b then "true" else "false".

(** The [less] function given to [sort.Slice]: by rule, then by outcome. *)
Definition key_less (a b : ruleKey) : bool :=
  if negb (String.eqb (rk_rule a) (rk_rule b))
  then negb (string_leb (rk_rule b) (rk_rule a))
  else negb (string_leb (rk_outcome b) (rk_outcome a)).

Fixpoint insert_key (k : ruleKey) (l : list ruleKey) : list ruleKey :=
  match l with
  | [] => [k]
  | x :: l' => if key_less x k then x :: insert_key k l' else k :: l
  end.

Definition sort_keys (l : list ruleKey) : list ruleKey := foldr insert_key [] l.

Section handler.
Context `{UnicodeTables, GoRange}.

Definition nl : string := str1 (chr 10).
Definition quoted (s : string) : string := String (chr 34) (s +:+ str1 (chr 34)).

Definition total_line (outcome : string) (n : Z) : string :=
  "request_validator_decisions_total{outcome=" +:+ quoted outcome +:+ "} " +:+ Itoa n +:+ nl.

Definition rule_line (m : metrics) (k : ruleKey) : string :=
  "request_validator_rule_decisions_total{rule=" +:+ Quote (rk_rule k) +:+
  ",outcome=" +:+ Quote (rk_outcome k) +:+ ",dry_run=" +:+ Quote (boolStr (rk_dryRun k)) +:+
  "} " +:+ Itoa (default 0 (perRule m !! k)) +:+ nl.

(** The body [metrics.handler] writes. *)
Definition metrics_handler (m : metrics) : string :=
  "# HELP request_validator_decisions_total Total decisions emitted." +:+ nl +:+
  "# TYPE request_validator_decisions_total counter" +:+ nl +:+
  total_line "allow" (totalAllowed m) +:+ total_line "deny" (totalDenied m) +:+
  total_line "error" (totalErrors m) +:+
  "# HELP request_validator_rule_decisions_total Decisions broken down by rule." +:+ nl +:+
  "# TYPE request_validator_rule_decisions_total counter" +:+ nl +:+
  str_concat (map (rule_line m) (sort_keys (range_map (perRule m)).*1)).

End handler.

(** ** Concurrent calls

    The steps of [record] that other goroutines can observe.  A counter is a heap
    cell: [mm_perRule] maps a key to the address of its [ruleCounters], and a call
    that found no counter under the read lock looks again under the write lock
    before it allocates one. *)

Inductive call_state : Type :=
| CTotal                (** about to bump the total *)
| CLookup               (** about to look the key up under the read lock *)
| CCreate               (** not found: about to take the write lock *)
| CAdd (addr : nat)     (** holds the counter: about to add one *)
| CDone.

#[global] Instance call_state_eq_dec : EqDecision call_state.
Proof. solve_decision. Defined.

Record call := mkCall { cl_key : ruleKey; cl_state : call_state }.

Record mem := mkMem {
  mm_totals : metrics;              (** the three totals; its [perRule] is unused *)
  mm_perRule : gmap ruleKey nat;
  mm_cells : list Z;
}.

(** One atomic step of a call. *)
Definition call_step (m : mem) (c : call) : option (mem * call) :=
  let k := cl_key c in
  match cl_state c with
  | CTotal =>
      Some (mkMem (bump_total (mm_totals m) (rk_outcome k)) (mm_perRule m) (mm_cells m),
            mkCall k CLookup)
  | CLookup =>
      match mm_perRule m !! k with
      | Some a => Some (m, mkCall k (CAdd a))
      | None => Some (m, mkCall k CCreate)
      end
  | CCreate =>
      match mm_perRule m !! k with
      | Some a => Some (m, mkCall k (CAdd a))
      | None =>
          let a := length (mm_cells m) in
          Some (mkMem (mm_totals m) (<[k := a]> (mm_perRule m)) (mm_cells m ++ [0]),
                mkCall k (CAdd a))
      end
  | CAdd a => Some (mkMem (mm_totals m) (mm_perRule m) (alter bump a (mm_cells m)), mkCall k CDone)
  | CDone => None
  end.

(** Any call may take the next step. *)
Inductive conc_step : mem * list call → mem * list call → Prop :=
| conc_step_at m cs i c m' c' :
    cs !! i = Some c → call_step m c = Some (m', c') → conc_step (m, cs) (m', <[i := c']> cs).

Definition mem_empty : mem := mkMem newMetrics ∅ [].

(** The calls of a key that have added to its counter. *)
Definition is_done_at (k : ruleKey) (c : call) : Prop := cl_key c = k ∧ cl_state c = CDone.

#[global] Instance is_done_at_dec k c : Decision (is_done_at k c).
Proof.
  unfold is_done_at. destruct (cl_state c) eqn:E; [right; naive_solver..|].
  destruct (decide (cl_key c = k)); [left|right]; naive_solver.
Defined.

Definition done_calls (k : ruleKey) (cs : list call) : nat := length (filter (is_done_at k) cs).

Definition count_of (m : mem) (k : ruleKey) : Z :=
  match mm_perRule m !! k with Some a => default 0 (mm_cells m !! a) | None => 0 end.

(** ** Lemmas: no update is lost *)

Lemma wrapu64_succ z : wrapu64 (wrapu64 z + 1) = wrapu64 (z + 1).
Proof. unfold wrapu64. by rewrite Zplus_mod_idemp_l. Qed.

Record conc_inv (s : mem * list call) : Prop := {
  ci_bound : ∀ k a, mm_perRule s.1 !! k = Some a → (a < length (mm_cells s.1))%nat;
  ci_inj : ∀ k k' a, mm_perRule s.1 !! k = Some a → mm_perRule s.1 !! k' = Some a → k = k';
  ci_hold : ∀ i c a, s.2 !! i = Some c → cl_state c = CAdd a → mm_perRule s.1 !! cl_key c = Some a;
  ci_count : ∀ k, count_of s.1 k = wrapu64 (Z.of_nat (done_calls k s.2));
}.

Lemma done_calls_insert k cs i c c' :
  cs !! i = Some c → cl_key c' = cl_key c → cl_state c ≠ CDone →
  done_calls k (<[i := c']> cs) =
    (done_calls k cs + (if decide (is_done_at k c') then 1 else 0))%nat.
Proof.
  intros Hi Hk Hnd. unfold done_calls.
  rewrite insert_take_drop by by eapply lookup_lt_Some.
  rewrite <- (take_drop_middle cs i c) at 3 by done.
  rewrite !filter_app, !filter_cons, !length_app.
  rewrite (decide_False (P := is_done_at k c)) by (intros [_ ?]; done).
  destruct (decide (is_done_at k c')); cbn; lia.
Qed.

(** A step that adds to no counter and finishes no call. *)
Lemma conc_inv_quiet m cs m' i c st :
  conc_inv (m, cs) → cs !! i = Some c → cl_state c ≠ CDone → st ≠ CDone →
  mm_perRule m' = mm_perRule m → mm_cells m' = mm_cells m →
  (∀ a, st = CAdd a → mm_perRule m !! cl_key c = Some a) →
  conc_inv (m', <[i := mkCall (cl_key c) st]> cs).
Proof.
  intros [Hb Hi Hh Hc] Hci Hnd Hst Hp Hcells Hadd. cbn in *.
  split; cbn [fst snd]; unfold count_of; rewrite ?Hp, ?Hcells; [done|done| |].
  - intros j c' a. rewrite list_lookup_insert_Some. intros [(-> & <- & _)|[_ Hj]]; [apply Hadd|by eapply Hh].
  - intros k. rewrite (done_calls_insert k cs i c) by done.
    rewrite decide_False by (intros [_ ?]; done). rewrite Nat.add_0_r. apply Hc.
Qed.

Lemma count_of_create m k0 k :
  mm_perRule m !! k0 = None → (∀ k a, mm_perRule m !! k = Some a → (a < length (mm_cells m))%nat) →
  count_of (mkMem (mm_totals m) (<[k0 := length (mm_cells m)]> (mm_perRule m)) (mm_cells m ++ [0])) k =
  count_of m k.
Proof.
  intros Hk0 Hb. unfold count_of. cbn. destruct (decide (k0 = k)) as [<-|Hne].
  - rewrite lookup_insert_eq, Hk0. by rewrite lookup_app_r, Nat.sub_diag by lia.
  - rewrite lookup_insert_ne by done. destruct (mm_perRule m !! k) as [a|] eqn:E; [|done].
    by rewrite lookup_app_l by by eapply Hb.
Qed.

Lemma conc_inv_create m cs i c :
  conc_inv (m, cs) → cs !! i = Some c → cl_state c = CCreate → mm_perRule m !! cl_key c = None →
  conc_inv (mkMem (mm_totals m) (<[cl_key c := length (mm_cells m)]> (mm_perRule m)) (mm_cells m ++ [0]),
            <[i := mkCall (cl_key c) (CAdd (length (mm_cells m)))]> cs).
Proof.
  intros [Hb Hi Hh Hc] Hci Hst Hnone. cbn in *. split; cbn [fst snd mm_perRule mm_cells mm_totals].
  - intros k a. rewrite lookup_insert_Some, length_app. cbn.
    intros [[_ <-]|[_ Hk]]; [lia|]. apply Hb in Hk. lia.
  - intros k k' a. rewrite !lookup_insert_Some.
    intros [[<- <-]|[? Hk]] [[<- ?]|[? Hk']]; try done; [apply Hb in Hk'; lia|apply Hb in Hk; lia|].
    by eapply Hi.
  - intros j c' a. rewrite list_lookup_insert_Some.
    intros [(-> & <- & _)|[_ Hj]]; cbn; [intros [= <-]; apply lookup_insert_eq|].
    intros Ha. rewrite lookup_insert_ne; [by eapply Hh|]. intros E.
    specialize (Hh _ _ _ Hj Ha). congruence.
  - intros k. rewrite count_of_create by done. rewrite (done_calls_insert k cs i c) by (done || congruence).
    rewrite decide_False by (intros [_ ?]; done). rewrite Nat.add_0_r. apply Hc.
Qed.

Lemma conc_inv_add m cs i c a :
  conc_inv (m, cs) → cs !! i = Some c → cl_state c = CAdd a →
  conc_inv (mkMem (mm_totals m) (mm_perRule m) (alter bump a (mm_cells m)),
            <[i := mkCall (cl_key c) CDone]> cs).
Proof.
  intros [Hb Hi Hh Hc] Hci Hst. cbn in *. pose proof (Hh _ _ _ Hci Hst) as Ha. split; cbn [fst snd mm_perRule mm_cells mm_totals].
  - intros k a'. rewrite length_alter. apply Hb.
  - exact Hi.
  - intros j c' a'. rewrite list_lookup_insert_Some. intros [(-> & <- & _)|[_ Hj]]; [done|by eapply Hh].
  - intros k. rewrite (done_calls_insert k cs i c) by (done || congruence).
    specialize (Hc k). unfold count_of in *. cbn. destruct (decide (cl_key c = k)) as [<-|Hne].
    + rewrite decide_True by done. rewrite Ha in *. rewrite list_lookup_alter_eq.
      destruct (lookup_lt_is_Some_2 (mm_cells m) a (Hb _ _ Ha)) as [v Hv]. rewrite Hv in *. cbn in *.
      unfold bump. rewrite Hc, wrapu64_succ. f_equal. unfold done_calls. lia.
    + rewrite decide_False by (intros [? _]; done). rewrite Nat.add_0_r. unfold done_calls. rewrite <- Hc.
      destruct (mm_perRule m !! k) as [a'|] eqn:Ek; [|done].
      rewrite list_lookup_alter_ne; [done|]. intros ->. by destruct Hne; eapply Hi.
Qed.

Lemma conc_step_inv s s' : conc_step s s' → conc_inv s → conc_inv s'.
Proof.
  intros [m cs i c m' c' Hci Hstep] Hinv. unfold call_step in Hstep.
  destruct (cl_state c) eqn:Est.
  - injection Hstep as <- <-. by eapply conc_inv_quiet; try done; congruence.
  - destruct (mm_perRule m !! cl_key c) as [a|] eqn:Ek; injection Hstep as <- <-;
      eapply conc_inv_quiet; try done; congruence.
  - destruct (mm_perRule m !! cl_key c) as [a|] eqn:Ek; injection Hstep as <- <-.
    + eapply conc_inv_quiet; try done; congruence.
    + by apply conc_inv_create.
  - injection Hstep as <- <-. by apply conc_inv_add.
  - done.
Qed.

Lemma conc_step_keys s s' : conc_step s s' → map cl_key s'.2 = map cl_key s.2.
Proof.
  intros [m cs i c m' c' Hci Hstep]. cbn.
  assert (cl_key c' = cl_key c) as Hk.
  { unfold call_step in Hstep. by repeat go_case_in Hstep; simplify_eq. }
  apply list_eq. intros j. change (map cl_key) with (fmap (M := list) cl_key).
  rewrite !list_lookup_fmap. destruct (decide (i = j)) as [<-|].
  - rewrite list_lookup_insert_eq, Hci by by eapply lookup_lt_Some. cbn. by rewrite Hk.
  - by rewrite list_lookup_insert_ne.
Qed.

Lemma rtc_conc_inv s s' :
  rtc conc_step s s' → conc_inv s → conc_inv s' ∧ map cl_key s'.2 = map cl_key s.2.
Proof.
  induction 1 as [s|s1 s2 s3 Hs _ IH]; [done|]. intros Hi.
  rewrite <- (conc_step_keys _ _ Hs). apply IH. by eapply conc_step_inv.
Qed.

Definition start_calls (ks : list ruleKey) : list call := map (λ k, mkCall k CTotal) ks.

Lemma conc_inv_start ks : conc_inv (mem_empty, start_calls ks).
Proof.
  split; cbn [fst snd]; [done|done| |].
  - intros i c a. unfold start_calls. change (map ?f ks) with (f <$> ks).
    rewrite list_lookup_fmap. destruct (ks !! i); [|done]. by intros [= <-].
  - intros k. unfold done_calls, start_calls.
    assert (filter (is_done_at k) (map (λ k, mkCall k CTotal) ks) = []) as ->; [|done].
    induction ks as [|k' ks IH]; [done|]. cbn [map]. rewrite filter_cons.
    by rewrite decide_False by (intros [_ ?]; done).
Qed.

(** The number of recorded decisions of a key. *)
Definition occurrences (k : ruleKey) (ks : list ruleKey) : nat := length (filter (k =.) ks).

Lemma done_calls_all k cs :
  Forall (λ c, cl_state c = CDone) cs → done_calls k cs = occurrences k (map cl_key cs).
Proof.
  unfold done_calls, occurrences. induction cs as [|c cs IH]; [done|].
  intros [Hc Hcs]%Forall_cons. cbn [map]. rewrite !filter_cons.
  destruct (decide (k = cl_key c)) as [->|Hne].
  - rewrite decide_True by done. cbn. by rewrite IH.
  - rewrite decide_False by (intros [? _]; done). by apply IH.
Qed.

Definition record_all (ks : list ruleKey) : metrics :=
  foldl (λ m k, record m (rk_rule k) (rk_outcome k) (rk_dryRun k)) newMetrics ks.

Lemma perRule_bump_total m o : perRule (bump_total m o) = perRule m.
Proof. unfold bump_total. by repeat go_case. Qed.

Lemma record_perRule m k k' :
  default 0 (perRule (record m (rk_rule k) (rk_outcome k) (rk_dryRun k)) !! k') =
    if decide (k = k') then bump (default 0 (perRule m !! k')) else default 0 (perRule m !! k').
Proof.
  unfold record. cbn. rewrite perRule_bump_total. destruct k as [a b c]; cbn.
  destruct (decide (mkRuleKey a b c = k')) as [<-|].
  - by rewrite lookup_insert_eq.
  - by rewrite lookup_insert_ne.
Qed.

Lemma record_all_count ks k :
  default 0 (perRule (record_all ks) !! k) = wrapu64 (Z.of_nat (occurrences k ks)).
Proof.
  unfold record_all, occurrences. induction ks as [|x ks IH] using rev_ind; [done|].
  rewrite foldl_snoc, record_perRule, filter_app, length_app, filter_cons, filter_nil, IH.
  destruct (decide (x = k)) as [->|Hne].
  - rewrite decide_True by done. unfold bump. rewrite wrapu64_succ. f_equal. cbn. lia.
  - rewrite decide_False by congruence. f_equal. cbn. lia.
Qed.

(** ** The totals *)

(** The total an outcome is added to. *)
Definition total_of (m : metrics) (o : string) : Z :=
  if String.eqb o "allow" then totalAllowed m
  else if String.eqb o "deny" then totalDenied m
  else if String.eqb o "error" then totalErrors m else 0.

Definition counted (o : string) : Prop := o ∈ ["allow"; "deny"; "error"].

(** The calls that have added to the total of an outcome. *)
Definition has_total (o : string) (c : call) : Prop :=
  rk_outcome (cl_key c) = o ∧ cl_state c ≠ CTotal.

#[global] Instance has_total_dec o c : Decision (has_total o c).
Proof.
  unfold has_total. destruct (decide (rk_outcome (cl_key c) = o)); [|right; naive_solver].
  destruct (cl_state c) eqn:E; [right|left..]; naive_solver.
Defined.

Definition totalled (o : string) (cs : list call) : nat := length (filter (has_total o) cs).

Definition totals_inv (s : mem * list call) : Prop :=
  ∀ o, counted o → total_of (mm_totals s.1) o = wrapu64 (Z.of_nat (totalled o s.2)).

Lemma total_of_bump m o o' :
  counted o → total_of (bump_total m o') o =
    if decide (o' = o) then bump (total_of m o) else total_of m o.
Proof.
  unfold counted. rewrite !elem_of_cons. intros Ho. unfold total_of, bump_total.
  destruct (decide (o' = o)) as [<-|Hne].
  - by destruct Ho as [->|[->|[->|[]%elem_of_nil]]].
  - repeat go_case; bool_simpl; subst; try done.
Qed.

Lemma totalled_insert o cs i c c' :
  cs !! i = Some c → cl_key c' = cl_key c →
  (totalled o (<[i := c']> cs) + (if decide (has_total o c) then 1 else 0) =
   totalled o cs + (if decide (has_total o c') then 1 else 0))%nat.
Proof.
  intros Hi Hk. unfold totalled.
  rewrite insert_take_drop by by eapply lookup_lt_Some.
  rewrite <- (take_drop_middle cs i c) at 3 by done.
  rewrite !filter_app, !filter_cons, !length_app.
  destruct (decide (has_total o c)), (decide (has_total o c')); cbn; lia.
Qed.

Lemma call_step_key m c m' c' : call_step m c = Some (m', c') → cl_key c' = cl_key c.
Proof. unfold call_step. intros Hs. by repeat go_case_in Hs; simplify_eq. Qed.

(** A step past the first leaves the totals alone. *)
Lemma call_step_totals m c m' c' :
  call_step m c = Some (m', c') → cl_state c ≠ CTotal →
  mm_totals m' = mm_totals m ∧ cl_state c' ≠ CTotal.
Proof. unfold call_step. intros Hs Ht. by repeat go_case_in Hs; simplify_eq. Qed.

Lemma totals_step s s' : conc_step s s' → totals_inv s → totals_inv s'.
Proof.
  intros [m cs i c m' c' Hci Hstep] Hinv o Ho. specialize (Hinv o Ho). cbn [fst snd] in *.
  pose proof (call_step_key _ _ _ _ Hstep) as Hk.
  pose proof (totalled_insert o cs i c c' Hci Hk) as Hn.
  destruct (decide (cl_state c = CTotal)) as [Hst|Hst].
  - rewrite (decide_False (P := has_total o c)) in Hn by (intros [_ ?]; done).
    unfold call_step in Hstep. rewrite Hst in Hstep. injection Hstep as <- <-. cbn [mm_totals].
    rewrite total_of_bump by done. unfold has_total in Hn. cbn [cl_key cl_state] in Hn.
    destruct (decide (rk_outcome (cl_key c) = o)).
    + rewrite decide_True in Hn by done. unfold bump. rewrite Hinv, wrapu64_succ. f_equal. lia.
    + rewrite decide_False in Hn by (intros [? _]; done). rewrite Hinv. f_equal. lia.
  - destruct (call_step_totals _ _ _ _ Hstep Hst) as [-> Hst']. rewrite Hinv. do 2 f_equal.
    assert (has_total o c ↔ has_total o c') as Hiff by (unfold has_total; rewrite Hk; tauto).
    destruct (decide (has_total o c)), (decide (has_total o c')); tauto || lia.
Qed.

Lemma totals_start ks : totals_inv (mem_empty, start_calls ks).
Proof.
  intros o Ho. unfold totalled, start_calls. cbn [fst snd].
  assert (filter (has_total o) (map (λ k, mkCall k CTotal) ks) = []) as ->.
  - induction ks as [|k' ks IH]; [done|]. cbn [map]. rewrite filter_cons.
    by rewrite decide_False by (intros [_ ?]; done).
  - unfold total_of. by repeat go_case.
Qed.

Lemma totalled_all o cs :
  Forall (λ c, cl_state c = CDone) cs →
  totalled o cs = length (filter (λ k, rk_outcome k = o) (map cl_key cs)).
Proof.
  unfold totalled. induction cs as [|c cs IH]; [done|].
  intros [Hc Hcs]%Forall_cons. cbn [map]. rewrite !filter_cons. specialize (IH Hcs).
  destruct (decide (rk_outcome (cl_key c) = o)) as [He|He].
  - rewrite decide_True; [cbn; by rewrite IH|]. split; [done|]. by rewrite Hc.
  - rewrite decide_False; [done|]. by intros [? _].
Qed.

Lemma total_of_set m p o :
  total_of (mkMetrics (totalAllowed m) (totalDenied m) (totalErrors m) p) o = total_of m o.
Proof. done. Qed.

Lemma record_all_total ks o :
  counted o →
  total_of (record_all ks) o = wrapu64 (Z.of_nat (length (filter (λ k, rk_outcome k = o) ks))).
Proof.
  intros Ho. unfold record_all. induction ks as [|x ks IH] using rev_ind.
  - unfold total_of. by repeat go_case.
  - rewrite foldl_snoc. unfold record at 1. rewrite total_of_set, total_of_bump by done.
    rewrite filter_app, length_app, filter_cons, filter_nil, IH.
    destruct (decide (rk_outcome x = o)).
    + unfold bump. rewrite wrapu64_succ. f_equal. cbn. lia.
    + f_equal. cbn. lia.
Qed.

Lemma rtc_totals s s' : rtc conc_step s s' → totals_inv s → totals_inv s'.
Proof. induction 1 as [|s1 s2 s3 Hs _ IH]; [done|]. intros Hi. by eapply IH, totals_step. Qed.

(** A call that has not finished can always take its next step. *)
Lemma call_step_progress m c : cl_state c ≠ CDone → ∃ m' c', call_step m c = Some (m', c').
Proof. intros Hc. unfold call_step. repeat go_case; eauto; done. Qed.
