(* ===== verification/HttpServer.v ===== *)
(** * internal/httpserver/server.go: the ext-authz endpoint

    net/http's request and response writer as far as the handlers use them, the
    handler [handle], the routes of [Run] and the swap of the policy.  The response
    writer follows net/http: a status outside 100..999 panics, an informational
    status does not end the header, and the first write sends 200.  A panic in a
    handler is [Panic]; net/http recovers it and closes the connection. *)

From Stdlib Require Import SpecFloat.
From S2P Require Import Prelude GoStrings GoHttp GoValues CelEnv Facts Policy Evaluate.
From S2P Require Import Log AccessLog GoPath Metrics.
Local Open Scope Z_scope.

(** ** net/http *)

(** A request body: its bytes, and the error met when reading past them. *)
Record http_body := mkBody { b_data : string; b_err : option string }.

Record http_request := mkHttpRequest {
  hr_Method : string;
  hr_Host : string;
  hr_Scheme : string;          (** [r.URL.Scheme] *)
  hr_Path : string;            (** [r.URL.Path] *)
  hr_EscapedPath : string;     (** [r.URL.EscapedPath()] *)
  hr_RawQuery : string;
  hr_RemoteAddr : string;
  hr_Header : Header;
  hr_Body : http_body;
}.

(** The response writer: headers, the status once sent with the headers it was
    sent with, the informational statuses, the body. *)
Record writer := mkWriter {
  w_header : Header;
  w_sent : option (Z * Header);
  w_info : list Z;
  w_body : string;
}.

Definition new_writer : writer := mkWriter ∅ None [] ε.

Definition set_header (w : writer) (k v : string) : writer :=
  mkWriter (Header_Set (w_header w) k v) (w_sent w) (w_info w) (w_body w).

(** [WriteHeader]: a second final status is ignored. *)
Definition WriteHeader (w : writer) (code : Z) : outcome writer :=
  match w_sent w with
  | Some _ => Ret w
  | None =>
      if (code <? 100) || (999 <? code) then Panic
      else if (code <? 200) && negb (code =? 101)
      then Ret (mkWriter (w_header w) None (w_info w ++ [code]) (w_body w))
      else Ret (mkWriter (w_header w) (Some (code, w_header w)) (w_info w) (w_body w))
  end.

Definition bodyAllowedForStatus (code : Z) : bool :=
  negb (in_range 100 199 code || (code =? 204) || (code =? 304)).

(** [Write]; the error of a status without a body is dropped by every caller. *)
Definition Write_ (w : writer) (data : string) : outcome writer :=
  w ← WriteHeader w 200;
  match w_sent w with
  | Some (code, _) =>
      if bodyAllowedForStatus code
      then Ret (mkWriter (w_header w) (w_sent w) (w_info w) (w_body w +:+ data)) else Ret w
  | None => Ret w
  end.

(** The status the client sees once the handler has returned. *)
Definition final_status (w : writer) : Z := match w_sent w with Some (c, _) => c | None => 200 end.

(** [http.Error]. *)
Definition http_Error (w : writer) (err : string) (code : Z) : outcome writer :=
  let w := mkWriter (delete "Content-Length" (w_header w)) (w_sent w) (w_info w) (w_body w) in
  let w := set_header w "Content-Type" "text/plain; charset=utf-8" in
  let w := set_header w "X-Content-Type-Options" "nosniff" in
  w ← WriteHeader w code;
  Write_ w (err +:+ str1 (chr 10)).

(** [io.ReadAll(io.LimitReader(body, n))]. *)
Definition ReadAll_limited (b : http_body) (n : Z) : result string string :=
  if n <=? 0 then Ok ε
  else if n <=? len (b_data b) then Ok (str_take (Z.to_nat n) (b_data b))
  else match b_err b with Some e => Err e | None => Ok (b_data b) end.

(** ** Helpers *)

Definition hdrResult : string := "x-rv-result".
Definition hdrRule : string := "x-rv-rule".
Definition hdrReason : string := "x-rv-reason".
Definition hdrDry : string := "x-rv-dry-run".

Definition verdictLabel (allowed : bool) : string := if allowed then "allow" else "deny".

(** [clientIP]. *)
Definition clientIP (r : http_request) : string :=
  let xff := Header_Get (hr_Header r) "X-Forwarded-For" in
  if negb (String.eqb xff ε) then
    match IndexByte xff "," with
    | Some (S i) => TrimSpace (str_take (S i) xff)
    | _ => TrimSpace xff
    end
  else
    let xri := Header_Get (hr_Header r) "X-Real-Ip" in
    if negb (String.eqb xri ε) then TrimSpace xri
    else match SplitHostPort (hr_RemoteAddr r) with
         | None => hr_RemoteAddr r
         | Some (host, _) => host
         end.

(** [hostOnly]. *)
Definition hostOnly (h : string) : string :=
  match SplitHostPort h with Some (host, _) => host | None => h end.

(** [firstNonEmpty]. *)
Fixpoint firstNonEmpty (vs : list string) : string :=
  match vs with
  | [] => ε
  | v :: vs' => if negb (String.eqb v ε) then v else firstNonEmpty vs'
  end.

(** The [policy.Request] both branches build. *)
Definition policy_request (r : http_request) (body : string) : Request :=
  mkRequest (hr_Method r)
    (firstNonEmpty [Header_Get (hr_Header r) "X-Forwarded-Proto"; hr_Scheme r; "http"])
    (hostOnly (hr_Host r)) (hr_Path r) (hr_RawQuery r) (clientIP r) (hr_Header r) body.

(** ** The server *)

Section server.
Context `{CelGo, UnicodeTables, GoRange, Decoders}.

Record Server := mkServer { sv_policy : option Config; sv_metrics : metrics }.

Definition httpserver_New (initial : option Config) : Server := mkServer initial newMetrics.

(** [SetPolicy] returns the policy that was installed. *)
Definition SetPolicy (s : Server) (c : option Config) : option Config * Server :=
  (sv_policy s, mkServer c (sv_metrics s)).

Definition Server_Policy (s : Server) : option Config := sv_policy s.

(** What a handler leaves: the counters, the response, the records logged. *)
Definition served : Type := metrics * writer * list log_record.

Definition access_attrs (decision rule reason : string) (dry : bool) (duration_ms : spec_float)
    (ra : attr) : list attr :=
  [Attr "decision" (SString decision); Attr "rule" (SString rule); Attr "reason" (SString reason);
   Attr "dry_run" (SBool dry); Attr "duration_ms" (SFloat64 duration_ms); ra].

(** The deny status and body, unless the denial is shadowed. *)
Definition write_denial (p : Config) (w : writer) (dry : bool) : outcome writer :=
  if dry then WriteHeader w 200
  else
    w ← WriteHeader w (ea_DenyStatus (d_ExtAuthz (c_Defaults p)));
    Write_ w (ea_DenyBody (d_ExtAuthz (c_Defaults p))).

(** The branch of [handle] taken when the body cannot be read. *)
Definition handle_read_error (p : Config) (m : metrics) (w : writer) (err : string) :
    outcome served :=
  let dry := d_DryRun (c_Defaults p) in
  let m := record m "<read>" "error" dry in
  let rec := mkRecord LevelError "read body failed"
               [Attr "err" (SString err); Attr "dry_run" (SBool dry)] in
  let w := set_header w hdrResult "deny" in
  let w := set_header w hdrDry (if dry then "true" else "false") in
  w ← write_denial p w dry;
  Ret (m, w, [rec]).

(** The branch of a body over the limit: slicing it panics for a negative limit. *)
Definition handle_overflow (p : Config) (m : metrics) (w : writer) (r : http_request)
    (body : string) (limit : Z) (duration_ms : spec_float) : outcome served :=
  truncatedBody ← (if limit <? 0 then Panic else Ret (str_take (Z.to_nat limit) body));
  let req := policy_request r truncatedBody in
  let dry := d_DryRun (c_Defaults p) in
  let w := set_header w hdrRule "<overflow>" in
  let w := set_header w hdrReason "request body too large" in
  let w := set_header w hdrResult "deny" in
  let w := set_header w hdrDry (if dry then "true" else "false") in
  let m := record m "<overflow>" "deny" dry in
  w ← write_denial p w dry;
  ra ← RequestAttrs req (c_Logging p);
  Ret (m, w, [mkRecord LevelWarn "request decided"
    (access_attrs "deny" "<overflow>" "request body too large" dry duration_ms ra)]).

(** The branch that evaluates the policy. *)
Definition handle_decide (p : Config) (m : metrics) (w : writer) (r : http_request)
    (body : string) (duration_ms : spec_float) : outcome served :=
  let req := policy_request r body in
  d ← Evaluate p req;
  let effectiveDry := d_DryRun (c_Defaults p) || d_Dry d in
  let w := set_header w hdrRule (d_Rule d) in
  let w := set_header w hdrReason (d_Reason d) in
  let w := set_header w hdrResult (verdictLabel (Allowed d)) in
  let w := set_header w hdrDry (if effectiveDry then "true" else "false") in
  let m := record m (d_Rule d) (verdictLabel (Allowed d)) effectiveDry in
  w ← write_denial p w (Allowed d || effectiveDry);
  ra ← RequestAttrs req (c_Logging p);
  Ret (m, w, [mkRecord (if Allowed d then LevelInfo else LevelWarn) "request decided"
    (access_attrs (verdictLabel (Allowed d)) (d_Rule d) (d_Reason d) effectiveDry duration_ms ra)]).

(** [Server.handle]: the policy is loaded once. *)
Definition handle (s : Server) (r : http_request) (duration_ms : spec_float) : outcome served :=
  let m := sv_metrics s in
  let w := new_writer in
  match sv_policy s with
  | None =>
      let m := record m "<noconfig>" "error" false in
      w ← http_Error w "no policy loaded" 503;
      Ret (m, w, [])
  | Some p =>
      let limit := ea_MaxBodyBytes (d_ExtAuthz (c_Defaults p)) in
      match ReadAll_limited (hr_Body r) (wrap64 (limit + 1)) with
      | Err err => handle_read_error p m w err
      | Ok body =>
          if limit <? len body then handle_overflow p m w r body limit duration_ms
          else handle_decide p m w r body duration_ms
      end
  end.

Definition healthz (s : Server) : outcome served :=
  w ← WriteHeader new_writer 200; Ret (sv_metrics s, w, []).

Definition readyz (s : Server) : outcome served :=
  match sv_policy s with
  | None => w ← http_Error new_writer "no policy" 503; Ret (sv_metrics s, w, [])
  | Some _ => w ← WriteHeader new_writer 200; Ret (sv_metrics s, w, [])
  end.

Definition serve_metrics (s : Server) : outcome served :=
  let w := set_header new_writer "Content-Type" "text/plain; version=0.0.4" in
  w ← Write_ w (metrics_handler (sv_metrics s));
  Ret (sv_metrics s, w, []).

(** The patterns [Run] registers, and the dispatch; [None] is a response net/http
    writes itself (a redirect to the clean path, or not found). *)
Definition literal_routes : list string := ["healthz"; "readyz"; "metrics"].

Definition serve (s : Server) (r : http_request) (duration_ms : spec_float) :
    outcome (option served) :=
  match findHandler literal_routes (hr_Method r) (hr_EscapedPath r) with
  | RouteLiteral seg =>
      if String.eqb seg "healthz" then (o ← healthz s; Ret (Some o))
      else if String.eqb seg "readyz" then (o ← readyz s; Ret (Some o))
      else (o ← serve_metrics s; Ret (Some o))
  | RouteRoot => (o ← handle s r duration_ms; Ret (Some o))
  | RouteRedirect _ | RouteNotFound => Ret None
  end.

(** ** Lemmas *)

(** Settings under which the handler cannot panic: the limit is not negative and
    can be incremented, the status is final. *)
Definition authz_settings_ok (p : Config) : Prop :=
  0 ≤ ea_MaxBodyBytes (d_ExtAuthz (c_Defaults p)) < int64_max ∧
  200 ≤ ea_DenyStatus (d_ExtAuthz (c_Defaults p)) ≤ 999.

(** What is reported of a request: the rule, the outcome counted, whether the
    verdict lets the request pass and whether enforcement is suppressed. *)
Record verdict := mkVerdict {
  vd_rule : string;
  vd_outcome : string;
  vd_allowed : bool;
  vd_dry : bool;
}.

(** The documented contract: a body over the limit is denied, a body that cannot be
    read is an error, and otherwise the whole body is evaluated. *)
Definition http_verdict (p : Config) (r : http_request) : outcome verdict :=
  let dry := d_DryRun (c_Defaults p) in
  if ea_MaxBodyBytes (d_ExtAuthz (c_Defaults p)) <? len (b_data (hr_Body r))
  then Ret (mkVerdict "<overflow>" "deny" false dry)
  else match b_err (hr_Body r) with
       | Some _ => Ret (mkVerdict "<read>" "error" false dry)
       | None =>
           d ← Evaluate p (policy_request r (b_data (hr_Body r)));
           Ret (mkVerdict (d_Rule d) (verdictLabel (Allowed d)) (Allowed d) (dry || d_Dry d))
       end.

Definition passes (v : verdict) : bool := vd_allowed v || vd_dry v.

(** The response the contract promises for a verdict. *)
Definition response_for (p : Config) (v : verdict) (w : writer) : Prop :=
  let ea := d_ExtAuthz (c_Defaults p) in
  ∃ h, w_sent w = Some (if passes v then 200 else ea_DenyStatus ea, h) ∧
       w_body w = (if passes v || negb (bodyAllowedForStatus (ea_DenyStatus ea)) then ε
                   else ea_DenyBody ea) ∧
       Header_Get h hdrResult = verdictLabel (vd_allowed v) ∧
       Header_Get h hdrDry = (if vd_dry v then "true" else "false").

Lemma Header_Get_Set_eq h k v k' :
  Header_Get (Header_Set h k v) k' =
    if decide (CanonicalHeaderKey k = CanonicalHeaderKey k') then v else Header_Get h k'.
Proof.
  unfold Header_Get, Header_Set, header_values. destruct (decide _) as [->|Hne].
  - by rewrite lookup_insert_eq.
  - by rewrite lookup_insert_ne.
Qed.

Lemma write_denial_ok p w dry :
  authz_settings_ok p → w_sent w = None → w_body w = ε →
  let ea := d_ExtAuthz (c_Defaults p) in
  ∃ w', write_denial p w dry = Ret w' ∧
    w_sent w' = Some (if dry then 200 else ea_DenyStatus ea, w_header w) ∧
    w_body w' = (if dry || negb (bodyAllowedForStatus (ea_DenyStatus ea)) then ε
                 else ea_DenyBody ea).
Proof.
  intros [_ Hst] Hs Hb. unfold write_denial. destruct dry; cbn [orb].
  { unfold WriteHeader. rewrite Hs. by eexists. }
  unfold WriteHeader at 1. rewrite Hs.
  set (code := ea_DenyStatus _) in *.
  replace ((code <? 100) || (999 <? code)) with false by lia.
  replace ((code <? 200) && negb (code =? 101)) with false by lia.
  cbn. destruct (bodyAllowedForStatus code); eexists; (split; [done|]); cbn; by rewrite Hb.
Qed.

(** Reading one byte past the limit tells the three cases apart. *)
Lemma ReadAll_cases limit b :
  0 ≤ limit < int64_max →
  (∃ body, ReadAll_limited b (wrap64 (limit + 1)) = Ok body ∧ limit < len body ∧
           limit < len (b_data b)) ∨
  (∃ e, ReadAll_limited b (wrap64 (limit + 1)) = Err e ∧ len (b_data b) ≤ limit ∧ b_err b = Some e) ∨
  (ReadAll_limited b (wrap64 (limit + 1)) = Ok (b_data b) ∧ len (b_data b) ≤ limit ∧ b_err b = None).
Proof.
  unfold int64_max. intros Hl. unfold ReadAll_limited.
  rewrite wrap64_id by (unfold int64_ok, int64_min, int64_max; lia).
  destruct (Z.leb_spec (limit + 1) 0); [lia|].
  destruct (Z.leb_spec (limit + 1) (len (b_data b))) as [Hle|Hgt].
  - left. eexists. split; [done|]. unfold len in *. rewrite length_str_take. lia.
  - right. destruct (b_err b) as [e|]; [left; exists e|right]; split_and!; try done; lia.
Qed.

Ltac header_get := cbn [w_header set_header]; rewrite !Header_Get_Set_eq; by vm_compute.

(** A branch that sets the diagnostic headers and denies or passes. *)
Lemma response_for_intro p w v :
  authz_settings_ok p → w_sent w = None → w_body w = ε →
  Header_Get (w_header w) hdrResult = verdictLabel (vd_allowed v) →
  Header_Get (w_header w) hdrDry = (if vd_dry v then "true" else "false") →
  ∃ w', write_denial p w (passes v) = Ret w' ∧ response_for p v w'.
Proof.
  intros Hp Hs Hb Hr Hd. destruct (write_denial_ok p w (passes v) Hp Hs Hb) as (w' & E & Hw & Hb').
  exists w'. split; [done|]. exists (w_header w). done.
Qed.

Lemma handle_ok s p r dur :
  sv_policy s = Some p → loaded p → reveal_ok (l_RedactReveal (c_Logging p)) →
  authz_settings_ok p →
  ∃ v w rec, http_verdict p r = Ret v ∧
    handle s r dur =
      Ret (record (sv_metrics s) (vd_rule v) (vd_outcome v) (vd_dry v), w, [rec]) ∧
    response_for p v w ∧
    (vd_outcome v ≠ "error" → lr_level rec = if vd_allowed v then LevelInfo else LevelWarn).
Proof.
  intros Hsp Hl Hrev Hset. unfold handle, http_verdict. rewrite Hsp.
  pose proof (λ req, RequestAttrs_no_panic req _ Hrev) as Hra.
  destruct Hset as [Hlim Hst]. assert (authz_settings_ok p) as Hset by done.
  set (limit := ea_MaxBodyBytes _) in *.
  destruct (ReadAll_cases limit (hr_Body r) Hlim)
    as [(body & -> & Hb & Hd)|[(e & -> & Hd & He)|(-> & Hd & He)]].
  - replace (limit <? len body) with true by lia.
    replace (limit <? len (b_data (hr_Body r))) with true by lia.
    unfold handle_overflow. replace (limit <? 0) with false by lia. cbn [mbind outcome_bind].
    set (v := mkVerdict _ _ _ _). set (w := set_header _ hdrDry _).
    destruct (response_for_intro p w v) as (w' & E & Hw); [done..|by subst w; header_get|by subst w; header_get|].
    change (passes v) with (d_DryRun (c_Defaults p)) in E. rewrite E. cbn [mbind outcome_bind].
    destruct (Hra (policy_request r (str_take (Z.to_nat limit) body))) as [ra ->]. cbn [mbind outcome_bind].
    by eexists v, w', _.
  - replace (limit <? len (b_data (hr_Body r))) with false by lia. rewrite He.
    unfold handle_read_error. set (v := mkVerdict _ _ _ _). set (w := set_header _ hdrDry _).
    destruct (response_for_intro p w v) as (w' & E & Hw); [done..|by subst w; header_get|by subst w; header_get|].
    change (passes v) with (d_DryRun (c_Defaults p)) in E. rewrite E. cbn [mbind outcome_bind].
    by eexists v, w', _.
  - replace (limit <? len (b_data (hr_Body r))) with false by lia. rewrite He.
    unfold handle_decide. destruct (Evaluate_verdict p (policy_request r (b_data (hr_Body r))) Hl) as (d & -> & _).
    cbn [mbind outcome_bind]. set (v := mkVerdict _ _ _ _). set (w := set_header _ hdrDry _).
    destruct (response_for_intro p w v) as (w' & E & Hw); [done..|by subst w; header_get|by subst w; header_get|].
    change (passes v) with (Allowed d || (d_DryRun (c_Defaults p) || d_Dry d)) in E. rewrite E. cbn [mbind outcome_bind].
    destruct (Hra (policy_request r (b_data (hr_Body r)))) as [ra ->]. cbn [mbind outcome_bind].
    by eexists v, w', _.
Qed.

End server.
