(* ===== verification/Instances.v ===== *)
(** * Concrete instances of the interfaces

    Small implementations of the libraries the code calls, so that the model runs
    on concrete policies: a CEL with a handful of expressions, ASCII-only Unicode
    tables, decoders that know the empty document, and a world with one file and
    one URL.  The sample policies used throughout are built here. *)

From Stdlib Require Import SpecFloat.
From S2P Require Import Prelude GoStrings GoHttp GoValues CelEnv Facts Policy Evaluate.
From S2P Require Import Log.
Local Open Scope Z_scope.

(** ** Library instances *)

#[global] Instance ascii_tables : UnicodeTables :=
  {| unicode_lower := λ r, r; unicode_print := λ _, false |}.

#[global] Instance ordered_range : GoRange := range_in_order.

#[global] Instance tiny_decoders : Decoders :=
  {| json_Unmarshal := λ s, if String.eqb s "{}" then Some (GMap []) else None;
     yaml_Unmarshal := λ s, if String.eqb s "{}" then Some (GMap []) else None;
     sprint_other := λ _, "?" |}.

#[global] Instance plain_fmt : FmtTables :=
  {| fmt_float := λ _, "0"; fmt_duration := Itoa; fmt_time := Itoa; fmt_any := λ _, "?" |}.

(** A file and a URL that exist. *)
#[global] Instance small_world : FactsWorld :=
  {| ReadFile := λ p, if String.eqb p "/etc/list" then Ok "a,b" else Err "no such file";
     http_NewRequest := λ _, Ok ();
     http_Do := λ u _ _,
       if String.eqb u "http://feed" then Ok (mkHttpResponse 200 "200 OK" (Ok "feed"))
       else Ok (mkHttpResponse 404 "404 Not Found" (Ok "none")) |}.

(** ** A tiny CEL

    [true], [false], [fail], [method:M], [status:N], [str:S], [int:N] and [map:K]. *)

Inductive tiny_prog : Type :=
| TConst (v : refval)
| TFail
| TMethodIs (m : string)
| TStatusIs (z : Z).

Definition tiny_type (p : tiny_prog) : cel_type :=
  match p with
  | TConst (types_String _) => StringType
  | TConst (types_Int _) => IntType
  | TConst (ref_other _) => MapType StringType StringType
  | _ => BoolType
  end.

Definition tiny_vars (p : tiny_prog) : list string :=
  match p with TMethodIs _ => ["request"] | TStatusIs _ => ["response"] | _ => [] end.

Definition tiny_parse (src : string) : option tiny_prog :=
  if String.eqb src "true" then Some (TConst (types_Bool true))
  else if String.eqb src "false" then Some (TConst (types_Bool false))
  else if String.eqb src "fail" then Some TFail
  else if HasPrefix src "method:" then Some (TMethodIs (TrimPrefix src "method:"))
  else if HasPrefix src "status:" then TStatusIs <$> ParseInt (TrimPrefix src "status:")
  else if HasPrefix src "str:" then Some (TConst (types_String (TrimPrefix src "str:")))
  else if HasPrefix src "int:" then (λ z, TConst (types_Int z)) <$> ParseInt (TrimPrefix src "int:")
  else if HasPrefix src "map:" then
    Some (TConst (ref_other (GMapString {[TrimPrefix src "map:" := "1"]})))
  else None.

Definition tiny_compile (vars : list string) (src : string) : result string tiny_prog :=
  match tiny_parse src with
  | None => Err "syntax error"
  | Some p => if bool_decide (tiny_vars p ⊆ vars) then Ok p else Err "undeclared reference"
  end.

Definition field (vars : gmap string gval) (x f : string) : option gval :=
  match vars !! x with Some (GMap m) => map_get m f | _ => None end.

Definition tiny_run (p : tiny_prog) (vars : gmap string gval) : result string (option refval) :=
  match p with
  | TConst v => Ok (Some v)
  | TFail => Err "no such key"
  | TMethodIs m =>
      match field vars "request" "method" with
      | Some (GString s) => Ok (Some (types_Bool (String.eqb s m)))
      | _ => Err "no such key"
      end
  | TStatusIs z =>
      match field vars "response" "status" with
      | Some (GInt64 s) => Ok (Some (types_Bool (s =? z)))
      | _ => Err "no such key"
      end
  end.

Lemma tiny_run_non_nil p vars : tiny_run p vars ≠ Ok None.
Proof. destruct p; cbn; repeat go_case; congruence. Qed.

Lemma tiny_scoped opts env src ast p :
  Ok (declared opts) = (Ok env : result string (list string)) → tiny_compile env src = Ok ast →
  Ok ast = (Ok p : result string tiny_prog) → tiny_vars p ⊆ declared opts.
Proof.
  intros [= <-]. unfold tiny_compile. destruct (tiny_parse src) as [q|]; [|done].
  case_bool_decide; [|done]. by intros [= <-] [= <-].
Qed.

#[global] Instance tiny_cel : CelGo :=
  {| cel_Env := list string; cel_Ast := tiny_prog; Program := tiny_prog;
     cel_NewEnv := λ opts, Ok (declared opts); cel_Compile := tiny_compile;
     OutputType := tiny_type; cel_Program := λ _ ast, Ok ast; ContextEval := tiny_run;
     prog_vars := tiny_vars; ContextEval_non_nil := tiny_run_non_nil;
     cel_Compile_scoped := tiny_scoped |}.

(** ** Sample policies *)

Definition raw_mutation (op name value code : string) : Mutation :=
  mkMutation op name value code 0 ε ε None None None None.

Definition raw_direct (status : Z) (headers body : string) : Mutation :=
  mkMutation "directResponse" ε ε ε status headers body None None None None.

Definition authz_rule (name expr action : string) (dry : bool) : Rule :=
  mkRule name ε expr (Some (mkValidation action)) [] dry None.

Definition proc_rule (name expr : string) (ms : list Mutation) (dry : bool) : Rule :=
  mkRule name ε expr None ms dry None.

Definition no_defaults : Defaults :=
  mkDefaults (mkExtAuthzDefaults ε 0 ε false 0) (mkExtProcDefaults 0 ε) false.

Definition no_logging : Logging := mkLogging ε ε false None None 0 None.

Definition value_fact : Spec := mkSpec "team" "value" (GString "ops") None None.
Definition file_fact : Spec := mkSpec "list" "file" GNil (Some (mkFile "/etc/list")) None.
Definition url_fact : Spec :=
  mkSpec "feed" "url" GNil None (Some (mkURL "http://feed" 0 0 ∅)).

(** Two ext-authz groups and an extProc group per phase kind. *)
Definition sample_groups : list Group :=
  [mkGroup "reads" ε (mkParameters "extAuthz" "firstMatch" ε) ε
     [authz_rule "get" "method:GET" "allow" false; authz_rule "trace" "method:TRACE" "deny" true]
     None;
   mkGroup "broken" ε (mkParameters "extAuthz" "matchAll" ε) "method:PUT"
     [authz_rule "oops" "fail" "allow" false] None;
   mkGroup "stamp" ε (mkParameters "extProc" "applyAll" "requestHeaders") ε
     [proc_rule "add" "true"
        [raw_mutation "setHeader" "x-team" "str:ops" ε; raw_mutation "removeHeader" "x-debug" ε ε] false;
      proc_rule "never" "fail" [raw_mutation "setHeader" "x-no" "str:no" ε] false] None;
   mkGroup "errors" ε (mkParameters "extProc" "firstMatch" "responseHeaders") ε
     [proc_rule "hide" "status:500" [raw_direct 502 "map:x-hidden" "str:oops"] false] None].

Definition sample_raw : Config :=
  mkConfig no_defaults no_logging [value_fact; file_fact; url_fact] sample_groups None None.

(** The same policy under the global dry run. *)
Definition shadow_raw : Config :=
  mkConfig (mkDefaults (d_ExtAuthz no_defaults) (d_ExtProc no_defaults) true) no_logging
    [] sample_groups None None.

(** Facts of which the second to be visited cannot be fetched. *)
Definition leaky_raw : Config :=
  mkConfig no_defaults no_logging
    [url_fact; mkSpec "lost" "url" GNil None (Some (mkURL "http://gone" 0 0 ∅))]
    sample_groups None None.

Definition sample_yaml (b : string) : result string Config :=
  if String.eqb b "sample" then Ok sample_raw
  else if String.eqb b "shadow" then Ok shadow_raw
  else if String.eqb b "leaky" then Ok leaky_raw
  else Err "yaml: unknown document".

Lemma sample_unexported b c : sample_yaml b = Ok c → uncompiled c.
Proof.
  unfold sample_yaml. repeat go_case; intros [= <-]; repeat constructor.
Qed.

#[global] Instance tiny_yaml : YamlPolicy :=
  {| yaml_Unmarshal_Config := sample_yaml; yaml_unexported := sample_unexported |}.

Definition load_or (d : Config) (b : string) : Config :=
  match LoadBytes b with Ok c => c | Err _ => d end.

Definition sample_policy : Config := load_or sample_raw "sample".
Definition shadow_policy : Config := load_or shadow_raw "shadow".

Lemma load_or_ok d b : is_ok (LoadBytes b) = true → LoadBytes b = Ok (load_or d b).
Proof. unfold load_or. by destruct (LoadBytes b). Qed.

Lemma sample_loads : LoadBytes "sample" = Ok sample_policy.
Proof. apply load_or_ok. by vm_compute. Qed.

Lemma shadow_loads : LoadBytes "shadow" = Ok shadow_policy.
Proof. apply load_or_ok. by vm_compute. Qed.

Lemma sample_loaded : loaded sample_policy.
Proof. exact (proj1 (LoadBytes_loaded _ _ sample_loads)). Qed.

Lemma shadow_loaded : loaded shadow_policy.
Proof. exact (proj1 (LoadBytes_loaded _ _ shadow_loads)). Qed.

Definition get_request : Request :=
  mkRequest "GET" "https" "example.org" "/a" "x=1" "10.0.0.1"
    (Header_Add (Header_Add ∅ "x-tag" "one") "X-Tag" "two") ε.

Definition put_request : Request :=
  mkRequest "PUT" "https" "example.org" "/a" ε "10.0.0.1" ∅ "{}".
