(* ===== verification/LoadTheorems.v ===== *)
(** * Properties of loading a policy

    What [LoadBytes], [validate], the compilation cache, [BytesSize] and the facts
    registry guarantee. *)

From S2P Require Import Prelude GoStrings GoHttp GoValues CelEnv Facts Policy Evaluate.
From S2P Require Import ExtProc Instances.
Local Open Scope Z_scope.

(** ** Sizes *)

(** The units of [UnmarshalYAML], in their usual spellings. *)
Definition size_units : list (string * Z) :=
  [("b", 1); ("B", 1); ("kb", 1000); ("kB", 1000); ("KB", 1000); ("mb", 1000000); ("MB", 1000000);
   ("kib", 2 ^ 10); ("KiB", 2 ^ 10); ("mib", 2 ^ 20); ("MiB", 2 ^ 20); ("gib", 2 ^ 30);
   ("GiB", 2 ^ 30)].

(** Printable ASCII without the space. *)
Definition dense_byte (c : ascii) : bool := in_range 33 127 (byteZ c).

Lemma dense_ascii s : str_forall dense_byte s = true → is_ascii s = true.
Proof.
  unfold is_ascii. induction s as [|c s IH]; [done|]. cbn. rewrite !andb_true_iff.
  intros [Hc Hs]. split; [|by apply IH]. unfold dense_byte, in_range in Hc. lia.
Qed.

Lemma drop_spaces_dense (l : list (Z * string)) :
  Forall (λ rc, IsSpace rc.1 = false) l → drop_spaces l = l.
Proof. intros Hl. destruct Hl as [|rc l' Hx _]; cbn; [done|]. by rewrite Hx. Qed.

Lemma TrimSpace_dense s : str_forall dense_byte s = true → TrimSpace s = s.
Proof.
  intros Hs. unfold TrimSpace.
  assert (Forall (λ rc, IsSpace rc.1 = false) (runes s)) as Hr.
  { rewrite runes_ascii by by apply dense_ascii.
    induction s as [|c s IH]; cbn in *; [constructor|]. apply andb_true_iff in Hs as [Hc Hs].
    constructor; [|by apply IH]. cbn. unfold dense_byte, in_range in Hc. unfold IsSpace, in_range. lia. }
  rewrite (drop_spaces_dense _ Hr), drop_spaces_dense by by apply Forall_reverse.
  rewrite reverse_involutive. apply runes_concat.
Qed.

Lemma fmt_dec_dense f n acc :
  0 ≤ n → str_forall dense_byte acc = true → str_forall dense_byte (fmt_dec f n acc) = true.
Proof.
  apply fmt_dec_forall. intros d Hd. unfold dense_byte, in_range. rewrite byteZ_chr by lia. lia.
Qed.

Lemma fmt_dec_last f n acc :
  0 ≤ n → ∃ x d, fmt_dec (S f) n acc = x +:+ String d acc ∧ is_digit d = true.
Proof.
  revert n acc. induction f as [|f IH]; intros n acc Hn.
  - cbn [fmt_dec]. pose proof (Z.mod_pos_bound n 10). destruct (Z.ltb_spec n 10); exists ε; eexists;
      (split; [done|]); unfold is_digit, in_range; rewrite byteZ_chr; lia.
  - remember (S f) as k eqn:Ek. cbn [fmt_dec].
    pose proof (Z.mod_pos_bound n 10). destruct (Z.ltb_spec n 10).
    + exists ε. eexists. split; [done|]. unfold is_digit, in_range. rewrite byteZ_chr; lia.
    + destruct (IH (n / 10) (String (chr (48 + n mod 10)) acc)) as (x & d & -> & _);
        [apply Z.div_pos; lia|].
      exists (x +:+ str1 d). eexists. split; [by rewrite append_assoc|].
      unfold is_digit, in_range. rewrite byteZ_chr; lia.
Qed.

Lemma Itoa_dense z : str_forall dense_byte (Itoa z) = true.
Proof.
  unfold Itoa. assert (∀ f, str_forall dense_byte (fmt_dec f (Z.abs z) ε) = true) as Hf.
  { intros f. by apply fmt_dec_dense; [lia|]. }
  destruct (z <? 0); cbn [str_forall]; by rewrite Hf.
Qed.

Lemma Itoa_last z : ∃ x d, Itoa z = x +:+ str1 d ∧ is_digit d = true.
Proof.
  unfold Itoa. destruct (fmt_dec_last (Z.to_nat (Z.log2 (Z.abs z))) (Z.abs z) ε)
    as (x & d & -> & Hd); [lia|].
  destruct (z <? 0); [exists (String "-" x)|exists x]; by exists d.
Qed.

Lemma digits_val_stop acc x c t : is_digit c = false → digits_val acc (x +:+ String c t) = None.
Proof.
  intros Hc. revert acc. induction x as [|d x IH]; intros acc; cbn; [by rewrite Hc|].
  destruct (is_digit d); [apply IH|done].
Qed.

Lemma ParseInt_stop x d c t :
  is_digit c = false → ParseInt (String d x +:+ String c t) = None.
Proof.
  intros Hc. change (String d x +:+ String c t) with (String d (x +:+ String c t)).
  assert (digits_val 0 (x +:+ String c t) = None) as H1 by by apply digits_val_stop.
  assert (digits_val 0 (String d (x +:+ String c t)) = None) as H2
    by by apply (digits_val_stop 0 (String d x)).
  unfold ParseInt.
  match goal with |- context [let '(_, _) := ?q in _] => set (p := q) end.
  assert (digits_val 0 p.2 = None) as Hp
    by (subst p; destruct d as [[] [] [] [] [] [] [] []]; first [exact H1|exact H2]).
  destruct p as [neg ds]. cbn [snd] in Hp. rewrite Hp. by destruct (String.eqb ds ε).
Qed.

Lemma HasSuffix_spec s p : HasSuffix s p = true ↔ ∃ t, s = t +:+ p.
Proof.
  unfold HasSuffix. rewrite andb_true_iff, Nat.leb_le, String.eqb_eq. split.
  - intros [_ E]. exists (str_take (String.length s - String.length p) s).
    transitivity (str_take (String.length s - String.length p) s +:+
                  str_drop (String.length s - String.length p) s); [|by rewrite E].
    symmetry. apply str_take_drop.
  - intros [t ->]. rewrite length_append. split; [lia|].
    replace (String.length t + String.length p - String.length p)%nat with (String.length t) by lia.
    apply str_drop_append.
Qed.

(** Only the last bytes matter. *)
Lemma HasSuffix_cut x s p :
  (String.length p ≤ String.length s)%nat → HasSuffix (x +:+ s) p = HasSuffix s p.
Proof.
  intros Hl. unfold HasSuffix. rewrite length_append.
  rewrite !(proj2 (Nat.leb_le _ _)) by lia. cbn [andb].
  replace (String.length x + String.length s - String.length p)%nat
    with (String.length x + (String.length s - String.length p))%nat by lia.
  f_equal. induction x as [|c x IH]; [done|]. exact IH.
Qed.

Lemma HasSuffix_tail s a p : HasSuffix s p = false → HasSuffix s (String a p) = false.
Proof.
  intros Hp. apply not_true_iff_false. intros [t ->]%HasSuffix_spec.
  apply not_true_iff_false in Hp. apply Hp, HasSuffix_spec. exists (t +:+ str1 a).
  by rewrite append_assoc.
Qed.

Lemma UnmarshalYAML_unit `{UnicodeTables} z c suf mul :
  int64_ok z → is_digit c = false → str_forall dense_byte (String c suf) = true →
  (∀ x d, is_digit d = true →
     size_suffix (x +:+ String d (str_map ascii_lower (String c suf))) =
       (mul, String.length (String c suf))) →
  UnmarshalYAML true (Itoa z +:+ String c suf) = Ok (wrap64 (z * mul)).
Proof.
  intros Hz Hc Hdense Hsuf. unfold UnmarshalYAML. cbn [negb].
  assert (str_forall dense_byte (Itoa z +:+ String c suf) = true) as Hd.
  { rewrite str_forall_append, Itoa_dense. done. }
  rewrite (TrimSpace_dense _ Hd).
  destruct (Itoa_last z) as (x & d & Ez & Hdig).
  assert (ParseInt (Itoa z +:+ String c suf) = None) as ->.
  { rewrite Ez. destruct x as [|e x]; [by apply (ParseInt_stop ε)|].
    by apply (ParseInt_stop (x +:+ str1 d)). }
  rewrite ToLower_ascii by by apply dense_ascii.
  assert (∀ s t, str_map ascii_lower (s +:+ t) = str_map ascii_lower s +:+ str_map ascii_lower t) as Happ.
  { induction s as [|e s IH]; intros t; cbn; [done|]. by rewrite IH. }
  assert (ascii_lower d = d) as Hlow.
  { unfold ascii_lower, is_digit, in_range in *.
    destruct ((65 <=? byteZ d) && (byteZ d <=? 90)) eqn:E; [lia|done]. }
  rewrite Happ, Ez, Happ, append_assoc. cbn [str_map str1 append]. rewrite Hlow, Hsuf by done.
  rewrite <- Ez. rewrite length_append.
  replace (String.length (Itoa z) + String.length (String c suf) - String.length (String c suf))%nat
    with (String.length (Itoa z)) by lia.
  rewrite str_take_append, (TrimSpace_dense _ (Itoa_dense z)).
  change (ParseInt (Itoa z)) with (Atoi (Itoa z)). by rewrite Atoi_Itoa.
Qed.

(** Evaluates the suffix switch after a digit. *)
Ltac suffix_case :=
  intros ? d Hd; cbn [str_map]; unfold size_suffix;
  destruct d as [[] [] [] [] [] [] [] []]; vm_compute in Hd; try discriminate Hd;
  repeat match goal with
  | |- context [HasSuffix (?x +:+ ?s) ?p] =>
      first [ rewrite (HasSuffix_cut x s p) by (cbn; lia)
            | let H := fresh in
              assert (HasSuffix (x +:+ s) p = false) as H
                by (apply HasSuffix_tail; rewrite HasSuffix_cut by (cbn; lia); reflexivity);
              rewrite H; clear H ]
  end; reflexivity.

Lemma UnmarshalYAML_units `{UnicodeTables} z suf mul :
  int64_ok z → (suf, mul) ∈ size_units →
  UnmarshalYAML true (Itoa z +:+ suf) = Ok (wrap64 (z * mul)).
Proof.
  intros Hz Hin. apply list_elem_of_In in Hin. cbn in Hin.
  repeat destruct Hin as [[= <- <-]|Hin]; [apply UnmarshalYAML_unit; [done|done|done|suffix_case]..|done].
Qed.

(** C34 [BytesSize.UnmarshalYAML]: a decimal number followed by a unit is that
    number times the unit, reduced to the range of an [int64]; the multiplication
    is not checked, so a product out of range wraps around. *)
Theorem size_with_unit `{UnicodeTables} (z : Z) (suf : string) (mul : Z) :
  int64_ok z → (suf, mul) ∈ size_units →
  UnmarshalYAML true (Itoa z +:+ suf) = Ok (wrap64 (z * mul)) ∧
  (int64_ok (z * mul) → UnmarshalYAML true (Itoa z +:+ suf) = Ok (z * mul)).
Proof.
  intros Hz Hu. pose proof (UnmarshalYAML_units z suf mul Hz Hu) as ->.
  split; [done|]. intros Hm. by rewrite wrap64_id.
Qed.

Lemma size_with_unit_witness :
  UnmarshalYAML true "64KiB" = Ok 65536 ∧
  UnmarshalYAML true "17179869184GiB" = Ok 0 ∧
  UnmarshalYAML true "9007199254740992KiB" = Ok (- 2 ^ 63).
Proof.
  split_and!.
  - apply (proj2 (size_with_unit 64 "KiB" (2 ^ 10) ltac:(by vm_compute) ltac:(set_solver))). by vm_compute.
  - exact (proj1 (size_with_unit 17179869184 "GiB" (2 ^ 30) ltac:(by vm_compute) ltac:(set_solver))).
  - exact (proj1 (size_with_unit 9007199254740992 "KiB" (2 ^ 10) ltac:(by vm_compute) ltac:(set_solver))).
Defined.

(** ** The policy *)

(** C6 [validate] accepts exactly the policies the documentation calls valid:
    known actions, at least one group, distinct names, an engine, mode and phase
    that fit together, a verdict on every extAuthz rule, mutations allowed in
    their phase on every extProc rule. *)
Theorem validate_decides `{CelGo, UnicodeTables} (c : Config) :
  is_ok (validate c) = true ↔ Config_ok c.
Proof.
  destruct (validate c) as [[]|e] eqn:E; cbn; split; intros Hc; try done.
  - by apply (validate_ok c ()).
  - apply (validate_ok c ()) in Hc. congruence.
Qed.

Lemma validate_decides_witness :
  Config_ok (applyDefaults sample_raw) ∧
  ¬ Config_ok (applyDefaults (mkConfig no_defaults no_logging [] [] None None)).
Proof.
  split.
  - apply (proj1 (validate_decides (applyDefaults sample_raw))). by vm_compute.
  - intros Hok. apply (proj2 (validate_decides _)) in Hok. by vm_compute in Hok.
Defined.

(** C5 A policy that [LoadBytes] returns is valid, has its defaults filled in,
    and every expression in it is compiled in the scope of its group against the
    environment of the policy; its facts registry holds the declared facts and is
    not started. *)
Theorem LoadBytes_sound `{CelGo, UnicodeTables, !YamlPolicy} (b : string) (c : Config) :
  LoadBytes b = Ok c → loaded c ∧ unstarted c.
Proof. apply LoadBytes_loaded. Qed.

Lemma LoadBytes_sound_witness : loaded sample_policy ∧ unstarted sample_policy.
Proof. exact (LoadBytes_sound "sample" sample_policy sample_loads). Defined.

(** The programs of a group: its own expression and those of its rules. *)
Definition group_programs `{CelGo} (g : Group) : list Program :=
  option_list (g_matchProg g) ++
  (r ← g_Rules g;
   option_list (r_matchProg r) ++
   (m ← r_Mutations r;
    if is_in (m_Op m) ["setHeader"; "appendHeader"; "setBody"] then option_list (m_valueProg m)
    else if String.eqb (m_Op m) "setStatus" then option_list (m_codeProg m)
    else if String.eqb (m_Op m) "directResponse" then
      option_list (m_headersProg m) ++ option_list (m_bodyProg m)
    else [])).

Section bound.
Context `{CelGo, UnicodeTables, GoRange, Decoders}.

Lemma elem_option_list {A} (x : A) o : x ∈ option_list o ↔ o = Some x.
Proof. destruct o; cbn; set_solver. Qed.

(** Every program of a compiled group was compiled in the scope of the group. *)
Lemma group_programs_scope e g p :
  group_compiled e g → p ∈ group_programs g →
  ∃ kind src, prog_for e (group_scope (g_Parameters g)) kind src p.
Proof.
  intros [Hm Hr] Hp. unfold group_programs in Hp. rewrite Forall_forall in Hr.
  apply elem_of_app in Hp as [Hp%elem_option_list|Hp].
  { destruct (blank (g_Match g)); [congruence|]. destruct Hm as (q & Hq & ?). simplify_eq. eauto. }
  apply list_elem_of_bind in Hp as (r & Hp & Hin). destruct (Hr r Hin) as [(q & Hq & Hqf) Hms].
  apply elem_of_app in Hp as [Hp%elem_option_list|Hp]; [simplify_eq; eauto|].
  apply list_elem_of_bind in Hp as (m & Hp & Hmin). rewrite Forall_forall in Hms.
  destruct (Hms m Hmin) as (Hd & Hv & Hs).
  destruct (is_in (m_Op m) _) eqn:E1.
  { apply is_in_true in E1. destruct (Hv E1) as (vp & Hvp & ?). apply elem_option_list in Hp. simplify_eq. eauto. }
  destruct (String.eqb_spec (m_Op m) "setStatus") as [E2|_].
  { destruct (Hs E2) as (cp & Hcp & ?). apply elem_option_list in Hp. simplify_eq. eauto. }
  destruct (String.eqb_spec (m_Op m) "directResponse") as [E3|_]; [|set_solver].
  destruct (Hd E3) as (hp & bp & Hhp & ? & Hbp & ?).
  apply elem_of_app in Hp as [Hp%elem_option_list|Hp%elem_option_list]; simplify_eq; eauto.
Qed.

Lemma dom_request_vars req f : dom (request_vars req f) = {["request"; "facts"]}.
Proof. unfold request_vars. rewrite !dom_insert_L, dom_empty_L. set_solver. Qed.

Definition scope_opts (s : Scope) : list cel_option :=
  match s with ScopeRequest => reqOpts | ScopeResponse => respOpts end.

Lemma declared_scope s : declared (scope_opts s) ⊆ ["request"; "response"; "facts"].
Proof. destruct s; cbn; set_solver. Qed.

Lemma declared_request : declared (scope_opts ScopeRequest) = ["request"; "facts"].
Proof. done. Qed.

Lemma group_scope_request p :
  String.eqb (p_Engine p) "extAuthz" = true ∨ is_in (p_Phase p) response_phases = false →
  group_scope p = ScopeRequest.
Proof. unfold group_scope. intros [->| ->]; [done|]. by repeat go_case. Qed.

(** C17 Whatever an expression of a loaded policy mentions is bound when the
    expression is evaluated: a program of an extAuthz group by [Evaluate], a
    program of an extProc group by [EvaluateProc] in the group's phase, with the
    response present in the response phases. *)
Theorem programs_bound (c : Config) (g : Group) (p : Program) :
  loaded c → g ∈ c_Groups c → p ∈ group_programs g →
  (is_extAuthz g = true → ∀ req, list_to_set (prog_vars p) ⊆ dom (request_vars req (snapshot c))) ∧
  (∀ phase, in_phase phase g = true → ∀ req resp, (phase ∈ response_phases → is_Some resp) →
     list_to_set (prog_vars p) ⊆ dom (proc_vars c phase req resp)).
Proof.
  intros (_ & _ & _ & e & reg & reg0 & He & Hg & _) Hin Hp.
  rewrite Forall_forall in Hg. destruct (group_programs_scope e g p (Hg g Hin) Hp) as (kind & src & Hpf).
  pose proof (prog_for_vars e _ kind src p He Hpf) as Hv.
  change (match _ with ScopeRequest => _ | _ => _ end)
    with (scope_opts (group_scope (g_Parameters g))) in Hv.
  unfold is_extAuthz, in_phase. split.
  - intros Hx req. rewrite group_scope_request, declared_request in Hv by auto.
    rewrite dom_request_vars. set_solver.
  - intros phase [_ <-%String.eqb_eq]%andb_true_iff req resp Hresp. unfold proc_vars.
    destruct (is_in (p_Phase (g_Parameters g)) response_phases) eqn:Er.
    + apply is_in_true in Er as Er'. destruct (Hresp Er') as [x ->]. cbn [andb is_some].
      pose proof (declared_scope (group_scope (g_Parameters g))).
      rewrite dom_insert_L, dom_request_vars. set_solver.
    + rewrite group_scope_request, declared_request in Hv by auto. cbn [andb].
      rewrite dom_request_vars. set_solver.
Qed.

End bound.

(** The program of the rule that looks at the status of the response. *)
Lemma programs_bound_witness :
  ∃ g p, g ∈ c_Groups sample_policy ∧ prog_vars p = ["response"] ∧
    list_to_set (prog_vars p) ⊆
      dom (proc_vars sample_policy "responseHeaders" get_request (Some (mkResponse 500 ∅ ε))).
Proof.
  exists (List.nth 3 (c_Groups sample_policy) (List.hd (mkGroup ε ε (mkParameters ε ε ε) ε [] None) [])),
    (TStatusIs 500).
  assert (List.nth 3 (c_Groups sample_policy) (List.hd (mkGroup ε ε (mkParameters ε ε ε) ε [] None) [])
    ∈ c_Groups sample_policy) as Hin.
  { apply list_elem_of_In, nth_In. vm_compute. lia. }
  split; [done|]. split; [done|].
  refine (proj2 (programs_bound sample_policy _ (TStatusIs 500) sample_loaded Hin _) "responseHeaders" _ _ _ _).
  - apply list_elem_of_In. vm_compute. by left.
  - by vm_compute.
  - by eexists.
Defined.

(** C33 The program cache of [celenv.Env] is transparent: with every entry the
    result of compiling its key, compiling through the cache gives what compiling
    afresh gives, errors included, and leaves the cache correct. *)
Theorem cache_transparent `{CelGo} (e : Env) (src : string) (scope : Scope) (kind : string) :
  cache_coherent e →
  match Env_compile e src scope kind (kind_type kind) with
  | Ok (p, e') =>
      compile_uncached e src scope (kind_type kind) = Ok p ∧ cache_coherent e' ∧
      requestEnv e' = requestEnv e ∧ responseEnv e' = responseEnv e
  | Err err => compile_uncached e src scope (kind_type kind) = Err err
  end.
Proof.
  intros Hc. destruct (Env_compile e src scope kind (kind_type kind)) as [[p e']|err] eqn:E.
  - by apply Env_compile_coherent.
  - unfold Env_compile in E. destruct (cache e !! _); [done|].
    destruct (compile_uncached _ _ _ _); [done|]. congruence.
Qed.

Definition sample_env : Env := match celenv_New with Ok e => e | Err _ => mkEnv [] [] ∅ end.

Lemma cache_transparent_witness :
  compile_uncached sample_env "method:GET" ScopeRequest BoolType = Ok (TMethodIs "GET").
Proof.
  assert (cache_coherent sample_env) as Hc by by apply celenv_New_coherent.
  exact (proj1 (cache_transparent sample_env "method:GET" ScopeRequest "bool" Hc)).
Defined.

(** ** Facts *)

Lemma New_dom specs r :
  facts_New specs = Ok r → dom (entries r) = list_to_set (map spec_Name specs).
Proof.
  intros Hr. apply set_eq. intros k. rewrite elem_of_dom, (New_entries _ _ _ Hr), elem_of_list_to_set.
  destruct (proj1 (facts_New_ok specs) (ex_intro _ r Hr)) as [_ Hnd].
  rewrite <- (spec_entries_fst specs) in Hnd |- *. split.
  - intros [e He%map_get_Some]. change (map fst) with (fmap (M := list) (@fst string entry)).
    apply list_elem_of_fmap. by exists (k, e).
  - intros Hk. apply list_elem_of_fmap in Hk as ([k' e] & -> & Hin). exists e.
    by apply map_get_elem.
Qed.

(** [facts.New] accepts exactly the well-formed declarations with distinct
    names, and the registry it builds has one entry per declaration, the url
    defaults filled in, with a value from the start only for the method [value]. *)
Theorem facts_New_decides (specs : list Spec) :
  match facts_New specs with
  | Ok r => Specs_ok specs ∧ procs r = [] ∧ ∀ k, entries r !! k = map_get (spec_entries specs) k
  | Err _ => ¬ Specs_ok specs
  end.
Proof.
  destruct (facts_New specs) as [r|e] eqn:E.
  - split_and!; [apply facts_New_ok; by eexists|apply (New_procs _ _ E)|].
    intros k. by apply New_entries.
  - intros [r Hr]%facts_New_ok. congruence.
Qed.

Lemma facts_New_decides_witness :
  Specs_ok [value_fact; file_fact; url_fact] ∧ ¬ Specs_ok [value_fact; value_fact].
Proof.
  split.
  - exact (proj1 (facts_New_decides [value_fact; file_fact; url_fact])).
  - exact (facts_New_decides [value_fact; value_fact]).
Defined.

Section facts_run.
Context `{GoRange, FactsWorld}.

(** [Registry.Start] on a registry that [New] built never dereferences a nil
    declaration, keeps the declared names, leaves every live goroutine reachable
    for [Stop], and when it reports no error every fact has a value. *)
Theorem facts_Start_spec (specs : list Spec) (r : Registry) :
  facts_New specs = Ok r →
  ∃ r' err, Registry_Start r = Ret (r', err) ∧ procs_owned r' ∧
    dom (entries r') = list_to_set (map spec_Name specs) ∧ (err = None → populated r').
Proof.
  intros Hr. destruct (Registry_Start_spec r (New_entry_ok _ _ Hr)) as (r' & err & E & Ho & Hd & Hp & _).
  exists r', err. split_and!; try done.
  - apply Ho. intros i p. by rewrite (proj2 (New_procs _ _ Hr)).
  - by rewrite Hd, (New_dom _ _ Hr).
Qed.


(** [Registry.Stop] reaches every goroutine: all are cancelled, so they can
    all return and [wg.Wait] comes back; after that no refresh writes any more. *)
Theorem facts_Stop_drains (r : Registry) :
  procs_owned r →
  Forall (λ p, g_cancelled p = true) (procs (Stop_cancel r)) ∧
  ∃ r', rtc reg_step (Stop_cancel r) r' ∧ drained r' ∧
    ∀ r'', rtc reg_step r' r'' → drained r'' ∧ entries r'' = entries r'.
Proof.
  intros Ho. assert (Forall (λ p, g_cancelled p = true) (procs (Stop_cancel r))) as Hc.
  { apply Forall_lookup. intros i p. cbn. rewrite foldl_cancel_lookup.
    case_bool_decide as Hin; intros Hp.
    - destruct (procs r !! i); [|done]. by injection Hp as <-.
    - destruct (g_cancelled p) eqn:Ec; [done|]. by destruct Hin; eapply Ho. }
  split; [done|]. destruct (drain_all _ Hc) as (r' & Hr & Hd). exists r'. split_and!; [done|done|].
  clear -Hd. intros r'' Hs. induction Hs as [|r1 r2 r3 Hs _ IH]; [done|].
  destruct (drained_step _ _ Hd Hs) as [Hd2 <-]. by apply IH.
Qed.

End facts_run.

Definition sample_registry : Registry :=
  match facts_New [value_fact; file_fact; url_fact] with Ok r => r | Err _ => mkRegistry ∅ [] [] end.
Definition started_registry : Registry :=
  match Registry_Start sample_registry with Ret (r, _) => r | Panic => sample_registry end.

Lemma facts_Start_spec_witness :
  ∃ r' err, Registry_Start sample_registry = Ret (r', err) ∧ procs_owned r'.
Proof.
  destruct (facts_Start_spec [value_fact; file_fact; url_fact] sample_registry eq_refl)
    as (r' & err & E & Ho & _). exists r', err. split; [exact E|exact Ho].
Defined.

Lemma sample_started : Registry_Start sample_registry = Ret (started_registry, None).
Proof. by vm_compute. Qed.


Lemma facts_Stop_drains_witness :
  procs_owned started_registry ∧
  Forall (λ p, g_cancelled p = true) (procs (Stop_cancel started_registry)).
Proof.
  assert (procs_owned started_registry) as Ho.
  { assert (length (procs started_registry) = 1%nat) as Hl by (by vm_compute).
    assert (cancels started_registry = [O]) as Hc by (by vm_compute).
    intros i p Hi _. rewrite Hc. apply lookup_lt_Some in Hi. replace i with O by lia. left. }
  split; [done|]. exact (proj1 (facts_Stop_drains started_registry Ho)).
Defined.
