(* ===== verification/EvalTheorems.v ===== *)
(** * Properties of the evaluators

    [Evaluate] and [EvaluateProc] against the documented semantics, what an allow
    decision rests on, and the values the expressions see. *)

From S2P Require Import Prelude GoStrings GoHttp GoValues CelEnv Facts Policy Evaluate.
From S2P Require Import ExtProc Instances.
Local Open Scope Z_scope.

Section evaluate.
Context `{CelGo, UnicodeTables, GoRange, Decoders}.

(** ** The documented verdict is computed *)

Lemma firstMatch_skip c g vars pre rs :
  Forall (matches vars false) pre →
  firstMatch_loop c g vars (pre ++ rs) = firstMatch_loop c g vars rs.
Proof. induction 1 as [|r pre Hr _ IH]; cbn; [done|]. unfold matches in Hr. rewrite Hr. exact IH. Qed.

Lemma matchAll_skip c g vars pre rs :
  Forall (matches vars true) pre →
  matchAll_loop c g vars (pre ++ rs) = matchAll_loop c g vars rs.
Proof. induction 1 as [|r pre Hr _ IH]; cbn; [done|]. unfold matches in Hr. rewrite Hr. exact IH. Qed.

Lemma rules_verdict_eval c g vars d : rules_verdict c g vars d → eval_rules c g vars = Ret d.
Proof.
  unfold eval_rules. intros [pre r v post -> -> Hpre Hm Hv|pre r post err -> -> Hpre Hm| -> Hpre
    | -> Hpre|pre r post -> -> Hpre Hm|pre r post err -> -> Hpre Hm]; cbn [String.eqb].
  - change (String.eqb "firstMatch" "matchAll") with false. cbn [negb].
    rewrite firstMatch_skip by done. cbn. unfold matches in Hm. rewrite Hm. cbn. by rewrite Hv.
  - change (String.eqb "firstMatch" "matchAll") with false.
    rewrite firstMatch_skip by done. cbn. unfold match_fails in Hm. by rewrite Hm.
  - change (String.eqb "firstMatch" "matchAll") with false.
    rewrite <- (app_nil_r (g_Rules g)). by rewrite firstMatch_skip.
  - change (String.eqb "matchAll" "matchAll") with true.
    rewrite <- (app_nil_r (g_Rules g)). by rewrite matchAll_skip.
  - change (String.eqb "matchAll" "matchAll") with true.
    rewrite matchAll_skip by done. cbn. unfold matches in Hm. by rewrite Hm.
  - change (String.eqb "matchAll" "matchAll") with true.
    rewrite matchAll_skip by done. cbn. unfold match_fails in Hm. by rewrite Hm.
Qed.

Lemma group_verdict_eval c g vars d : group_verdict c g vars d → evalGroup c g vars = Ret d.
Proof.
  unfold evalGroup.
  intros [d' -> Hr|p d' -> Hp Hr|p -> Hp|p err -> Hp]; [by apply rules_verdict_eval| | |];
    rewrite Hp; cbn; [by apply rules_verdict_eval|done|done].
Qed.

(** Groups of the other engine are skipped. *)
Lemma eval_groups_filter c vars gs :
  eval_groups c vars gs = eval_groups c vars (filter (λ g, is_extAuthz g = true) gs).
Proof.
  induction gs as [|g gs IH]; [done|]. cbn [eval_groups]. rewrite filter_cons.
  destruct (is_extAuthz g) eqn:E; cbn [negb].
  - rewrite decide_True by done. cbn [eval_groups]. rewrite E. cbn [negb]. by rewrite IH.
  - rewrite decide_False by done. exact IH.
Qed.

Lemma eval_groups_skip c vars pre gs :
  Forall (λ g, is_extAuthz g = true) pre → Forall (λ g, group_verdict c g vars None) pre →
  eval_groups c vars (pre ++ gs) = eval_groups c vars gs.
Proof.
  induction pre as [|g pre IH]; [done|]. intros [He Hes]%Forall_cons [Hg Hgs]%Forall_cons.
  cbn. rewrite He. cbn. rewrite (group_verdict_eval _ _ _ _ Hg). by apply IH.
Qed.

Lemma filter_extAuthz gs : Forall (λ g, is_extAuthz g = true) (filter (λ g, is_extAuthz g = true) gs).
Proof. apply Forall_forall. by intros g [? _]%list_elem_of_filter. Qed.

Lemma policy_verdict_eval c vars d :
  policy_verdict c vars d → eval_groups c vars (c_Groups c) = Ret d.
Proof.
  intros [pre g post d' Hf Hpre Hg|Hall]; rewrite eval_groups_filter.
  - pose proof (filter_extAuthz (c_Groups c)) as Hx. rewrite Hf in *.
    apply Forall_app in Hx as [Hx1 [Hx2 _]%Forall_cons]. rewrite eval_groups_skip by done.
    cbn. rewrite Hx2. cbn. by rewrite (group_verdict_eval _ _ _ _ Hg).
  - rewrite <- (app_nil_r (filter _ _)). by rewrite eval_groups_skip by (done || apply filter_extAuthz).
Qed.


(** ** What an allow rests on *)

(** The rules that made a group allow. *)
Definition rules_allow (vars : gmap string gval) (g : Group) : Prop :=
  (p_Mode (g_Parameters g) = "firstMatch" ∧
   ∃ r, r ∈ g_Rules g ∧ r_Validation r = Some (mkValidation "allow") ∧ matches vars true r) ∨
  (p_Mode (g_Parameters g) = "matchAll" ∧ Forall (matches vars true) (g_Rules g)).

Lemma error_denies c rule reason dry :
  ea_AllowOnError (d_ExtAuthz (c_Defaults c)) = false →
  Allowed (errorDecision c rule reason dry) = false.
Proof. intros E. unfold errorDecision. by rewrite E. Qed.

Lemma rules_verdict_allow c g vars d :
  ea_AllowOnError (d_ExtAuthz (c_Defaults c)) = false →
  rules_verdict c g vars (Some d) → Allowed d = true → rules_allow vars g.
Proof.
  intros He Hv Ha. unfold rules_allow. inversion Hv; subst; cbn in Ha; try discriminate.
  - left. split; [done|]. exists r.
    match goal with E : g_Rules g = _, V : r_Validation r = _ |- _ => rewrite E, V end.
    split_and!; [set_solver| |done]. apply String.eqb_eq in Ha. destruct v as [a]. cbn in Ha. by rewrite Ha.
  - unfold rule_error in Ha. by rewrite error_denies in Ha.
  - by right.
  - unfold rule_error in Ha. by rewrite error_denies in Ha.
Qed.

Lemma group_verdict_allow c g vars d :
  ea_AllowOnError (d_ExtAuthz (c_Defaults c)) = false →
  group_verdict c g vars (Some d) → Allowed d = true → rules_allow vars g.
Proof.
  intros He Hv Ha. inversion Hv; subst; try by eapply rules_verdict_allow.
  unfold group_error in Ha. by rewrite error_denies in Ha.
Qed.


(** The ext-authz decision depends on the extAuthz groups only: adding,
    removing or reordering extProc groups between them does not change it. *)
Theorem Evaluate_engine_isolation (c c' : Config) (r : Request) :
  c_Defaults c = c_Defaults c' → c_registry c = c_registry c' →
  filter (λ g, is_extAuthz g = true) (c_Groups c) =
    filter (λ g, is_extAuthz g = true) (c_Groups c') →
  Evaluate c r = Evaluate c' r.
Proof.
  intros Hd Hr Hf. unfold Evaluate, snapshot. rewrite Hr.
  rewrite eval_groups_filter, (eval_groups_filter c'), Hf. clear Hf.
  set (vars := request_vars _ _). induction (filter _ (c_Groups c')) as [|g gs IH]; cbn.
  { unfold default_decision. by rewrite Hd. }
  rewrite IH. assert (evalGroup c g vars = evalGroup c' g vars) as ->; [|done].
  unfold evalGroup, group_error, errorDecision. rewrite Hd.
  assert (eval_rules c g vars = eval_rules c' g vars) as ->; [|done].
  unfold eval_rules. clear IH. assert (∀ r err, rule_error c g r err = rule_error c' g r err) as Hre.
  { intros. unfold rule_error, errorDecision. by rewrite Hd. }
  destruct (String.eqb _ _).
  - assert (matchAll_loop c g vars (g_Rules g) = matchAll_loop c' g vars (g_Rules g)) as ->; [|done].
    induction (g_Rules g) as [|r' rs IH]; cbn; [done|].
    destruct (EvalBool _ _) as [[[]|]|]; cbn; by rewrite ?IH, ?Hre.
  - induction (g_Rules g) as [|r' rs IH]; cbn; [done|].
    destruct (EvalBool _ _) as [[[]|]|]; cbn; by rewrite ?IH, ?Hre.
Qed.

End evaluate.

(** ** The values expressions see *)

Section projections.
Context `{UnicodeTables, GoRange, Decoders}.

Lemma header_fold_other x l acc :
  (∀ kv, kv ∈ l → ToLower kv.1 ≠ x) →
  (foldl header_step acc l).1 !! x = acc.1 !! x ∧ (foldl header_step acc l).2 !! x = acc.2 !! x.
Proof.
  induction l as [|kv l IH] using rev_ind; [done|]. intros Hl. rewrite foldl_snoc.
  assert (ToLower kv.1 ≠ x) as Hne by (apply Hl; set_solver).
  destruct IH as [IH1 IH2]; [intros; apply Hl; set_solver|]. unfold header_step at 1 3. cbn.
  rewrite lookup_insert_ne, IH1 by done. split; [done|].
  destruct kv.2; [done|]. by rewrite lookup_insert_ne.
Qed.

Lemma header_fold_hit x l acc kv :
  NoDup (map (λ kv, ToLower kv.1) l) → kv ∈ l → ToLower kv.1 = x → acc.2 !! x = None →
  (foldl header_step acc l).1 !! x = Some kv.2 ∧ (foldl header_step acc l).2 !! x = head kv.2.
Proof.
  intros Hnd Hin Hx Hacc. apply list_elem_of_split in Hin as (l1 & l2 & ->).
  rewrite map_app in Hnd. cbn in Hnd. apply NoDup_app in Hnd as (_ & Hd & [Hn _]%NoDup_cons).
  assert (∀ l0 y, y ∈ l0 → ToLower y.1 ∈ map (λ kv : string * list string, ToLower kv.1) l0) as Hmap.
  { intros l0 y Hy. apply (list_elem_of_fmap_2 (λ kv : string * list string, ToLower kv.1)). done. }
  rewrite foldl_app. cbn [foldl].
  destruct (header_fold_other x l2 (header_step (foldl header_step acc l1) kv)) as [-> ->].
  { intros y Hy E. apply Hn. rewrite Hx, <- E. by apply Hmap. }
  destruct (header_fold_other x l1 acc) as [_ H2].
  { intros y Hy E. apply (Hd (ToLower y.1)); [by apply Hmap|]. rewrite E, <- Hx. by left. }
  set (A := foldl header_step acc l1) in *. unfold header_step. cbn.
  rewrite Hx, lookup_insert_eq. split; [done|].
  destruct kv.2; cbn; [by rewrite H2|by rewrite lookup_insert_eq].
Qed.

Lemma range_lower_NoDup (h : Header) :
  header_wf h → NoDup (map (λ kv, ToLower kv.1) (range_map h)).
Proof.
  intros Hwf. change (map ?f ?l) with (f <$> l). apply NoDup_fmap_2_strong.
  - intros [k v] [k' v'] Hk%range_map_lookup Hk'%range_map_lookup E. cbn in E.
    destruct (Hwf _ _ Hk) as [Ht Hc], (Hwf _ _ Hk') as [Ht' Hc'].
    apply Canonical_eq in E; [|done..]. rewrite Hc, Hc' in E. subst k'. congruence.
  - apply (NoDup_fmap_1 fst). apply range_map_keys_NoDup.
Qed.

(** [request.headers] and [request.header] (and their response counterparts)
    hold, under the lower-cased name, exactly what [http.Header] holds under the
    canonical name: all the values in order, and the first one; the order in which
    Go visits the map has no influence. *)
Theorem headers_projection (h : Header) (k : string) :
  header_wf h → valid_token k = true →
  (project_headers h).1 !! ToLower k = h !! CanonicalHeaderKey k ∧
  (project_headers h).2 !! ToLower k = (h !! CanonicalHeaderKey k ≫= head).
Proof.
  intros Hwf Hk. unfold project_headers. destruct (h !! CanonicalHeaderKey k) as [vs|] eqn:E.
  - apply range_map_lookup in E as Hin.
    destruct (header_fold_hit (ToLower k) (range_map h) (∅, ∅) (CanonicalHeaderKey k, vs)) as [-> ->];
      [by apply range_lower_NoDup|done|by apply ToLower_Canonical|done|done].
  - destruct (header_fold_other (ToLower k) (range_map h) (∅, ∅)) as [-> ->]; [|done].
    intros [k' vs] Hin%range_map_lookup E'. cbn in E'. destruct (Hwf _ _ Hin) as [Ht Hc].
    apply Canonical_eq in E'; [|done..]. congruence.
Qed.

(** No [map[any]any] is left anywhere in the value. *)
Fixpoint string_keyed (v : gval) : bool :=
  match v with
  | GMapAny _ => false
  | GMap m => forallb (λ kv, string_keyed kv.2) m
  | GList l => forallb string_keyed l
  | _ => true
  end.

Lemma normalise_fixed v : string_keyed v = true → normaliseDecoded v = v.
Proof.
  revert v. apply (gval_ind' (λ v, string_keyed v = true → normaliseDecoded v = v));
    [by intros []|intros l IH|done|intros l IH|done|done]; cbn.
  - intros Hl. f_equal. induction IH as [|x l Hx _ IHl]; cbn in *; [done|].
    apply andb_true_iff in Hl as [Ha Hb]. by rewrite Hx, IHl.
  - intros Hl. f_equal. induction IH as [|[k x] m Hx _ IHl]; cbn in *; [done|].
    apply andb_true_iff in Hl as [Ha Hb]. by rewrite Hx, IHl.
Qed.

Lemma forallb_map_set (m : list (string * gval)) k v :
  forallb (λ kv, string_keyed kv.2) m = true → string_keyed v = true →
  forallb (λ kv, string_keyed kv.2) (map_set m k v) = true.
Proof.
  intros Hm Hv. induction m as [|[k' v'] m IH]; cbn in *; [by rewrite Hv|].
  apply andb_true_iff in Hm as [Ha Hb]. destruct (String.eqb k' k); cbn.
  - by rewrite Hv, Hb.
  - by rewrite Ha, IH.
Qed.

Lemma forallb_foldl_set (l m : list (string * gval)) :
  forallb (λ kv, string_keyed kv.2) m = true → forallb (λ kv, string_keyed kv.2) l = true →
  forallb (λ kv, string_keyed kv.2) (foldl (λ out kv, map_set out kv.1 kv.2) m l) = true.
Proof.
  revert m. induction l as [|[k v] l IH]; intros m Hm Hl; cbn in *; [done|].
  apply andb_true_iff in Hl as [Ha Hb]. apply IH; [by apply forallb_map_set|done].
Qed.

Lemma normalise_keyed v : string_keyed (normaliseDecoded v) = true.
Proof.
  revert v. apply (gval_ind' (λ v, string_keyed (normaliseDecoded v) = true));
    [by intros []|intros l IH|done|intros l IH|intros l IH|done]; cbn.
  - induction IH as [|x l Hx _ IHl]; cbn; [done|]. by rewrite Hx.
  - induction IH as [|[k x] m Hx _ IHl]; cbn; [done|]. cbn in Hx. by rewrite Hx.
  - apply forallb_foldl_set; [done|].
    induction IH as [|[k x] m [_ Hx] _ IHl]; cbn; [done|]. cbn in Hx. by rewrite Hx.
Qed.

(** [normaliseDecoded] removes every [map[any]any] a decoder may have built,
    at any depth, so that the value is one CEL's adapter understands; it leaves a
    value without such maps alone, hence normalising twice changes nothing. *)
Theorem normaliseDecoded_keyed (v : gval) :
  string_keyed (normaliseDecoded v) = true ∧
  (string_keyed v = true → normaliseDecoded v = v) ∧
  normaliseDecoded (normaliseDecoded v) = normaliseDecoded v.
Proof.
  split_and!; [apply normalise_keyed|apply normalise_fixed|].
  apply normalise_fixed, normalise_keyed.
Qed.

End projections.

(** ** ext_proc *)

Section proc.
Context `{CelGo, UnicodeTables, GoRange, Decoders}.

Lemma resolved_origin n d vars m x :
  resolved n d vars m = Some x → rm_Rule x = n ∧ rm_DryRun x = d.
Proof.
  unfold resolved, resolve_mutation.
  destruct (String.eqb (m_Op m) "directResponse").
  { destruct (EvalStringMap _ _) as [[?|]|]; cbn; [|done|done].
    destruct (EvalString _ _) as [[?|]|]; cbn; [|done|done]. by intros [= <-]. }
  destruct (_ || _).
  { destruct (EvalString _ _) as [[?|]|]; cbn; [|done|done]. by intros [= <-]. }
  destruct (String.eqb (m_Op m) "setBody").
  { destruct (EvalString _ _) as [[?|]|]; cbn; [|done|done]. by intros [= <-]. }
  destruct (String.eqb (m_Op m) "setStatus").
  { destruct (EvalInt _ _) as [[?|]|]; cbn; [|done|done]. by intros [= <-]. }
  destruct (String.eqb (m_Op m) "removeHeader"); [|done]. by intros [= <-].
Qed.


(** C8 Every mutation [EvaluateProc] returns is one the phase admits (a direct
    response or a status only in the response phases, a body only in the body
    phases, a status of a direct response in 1..599) and comes from a rule of the
    phase, whose dry-run flag it carries. *)
Theorem EvaluateProc_legal (c : Config) (phase : string) (req : Request) (resp : option Response)
    (ms : list ResolvedMutation) (m : ResolvedMutation) :
  loaded c → EvaluateProc c phase (Some req) resp = Ret ms → m ∈ ms →
  resolved_ok phase m ∧
  ∃ g r, g ∈ c_Groups c ∧ in_phase phase g = true ∧ r ∈ g_Rules g ∧
         rm_Rule m = rule_id g r ∧ rm_DryRun m = r_DryRun r.
Proof.
  intros Hl. rewrite EvaluateProc_eq by done. intros [= <-] Hm.
  pose proof (proc_spec_legal c phase (proc_vars c phase req resp) (proj1 Hl)) as Hok.
  rewrite Forall_forall in Hok. split; [by apply Hok|].
  apply proc_spec_origin in Hm as (g & r & m' & Hg & Hp & Hr & Hm' & E).
  exists g, r. split_and!; try done; by eapply resolved_origin.
Qed.

End proc.

(** ** The theorems on the sample policy *)



(** The sample policy without its extProc groups. *)
Definition authz_only : Config :=
  mkConfig (c_Defaults sample_policy) (c_Logging sample_policy) (c_Facts sample_policy)
    (filter (λ g, is_extAuthz g = true) (c_Groups sample_policy)) (c_env sample_policy)
    (c_registry sample_policy).

Lemma Evaluate_engine_isolation_witness :
  Evaluate authz_only get_request = Ret (mkDecision true "reads/get" "matched" false).
Proof.
  transitivity (Evaluate sample_policy get_request); [|by vm_compute].
  apply (Evaluate_engine_isolation authz_only sample_policy get_request); [done|done|].
  unfold authz_only. cbn. apply list_filter_filter_l. auto.
Defined.

Lemma headers_projection_witness :
  (project_headers (q_Headers get_request)).1 !! "x-tag" = Some ["one"; "two"].
Proof.
  assert (header_wf (q_Headers get_request)) as Hwf
    by (cbn; by apply header_wf_Add; [|apply header_wf_Add]).
  exact (proj1 (headers_projection (q_Headers get_request) "X-TAG" Hwf eq_refl)).
Defined.

Lemma normaliseDecoded_keyed_witness :
  normaliseDecoded (normaliseDecoded (GMapAny [(GInt 1, GBool true)])) =
    GMap [("1", GBool true)].
Proof.
  rewrite (proj2 (proj2 (normaliseDecoded_keyed (GMapAny [(GInt 1, GBool true)])))). by vm_compute.
Defined.

Definition failed_response : Response := mkResponse 500 ∅ ε.


Definition hidden : ResolvedMutation :=
  mkResolved "directResponse" ε ε 0 502 {["x-hidden" := "1"]} "oops" "errors/hide" false.

Lemma EvaluateProc_legal_witness : resolved_ok "responseHeaders" hidden.
Proof.
  apply (EvaluateProc_legal sample_policy "responseHeaders" get_request (Some failed_response)
    [hidden] hidden sample_loaded); [by vm_compute|set_solver].
Defined.
