(* ===== verification/ServerTheorems.v ===== *)
(** * Properties of the two servers

    The ext_proc stream and its responses, the ext-authz endpoint and its counters. *)

From Stdlib Require Import SpecFloat.
From S2P Require Import Prelude GoStrings GoHttp GoValues CelEnv Facts Policy Evaluate.
From S2P Require Import ExtProc Log AccessLog GrpcServer GoPath Metrics HttpServer Instances.
Local Open Scope Z_scope.

(** ** The ext_proc stream *)

Section stream_protocol.
Context `{CelGo, UnicodeTables, GoRange, Decoders}.


(** C10 Under the global dry run ext_proc has no effect: every response of the
    stream is a CONTINUE without header or body mutation, overflow included. *)
Theorem Process_dry_run (sid : string) (st : stream) (its : list iteration) resps logs st' e :
  (∀ it p, it ∈ its → it_policy it = Some p →
     policy_ready p ∧ d_DryRun (c_Defaults p) = true) →
  Process sid st its = Ret (resps, logs, st', e) → Forall is_plain resps.
Proof.
  intros Hr E. destruct (Process_ok sid st its) as (resps' & logs' & st1 & e' & E' & _ & Hp).
  { intros it p Hit Hp. by apply (Hr it p). }
  rewrite E in E'. injection E' as -> -> -> ->. apply Hp. intros it p Hit Hip. by apply (Hr it p).
Qed.

(** *** Bodies *)

Definition body_iteration (p : Config) (chunk : string) : iteration :=
  mkIteration (Some p) (RecvMsg (ProcessingRequest_RequestBody chunk)) None.

Definition seen_body (st : stream) : string := q_Body (default empty_request (st_req st)).

(** One chunk is appended, evaluated or not. *)
Lemma body_chunk sid p st chunk :
  policy_ready p →
  ∃ st' logs r, Process_step sid (Some p) st (ProcessingRequest_RequestBody chunk) = Ret (st', logs, r) ∧
    st_req st' = Some (with_body (default empty_request (st_req st)) (seen_body st +:+ chunk)) ∧
    (ep_MaxBodyBytes (d_ExtProc (c_Defaults p)) < len (seen_body st +:+ chunk) →
     r = overflow_response p ProcessingResponse_RequestBody).
Proof.
  intros [Hl Hrev].
  destruct (Process_step_ok sid (Some p) st (ProcessingRequest_RequestBody chunk))
    as (st' & logs & r & E & _); [by intros ? [= <-]|].
  exists st', logs, r. split; [done|]. unfold Process_step, on_request_body in E. cbv zeta in E.
  change (q_Body (default empty_request (st_req st))) with (seen_body st) in E.
  change (q_Body (with_body ?x ?b)) with b in E.
  destruct (Z.ltb_spec (ep_MaxBodyBytes (d_ExtProc (c_Defaults p))) (len (seen_body st +:+ chunk))).
  - injection E as <- _ <-. done.
  - destruct (RequestAttrs_no_panic (with_body (default empty_request (st_req st))
      (seen_body st +:+ chunk)) _ Hrev) as [ra Hra].
    rewrite Hra, EvaluateProc_eq in E by done. cbn [mbind outcome_bind] in E.
    destruct (handleProcResult _ _ _ _) as [rec rm]. injection E as <- _ _. split; [done|lia].
Qed.


End stream_protocol.

(** ** Responses of a phase *)

(** [handleProcResult]: the first direct response that is not shadowed ends the
    exchange with exactly its status, headers and body, and nothing else of the
    phase is applied; without one, the response continues the phase with the
    mutations that are neither shadowed nor direct responses. *)
Theorem first_direct_response_wins `{GoRange} (sid phase : string) (ms : list ResolvedMutation)
    (dry : bool) :
  (∀ pre m post,
     ms = pre ++ m :: post → Forall (λ x, ¬ applied_direct dry x) pre → applied_direct dry m →
     (handleProcResult sid phase ms dry).2 =
       ProcessingResponse_Immediate (mkImmediate (StatusCode (rm_RespStatus m))
         (buildHeaderMutationFromMap (rm_RespHeaders m)) (rm_RespBody m) ε)) ∧
  (Forall (λ x, ¬ applied_direct dry x) ms →
     (handleProcResult sid phase ms dry).2 =
       phase_response phase (mkCommon (buildMutations (applied_of dry ms)).1
                                      (buildMutations (applied_of dry ms)).2)).
Proof.
  split.
  - intros pre m post -> Hpre Hm. apply handleProcResult_direct, find_direct_Some. eauto.
  - intros Hn. apply handleProcResult_continue. by apply find_direct_None.
Qed.

Definition teapot (dry : bool) : ResolvedMutation :=
  mkResolved "directResponse" ε ε 0 418 {["x-a" := "1"]} "tea" "g/r" dry.
Definition tagged (op name value : string) : ResolvedMutation :=
  mkResolved op name value 0 0 ∅ ε "g/r" false.

Lemma first_direct_response_wins_witness :
  (handleProcResult "id" "responseHeaders" [teapot true; tagged "setHeader" "x" "y"; teapot false] false).2 =
    ProcessingResponse_Immediate (mkImmediate 418
      (Some (mkHeaderMutation [set_option "x-a" "1"] [])) "tea" ε).
Proof.
  refine (proj1 (first_direct_response_wins "id" "responseHeaders"
    [teapot true; tagged "setHeader" "x" "y"; teapot false] false)
    [teapot true; tagged "setHeader" "x" "y"] (teapot false) [] eq_refl _ _).
  - repeat constructor; intros [? ?]; done.
  - done.
Defined.

(** The header a mutation sets, as the documentation of the operations has it. *)
Definition header_written (m : ResolvedMutation) : option HeaderValueOption :=
  match list_find (λ op, op = rm_Op m) ["setHeader"; "appendHeader"; "setBody"; "setStatus"] with
  | Some (O, _) => Some (set_option (rm_Name m) (rm_Value m))
  | Some (1%nat, _) => Some (mkHeaderOption (rm_Name m) (rm_Value m) APPEND_IF_EXISTS_OR_ADD)
  | Some (2%nat, _) => Some (set_option "content-length" (Itoa (len (rm_Value m))))
  | Some (3%nat, _) => Some (set_option ":status" (Itoa (rm_Status m)))
  | _ => None
  end.

Lemma op_cases op :
  op ∈ ["setHeader"; "appendHeader"; "removeHeader"; "setBody"; "setStatus"] ∨
  (op ≠ "setHeader" ∧ op ≠ "appendHeader" ∧ op ≠ "removeHeader" ∧ op ≠ "setBody" ∧ op ≠ "setStatus").
Proof.
  destruct (decide (op ∈ ["setHeader"; "appendHeader"; "removeHeader"; "setBody"; "setStatus"]));
    [by left|right; set_solver].
Qed.

Lemma effects_of m :
  sets_of m = option_list (header_written m) ∧
  removes_of m = (if bool_decide (rm_Op m = "removeHeader") then [rm_Name m] else []) ∧
  body_of m = (if bool_decide (rm_Op m = "setBody") then Some (rm_Value m) else None).
Proof.
  unfold sets_of, removes_of, body_of, header_written, build_step.
  destruct (op_cases (rm_Op m)) as [Hin|(H1 & H2 & H3 & H4 & H5)].
  - apply list_elem_of_In in Hin. cbn in Hin. by repeat destruct Hin as [<-|Hin].
  - rewrite !(proj2 (String.eqb_neq _ _)) by done. rewrite !bool_decide_false by done.
    cbn. by rewrite !decide_False by congruence.
Qed.

Lemma bind_effects ms :
  ms ≫= sets_of = omap header_written ms ∧
  ms ≫= removes_of = rm_Name <$> filter (λ m, rm_Op m = "removeHeader") ms ∧
  omap body_of ms = rm_Value <$> filter (λ m, rm_Op m = "setBody") ms.
Proof.
  induction ms as [|m ms (IH1 & IH2 & IH3)]; [done|]. rewrite !filter_cons, !bind_cons.
  assert (∀ (B : Type) (f : ResolvedMutation → option B),
    omap f (m :: ms) = match f m with Some y => y :: omap f ms | None => omap f ms end) as Ho by done.
  rewrite !Ho. destruct (effects_of m) as (-> & -> & ->). rewrite IH1, IH2, IH3. split_and!.
  - by destruct (header_written m).
  - case_bool_decide; [by rewrite decide_True|by rewrite decide_False].
  - case_bool_decide; [by rewrite decide_True|by rewrite decide_False].
Qed.

(** [buildMutations] hands Envoy the headers to set in the order of the
    mutations, the headers to remove in their order, and the body of the last
    [setBody]; every new body comes with a [content-length] header that is the
    decimal length of a body set, and no header mutation is sent when there is
    nothing to change. *)
Theorem buildMutations_spec (ms : list ResolvedMutation) :
  let '(hm, bm) := buildMutations ms in
  bm = last (rm_Value <$> filter (λ m, rm_Op m = "setBody") ms) ∧
  SetHeaders (default (mkHeaderMutation [] []) hm) = omap header_written ms ∧
  RemoveHeaders (default (mkHeaderMutation [] []) hm) =
    rm_Name <$> filter (λ m, rm_Op m = "removeHeader") ms ∧
  (∀ b, bm = Some b →
     set_option "content-length" (Itoa (len b)) ∈ SetHeaders (default (mkHeaderMutation [] []) hm)).
Proof.
  rewrite buildMutations_eq. destruct (bind_effects ms) as (E1 & E2 & E3). rewrite E1, E2, E3.
  assert (∀ b, last (rm_Value <$> filter (λ m, rm_Op m = "setBody") ms) = Some b →
    set_option "content-length" (Itoa (len b)) ∈ omap header_written ms) as Hb.
  { intros b Hb. apply last_Some_elem_of, list_elem_of_fmap in Hb as (m & -> & [Hop Hm]%list_elem_of_filter).
    apply list_elem_of_omap. exists m. split; [done|]. unfold header_written. by rewrite Hop. }
  destruct (decide _) as [[Es Er]|_]; cbn; [rewrite Es in *; rewrite Er|]; split_and!; auto.
Qed.

(** The order between setting and removing a header is lost: a removal and
    another mutation next to it can be swapped without changing what is sent to
    Envoy, so "the last write wins" does not hold between them. *)
Theorem set_remove_order_lost (pre post : list ResolvedMutation) (m1 m2 : ResolvedMutation) :
  rm_Op m1 = "removeHeader" → rm_Op m2 ≠ "removeHeader" →
  buildMutations (pre ++ m1 :: m2 :: post) = buildMutations (pre ++ m2 :: m1 :: post).
Proof.
  intros H1 H2. rewrite !buildMutations_eq.
  assert (sets_of m1 = [] ∧ body_of m1 = None) as [Hs Hb].
  { destruct (effects_of m1) as (-> & _ & ->). unfold header_written. by rewrite H1. }
  assert (removes_of m2 = []) as Hr.
  { destruct (effects_of m2) as (_ & -> & _). by rewrite bool_decide_false. }
  assert (∀ l, omap body_of (l ++ m1 :: m2 :: post) = omap body_of (l ++ m2 :: m1 :: post)) as Ho.
  { intros l. rewrite !omap_app. f_equal. cbn. by rewrite Hb. }
  rewrite Ho, !bind_app. cbn. by rewrite Hs, Hr.
Qed.

Lemma set_remove_order_lost_witness :
  buildMutations [tagged "removeHeader" "x" ε; tagged "setHeader" "x" "1"] =
  buildMutations [tagged "setHeader" "x" "1"; tagged "removeHeader" "x" ε].
Proof.
  exact (set_remove_order_lost [] [] (tagged "removeHeader" "x" ε) (tagged "setHeader" "x" "1")
    eq_refl ltac:(done)).
Defined.

(** ** The request line *)

(** The path and the query of [:path] are split at the first question mark and
    lose nothing: the two parts can be put together again, the path has no question
    mark, and a path without one has an empty query. *)
Theorem split_path_roundtrip (path query : string) :
  IndexByte path "?" = None →
  split_path (path +:+ "?" +:+ query) = (path, query) ∧ split_path path = (path, ε).
Proof.
  intros Hp. unfold split_path. split.
  - assert (String.eqb (path +:+ "?" +:+ query) ε = false) as -> by by destruct path.
    assert (IndexByte (path +:+ "?" +:+ query) "?" = Some (String.length path)) as ->.
    { rewrite IndexByte_append, Hp. cbn. by rewrite Nat.add_0_r. }
    cbn [negb]. rewrite str_take_append. f_equal.
    replace (path +:+ "?" +:+ query) with ((path +:+ "?") +:+ query) by by rewrite append_assoc.
    replace (S (String.length path)) with (String.length (path +:+ "?"))
      by (rewrite length_append; cbn; lia).
    apply str_drop_append.
  - destruct (String.eqb_spec path ε) as [->|_]; [done|]. cbn [negb]. by rewrite Hp.
Qed.

Lemma split_path_roundtrip_witness : split_path "/a/b?x=1?y" = ("/a/b", "x=1?y").
Proof. exact (proj1 (split_path_roundtrip "/a/b" "x=1?y" eq_refl)). Defined.

(** ** Witnesses of the stream *)

Lemma sample_ready : policy_ready sample_policy.
Proof. split; [exact sample_loaded|]. by vm_compute. Qed.

Lemma shadow_ready : policy_ready shadow_policy.
Proof. split; [exact shadow_loaded|]. by vm_compute. Qed.

Definition get_headers : HttpHeaders :=
  Some [mkHeaderValue ":method" "GET" ε; mkHeaderValue ":path" "/a?x=1" ε;
        mkHeaderValue "x-debug" ε "1"].

Definition exchange (p : Config) : list iteration :=
  [mkIteration (Some p) (RecvMsg (ProcessingRequest_RequestHeaders get_headers)) None;
   mkIteration None (RecvMsg (ProcessingRequest_RequestBody "abc")) None;
   mkIteration (Some p) (RecvMsg (ProcessingRequest_ResponseHeaders
     (Some [mkHeaderValue ":status" "500" ε]))) None;
   mkIteration (Some p) RecvEOF None].

Lemma exchange_ready p : policy_ready p → ∀ it q, it ∈ exchange p → it_policy it = Some q → q = p.
Proof. intros _ it q Hin. set_unfold in Hin. naive_solver. Qed.


Definition responses (o : outcome (list ProcessingResponse * list log_record * stream * stream_end)) :
    list ProcessingResponse :=
  match o with Ret (resps, _, _, _) => resps | Panic => [] end.

Lemma Process_dry_run_witness :
  Forall is_plain (responses (Process "id" (mkStream None None) (exchange shadow_policy))) ∧
  length (responses (Process "id" (mkStream None None) (exchange shadow_policy))) = 3%nat.
Proof.
  split; [|by vm_compute].
  destruct (Process "id" (mkStream None None) (exchange shadow_policy)) as [[[[resps logs] st'] e]|] eqn:E;
    [|constructor].
  refine (Process_dry_run "id" (mkStream None None) (exchange shadow_policy) resps logs st' e _ E).
  intros it p Hin Hp. rewrite (exchange_ready _ shadow_ready it p Hin Hp).
  split; [exact shadow_ready|by vm_compute].
Defined.


(** ** The ext-authz endpoint *)

Section endpoint.
Context `{CelGo, UnicodeTables, GoRange, Decoders}.


(** C4 Enforcement: when neither the policy nor the deciding rule is in dry run
    and the deny status is not 200, the caller gets 200 only for a request whose
    body was read completely, within the limit, and which [Evaluate] allowed on
    that whole body. *)
Theorem handle_enforces (s : Server) (p : Config) (r : http_request) (dur : spec_float) m w logs :
  sv_policy s = Some p → policy_ready p → authz_settings_ok p →
  ea_DenyStatus (d_ExtAuthz (c_Defaults p)) ≠ 200 →
  handle s r dur = Ret (m, w, logs) → final_status w = 200 →
  (∃ v, http_verdict p r = Ret v ∧ vd_dry v = true) ∨
  (∃ d, b_err (hr_Body r) = None ∧
        len (b_data (hr_Body r)) ≤ ea_MaxBodyBytes (d_ExtAuthz (c_Defaults p)) ∧
        Evaluate p (policy_request r (b_data (hr_Body r))) = Ret d ∧ Allowed d = true).
Proof.
  intros Hs [Hl Hrev] Hset Hd Hh H200.
  destruct (handle_ok s p r dur Hs Hl Hrev Hset) as (v & w' & rec & Hv & Hh' & Hr & _).
  rewrite Hh in Hh'. injection Hh' as -> -> ->. destruct Hr as (h & Hsent & _).
  unfold final_status in H200. rewrite Hsent in H200.
  destruct (passes v) eqn:Hp; [|done]. unfold passes in Hp.
  destruct (vd_dry v) eqn:Hdry; [left; by exists v|right].
  rewrite orb_false_r in Hp. unfold http_verdict in Hv.
  destruct (Z.ltb_spec (ea_MaxBodyBytes (d_ExtAuthz (c_Defaults p))) (len (b_data (hr_Body r))));
    [by injection Hv as <-|].
  destruct (b_err (hr_Body r)); [by injection Hv as <-|].
  destruct (Evaluate_verdict p (policy_request r (b_data (hr_Body r))) Hl) as (d & Ed & _).
  rewrite Ed in Hv. cbn in Hv. injection Hv as <-. by exists d.
Qed.

(** Without an installed policy the endpoint and the readiness probe answer
    503; nothing is evaluated and the request is counted as an error. *)
Theorem handle_without_policy (s : Server) (r : http_request) (dur : spec_float) :
  sv_policy s = None →
  (∃ w, handle s r dur = Ret (record (sv_metrics s) "<noconfig>" "error" false, w, []) ∧
        final_status w = 503) ∧
  (∃ w, readyz s = Ret (sv_metrics s, w, []) ∧ final_status w = 503).
Proof.
  intros Hs. unfold handle, readyz. rewrite Hs. split; eexists; by split.
Qed.

(** The three operational routes are answered before any policy is consulted:
    a request for [/healthz] or [/metrics], of any method and with any body, gets
    200 whatever the installed policy says, and so does [/readyz] as soon as a
    policy is installed.  A caller that forwards the downstream path to the
    endpoint therefore lets these paths through. *)
Theorem operational_routes_bypass (s : Server) (r : http_request) (dur : spec_float) :
  hr_Method r ≠ "CONNECT" → hr_EscapedPath r ∈ ["/healthz"; "/metrics"; "/readyz"] →
  is_Some (sv_policy s) →
  ∃ w, serve s r dur = Ret (Some (sv_metrics s, w, [])) ∧ final_status w = 200.
Proof.
  intros Hm Hp [p Hs]. unfold serve, findHandler.
  rewrite (proj2 (String.eqb_neq _ _)) by done. set_unfold.
  destruct Hp as [->|[->|[->|[]]]].
  - replace (String.eqb (cleanPath "/healthz") "/healthz") with true by by vm_compute.
    replace (mux_match literal_routes (cleanPath "/healthz")) with (RouteLiteral "healthz")
      by by vm_compute.
    eexists. by split.
  - replace (String.eqb (cleanPath "/metrics") "/metrics") with true by by vm_compute.
    replace (mux_match literal_routes (cleanPath "/metrics")) with (RouteLiteral "metrics")
      by by vm_compute.
    eexists. by split.
  - replace (String.eqb (cleanPath "/readyz") "/readyz") with true by by vm_compute.
    replace (mux_match literal_routes (cleanPath "/readyz")) with (RouteLiteral "readyz")
      by by vm_compute.
    cbn. unfold readyz. rewrite Hs. eexists. by split.
Qed.

End endpoint.

(** The settings that panic or disable enforcement, on the sample policy. *)
Definition with_authz (c : Config) (status limit : Z) : Config :=
  mkConfig (mkDefaults (mkExtAuthzDefaults "deny" status "Forbidden" false limit)
              (d_ExtProc (c_Defaults c)) (d_DryRun (c_Defaults c)))
    (c_Logging c) (c_Facts c) (c_Groups c) (c_env c) (c_registry c).

Definition http_get (method path : string) (body : http_body) : http_request :=
  mkHttpRequest method "example.org:8080" ε path path ε "10.0.0.9:4321"
    (Header_Add ∅ "X-Forwarded-For" "203.0.113.7, 10.0.0.1") body.

Definition sample_server : Server := mkServer (Some sample_policy) newMetrics.

Lemma sample_settings : authz_settings_ok sample_policy.
Proof. by vm_compute. Qed.


Lemma handle_enforces_witness :
  ∃ d, Evaluate sample_policy (policy_request (http_get "GET" "/a" (mkBody "x" None)) "x") = Ret d ∧
       Allowed d = true.
Proof.
  destruct (handle sample_server (http_get "GET" "/a" (mkBody "x" None)) (S754_zero false))
    as [[[m w] logs]|] eqn:E; [|by vm_compute in E].
  destruct (handle_enforces sample_server sample_policy (http_get "GET" "/a" (mkBody "x" None))
    (S754_zero false) m w logs eq_refl sample_ready sample_settings) as [(v & Hv & Hd)|(d & _ & _ & Ed & Ha)].
  - by vm_compute.
  - exact E.
  - assert (match handle sample_server (http_get "GET" "/a" (mkBody "x" None)) (S754_zero false) with
            | Ret (_, w, _) => final_status w | Panic => 0 end = 200) as Hf by by vm_compute.
    by rewrite E in Hf.
  - assert (match http_verdict sample_policy (http_get "GET" "/a" (mkBody "x" None)) with
            | Ret v => vd_dry v | Panic => true end = false) as Hf by by vm_compute.
    rewrite Hv in Hf. congruence.
  - exists d. split; [exact Ed|exact Ha].
Defined.

Lemma handle_without_policy_witness :
  ∃ w, readyz (httpserver_New None) = Ret (newMetrics, w, []) ∧ final_status w = 503.
Proof.
  exact (proj2 (handle_without_policy (httpserver_New None) (http_get "GET" "/a" (mkBody ε None))
    (S754_zero false) eq_refl)).
Defined.

(** A request the policy denies is let through when its path is [/metrics]. *)
Lemma operational_routes_bypass_witness :
  ∃ w, serve sample_server (http_get "PUT" "/metrics" (mkBody ε None)) (S754_zero false) =
         Ret (Some (newMetrics, w, [])) ∧ final_status w = 200.
Proof.
  apply (operational_routes_bypass sample_server (http_get "PUT" "/metrics" (mkBody ε None))
    (S754_zero false)); [done|set_solver|by eexists].
Defined.

(** Settings that [validate] accepts and the handler cannot serve: a negative
    body limit or a deny status outside 100..999 panics, a limit of [MaxInt64]
    overflows and the policy is evaluated on an empty body, and an informational
    deny status reaches the caller as 200. *)
Theorem unchecked_settings :
  let run status limit body :=
    handle (mkServer (Some (with_authz sample_policy status limit)) newMetrics)
      (http_get "PUT" "/a" (mkBody body None)) (S754_zero false) in
  let status o := match o with Ret (_, w, _) => Some (final_status w) | Panic => None end in
  validate (with_authz sample_policy 99 (-1)) = Ok () ∧
  status (run 403 (-1) "x") = None ∧ status (run 99 1000 "x") = None ∧
  status (run 102 1000 "x") = Some 200 ∧ status (run 403 1000 "x") = Some 403 ∧
  ReadAll_limited (mkBody "attack" None) (wrap64 (int64_max + 1)) = Ok ε.
Proof. by vm_compute. Qed.

(** ** Counters *)

(** C23 No decision is lost: any number of concurrent calls of [record], in any
    interleaving of their atomic steps, end with the counters that the same calls
    leave one after the other, per rule and in the totals; a call can always take
    its next step, so none blocks another. *)
Theorem record_concurrent (ks : list ruleKey) (s : mem * list call) :
  rtc conc_step (mem_empty, start_calls ks) s →
  (∀ i c, s.2 !! i = Some c → cl_state c ≠ CDone → ∃ s', conc_step s s') ∧
  (Forall (λ c, cl_state c = CDone) s.2 →
   (∀ k, count_of s.1 k = default 0 (perRule (record_all ks) !! k)) ∧
   (∀ o, counted o → total_of (mm_totals s.1) o = total_of (record_all ks) o)).
Proof.
  intros Hs. destruct (rtc_conc_inv _ _ Hs (conc_inv_start ks)) as [[_ _ _ Hc] Hk].
  pose proof (rtc_totals _ _ Hs (totals_start ks)) as Ht. cbn [snd] in Hk.
  assert (map cl_key (start_calls ks) = ks) as Hks.
  { unfold start_calls. rewrite map_map. apply map_id. }
  rewrite Hks in Hk. split.
  - intros i c Hi Hnd. destruct s as [m cs]. destruct (call_step_progress m c Hnd) as (m' & c' & E).
    eexists. by eapply conc_step_at.
  - intros Hd. split.
    + intros k. by rewrite Hc, done_calls_all, Hk, record_all_count.
    + intros o Ho. by rewrite (Ht o Ho), totalled_all, Hk, record_all_total.
Qed.

Definition denied_key : ruleKey := mkRuleKey "g/r" "deny" false.

(** Two calls for the same new key: both look it up before either creates it. *)
Lemma record_concurrent_witness :
  ∃ m cs, rtc conc_step (mem_empty, start_calls [denied_key; denied_key]) (m, cs) ∧
          count_of m denied_key = 2.
Proof.
  assert (∃ m cs, rtc conc_step (mem_empty, start_calls [denied_key; denied_key]) (m, cs) ∧
    Forall (λ c, cl_state c = CDone) cs) as (m & cs & Hs & Hd).
  { eexists _, _. split.
    - eapply rtc_l; [eapply (conc_step_at _ _ 0%nat); reflexivity|].
      eapply rtc_l; [eapply (conc_step_at _ _ 1%nat); reflexivity|].
      eapply rtc_l; [eapply (conc_step_at _ _ 0%nat); reflexivity|].
      eapply rtc_l; [eapply (conc_step_at _ _ 1%nat); reflexivity|].
      eapply rtc_l; [eapply (conc_step_at _ _ 0%nat); reflexivity|].
      eapply rtc_l; [eapply (conc_step_at _ _ 1%nat); reflexivity|].
      eapply rtc_l; [eapply (conc_step_at _ _ 1%nat); reflexivity|].
      eapply rtc_l; [eapply (conc_step_at _ _ 0%nat); reflexivity|]. apply rtc_refl.
    - by repeat constructor. }
  exists m, cs. split; [exact Hs|].
  exact (proj1 (proj2 (record_concurrent [denied_key; denied_key] (m, cs) Hs) Hd) denied_key).
Defined.
