(* ===== verification/LogTheorems.v ===== *)
(** * Properties of the logs

    What reaches the access log, and how a record is rendered. *)

From Stdlib Require Import SpecFloat.
From S2P Require Import Prelude GoStrings GoHttp GoValues CelEnv Facts Policy Evaluate.
From S2P Require Import ExtProc Log AccessLog GrpcServer Instances.
Local Open Scope Z_scope.

(** ** Masking and redaction *)

(** [mask] keeps the length of a value and shows at most half of it, at most
    [redactReveal] bytes, as a prefix followed by asterisks; [redactReveal] must be
    below [2^62], since [2*n] is not checked: at [2^62] a value panics. *)
Theorem mask_bounds (v : string) (n : Z) :
  (reveal_ok n →
   ∃ k, mask v n = Ret (str_take k v +:+ Repeat "*" (String.length v - k)) ∧
        (2 * k ≤ String.length v)%nat ∧ Z.of_nat k ≤ Z.max 0 n) ∧
  (v ≠ ε → len v < 2 ^ 62 → mask v (2 ^ 62) = Panic).
Proof.
  split.
  - intros Hn. exists (shown v n). rewrite mask_eq by done. split_and!; [done|apply shown_half|].
    unfold shown. destruct (_ || _) eqn:E; lia.
  - intros Hv Hl. unfold mask. rewrite (proj2 (String.eqb_neq _ _)) by done.
    change (wrap64 (2 * 2 ^ 62)) with (- 2 ^ 63). change (2 ^ 62 <=? 0) with false.
    cbn [orb]. destruct (Z.ltb_spec (len v) (- 2 ^ 63)); [unfold len in *; lia|].
    destruct (Z.ltb_spec (len v) (2 ^ 62)); [done|lia].
Qed.

Lemma mask_bounds_witness :
  mask "0123456789abcdef" 6 = Ret "012345**********" ∧ mask "short" 6 = Ret "*****" ∧
  mask "short" (2 ^ 62) = Panic ∧
  ∃ k, mask "short" 6 = Ret (str_take k "short" +:+ Repeat "*" (5 - k)).
Proof.
  split_and!; [by vm_compute..|exact (proj2 (mask_bounds "short" (2 ^ 62)) ltac:(done) ltac:(by vm_compute))|].
  destruct (proj1 (mask_bounds "short" 6)) as (k & E & _); [by vm_compute|]. by exists k.
Defined.

Section access.
Context `{UnicodeTables, GoRange}.

(** C31 The headers logged are exactly those not excluded, each under its
    lower-cased name with its values joined, and masked when its name is redacted;
    the order in which Go visits the header map has no influence on which. *)
Theorem logged_headers (h : Header) (lg : Logging) (attrs : list attr) (a : attr) :
  reveal_ok (l_RedactReveal lg) → header_attrs h lg = Ret attrs →
  (a ∈ attrs ↔
  ∃ name vs v, h !! name = Some vs ∧ (ToLower name ∉ lowerSet (l_ExcludeHeaders lg)) ∧
    (if bool_decide (ToLower name ∈ lowerSet (l_RedactHeaders lg))
     then mask (Join vs ", ") (l_RedactReveal lg) = Ret v else v = Join vs ", ") ∧
    a = Attr (ToLower name) (SString v)).
Proof.
  intros Hr E. rewrite header_attrs_eq in E by done. injection E as <-.
  unfold headers_shown. rewrite list_elem_of_omap. split.
  - intros ([name vs] & Hin%range_map_lookup & Hs). unfold header_shown in Hs. cbn [fst snd] in Hs.
    case_bool_decide as Hex; [done|]. injection Hs as <-.
    exists name, vs. eexists. split_and!; [done|done| |done].
    destruct (bool_decide _); [by apply mask_eq|done].
  - intros (name & vs & v & Hh & Hex & Hv & ->). exists (name, vs).
    split; [by apply range_map_lookup|]. unfold header_shown. cbn [fst snd].
    rewrite bool_decide_false by done. do 3 f_equal.
    destruct (bool_decide _); [|done]. rewrite mask_eq in Hv by done. by injection Hv.
Qed.

(** Two pairs that differ at most in the value of a sensitive parameter. *)
Definition same_public (sens : gset string) (p1 p2 : string) : Prop :=
  p1 = p2 ∨ ∃ name v1 v2, sensitive_pair sens name v1 p1 ∧ sensitive_pair sens name v2 p2.

Lemma same_public_redacted sens p1 p2 :
  same_public sens p1 p2 → redact_pair sens p1 = redact_pair sens p2.
Proof.
  intros [->|(name & v1 & v2 & H1 & H2)]; [done|].
  by rewrite (redact_sensitive _ _ _ _ H1), (redact_sensitive _ _ _ _ H2).
Qed.

Lemma Split_inj s t c : Split s c = Split t c → s = t.
Proof. intros E. by rewrite <- (Join_Split s c), E, Join_Split. Qed.

Lemma same_public_empty sens q1 q2 :
  Forall2 (same_public sens) (Split q1 "&") (Split q2 "&") → q1 = ε → q2 = ε.
Proof.
  intros HF ->. cbn in HF. inversion HF as [|x y l k Hp Hl E1 E2]; subst.
  inversion Hl; subst. destruct Hp as [<-|(name & v1 & _ & (E & _) & _)].
  - apply (Split_inj _ _ "&"). by rewrite <- E2.
  - by destruct name.
Qed.

(** C30 The logged query tells nothing about the values of sensitive parameters:
    two queries whose parameters agree except for such values, matched by their
    unescaped lower-cased name, are logged alike. *)
Theorem redactedQuery_noninterference (q1 q2 : string) (lg : Logging) :
  Forall2 (same_public (lowerSet (l_RedactQueryParams lg))) (Split q1 "&") (Split q2 "&") →
  redactedQuery q1 lg = redactedQuery q2 lg.
Proof.
  intros HF. unfold redactedQuery. set (sens := lowerSet _) in *.
  assert (Forall2 (same_public sens) (Split q2 "&") (Split q1 "&")) as HF'.
  { apply Forall2_flip. eapply Forall2_impl; [exact HF|]. intros p1 p2.
    intros [->|(name & v1 & v2 & H1 & H2)]; [by left|right; eauto]. }
  destruct (String.eqb_spec q1 ε) as [E1|N1], (String.eqb_spec q2 ε) as [E2|N2]; [done| | |].
  - by destruct N2; eapply same_public_empty.
  - by destruct N1; eapply same_public_empty.
  - case_bool_decide as Es.
    + apply (Split_inj _ _ "&"). rewrite Es in HF. clear -HF.
      induction HF as [|p1 p2 l k Hp _ IH]; [done|]. f_equal; [|done].
      destruct Hp as [->|(? & ? & ? & (_ & _ & Hin) & _)]; [done|]. set_solver.
    + f_equal. clear -HF. induction HF as [|p1 p2 l k Hp _ IH]; [done|]. cbn.
      f_equal; [by apply same_public_redacted|done].
Qed.

End access.

Definition sample_logging : Logging :=
  mkLogging "info" "json" false (Some ["cookie"]) (Some ["Authorization"]) 6 (Some ["code"]).

Definition sample_headers : Header :=
  Header_Add (Header_Add ∅ "Authorization" "Bearer 0123456789") "Cookie" "id=1".

Definition logged (h : Header) : list attr :=
  match header_attrs h sample_logging with Ret attrs => attrs | Panic => [] end.

Lemma logged_headers_witness :
  Attr "authorization" (SString "Bearer***********") ∈ logged sample_headers.
Proof.
  assert (reveal_ok (l_RedactReveal sample_logging)) as Hr by by vm_compute.
  assert (header_attrs sample_headers sample_logging = Ret (logged sample_headers)) as E
    by by vm_compute.
  refine (proj2 (logged_headers sample_headers sample_logging (logged sample_headers) _ Hr E) _).
  exists "Authorization", ["Bearer 0123456789"], "Bearer***********".
  split; [by vm_compute|]. split; [|split; by vm_compute].
  apply (bool_decide_unpack _). by vm_compute.
Defined.

Lemma redactedQuery_noninterference_witness :
  redactedQuery "a=1&%43ode=secret" sample_logging = redactedQuery "a=1&%43ode=other" sample_logging.
Proof.
  apply (redactedQuery_noninterference "a=1&%43ode=secret" "a=1&%43ode=other" sample_logging).
  change (Forall2 (same_public (lowerSet (l_RedactQueryParams sample_logging)))
            ["a=1"; "%43ode=secret"] ["a=1"; "%43ode=other"]).
  constructor; [by left|]. constructor; [right|constructor].
  exists "%43ode", "secret", "other".
  split; (split; [done|split; [done|]]); apply (bool_decide_unpack _); by vm_compute.
Defined.

(** ** The console *)

(** A string without a line break. *)
Definition one_line (s : string) : bool := str_forall (λ c, negb (byteZ c =? 10)) s.

Lemma one_line_append s t : one_line (s +:+ t) = one_line s && one_line t.
Proof. apply str_forall_append. Qed.

Lemma one_line_concat l : Forall (λ s, one_line s = true) l → one_line (str_concat l) = true.
Proof. induction 1 as [|s l Hs _ IH]; [done|]. cbn. by rewrite one_line_append, Hs, IH. Qed.

Lemma one_line_hex n z : one_line (hex_digits n z) = true.
Proof.
  induction n as [|n IH]; [done|]. cbn. unfold one_line in IH. rewrite IH, andb_true_r.
  set (d := (z / 16 ^ Z.of_nat n) mod 16).
  assert (0 ≤ d < 16) by (apply Z.mod_pos_bound; lia).
  unfold hex_digit. destruct (Z.ltb_spec d 10); rewrite byteZ_chr by lia; lia.
Qed.

Lemma one_line_itoa z : one_line (Itoa z) = true.
Proof.
  unfold Itoa. assert (∀ f n, 0 ≤ n → one_line (fmt_dec f n ε) = true) as Hf.
  { intros f n Hn. apply fmt_dec_forall; [|done|done]. intros d Hd. rewrite byteZ_chr by lia. lia. }
  destruct (z <? 0); [change (one_line (String "-" ?s) = true) with (one_line s = true)|];
    apply Hf; lia.
Qed.

Section console.
Context `{UnicodeTables, FmtTables}.

(** The bytes of a rune of more than one byte are above the ASCII range. *)
Lemma decode_rune_bytes s :
  match (decode_rune s).2 with
  | O | 1%nat => (decode_rune s).1 = RuneError ∨ ∃ c s', s = String c s' ∧ (decode_rune s).1 = byteZ c
  | w => str_forall (λ c, 128 <=? byteZ c) (str_take w s) = true
  end.
Proof.
  unfold decode_rune. destruct s as [|c0 s1]; [by left|].
  destruct (Z.ltb_spec (byteZ c0) 128); [right; by exists c0, s1|].
  destruct s1 as [|c1 s2]; [by left|].
  destruct (in_range 194 223 (byteZ c0)) eqn:E1; cbn -[in_range Z.ltb Z.leb].
  { destruct (in_range 128 191 (byteZ c1)) eqn:E2; [|by left]. unfold in_range in *. cbn. lia. }
  destruct s2 as [|c2 s3]; [by left|].
  destruct (in_range 224 239 (byteZ c0)) eqn:E2.
  { destruct (in_range _ _ _ && in_range _ _ _) eqn:E3; [|by left].
    unfold in_range in *. cbn. repeat go_case_in E3; lia. }
  destruct s3 as [|c3 s4]; [by left|].
  destruct (in_range 240 244 (byteZ c0)); [|by left].
  destruct (_ && _) eqn:E3; [|by left].
  unfold in_range in *. cbn. repeat go_case_in E3; lia.
Qed.

Lemma one_line_high s : str_forall (λ c, 128 <=? byteZ c) s = true → one_line s = true.
Proof.
  unfold one_line. induction s as [|c s IH]; [done|]. cbn. rewrite !andb_true_iff.
  intros [Hc Hs]. split; [lia|by apply IH].
Qed.

Lemma quote_rune_one_line s :
  s ≠ ε → one_line (quote_rune ((decode_rune s).1, str_take (decode_rune s).2 s)) = true.
Proof.
  intros Hs. pose proof (decode_rune_bytes s) as Hb. pose proof (decode_rune_width s Hs) as Hw.
  destruct (decode_rune s) as [r w]. cbn [fst snd] in *. unfold quote_rune.
  destruct w as [|[|w]]; [lia| |].
  - destruct s as [|c s']; [done|]. replace (str_take 1 (String c s')) with (str1 c) by by destruct s'.
    cbn [str1]. destruct (Z.eqb_spec r RuneError) as [->|Hr]; [rewrite one_line_append; by rewrite one_line_hex|].
    destruct Hb as [?|(c' & s'' & [= <- <-] & ->)]; [done|].
    destruct ((byteZ c =? 34) || (byteZ c =? 92)) eqn:E1; [unfold one_line; cbn [str_forall str1]; change (byteZ "\") with 92; lia|].
    destruct (IsPrint (byteZ c)) eqn:E2.
    { unfold IsPrint in E2. destruct (Z.ltb_spec (byteZ c) 128); unfold one_line, in_range in *; cbn [str_forall str1]; lia. }
    repeat (go_case; [done|]). by rewrite one_line_append, one_line_hex.
  - apply one_line_high in Hb. destruct s as [|c [|d s']]; [done| |].
    { change (str_take (S (S w)) (String c ε)) with (String c ε) in *. destruct (Z.eqb_spec r RuneError); [by rewrite one_line_append, one_line_hex|].
      repeat (go_case; [first [exact Hb|done]|]). by rewrite one_line_append, one_line_hex. }
    cbn [str_take] in *. destruct (IsPrint r); [done|].
    destruct (r <? 65536); by rewrite one_line_append, one_line_hex.
Qed.

Lemma Quote_one_line s : one_line (Quote s) = true.
Proof.
  unfold Quote. change (one_line (String (chr 34) ?s) = true) with (one_line s = true).
  rewrite one_line_append. apply andb_true_iff. split; [|done]. apply one_line_concat, Forall_map.
  unfold runes. generalize O. induction s as [|c s IH]; intros k; [constructor|].
  destruct k as [|k]; [|apply IH]. cbn [runes_from]. constructor; [|apply IH].
  by apply quote_rune_one_line.
Qed.

(** A value whose rendering by the verbs other than [%q] has no line break. *)
Definition value_clean (v : slog_value) : Prop :=
  match v with
  | SFloat64 f => one_line (fmt_float f) = true
  | SDuration d => one_line (fmt_duration d) = true
  | STime t => one_line (fmt_time t) = true
  | SStrings l => Forall (λ s, one_line s = true) l
  | SAny v => one_line (fmt_any v) = true
  | _ => True
  end.

Fixpoint attr_clean (a : attr) : Prop :=
  match a with
  | Attr key v => one_line key = true ∧ value_clean v
  | Group_ key l =>
      one_line key = true ∧ (fix go l := match l with [] => True | x :: l' => attr_clean x ∧ go l' end) l
  end.

Lemma Join_one_line l sep :
  one_line sep = true → Forall (λ s, one_line s = true) l → one_line (Join l sep) = true.
Proof.
  intros Hsep. induction 1 as [|s l Hs Hl IH]; [done|]. destruct l as [|t l]; [done|].
  rewrite Join_cons by done. by rewrite !one_line_append, Hs, Hsep, IH.
Qed.

Lemma formatValue_one_line v : value_clean v → one_line (formatValue v) = true.
Proof.
  destruct v as [s|z|z|f|[]|d|t|l|v]; cbn [formatValue value_clean]; try done; try (intros _; apply one_line_itoa).
  - intros _. destruct (needs_quoting s) eqn:E; [apply Quote_one_line|].
    unfold needs_quoting in E. apply negb_false_iff in E. unfold one_line.
    induction s as [|c s IH]; [done|]. cbn -[Z.eqb] in *. apply andb_true_iff in E as [Ec Es].
    rewrite IH by done. rewrite andb_true_r. cbn -[Z.eqb] in Ec. lia.
  - intros Hl. unfold fmt_strings. rewrite !one_line_append, Join_one_line; done.
Qed.

Lemma writeAttr_one_line prefix a :
  one_line prefix = true → attr_clean a → one_line (writeAttr prefix a) = true.
Proof.
  revert prefix a. fix IH 2. intros prefix [key v|key l] Hp Ha.
  - destruct Ha as [Hk Hv]. cbn [writeAttr]. destruct (is_zero_attr key v); [done|].
    rewrite !one_line_append, Hk, formatValue_one_line by done.
    destruct (String.eqb prefix ε); [done|]. by rewrite one_line_append, Hp.
  - destruct Ha as [Hk Hl]. cbn [writeAttr]. apply one_line_concat, Forall_map.
    set (gp := if String.eqb key ε then _ else _).
    assert (one_line gp = true) as Hgp.
    { subst gp. destruct (String.eqb key ε); [done|]. rewrite one_line_append, Hk.
      destruct (String.eqb prefix ε); [done|]. by rewrite one_line_append, Hp. }
    clearbody gp. revert Hl. clear Hk. revert l. fix IHl 1. intros [|x l] Hl; [constructor|].
    destruct Hl as [Hx Hl]. constructor; [by apply IH|by apply IHl].
Qed.

(** The console handler writes one line per record: when the message, the keys
    and the values rendered with [%v] hold no line break, the text of [Handle] has
    exactly one, at its end; string attributes may hold anything, they are quoted. *)
Theorem console_one_line (h : consoleHandler) (clock : string) (r : log_record) :
  one_line clock = true → one_line (lr_msg r) = true → one_line (h_group h) = true →
  Forall attr_clean (h_attrs h ++ lr_attrs r) →
  ∃ line, Handle h clock r = line +:+ str1 (chr 10) ∧ one_line line = true.
Proof.
  intros Hc Hm Hg Ha. apply Forall_app in Ha as [Ha Hr]. unfold Handle.
  assert (∀ l, Forall attr_clean l → one_line (str_concat (map (writeAttr (h_group h)) l)) = true) as Hl.
  { intros l Hl. apply one_line_concat, Forall_map. eapply Forall_impl; [exact Hl|].
    intros a Hx. by apply writeAttr_one_line. }
  eexists (clock +:+ " " +:+ levelTag (lr_level r) +:+ " " +:+ lr_msg r +:+
    str_concat (map (writeAttr (h_group h)) (h_attrs h)) +:+
    str_concat (map (writeAttr (h_group h)) (lr_attrs r))).
  split; [by rewrite !append_assoc|].
  rewrite !one_line_append, Hc, Hm, !Hl by done. unfold levelTag. by repeat go_case.
Qed.

(** ** Configuration *)

(** [Configure] installs the requested handler and level, or reports an error
    and keeps the handler; but the level of the logger is already replaced when the
    format turns out to be unknown, so the previous configuration is not kept. *)
Theorem Configure_effect (st : log_state) (opts : Options) :
  match parseLevel (o_Level opts) with
  | Err e => Configure st opts = (st, Some e)
  | Ok l =>
      if bool_decide (o_Format opts ∈ [ε; "json"; "console"])
      then Configure st opts =
             (mkLogState l (if bool_decide (o_Format opts = "console") then ConsoleHandler else JSONHandler), None)
      else Configure st opts = (mkLogState l (current st), Some (ErrUnknownFormat (o_Format opts)))
  end.
Proof.
  unfold Configure. destruct (parseLevel (o_Level opts)) as [l|e]; [|done].
  destruct (String.eqb_spec (o_Format opts) "console") as [->|N1]; [done|].
  destruct (String.eqb_spec (o_Format opts) ε) as [->|N2]; [done|].
  destruct (String.eqb_spec (o_Format opts) "json") as [->|N3]; [done|].
  cbn [orb]. rewrite bool_decide_false; [done|]. set_solver.
Qed.

End console.

Lemma console_one_line_witness :
  ∃ line, Handle (mkConsole ε []) "12:00:00.000"
    (mkRecord LevelWarn "request decided" [Attr "path" (SString ("/a" +:+ str1 (chr 10) +:+ "INFO"))]) =
    line +:+ str1 (chr 10) ∧ one_line line = true.
Proof.
  apply (console_one_line (mkConsole ε []) "12:00:00.000"
    (mkRecord LevelWarn "request decided" [Attr "path" (SString ("/a" +:+ str1 (chr 10) +:+ "INFO"))]));
    [done..|]. by repeat constructor.
Defined.

Lemma Configure_effect_witness :
  Configure (mkLogState LevelInfo ConsoleHandler) (mkOptions "Debug" "xml") =
    (mkLogState LevelDebug ConsoleHandler, Some (ErrUnknownFormat "xml")).
Proof. exact (Configure_effect (mkLogState LevelInfo ConsoleHandler) (mkOptions "Debug" "xml")). Defined.
