(* ===== verification/Reload.v ===== *)
(** * cmd/main.go: boot and hot reload

    [policy.LoadFile] with [os.ExpandEnv], the boot sequence, [applyLogging],
    [logLoaded] and the closure [reload].  A [*policy.Config] is an address in a
    store, so that the two servers, the reloads in flight and the goroutines of the
    facts share it.  [reload] is also given as the steps other goroutines can
    observe, since SIGHUP and the file watcher run it on goroutines of their own. *)

From S2P Require Import Prelude GoStrings GoHttp GoValues CelEnv Facts Policy Evaluate.
From S2P Require Import Log.
Local Open Scope Z_scope.

(** ** os.ExpandEnv *)

Definition isShellSpecialVar (c : ascii) : bool :=
  is_digit c || existsb (Ascii.eqb c) ["*"; "#"; "$"; "@"; "!"; "?"; "-"]%char.

Definition isAlphaNum (c : ascii) : bool :=
  Ascii.eqb c "_" || is_digit c || in_range 97 122 (byteZ c) || in_range 65 90 (byteZ c).

Fixpoint alnum_prefix (s : string) : string :=
  match s with
  | ε => ε
  | String c s' => if isAlphaNum c then String c (alnum_prefix s') else ε
  end.

(** [getShellName]: the name and the number of bytes it takes. *)
Definition getShellName (s : string) : string * nat :=
  match s with
  | String "{" s1 =>
      match s1 with
      | String c (String "}" _) =>
          if isShellSpecialVar c then (str1 c, 3%nat)
          else if Ascii.eqb c "}" then (ε, 2%nat)
          else (str1 c, 3%nat)
      | _ =>
          match IndexByte s1 "}" with
          | Some O => (ε, 2%nat)
          | Some i => (str_take i s1, S (S i))
          | None => (ε, 1%nat)
          end
      end
  | String c _ =>
      if isShellSpecialVar c then (str1 c, 1%nat)
      else (alnum_prefix s, String.length (alnum_prefix s))
  | ε => (ε, O)
  end.

(** [os.Expand]; [k] bytes are still to be skipped. *)
Fixpoint Expand (mapping : string → string) (k : nat) (s : string) : string :=
  match s with
  | ε => ε
  | String c s' =>
      match k with
      | S k' => Expand mapping k' s'
      | O =>
          if Ascii.eqb c "$" && negb (String.eqb s' ε) then
            let '(name, w) := getShellName s' in
            (if String.eqb name ε then if (0 <? w)%nat then ε else str1 c else mapping name) +:+
            Expand mapping w s'
          else String c (Expand mapping O s')
      end
  end.

Section main.
Context `{CelGo, UnicodeTables, GoRange, FactsWorld, !YamlPolicy}.
Context (getenv : string → string).

Definition ExpandEnv (s : string) : string := Expand getenv O s.

(** [policy.LoadFile] on what [os.ReadFile] returned. *)
Definition LoadFile (file : result string string) : result load_error Config :=
  match file with
  | Err err => Err (LErrReadFile err)
  | Ok raw => LoadBytes (ExpandEnv raw)
  end.

(** ** The process *)

(** The flags [--config], [--log-level] and [--log-format]. *)
Record flags := mkFlags { f_config : string; f_level : string; f_format : string }.

Record process := mkProcess {
  pr_store : list Config;
  pr_http : option nat;
  pr_grpc : option nat;
  pr_log : log_state;
  pr_records : list log_record;
}.

Definition emit (pr : process) (r : log_record) : process :=
  mkProcess (pr_store pr) (pr_http pr) (pr_grpc pr) (pr_log pr) (pr_records pr ++ [r]).

(** [applyLogging]. *)
Definition applyLogging (pr : process) (lg : Logging) (f : flags) : process :=
  let lvl := if String.eqb (f_level f) ε then l_Level lg else f_level f in
  let fmtName := if String.eqb (f_format f) ε then l_Format lg else f_format f in
  let '(st, err) := Configure (pr_log pr) (mkOptions lvl fmtName) in
  let pr := mkProcess (pr_store pr) (pr_http pr) (pr_grpc pr) st (pr_records pr) in
  match err with
  | None => pr
  | Some (ErrUnknownLevel n) =>
      emit pr (mkRecord LevelError "invalid logging configuration; keeping previous"
        [Attr "err" (SString ("unknown log level " +:+ Quote n +:+ " (want debug|info|warn|error)"))])
  | Some (ErrUnknownFormat n) =>
      emit pr (mkRecord LevelError "invalid logging configuration; keeping previous"
        [Attr "err" (SString ("unknown log format " +:+ Quote n +:+ " (want json|console)"))])
  end.

Definition count_rules (c : Config) : nat := foldl (λ n g, n + length (g_Rules g))%nat O (c_Groups c).

(** [logLoaded]. *)
Definition logLoaded (pr : process) (version msg path : string) (c : Config) (extra : list attr) :
    process :=
  emit pr (mkRecord LevelInfo msg
    ([Attr "version" (SString version); Attr "path" (SString path);
      Attr "groups" (SInt64 (Z.of_nat (length (c_Groups c))));
      Attr "rules" (SInt64 (Z.of_nat (count_rules c)));
      Attr "default" (SString (ea_Action (d_ExtAuthz (c_Defaults c))))] ++ extra)).

Definition add_config (pr : process) (c : Config) : process :=
  mkProcess (pr_store pr ++ [c]) (pr_http pr) (pr_grpc pr) (pr_log pr) (pr_records pr).

Definition set_http (pr : process) (a : option nat) : process :=
  mkProcess (pr_store pr) a (pr_grpc pr) (pr_log pr) (pr_records pr).
Definition set_grpc (pr : process) (a : option nat) : process :=
  mkProcess (pr_store pr) (pr_http pr) a (pr_log pr) (pr_records pr).

(** [old.Stop()]; a nil pointer is skipped. *)
Definition stop_at (pr : process) (o : option nat) : process :=
  match o with
  | None => pr
  | Some a => mkProcess (alter Config_Stop a (pr_store pr)) (pr_http pr) (pr_grpc pr) (pr_log pr)
                (pr_records pr)
  end.

Definition reload_failed (pr : process) (source err : string) : process :=
  emit pr (mkRecord LevelError "reload failed; keeping previous policy"
    [Attr "source" (SString source); Attr "err" (SString err)]).

(** The rendering of the two kinds of error is left abstract. *)
Context (load_error_text : load_error → string) (facts_error_text : facts_error → string).
Context (version : string).

(** The boot sequence of [main] up to the servers; [None] is [log.Fatalf]. *)
Definition boot (f : flags) (file : result string string) (st : log_state) :
    outcome (option process) :=
  match LoadFile file with
  | Err _ => Ret None
  | Ok cfg =>
      let pr := applyLogging (mkProcess [] None None st []) (c_Logging cfg) f in
      '(cfg', err) ← Config_Start cfg;
      match err with
      | Some _ => Ret None
      | None =>
          let pr := logLoaded pr version "policy loaded" (f_config f) cfg' [] in
          Ret (Some (set_grpc (set_http (add_config pr cfg') (Some O)) (Some O)))
      end
  end.

(** [reload], run without interference.  A configuration whose facts failed to
    start stays in the store: nothing stops it. *)
Definition reload (f : flags) (pr : process) (source : string) (file : result string string) :
    outcome process :=
  match LoadFile file with
  | Err err => Ret (reload_failed pr source (load_error_text err))
  | Ok newCfg =>
      '(newCfg', err) ← Config_Start newCfg;
      let a := length (pr_store pr) in
      let pr := add_config pr newCfg' in
      match err with
      | Some err => Ret (reload_failed pr source (facts_error_text err))
      | None =>
          let pr := applyLogging pr (c_Logging newCfg') f in
          let old := pr_http pr in
          let pr := set_http pr (Some a) in
          let pr := set_grpc pr (Some a) in
          let pr := stop_at pr old in
          Ret (logLoaded pr version "policy reloaded" (f_config f) newCfg'
                 [Attr "source" (SString source)])
      end
  end.

(** ** reload as steps *)

Inductive thread : Type :=
| TLoad (source : string) (file : result string string)
| TLogging (source : string) (a : nat)
| TSwapHttp (source : string) (a : nat)
| TSwapGrpc (source : string) (a : nat) (old : option nat)
| TStop (source : string) (a : nat) (old : option nat)
| TReport (source : string) (a : nat)
| TDone.

Definition thread_step (f : flags) (pr : process) (t : thread) : outcome (process * thread) :=
  match t with
  | TLoad source file =>
      match LoadFile file with
      | Err err => Ret (reload_failed pr source (load_error_text err), TDone)
      | Ok newCfg =>
          '(newCfg', err) ← Config_Start newCfg;
          let a := length (pr_store pr) in
          let pr := add_config pr newCfg' in
          match err with
          | Some err => Ret (reload_failed pr source (facts_error_text err), TDone)
          | None => Ret (pr, TLogging source a)
          end
      end
  | TLogging source a =>
      match pr_store pr !! a with
      | Some c => Ret (applyLogging pr (c_Logging c) f, TSwapHttp source a)
      | None => Panic
      end
  | TSwapHttp source a => Ret (set_http pr (Some a), TSwapGrpc source a (pr_http pr))
  | TSwapGrpc source a old => Ret (set_grpc pr (Some a), TStop source a old)
  | TStop source a old => Ret (stop_at pr old, TReport source a)
  | TReport source a =>
      match pr_store pr !! a with
      | Some c => Ret (logLoaded pr version "policy reloaded" (f_config f) c
                         [Attr "source" (SString source)], TDone)
      | None => Panic
      end
  | TDone => Ret (pr, TDone)
  end.

(** A reload that runs alone. *)
Fixpoint thread_run (n : nat) (f : flags) (pr : process) (t : thread) : outcome (process * thread) :=
  match n with
  | O => Ret (pr, t)
  | S n' => '(pr', t') ← thread_step f pr t; thread_run n' f pr' t'
  end.

(** Any reload in flight may take the next step. *)
Inductive main_step (f : flags) : process * list thread → process * list thread → Prop :=
| main_step_at pr ts i t pr' t' :
    ts !! i = Some t → t ≠ TDone → thread_step f pr t = Ret (pr', t') →
    main_step f (pr, ts) (pr', <[i := t']> ts).

(** ** Lemmas *)

Lemma emit_fields pr r :
  pr_store (emit pr r) = pr_store pr ∧ pr_http (emit pr r) = pr_http pr ∧
  pr_grpc (emit pr r) = pr_grpc pr ∧ pr_log (emit pr r) = pr_log pr.
Proof. done. Qed.

Lemma applyLogging_fields pr lg f :
  pr_store (applyLogging pr lg f) = pr_store pr ∧ pr_http (applyLogging pr lg f) = pr_http pr ∧
  pr_grpc (applyLogging pr lg f) = pr_grpc pr.
Proof. unfold applyLogging. destruct (Configure _ _) as [st [[]|]]; done. Qed.

(** A configuration that has just been started. *)
Definition started (c : Config) : Prop :=
  loaded c ∧ ∃ reg, c_registry c = Some reg ∧ populated reg ∧ procs_owned reg.

Lemma Config_Start_ok c :
  loaded c → unstarted c →
  ∃ c' err, Config_Start c = Ret (c', err) ∧ loaded c' ∧ (err = None → started c').
Proof.
  intros Hl (reg & Hr & Hn). unfold Config_Start. rewrite Hr.
  destruct (Registry_Start_spec reg (New_entry_ok _ _ Hn)) as (reg' & err & -> & Ho & Hd & Hp & _).
  cbn. assert (loaded (with_registry c reg')) as Hl' by by eapply loaded_with_registry.
  exists (with_registry c reg'), err. split; [done|]. split; [done|]. intros ->. split; [done|].
  exists reg'. split_and!; [done|by apply Hp|]. apply Ho. intros i p.
  by rewrite (proj2 (New_procs _ _ Hn)).
Qed.

Lemma LoadFile_loaded file c : LoadFile file = Ok c → loaded c ∧ unstarted c.
Proof. unfold LoadFile. destruct file; [|done]. apply LoadBytes_loaded. Qed.

(** What a reload did: nothing but log, or install the new policy in both servers
    and stop the one the HTTP server had. *)
Definition rejected (pr pr' : process) : Prop :=
  pr_http pr' = pr_http pr ∧ pr_grpc pr' = pr_grpc pr ∧ pr_log pr' = pr_log pr ∧
  ∃ l, pr_store pr' = pr_store pr ++ l ∧ Forall loaded l.

Definition installed (pr pr' : process) : Prop :=
  ∃ c, started c ∧ pr_http pr' = Some (length (pr_store pr)) ∧ pr_grpc pr' = pr_http pr' ∧
    pr_store pr' =
      match pr_http pr with
      | Some o => alter Config_Stop o (pr_store pr ++ [c])
      | None => pr_store pr ++ [c]
      end.

Lemma reload_cases f pr source file :
  ∃ pr', reload f pr source file = Ret pr' ∧
    match LoadFile file with
    | Err _ => rejected pr pr'
    | Ok _ => rejected pr pr' ∨ installed pr pr'
    end.
Proof.
  unfold reload. destruct (LoadFile file) as [c|err] eqn:E.
  - destruct (LoadFile_loaded _ _ E) as [Hl Hu].
    destruct (Config_Start_ok c Hl Hu) as (c' & err & -> & Hl' & Hs). cbn [mbind outcome_bind].
    destruct err as [err|].
    + eexists. split; [done|]. left. split_and!; try done. exists [c']. split; [done|by constructor].
    + eexists. split; [done|]. right. exists c'.
      destruct (applyLogging_fields (add_config pr c') (c_Logging c') f) as (H1' & H2' & H3').
      unfold logLoaded, stop_at. cbn. rewrite H2'. cbn.
      destruct (pr_http pr) as [o|]; cbn; rewrite H1'; split_and!; auto.
  - eexists. split; [done|]. split_and!; try done. exists []. by rewrite app_nil_r.
Qed.

End main.
