(* ===== verification/ReloadTheorems.v ===== *)
(** * Properties of boot and reload

    A reload installs a policy completely or not at all when it runs alone, and
    what two reloads at the same time can do. *)

From S2P Require Import Prelude GoStrings GoHttp GoValues CelEnv Facts Policy Evaluate.
From S2P Require Import Log Instances Reload.
Local Open Scope Z_scope.

Section reload.
Context `{CelGo, UnicodeTables, GoRange, FactsWorld, !YamlPolicy}.
Context (getenv : string → string).
Context (load_error_text : load_error → string) (facts_error_text : facts_error → string).
Context (version : string).

Abbreviation reload := (reload getenv load_error_text facts_error_text version).
Abbreviation boot := (boot getenv version).
Abbreviation thread_step := (thread_step getenv load_error_text facts_error_text version).
Abbreviation thread_run := (thread_run getenv load_error_text facts_error_text version).
Abbreviation LoadFile := (LoadFile getenv).

(** C18 A reload that runs alone is all or nothing: if the file cannot be loaded or
    its facts cannot be started, both servers keep their policy and the logger its
    configuration; otherwise both servers get the same new policy, loaded and with
    every fact populated, and only the policy it replaces is stopped. *)
Theorem reload_atomic (f : flags) (pr : process) (source : string) (file : result string string) :
  ∃ pr', reload f pr source file = Ret pr' ∧
    match LoadFile file with
    | Err _ => rejected pr pr'
    | Ok c =>
        match Config_Start c with
        | Ret (_, None) => installed pr pr'
        | Ret (_, Some _) => rejected pr pr'
        | Panic => False
        end
    end.
Proof.
  unfold Reload.reload. destruct (LoadFile file) as [c|err] eqn:E.
  - destruct (LoadFile_loaded getenv _ _ E) as [Hl Hu].
    destruct (Config_Start_ok c Hl Hu) as (c' & err & -> & Hl' & Hs). cbn [mbind outcome_bind].
    destruct err as [err|]; eexists; (split; [done|]).
    + split_and!; try done. exists [c']. split; [done|by constructor].
    + exists c'. destruct (applyLogging_fields (add_config pr c') (c_Logging c') f) as (E1 & E2 & E3).
      unfold logLoaded, stop_at. cbn. rewrite E2. cbn.
      destruct (pr_http pr) as [o|]; cbn; rewrite E1; split_and!; auto.
  - eexists. split; [done|]. split_and!; try done. exists []. by rewrite app_nil_r.
Qed.

(** A reload taken step by step, with nobody else running, ends with the
    process that [reload] computes. *)
Theorem reload_steps_refine (f : flags) (pr : process) (source : string)
    (file : result string string) :
  thread_run 6 f pr (TLoad source file) = (pr' ← reload f pr source file; Ret (pr', TDone)).
Proof.
  unfold Reload.reload. cbn [Reload.thread_run Reload.thread_step].
  destruct (LoadFile file) as [c|err]; [|done].
  destruct (Config_Start c) as [[c' [err|]]|]; [done| |done].
  cbn [mbind outcome_bind add_config pr_store].
  assert ((pr_store pr ++ [c']) !! length (pr_store pr) = Some c') as Ha by by apply list_lookup_middle.
  cbn [Reload.thread_step add_config pr_store].
  rewrite Ha. cbn [mbind outcome_bind Reload.thread_step set_http set_grpc pr_http].
  destruct (applyLogging_fields (add_config pr c') (c_Logging c') f) as (E1 & E2 & E3).
  set (pr1 := applyLogging _ _ _) in *. clearbody pr1.
  cbn [add_config pr_http pr_store] in E1, E2. rewrite E2.
  destruct (pr_http pr) as [o|]; cbn; rewrite E1; [|by rewrite Ha].
  destruct (decide (o = length (pr_store pr))) as [->|Hne].
  - by rewrite list_lookup_alter_eq, Ha.
  - by rewrite list_lookup_alter_ne, Ha.
Qed.

(** ** Reloads one after the other *)

(** Between reloads, the goroutines of any policy refresh its facts or return. *)
Inductive event_step (f : flags) (pr : process) : process → Prop :=
| ev_reload source file pr' : reload f pr source file = Ret pr' → event_step f pr pr'
| ev_background a c reg reg' :
    pr_store pr !! a = Some c → c_registry c = Some reg → reg_step reg reg' →
    event_step f pr (mkProcess (<[a := with_registry c reg']> (pr_store pr)) (pr_http pr) (pr_grpc pr)
                       (pr_log pr) (pr_records pr)).

(** Both servers hold the same policy, loaded and with its facts. *)
Definition serving (pr : process) : Prop :=
  ∃ a c, pr_http pr = Some a ∧ pr_grpc pr = Some a ∧ pr_store pr !! a = Some c ∧ started c.

Lemma started_step c reg reg' :
  started c → c_registry c = Some reg → reg_step reg reg' → started (with_registry c reg').
Proof.
  intros (Hl & r & Hr & Hp & Ho) Hreg Hs. simplify_eq.
  destruct (reg_step_populated _ _ Hs Hp) as [Hp' Hd]. split; [by eapply loaded_with_registry|].
  exists reg'. split_and!; [done|done|by eapply reg_step_owned].
Qed.

Lemma serving_step f pr pr' : event_step f pr pr' → serving pr → serving pr'.
Proof.
  intros Hs (a & c & Hh & Hg & Hst & Hc). destruct Hs as [source file pr' Hr|b cb reg reg' Hb Hreg Hstep].
  - destruct (reload_cases getenv load_error_text facts_error_text version f pr source file)
      as (pr1 & E & Hcase). rewrite Hr in E. injection E as <-.
    assert (rejected pr pr' ∨ installed pr pr') as [Hrej|Hin] by (destruct (LoadFile file); auto).
    + destruct Hrej as (E1 & E2 & _ & l & E3 & _). exists a, c. rewrite E1, E2, E3.
      split_and!; try done. by apply lookup_app_l_Some.
    + destruct Hin as (c' & Hc' & E1 & E2 & E3). rewrite Hh in E3.
      exists (length (pr_store pr)), c'. rewrite E2, E1, E3. split_and!; try done. apply lookup_lt_Some in Hst.
      rewrite list_lookup_alter_ne by lia. by apply list_lookup_middle.
  - destruct (decide (a = b)) as [<-|Hne].
    + simplify_eq. exists a, (with_registry cb reg'). split_and!; try done.
      * cbn. rewrite list_lookup_insert_eq; [done|]. by eapply lookup_lt_Some.
      * by eapply started_step.
    + exists a, c. split_and!; try done. cbn. by rewrite list_lookup_insert_ne.
Qed.

(** From boot on, through any sequence of reloads, accepted or refused, and any
    refresh of facts in between, the two servers hold one and the same policy: it is
    loaded and every fact it declares has a value. *)
Theorem reloads_keep_serving (f : flags) (file : result string string) (st : log_state)
    (pr0 pr : process) :
  boot f file st = Ret (Some pr0) → rtc (event_step f) pr0 pr → serving pr.
Proof.
  intros Hb Hs. assert (serving pr0) as Hs0.
  { unfold Reload.boot in Hb. destruct (LoadFile file) as [c|] eqn:E; [|done].
    destruct (LoadFile_loaded getenv _ _ E) as [Hl Hu].
    destruct (Config_Start_ok c Hl Hu) as (c' & err & E' & _ & Hst). rewrite E' in Hb.
    cbn [mbind outcome_bind] in Hb. destruct err as [err|]; [done|]. injection Hb as <-.
    exists O, c'. split_and!; try done; [|by apply Hst].
    unfold logLoaded, add_config. cbn.
    by rewrite (proj1 (applyLogging_fields (mkProcess [] None None st []) (c_Logging c) f)). }
  clear Hb. induction Hs as [|p1 p2 p3 Hstep _ IH]; [done|]. apply IH. by eapply serving_step.
Qed.

(** ** Schedules *)

Fixpoint run_schedule (f : flags) (sched : list nat) (s : process * list thread) :
    option (process * list thread) :=
  match sched with
  | [] => Some s
  | i :: sched' =>
      match s.2 !! i with
      | Some TDone | None => None
      | Some t =>
          match thread_step f s.1 t with
          | Ret (pr', t') => run_schedule f sched' (pr', <[i := t']> s.2)
          | Panic => None
          end
      end
  end.

Lemma run_schedule_rtc f sched s s' :
  run_schedule f sched s = Some s' →
  rtc (main_step getenv load_error_text facts_error_text version f) s s'.
Proof.
  revert s. induction sched as [|i sched IH]; intros [pr ts]; cbn; [intros [= ->]; apply rtc_refl|].
  destruct (ts !! i) as [t|] eqn:Ei; [|done]. assert (t = TDone ∨ t ≠ TDone) as [->|Hnd] by (destruct t; auto); [done|].
  intros Hr. destruct (thread_step f pr t) as [[pr' t']|] eqn:Et.
  - eapply rtc_l; [by eapply main_step_at|]. apply IH. by destruct t.
  - by destruct t.
Qed.

End reload.

(** ** The sample process *)

Definition no_env (_ : string) : string := ε.
Definition no_load_text (_ : load_error) : string := "load error".
Definition no_facts_text (_ : facts_error) : string := "facts error".
Definition sample_flags : flags := mkFlags "policy.yaml" ε ε.
Definition quiet_log : log_state := mkLogState LevelInfo JSONHandler.

Definition booted : process :=
  match boot no_env "dev" sample_flags (Ok "sample") quiet_log with
  | Ret (Some pr) => pr
  | _ => mkProcess [] None None quiet_log []
  end.

Lemma boot_booted : boot no_env "dev" sample_flags (Ok "sample") quiet_log = Ret (Some booted).
Proof.
  unfold booted.
  destruct (boot no_env "dev" sample_flags (Ok "sample") quiet_log) as [[pr|]|] eqn:E; [done| |];
    exfalso; assert (match boot no_env "dev" sample_flags (Ok "sample") quiet_log with
      | Ret (Some _) => true | _ => false end = true) as Hb by (by vm_compute); by rewrite E in Hb.
Qed.

Lemma reload_atomic_witness :
  ∃ pr', reload no_env no_load_text no_facts_text "dev" sample_flags booted "sighup" (Err "gone") = Ret pr' ∧
    rejected booted pr'.
Proof.
  exact (reload_atomic no_env no_load_text no_facts_text "dev" sample_flags booted "sighup" (Err "gone")).
Defined.

Lemma reload_steps_refine_witness :
  thread_run no_env no_load_text no_facts_text "dev" 6 sample_flags booted (TLoad "sighup" (Ok "sample")) =
    (pr' ← reload no_env no_load_text no_facts_text "dev" sample_flags booted "sighup" (Ok "sample");
     Ret (pr', TDone)).
Proof.
  exact (reload_steps_refine no_env no_load_text no_facts_text "dev" sample_flags booted "sighup"
    (Ok "sample")).
Defined.

Lemma reloads_keep_serving_witness : serving booted.
Proof.
  apply (reloads_keep_serving no_env no_load_text no_facts_text "dev" sample_flags (Ok "sample")
    quiet_log booted booted boot_booted). apply rtc_refl.
Defined.

Definition two_reloads : process * list thread :=
  (booted, [TLoad "sighup" (Ok "sample"); TLoad "fsnotify" (Ok "sample")]).

(** The first reload swaps the HTTP server's policy, the second one runs, and the
    first goes on. *)
Definition crossing : list nat := [0; 0; 0; 1; 1; 1; 1; 1; 1; 0; 0; 0]%nat.

Definition crossed : process * list thread :=
  default two_reloads
    (run_schedule no_env no_load_text no_facts_text "dev" sample_flags crossing two_reloads).

(** Two reloads at the same time (SIGHUP and the file watcher are not mutually
    exclusive) can leave the servers on different policies for good, the gRPC
    server on one whose facts have been stopped. *)
Theorem concurrent_reloads_diverge :
  ∃ pr ts, rtc (main_step no_env no_load_text no_facts_text "dev" sample_flags) two_reloads (pr, ts) ∧
    ts = [TDone; TDone] ∧ pr_http pr = Some 2%nat ∧ pr_grpc pr = Some 1%nat ∧
    (∃ c reg, pr_store pr !! 1%nat = Some c ∧ c_registry c = Some reg ∧
       procs reg ≠ [] ∧ Forall (λ p, g_cancelled p = true) (procs reg)).
Proof.
  exists crossed.1, crossed.2. split.
  { rewrite <- surjective_pairing.
    apply (run_schedule_rtc no_env no_load_text no_facts_text "dev" sample_flags crossing).
    unfold crossed.
    destruct (run_schedule _ _ _ _ _ crossing two_reloads) as [s|] eqn:E; [done|]. exfalso.
    assert (is_some (run_schedule no_env no_load_text no_facts_text "dev" sample_flags crossing two_reloads) = true)
      as Hr by (by vm_compute). by rewrite E in Hr. }
  split; [by vm_compute|]. split; [by vm_compute|]. split; [by vm_compute|].
  destruct (pr_store crossed.1 !! 1%nat) as [c|] eqn:Ec.
  2: { exfalso. assert (is_some (pr_store crossed.1 !! 1%nat) = true) as Hr by (by vm_compute).
       by rewrite Ec in Hr. }
  assert (match pr_store crossed.1 !! 1%nat with
          | Some c => match c_registry c with Some reg => procs reg | None => [] end
          | None => [] end = [mkGoroutine "feed" true false]) as Hp by (by vm_compute).
  rewrite Ec in Hp. destruct (c_registry c) as [reg|] eqn:Er; [|done].
  exists c, reg. split_and!; [done|done|by rewrite Hp|rewrite Hp; by repeat constructor].
Qed.

(** A reload whose facts fail to start leaves the goroutines it had already
    launched running: the policy is refused and nothing holds it any more, yet its
    refresh loop is not cancelled. *)
Theorem failed_reload_leaks :
  ∃ pr', reload no_env no_load_text no_facts_text "dev" sample_flags booted "sighup" (Ok "leaky") = Ret pr' ∧
    pr_http pr' = pr_http booted ∧ pr_grpc pr' = pr_grpc booted ∧
    ∃ c reg p, last (pr_store pr') = Some c ∧ c_registry c = Some reg ∧
      procs reg = [p] ∧ g_cancelled p = false ∧ g_done p = false.
Proof.
  destruct (reload no_env no_load_text no_facts_text "dev" sample_flags booted "sighup" (Ok "leaky"))
    as [pr'|] eqn:E.
  2: { exfalso. destruct (reload_cases no_env no_load_text no_facts_text "dev" sample_flags booted "sighup"
         (Ok "leaky")) as (pr' & E' & _). by rewrite E in E'. }
  exists pr'. split; [done|].
  assert (match reload no_env no_load_text no_facts_text "dev" sample_flags booted "sighup" (Ok "leaky") with
          | Ret pr' => (pr_http pr', pr_grpc pr',
              match last (pr_store pr') with
              | Some c => match c_registry c with Some reg => procs reg | None => [] end
              | None => [] end)
          | Panic => (None, None, []) end =
          (pr_http booted, pr_grpc booted, [mkGoroutine "feed" false false])) as Hv by (by vm_compute).
  rewrite E in Hv. split; [exact (f_equal (λ t, t.1.1) Hv)|].
  split; [exact (f_equal (λ t, t.1.2) Hv)|]. apply (f_equal snd) in Hv. cbn [snd] in Hv.
  destruct (last (pr_store pr')) as [c|]; [|discriminate Hv].
  destruct (c_registry c) as [reg|] eqn:Er; [|discriminate Hv].
  exists c, reg, (mkGoroutine "feed" false false).
  split; [reflexivity|]. split; [exact Er|]. split; [exact Hv|]. split; reflexivity.
Qed.
