(* ===== verification/GoNet.v ===== *)
(** * Go's package net: addresses and prefixes

    What internal/celenv/net.go uses of [net] and [net/netip]: [netip.ParseAddr],
    [net.ParseIP], [net.ParseCIDR], [IPNet.Contains] and the predicates on
    addresses.  A [net.IP] is the list of its bytes.  The lemmas reduce the byte
    masks to arithmetic on the number an address denotes. *)

From S2P Require Import Prelude GoStrings GoHttp.
Local Open Scope Z_scope.

Abbreviation IP := (list Z).
Abbreviation IPMask := (list Z).

Definition is_byte (b : Z) : Prop := 0 ≤ b < 256.

(** ** netip.ParseAddr *)

(** One field of a dotted address: digits without a leading zero, at most 255. *)
Definition parse_octet (s : string) : option Z :=
  match s with
  | ε => None
  | String c s' =>
      if Ascii.eqb c "0" && negb (String.eqb s' ε) then None
      else match digits_val 0 s with
           | Some v => if 255 <? v then None else Some v
           | None => None
           end
  end.

(** [parseIPv4Fields]. *)
Definition parseIPv4Fields (s : string) : option IP :=
  match Split s "." with
  | [a; b; c; d] =>
      a ← parse_octet a; b ← parse_octet b; c ← parse_octet c; d ← parse_octet d;
      Some [a; b; c; d]
  | _ => None
  end.

(** The hexadecimal digits a group starts with: their number, their value, the
    rest. *)
Fixpoint hex_group (s : string) (off acc : Z) : Z * Z * string :=
  match s with
  | ε => (off, acc, ε)
  | String c s' =>
      match hex_val c with
      | Some v => hex_group s' (off + 1) (acc * 16 + v)
      | None => (off, acc, s)
      end
  end.

(** The loop of [parseIPv6]: [ip] is the part filled in so far ([i] is its
    length).  It ends with the bytes, the position of the ellipsis and the text
    left over; [None] is an error. *)
Fixpoint parse6_loop (fuel : nat) (s : string) (ip : IP) (ellipsis : option nat) :
    option (IP * option nat * string) :=
  match fuel with
  | O => None
  | S fuel' =>
      let i := length ip in
      if negb (i <? 16)%nat then Some (ip, ellipsis, s)
      else
        let '(off, acc, rest) := hex_group s 0 0 in
        if (4 <? off) || (off =? 0) then None
        else if HasPrefix rest "." then
          if negb (bool_decide (is_Some ellipsis)) && negb (i =? 12)%nat then None
          else if (16 <? i + 4)%nat then None
          else v4 ← parseIPv4Fields s; Some (ip ++ v4, ellipsis, ε)
        else
          let ip := ip ++ [Z.shiftr acc 8; Z.land acc 255] in
          match rest with
          | ε => Some (ip, ellipsis, ε)
          | String c ε => None
          | String c (String c' s') =>
              if negb (Ascii.eqb c ":") then None
              else if Ascii.eqb c' ":" then
                match ellipsis with
                | Some _ => None
                | None =>
                    if String.eqb s' ε then Some (ip, Some (length ip), ε)
                    else parse6_loop fuel' s' ip (Some (length ip))
                end
              else parse6_loop fuel' (String c' s') ip ellipsis
          end
  end.

(** The bytes of [parseIPv6], past the zone. *)
Definition parse6 (s : string) : option IP :=
  let start := if HasPrefix s "::" then (str_drop 2 s, Some O) else (s, None) in
  if HasPrefix s "::" && String.eqb start.1 ε then Some (repeat 0 16)
  else
    match parse6_loop 9 start.1 [] start.2 with
    | Some (ip, ellipsis, ε) =>
        let i := length ip in
        if (i <? 16)%nat then
          match ellipsis with
          | None => None
          | Some e => Some (take e ip ++ repeat 0 (16 - i) ++ drop e ip)
          end
        else match ellipsis with Some _ => None | None => Some ip end
    | _ => None
    end.

(** A parsed address: its bytes, 4 or 16, and its zone. *)
Record Addr := mkAddr { ad_bytes : IP; ad_zone : string }.

(** [parseIPv6]. *)
Definition parseIPv6 (in_ : string) : option Addr :=
  match IndexByte in_ "%" with
  | None => ip ← parse6 in_; Some (mkAddr ip ε)
  | Some i =>
      let zone := str_drop (S i) in_ in
      if String.eqb zone ε then None
      else ip ← parse6 (str_take i in_); Some (mkAddr ip zone)
  end.

(** [netip.ParseAddr]: the first of the bytes [.], [:] and [%] decides. *)
Fixpoint ParseAddr_scan (in_ s : string) : option Addr :=
  match s with
  | ε => None
  | String c s' =>
      if Ascii.eqb c "." then ip ← parseIPv4Fields in_; Some (mkAddr ip ε)
      else if Ascii.eqb c ":" then parseIPv6 in_
      else if Ascii.eqb c "%" then None
      else ParseAddr_scan in_ s'
  end.

Definition ParseAddr (s : string) : option Addr := ParseAddr_scan s s.

Definition BitLen (a : Addr) : Z := 8 * Z.of_nat (length (ad_bytes a)).

Definition v4InV6Prefix : IP := repeat 0 10 ++ [255; 255].

Definition As16 (a : Addr) : IP :=
  if (length (ad_bytes a) =? 4)%nat then v4InV6Prefix ++ ad_bytes a else ad_bytes a.

(** ** net.IP *)

(** [net.ParseIP]: 16 bytes. *)
Definition ParseIP (s : string) : option IP :=
  match ParseAddr s with
  | Some a => if negb (String.eqb (ad_zone a) ε) then None else Some (As16 a)
  | None => None
  end.

(** [IP.To4]. *)
Definition To4 (ip : IP) : option IP :=
  if (length ip =? 4)%nat then Some ip
  else if (length ip =? 16)%nat && bool_decide (take 12 ip = v4InV6Prefix) then Some (drop 12 ip)
  else None.

(** The bytes of [net.CIDRMask(ones, bits)], [n] of them left to write. *)
Fixpoint cidr_mask (n : nat) (ones : Z) : IPMask :=
  match n with
  | O => []
  | S n' =>
      if 8 <=? ones then 255 :: cidr_mask n' (ones - 8)
      else (255 - Z.shiftr 255 ones) :: cidr_mask n' 0
  end.

Definition mask_bytes (ip : IP) (m : IPMask) : IP := zip_with Z.land ip m.

(** [IP.Mask]: an address in the mapped form is cut to a mask of four bytes. *)
Definition IP_Mask (ip : IP) (m : IPMask) : option IP :=
  let m := if (length m =? 16)%nat && (length ip =? 4)%nat && forallb (Z.eqb 255) (take 12 m)
           then drop 12 m else m in
  let ip := if (length m =? 4)%nat && (length ip =? 16)%nat && bool_decide (take 12 ip = v4InV6Prefix)
            then drop 12 ip else ip in
  if negb (length ip =? length m)%nat then None else Some (mask_bytes ip m).

(** [net.IPNet]; the address is nil when [IP_Mask] fails. *)
Record IPNet := mkIPNet { n_IP : option IP; n_Mask : IPMask }.

(** [dtoi]: the value and the length of the leading digits; [None] without any or
    when the value reaches [0xFFFFFF]. *)
Fixpoint dtoi_loop (s : string) (n i : Z) : option (Z * Z) :=
  match s with
  | ε => Some (n, i)
  | String c s' =>
      if is_digit c then
        let n := n * 10 + (byteZ c - 48) in
        if 16777215 <=? n then None else dtoi_loop s' n (i + 1)
      else Some (n, i)
  end.

Definition dtoi (s : string) : option (Z * Z) :=
  match dtoi_loop s 0 0 with
  | Some (n, i) => if i =? 0 then None else Some (n, i)
  | None => None
  end.

(** The network of [net.ParseCIDR]; [None] is an error. *)
Definition ParseCIDR (s : string) : option IPNet :=
  i ← IndexByte s "/";
  let addr := str_take i s in
  let mask := str_drop (S i) s in
  ipAddr ← ParseAddr addr;
  if negb (String.eqb (ad_zone ipAddr) ε) then None
  else
    '(n, i) ← dtoi mask;
    if negb (i =? len mask) || (n <? 0) || (BitLen ipAddr <? n) then None
    else
      let m := cidr_mask (length (ad_bytes ipAddr)) n in
      Some (mkIPNet (IP_Mask (As16 ipAddr) m) m).

(** [networkNumberAndMask]; nil slices are empty lists. *)
Definition networkNumberAndMask (n : IPNet) : IP * IPMask :=
  let ip := match n_IP n with
            | None => None
            | Some ip => match To4 ip with
                         | Some x => Some x
                         | None => if (length ip =? 16)%nat then Some ip else None
                         end
            end in
  match ip with
  | None => ([], [])
  | Some ip =>
      if (length (n_Mask n) =? 4)%nat then
        if (length ip =? 4)%nat then (ip, n_Mask n) else ([], [])
      else if (length (n_Mask n) =? 16)%nat then
        (ip, if (length ip =? 4)%nat then drop 12 (n_Mask n) else n_Mask n)
      else ([], [])
  end.

(** [IPNet.Contains]. *)
Definition Contains (n : IPNet) (ip : IP) : bool :=
  let '(nn, m) := networkNumberAndMask n in
  let ip := default ip (To4 ip) in
  if negb (length ip =? length nn)%nat then false
  else bool_decide (mask_bytes nn m = mask_bytes ip m).

(** The byte [i] of an address that has one. *)
Abbreviation byte_at ip i := (nth i ip 0) (only parsing).

(** [IP.IsPrivate]. *)
Definition IsPrivate (ip : IP) : bool :=
  match To4 ip with
  | Some ip4 =>
      (byte_at ip4 0 =? 10)
      || ((byte_at ip4 0 =? 172) && (Z.land (byte_at ip4 1) 240 =? 16))
      || ((byte_at ip4 0 =? 192) && (byte_at ip4 1 =? 168))
  | None => (length ip =? 16)%nat && (Z.land (byte_at ip 0) 254 =? 252)
  end.

(** [IP.IsLinkLocalUnicast]. *)
Definition IsLinkLocalUnicast (ip : IP) : bool :=
  match To4 ip with
  | Some ip4 => (byte_at ip4 0 =? 169) && (byte_at ip4 1 =? 254)
  | None => (length ip =? 16)%nat && (byte_at ip 0 =? 254) && (Z.land (byte_at ip 1) 192 =? 128)
  end.

(** [IP.IsLinkLocalMulticast]. *)
Definition IsLinkLocalMulticast (ip : IP) : bool :=
  match To4 ip with
  | Some ip4 => (byte_at ip4 0 =? 224) && (byte_at ip4 1 =? 0) && (byte_at ip4 2 =? 0)
  | None => (length ip =? 16)%nat && (byte_at ip 0 =? 255) && (Z.land (byte_at ip 1) 15 =? 2)
  end.

(** [IP.IsLoopback]. *)
Definition IsLoopback (ip : IP) : bool :=
  match To4 ip with
  | Some ip4 => byte_at ip4 0 =? 127
  | None => bool_decide (ip = repeat 0 15 ++ [1])
  end.

(** ** The number an address denotes *)

Fixpoint be (ip : IP) : Z :=
  match ip with
  | [] => 0
  | b :: ip' => b * 256 ^ Z.of_nat (length ip') + be ip'
  end.

(** The leading [n] bits of an address. *)
Definition prefix_bits (n : Z) (ip : IP) : Z := be ip / 2 ^ (8 * Z.of_nat (length ip) - n).

Lemma be_range ip : Forall is_byte ip → 0 ≤ be ip < 256 ^ Z.of_nat (length ip).
Proof.
  induction 1 as [|b ip Hb _ IH]; cbn -[Z.pow Z.of_nat]; [done|].
  unfold is_byte in Hb. rewrite Nat2Z.inj_succ, Z.pow_succ_r by lia. nia.
Qed.

(** A property of small numbers, by enumeration. *)
Lemma all_below (f : Z → bool) k x : forallb f (seqZ 0 k) = true → 0 ≤ x < k → f x = true.
Proof.
  rewrite forallb_forall. intros Hf Hx. apply Hf, list_elem_of_In, elem_of_seqZ. lia.
Qed.

(** A mask byte with [n] leading ones keeps the leading [n] bits. *)
Lemma mask_byte x n :
  is_byte x → 0 ≤ n < 8 → Z.land x (255 - Z.shiftr 255 n) = x / 2 ^ (8 - n) * 2 ^ (8 - n).
Proof.
  intros Hx Hn. apply Z.eqb_eq.
  refine (all_below (λ n, Z.land x (255 - Z.shiftr 255 n) =? x / 2 ^ (8 - n) * 2 ^ (8 - n)) 8 n _ Hn).
  refine (all_below (λ x, forallb
    (λ n, Z.land x (255 - Z.shiftr 255 n) =? x / 2 ^ (8 - n) * 2 ^ (8 - n)) (seqZ 0 8)) 256 x _ Hx).
  by vm_compute.
Qed.

Lemma land_255 x : is_byte x → Z.land x 255 = x.
Proof.
  intros Hx. change 255 with (Z.ones 8). rewrite Z.land_ones by lia. by apply Z.mod_small.
Qed.

Lemma length_cidr_mask k n : length (cidr_mask k n) = k.
Proof. revert n. induction k as [|k IH]; intros n; cbn; [done|]. case_match; cbn; by rewrite IH. Qed.

Lemma mask_zero ip : mask_bytes ip (cidr_mask (length ip) 0) = repeat 0 (length ip).
Proof. unfold mask_bytes. induction ip as [|b ip IH]; cbn; [done|]. by rewrite Z.land_0_r, IH. Qed.

(** Two addresses agree under a mask exactly when they agree on its bits. *)
Lemma mask_prefix a b n :
  length a = length b → Forall is_byte a → Forall is_byte b → 0 ≤ n ≤ 8 * Z.of_nat (length a) →
  mask_bytes a (cidr_mask (length a) n) = mask_bytes b (cidr_mask (length b) n) ↔
  prefix_bits n a = prefix_bits n b.
Proof.
  intros Hl Ha. revert b n Hl. induction Ha as [|x a Hx Ha IH]; intros [|y b] n Hl Hb Hn; [done..|].
  injection Hl as Hl. apply Forall_cons in Hb as [Hy Hb]. unfold prefix_bits in *.
  pose proof (be_range a Ha) as Ra. pose proof (be_range b Hb) as Rb. rewrite <- Hl in Rb.
  cbn [cidr_mask mask_bytes zip_with length be] in *. rewrite <- Hl.
  set (L := Z.of_nat (length a)) in *. rewrite Nat2Z.inj_succ in *. fold L in Hn |- *.
  assert (256 ^ L = 2 ^ (8 * L)) as EL by (rewrite Z.pow_mul_r by lia; done).
  rewrite EL in *. pose proof (Z.pow_pos_nonneg 2 (8 * L)) as HL.
  destruct (Z.leb_spec 8 n) as [H8|H8].
  - assert (8 * Z.succ L - n = 8 * L - (n - 8)) as -> by lia.
    set (k := 8 * L - (n - 8)). assert (8 * L = k + (n - 8)) as Ek by lia.
    pose proof (Z.pow_pos_nonneg 2 k) as Hk.
    rewrite Ek, Z.pow_add_r in * by lia. set (P := 2 ^ k) in *. set (Q := 2 ^ (n - 8)) in *.
    assert (0 < Q) by (subst Q; lia).
    rewrite !(Z.add_comm (_ * _)), !(Z.mul_comm P Q), !Z.mul_assoc, !Z.div_add by lia.
    rewrite !land_255 by done.
    specialize (IH b (n - 8) Hl Hb ltac:(lia)). fold L in IH. rewrite <- Hl in IH. fold L in IH.
    rewrite Ek in IH. replace (k + (n - 8) - (n - 8)) with k in IH by lia. fold P in IH.
    assert (0 ≤ be a / P < Q) by (split; [apply Z.div_pos; lia|apply Z.div_lt_upper_bound; nia]).
    assert (0 ≤ be b / P < Q) by (split; [apply Z.div_pos; lia|apply Z.div_lt_upper_bound; nia]).
    unfold is_byte in *. split.
    + intros [= -> E]. f_equal. by apply (proj1 IH).
    + intros E. assert (x = y) as -> by nia. f_equal. apply (proj2 IH). nia.
  - assert (8 * Z.succ L - n = 8 * L + (8 - n)) as -> by lia. rewrite Z.pow_add_r by lia.
    rewrite <- !Z.div_div by (try apply Z.pow_nonzero; lia).
    rewrite !(Z.add_comm (_ * _)), !Z.div_add, !(Z.div_small (be _)), !Z.add_0_l by lia.
    rewrite !mask_byte by (done || lia).
    fold (mask_bytes a (cidr_mask (length a) 0)). fold (mask_bytes b (cidr_mask (length a) 0)).
    rewrite mask_zero, Hl, mask_zero. pose proof (Z.pow_pos_nonneg 2 (8 - n)). split.
    + intros [= E]. nia.
    + by intros ->.
Qed.

(** ** Networks *)

Lemma length_mask ip m : length ip = length m → length (mask_bytes ip m) = length ip.
Proof. intros E. unfold mask_bytes. rewrite length_zip_with. lia. Qed.

Lemma mask_idem ip m : mask_bytes (mask_bytes ip m) m = mask_bytes ip m.
Proof.
  unfold mask_bytes. revert m. induction ip as [|b ip IH]; intros [|x m]; cbn; [done..|].
  by rewrite IH, <- Z.land_assoc, Z.land_diag.
Qed.

Lemma cidr_mask_lookup k n i :
  0 ≤ n → (i < k)%nat →
  cidr_mask k n !! i = Some (255 - Z.shiftr 255 (Z.min 8 (Z.max 0 (n - 8 * Z.of_nat i)))).
Proof.
  revert n i. induction k as [|k IH]; intros n i Hn Hi; [lia|]. cbn [cidr_mask].
  destruct (Z.leb_spec 8 n), i as [|i]; cbn [lookup list_lookup].
  - rewrite Z.mul_0_r, Z.sub_0_r, Z.max_r, Z.min_l by lia. done.
  - rewrite IH by lia. do 5 f_equal. lia.
  - rewrite Z.mul_0_r, Z.sub_0_r, Z.max_r, Z.min_r by lia. done.
  - rewrite IH by lia. do 3 f_equal. lia.
Qed.

Lemma cidr_mask_step k n : 8 ≤ n → cidr_mask (S k) n = 255 :: cidr_mask k (n - 8).
Proof. intros Hn. cbn [cidr_mask]. by rewrite (proj2 (Z.leb_le 8 n)). Qed.

(** A mask of at least 96 bits keeps twelve bytes. *)
Lemma cidr_mask_96 n : 96 ≤ n → cidr_mask 16 n = repeat 255 12 ++ cidr_mask 4 (n - 96).
Proof.
  intros Hn. cbn [repeat app]. do 12 (rewrite cidr_mask_step by lia; f_equal).
  replace (n - 96) with (n - 8 - 8 - 8 - 8 - 8 - 8 - 8 - 8 - 8 - 8 - 8 - 8) by lia. done.
Qed.

Lemma mask_255 ip k : Forall is_byte ip → (length ip ≤ k)%nat → mask_bytes ip (repeat 255 k) = ip.
Proof.
  intros Hb. revert k. induction Hb as [|b ip Hb _ IH]; intros [|k] Hk; cbn in *; [done|done|lia|].
  unfold mask_bytes. cbn. rewrite land_255 by done. f_equal. apply IH. lia.
Qed.

Lemma mask_96 ip n :
  length ip = 16%nat → Forall is_byte ip → 96 ≤ n →
  mask_bytes ip (cidr_mask 16 n) = take 12 ip ++ mask_bytes (drop 12 ip) (cidr_mask 4 (n - 96)).
Proof.
  intros Hl Hb Hn. rewrite cidr_mask_96 by done. rewrite <- (take_drop 12 ip) at 1.
  unfold mask_bytes. rewrite zip_with_app by (rewrite length_take, repeat_length; lia). f_equal.
  apply mask_255; [by apply Forall_take|]. rewrite length_take. lia.
Qed.

(** Masking keeps the mapped form only when all of its prefix is kept. *)
Lemma mask_mapped ip n :
  length ip = 16%nat → Forall is_byte ip → 0 ≤ n →
  take 12 (mask_bytes ip (cidr_mask 16 n)) = v4InV6Prefix ↔ 96 ≤ n ∧ take 12 ip = v4InV6Prefix.
Proof.
  intros Hl Hb Hn. destruct (Z.le_gt_cases 96 n) as [H96|H96].
  { rewrite mask_96 by done. rewrite take_app_length' by (rewrite length_take; lia). naive_solver. }
  split; [|lia]. intros E. exfalso.
  assert (mask_bytes ip (cidr_mask 16 n) !! 11%nat = Some 255) as E11.
  { rewrite <- (lookup_take_lt _ 12) by lia. by rewrite E. }
  unfold mask_bytes in E11. apply lookup_zip_with_Some in E11 as (x & y & E11 & _ & Hy).
  rewrite cidr_mask_lookup in Hy by lia. injection Hy as <-.
  set (k := Z.min 8 _) in E11. assert (0 ≤ k < 8) as Hk by lia.
  assert (Z.shiftr 255 k ≠ 0) as Hs.
  { assert (k = 0 ∨ k = 1 ∨ k = 2 ∨ k = 3 ∨ k = 4 ∨ k = 5 ∨ k = 6 ∨ k = 7) as Hc by lia.
    repeat destruct Hc as [->|Hc]; by try subst k; try rewrite Hc. }
  assert (0 ≤ Z.shiftr 255 k ≤ 255).
  { rewrite Z.shiftr_div_pow2 by lia. split; [apply Z.div_pos; lia|].
    apply Z.div_le_upper_bound; [lia|]. pose proof (Z.pow_pos_nonneg 2 k). nia. }
  set (M := 255 - Z.shiftr 255 k) in *.
  assert (Z.land M 255 = M) as E1 by (apply land_255; unfold is_byte; lia).
  assert (Z.land (Z.land x M) M = Z.land x M) as E2 by by rewrite <- Z.land_assoc, Z.land_diag.
  rewrite <- E11, Z.land_comm in E2. lia.
Qed.

Definition is_v4 (ip : IP) : bool := bool_decide (is_Some (To4 ip)).

Lemma To4_16 ip :
  length ip = 16%nat →
  To4 ip = if bool_decide (take 12 ip = v4InV6Prefix) then Some (drop 12 ip) else None.
Proof. intros Hl. unfold To4. by rewrite Hl. Qed.

Lemma To4_16_Some ip y :
  length ip = 16%nat → To4 ip = Some y → ip = v4InV6Prefix ++ y ∧ length y = 4%nat.
Proof.
  intros Hl. rewrite To4_16 by done. case_bool_decide as E; [|done]. intros [= <-].
  rewrite <- E, take_drop, length_drop, Hl. done.
Qed.

(** What [ParseAddr] returns: four or sixteen bytes. *)
Definition addr_wf (a : Addr) : Prop :=
  (length (ad_bytes a) = 4 ∨ length (ad_bytes a) = 16)%nat ∧ Forall is_byte (ad_bytes a).

(** The network [a/n], as [ParseCIDR] builds it. *)
Definition network (a : Addr) (n : Z) : IPNet :=
  let m := cidr_mask (length (ad_bytes a)) n in mkIPNet (IP_Mask (As16 a) m) m.

(** The length of the prefix in the 16-byte form. *)
Definition bits16 (a : Addr) (n : Z) : Z := n + (128 - BitLen a).

Lemma As16_wf a : addr_wf a → length (As16 a) = 16%nat ∧ Forall is_byte (As16 a).
Proof.
  intros [Hl Hb]. unfold As16. destruct Hl as [Hl|Hl]; rewrite Hl; cbn -[v4InV6Prefix]; [|done].
  split; [by rewrite length_app, Hl|]. apply Forall_app_2; [|done]. repeat constructor; lia.
Qed.

Lemma networkNumberAndMask_4 x m :
  length x = 4%nat → length m = 4%nat → networkNumberAndMask (mkIPNet (Some x) m) = (x, m).
Proof.
  intros Hx Hm. unfold networkNumberAndMask. cbn [n_IP n_Mask]. unfold To4. rewrite Hx. cbn.
  by rewrite Hm, Hx.
Qed.

Lemma networkNumberAndMask_16 x m :
  length x = 16%nat → length m = 16%nat →
  networkNumberAndMask (mkIPNet (Some x) m) =
    match To4 x with Some y => (y, drop 12 m) | None => (x, m) end.
Proof.
  intros Hx Hm. unfold networkNumberAndMask. cbn [n_IP n_Mask]. rewrite Hx, Hm.
  destruct (To4 x) as [y|] eqn:E; cbn; [|by rewrite Hx].
  apply To4_16_Some in E as [_ ->]; done.
Qed.

Lemma IP_Mask_4 y m :
  length y = 4%nat → length m = 4%nat → IP_Mask (v4InV6Prefix ++ y) m = Some (mask_bytes y m).
Proof.
  intros Hy Hm. destruct y as [|y0 [|y1 [|y2 [|y3 [|]]]]]; try done.
  unfold IP_Mask. rewrite Hm. cbn [Nat.eqb andb]. by rewrite Hm.
Qed.

Lemma IP_Mask_16 x m :
  length x = 16%nat → length m = 16%nat → IP_Mask x m = Some (mask_bytes x m).
Proof. intros Hx Hm. unfold IP_Mask. rewrite Hx, Hm. cbn [Nat.eqb andb]. rewrite Hm. cbn [Nat.eqb andb]. by rewrite Hx. Qed.

Lemma is_v4_16 ip : length ip = 16%nat → is_v4 ip = bool_decide (take 12 ip = v4InV6Prefix).
Proof.
  intros Hl. unfold is_v4. rewrite To4_16 by done.
  apply bool_decide_ext. case_bool_decide; by split.
Qed.

(** [Contains] against a network number of four bytes, and of sixteen. *)
Lemma compare_4 y m ip :
  length y = 4%nat → length m = 4%nat → length ip = 16%nat →
  (if negb (length (default ip (To4 ip)) =? length y)%nat then false
   else bool_decide (mask_bytes y m = mask_bytes (default ip (To4 ip)) m)) = true ↔
  is_v4 ip = true ∧ mask_bytes y m = mask_bytes (drop 12 ip) m.
Proof.
  intros Hy Hm Hl. rewrite is_v4_16, To4_16, Hy by done. destruct (bool_decide (take 12 ip = _)); cbn [from_option id].
  - rewrite length_drop, Hl. cbn [Nat.sub Nat.eqb negb]. rewrite bool_decide_eq_true. naive_solver.
  - rewrite Hl. cbn. naive_solver.
Qed.

Lemma compare_16 y m ip :
  length y = 16%nat → length m = 16%nat → length ip = 16%nat →
  (if negb (length (default ip (To4 ip)) =? length y)%nat then false
   else bool_decide (mask_bytes y m = mask_bytes (default ip (To4 ip)) m)) = true ↔
  is_v4 ip = false ∧ mask_bytes y m = mask_bytes ip m.
Proof.
  intros Hy Hm Hl. rewrite is_v4_16, To4_16, Hy by done. destruct (bool_decide (take 12 ip = _)); cbn [from_option id].
  - rewrite length_drop, Hl. cbn. naive_solver.
  - rewrite Hl. cbn [Nat.eqb negb]. rewrite bool_decide_eq_true. naive_solver.
Qed.

Lemma mask_eq_96 x ip n :
  length x = 16%nat → Forall is_byte x → length ip = 16%nat → Forall is_byte ip → 96 ≤ n →
  is_v4 x = true →
  mask_bytes x (cidr_mask 16 n) = mask_bytes ip (cidr_mask 16 n) ∧ is_v4 ip = true ↔
  is_v4 ip = true ∧
  mask_bytes (drop 12 x) (cidr_mask 4 (n - 96)) = mask_bytes (drop 12 ip) (cidr_mask 4 (n - 96)).
Proof.
  intros Hx Hxb Hl Hb Hn. rewrite !is_v4_16, !mask_96 by done. intros Ev%bool_decide_eq_true.
  rewrite Ev, bool_decide_eq_true. split; intros [H1 H2]; split; try done.
  - rewrite H2 in H1. by apply app_inv_head in H1.
  - by rewrite H1, H2.
Qed.

(** [Contains] on the 16-byte forms: the masked addresses agree, and only a prefix
    that covers the whole of the mapping prefix makes an IPv4 network. *)
Lemma Contains_mask a n ip :
  addr_wf a → 0 ≤ n ≤ BitLen a → length ip = 16%nat → Forall is_byte ip →
  Contains (network a n) ip = true ↔
  mask_bytes (As16 a) (cidr_mask 16 (bits16 a n)) = mask_bytes ip (cidr_mask 16 (bits16 a n)) ∧
  is_v4 ip = is_v4 (As16 a) && (96 <=? bits16 a n).
Proof.
  intros Hw Hn Hl Hb. pose proof (As16_wf a Hw) as [HA HAb].
  unfold bits16, network, BitLen, Contains in *. destruct Hw as [[H4|H16] Hab].
  - unfold As16 in *. rewrite H4 in *. cbn [Nat.eqb] in *.
    replace (n + (128 - 8 * Z.of_nat 4)) with (n + 96) by lia. rewrite (proj2 (Z.leb_le 96 _)) by lia.
    pose proof (length_cidr_mask 4 n) as Hm.
    rewrite IP_Mask_4, networkNumberAndMask_4 by (try done; by rewrite length_mask; lia).
    rewrite compare_4, mask_idem by (try done; rewrite length_mask; lia).
    assert (is_v4 (v4InV6Prefix ++ ad_bytes a) = true) as Ev.
    { rewrite is_v4_16, take_app_length' by done. by apply bool_decide_true. }
    rewrite Ev. cbn [andb]. rewrite mask_eq_96 by (done || lia).
    rewrite drop_app_length' by done. by replace (n + 96 - 96) with n by lia.
  - unfold As16 in *. rewrite H16 in *. cbn [Nat.eqb] in *. set (x := ad_bytes a) in *.
    replace (n + (128 - 8 * Z.of_nat 16)) with n by lia.
    pose proof (length_cidr_mask 16 n) as Hm.
    assert (length (mask_bytes x (cidr_mask 16 n)) = 16%nat) as Hxm by (rewrite length_mask; lia).
    rewrite IP_Mask_16, networkNumberAndMask_16, To4_16 by done.
    pose proof (mask_mapped x n H16 Hab ltac:(lia)) as Hmx.
    case_bool_decide as Ex.
    + apply Hmx in Ex as [H96 Ep]. rewrite (proj2 (Z.leb_le 96 n)) by done.
      assert (is_v4 x = true) as Ev by (rewrite is_v4_16 by done; by apply bool_decide_true).
      rewrite Ev. cbn [andb].
      rewrite (mask_eq_96 x ip n H16 Hab Hl Hb H96 Ev), (mask_96 x n H16 Hab H96), (cidr_mask_96 n H96).
      rewrite !drop_app_length' by (rewrite ?length_take, ?repeat_length; lia).
      pose proof (length_cidr_mask 4 (n - 96)).
      assert (length (drop 12 x) = 4%nat) by (rewrite length_drop; lia).
      rewrite compare_4, mask_idem by (rewrite ?length_mask; lia). done.
    + rewrite compare_16, mask_idem by done.
      assert (is_v4 x && (96 <=? n) = false) as ->; [|apply and_comm].
      rewrite is_v4_16 by done. apply andb_false_iff. destruct (Z.leb_spec 96 n); [left|by right].
      apply bool_decide_false. intros Ep. by apply Ex, Hmx.
Qed.

(** The same on numbers. *)
Lemma Contains_prefix a n ip :
  addr_wf a → 0 ≤ n ≤ BitLen a → length ip = 16%nat → Forall is_byte ip →
  Contains (network a n) ip = true ↔
  prefix_bits (bits16 a n) (As16 a) = prefix_bits (bits16 a n) ip ∧
  is_v4 ip = is_v4 (As16 a) && (96 <=? bits16 a n).
Proof.
  intros Hw Hn Hl Hb. rewrite Contains_mask by done. pose proof (As16_wf a Hw) as [HA HAb].
  rewrite <- mask_prefix by (try done; try congruence; unfold bits16, BitLen in *;
    destruct Hw as [[E|E] _]; rewrite E in *; lia).
  by rewrite HA, Hl.
Qed.

(** ** What the parsers accept *)

Lemma HasPrefix_cut s pre : HasPrefix s pre = true → s = pre +:+ str_drop (String.length pre) s.
Proof.
  unfold HasPrefix. revert s. induction pre as [|c pre IH]; intros s Hp; [by destruct s|].
  destruct s as [|d s]; [done|]. cbn in Hp |- *. destruct (ascii_dec c d) as [->|]; [|done].
  f_equal. by apply IH.
Qed.

Lemma digits_val_digits s acc v :
  digits_val acc s = Some v → 0 ≤ acc → 0 ≤ v ∧ str_forall is_digit s = true.
Proof.
  revert acc. induction s as [|c s IH]; intros acc; cbn; [intros [= <-]; done|].
  destruct (is_digit c) eqn:Ec; [|done]. intros Hv Ha. cbn. apply (IH _ Hv).
  unfold is_digit, in_range in Ec. bool_simpl. lia.
Qed.

Lemma parse_octet_spec s v : parse_octet s = Some v → is_byte v ∧ str_forall is_digit s = true.
Proof.
  unfold parse_octet. destruct s as [|c s]; [done|]. case_match; [done|].
  destruct (digits_val 0 (String c s)) as [w|] eqn:E; [|done].
  apply digits_val_digits in E as [Hw Hd]; [|done]. destruct (Z.ltb_spec 255 w); [done|].
  intros [= <-]. split; [unfold is_byte; lia|done].
Qed.

(** The bytes of a dotted address. *)
Definition v4_char (c : ascii) : bool := is_digit c || Ascii.eqb c ".".

Lemma str_forall_weaken (p q : ascii → bool) s :
  (∀ c, p c = true → q c = true) → str_forall p s = true → str_forall q s = true.
Proof.
  intros Hpq. induction s as [|c s IH]; cbn; [done|].
  intros [Hp Hs]%andb_true_iff. by rewrite (Hpq _ Hp), IH.
Qed.

Lemma parseIPv4Fields_spec s ip :
  parseIPv4Fields s = Some ip →
  length ip = 4%nat ∧ Forall is_byte ip ∧ str_forall v4_char s = true.
Proof.
  unfold parseIPv4Fields. pose proof (Join_Split s ".") as Hj.
  destruct (Split s ".") as [|a [|b [|c [|d [|]]]]]; try done. rewrite <- Hj.
  destruct (parse_octet a) as [va|] eqn:Ea; [|done]. destruct (parse_octet b) as [vb|] eqn:Eb; [|done].
  destruct (parse_octet c) as [vc|] eqn:Ec; [|done]. destruct (parse_octet d) as [vd|] eqn:Ed; [|done].
  intros [= <-].
  apply parse_octet_spec in Ea as [? Ea], Eb as [? Eb], Ec as [? Ec], Ed as [? Ed].
  assert (∀ s, str_forall is_digit s = true → str_forall v4_char s = true) as Hw.
  { intros s'. apply str_forall_weaken. unfold v4_char. by intros ? ->. }
  split_and!; [done|by repeat (apply Forall_cons_2; [done|])|].
  cbn [Join]. by rewrite !str_forall_append, (Hw a), (Hw b), (Hw c), (Hw d) by done.
Qed.

Lemma hex_group_spec s off acc off' acc' r :
  hex_group s off acc = (off', acc', r) → 0 ≤ off → 0 ≤ acc < 16 ^ off →
  0 ≤ off' ∧ 0 ≤ acc' < 16 ^ off' ∧
  str_forall (λ c, negb (Ascii.eqb c "/")) s = str_forall (λ c, negb (Ascii.eqb c "/")) r.
Proof.
  revert off acc. induction s as [|c s IH]; intros off acc; cbn; [by intros [= <- <- <-]|].
  destruct (hex_val c) as [v|] eqn:E; [|by intros [= <- <- <-]].
  intros Hg Ho Ha. assert (0 ≤ v < 16 ∧ negb (Ascii.eqb c "/") = true) as [Hv ->].
  { unfold hex_val, in_range in E. split.
    - repeat go_case_in E; simplify_eq; bool_simpl; lia.
    - destruct (Ascii.eqb_spec c "/") as [->|]; [by vm_compute in E|done]. }
  cbn [andb]. apply (IH _ _ Hg); [lia|]. rewrite Z.pow_add_r by lia. lia.
Qed.

Abbreviation no_slash := (str_forall (λ c, negb (Ascii.eqb c "/"))) (only parsing).

Lemma v4_no_slash s : str_forall v4_char s = true → no_slash s = true.
Proof.
  apply str_forall_weaken. intros c Hc. destruct (Ascii.eqb_spec c "/") as [->|]; [|done].
  by vm_compute in Hc.
Qed.

(** The state of the IPv6 loop: the bytes come in pairs, the ellipsis is inside. *)
Definition parse6_inv (ip : IP) (e : option nat) : Prop :=
  Forall is_byte ip ∧ Nat.Even (length ip) ∧ (length ip ≤ 16)%nat ∧
  (∀ k, e = Some k → (k ≤ length ip)%nat).

Lemma parse6_inv_v4 ip e v4 :
  parse6_inv ip e → length v4 = 4%nat → Forall is_byte v4 → (length ip + 4 ≤ 16)%nat →
  parse6_inv (ip ++ v4) e.
Proof.
  intros (Hb & [k Hk] & Hl & He) Hv Hvb Hi. unfold parse6_inv. rewrite length_app, Hv.
  split_and!; [by apply Forall_app_2|exists (k + 2)%nat; lia|lia|].
  intros j ->. specialize (He j eq_refl). lia.
Qed.

Lemma parse6_inv_group ip e acc :
  parse6_inv ip e → (length ip < 16)%nat → 0 ≤ acc < 65536 →
  parse6_inv (ip ++ [Z.shiftr acc 8; Z.land acc 255]) e.
Proof.
  intros (Hb & [k Hk] & Hl & He) Hi Ha. unfold parse6_inv. rewrite length_app. cbn [length].
  split_and!; [|exists (k + 1)%nat; lia|lia|intros j ->; specialize (He j eq_refl); lia].
  apply Forall_app_2; [done|]. repeat apply Forall_cons_2; [| |constructor]; unfold is_byte.
  - rewrite Z.shiftr_div_pow2 by lia. split; [apply Z.div_pos; lia|apply Z.div_lt_upper_bound; lia].
  - change 255 with (Z.ones 8). rewrite Z.land_ones by lia. apply Z.mod_pos_bound. lia.
Qed.

Lemma parse6_inv_ellipsis ip e : parse6_inv ip e → parse6_inv ip (Some (length ip)).
Proof. intros (? & ? & ? & _). split_and!; try done. intros k [= <-]. lia. Qed.

Lemma parse6_loop_spec fuel s ip e ip' e' s' :
  parse6_loop fuel s ip e = Some (ip', e', s') → parse6_inv ip e →
  parse6_inv ip' e' ∧ no_slash s = no_slash s'.
Proof.
  revert s ip e. induction fuel as [|fuel IH]; intros s ip e; [done|]. cbn [parse6_loop].
  destruct (length ip <? 16)%nat eqn:Ei; cbn [negb]; [|intros [= <- <- <-]; done].
  apply Nat.ltb_lt in Ei. destruct (hex_group s 0 0) as [[off acc] rest] eqn:Eg.
  apply hex_group_spec in Eg as (Ho & Ha & Hs); [|lia|cbn; lia].
  destruct ((4 <? off) || (off =? 0)) eqn:Eo; [done|]. bool_simpl.
  assert (16 ^ off ≤ 16 ^ 4) as Hp by (apply Z.pow_le_mono_r; lia). change (16 ^ 4) with 65536 in Hp.
  destruct (HasPrefix rest ".").
  { destruct (_ && _); [done|]. destruct (16 <? length ip + 4)%nat eqn:E16; [done|].
    apply Nat.ltb_ge in E16. destruct (parseIPv4Fields s) as [v4|] eqn:E4; [|done].
    apply parseIPv4Fields_spec in E4 as (Hl & Hb & Hc). intros [= <- <- <-] Hi.
    split; [by apply parse6_inv_v4|]. by apply v4_no_slash. }
  intros Hr Hi. pose proof (parse6_inv_group ip e acc Hi Ei ltac:(lia)) as Hi'. revert Hr.
  set (ip2 := ip ++ _) in *. rewrite Hs. destruct rest as [|c [|c' rest]]; [by intros [= <- <- <-]|done|].
  destruct (Ascii.eqb_spec c ":") as [->|]; cbn [negb]; [|done].
  destruct (Ascii.eqb_spec c' ":") as [->|].
  - destruct e; [done|]. destruct (String.eqb_spec rest ε) as [->|].
    + intros [= <- <- <-]. split; [by eapply parse6_inv_ellipsis|done].
    + intros Hr. apply IH in Hr as [? Hr]; [|by eapply parse6_inv_ellipsis].
      split; [done|]. rewrite <- Hr. done.
  - intros Hr. apply IH in Hr as [? Hr]; [|done]. split; [done|]. by rewrite <- Hr.
Qed.

Lemma parse6_spec s ip :
  parse6 s = Some ip → length ip = 16%nat ∧ Forall is_byte ip ∧ no_slash s = true.
Proof.
  unfold parse6. set (start := if HasPrefix s "::" then _ else _).
  assert (no_slash s = no_slash start.1) as Hs.
  { unfold start. destruct (HasPrefix s "::") eqn:E; [|done].
    by rewrite (HasPrefix_cut s "::" E) at 1. }
  destruct (HasPrefix s "::" && _) eqn:E0.
  { apply andb_true_iff in E0 as [_ E0%String.eqb_eq]. rewrite Hs, E0. intros [= <-].
    split; [done|]. split; [|done]. by repeat apply Forall_cons_2; try constructor. }
  destruct (parse6_loop 9 start.1 [] start.2) as [[[ip' e'] [|]]|] eqn:El; try done.
  assert (parse6_inv [] start.2) as H0.
  { split_and!; [constructor|by exists O|cbn; lia|]. unfold start. destruct (HasPrefix s "::"); cbn; naive_solver. }
  apply parse6_loop_spec in El as [(Hb & _ & Hl & He) Hn]; [|done]. rewrite Hs, Hn.
  destruct (length ip' <? 16)%nat eqn:Ei.
  - destruct e' as [e|]; [|done]. intros [= <-]. specialize (He e eq_refl).
    rewrite !length_app, length_take, repeat_length, length_drop. split; [lia|]. split; [|done].
    apply Forall_app_2; [by apply Forall_take|]. apply Forall_app_2; [|by apply Forall_drop].
    apply Forall_forall. intros x Hx. apply list_elem_of_In, repeat_spec in Hx as ->. unfold is_byte. lia.
  - apply Nat.ltb_ge in Ei. destruct e'; [done|]. intros [= <-]. split; [lia|done].
Qed.

(** The fuel of the IPv6 loop is enough: more of it changes nothing. *)
Lemma parse6_loop_fuel fuel s ip e :
  (length ip ≤ 17)%nat → (18 ≤ length ip + 2 * fuel)%nat →
  parse6_loop (S fuel) s ip e = parse6_loop fuel s ip e.
Proof.
  revert s ip e. induction fuel as [|fuel IH]; intros s ip e Hl Hf; [lia|].
  remember (S fuel) as fuel' eqn:Ef. rewrite Ef at 2. cbn [parse6_loop].
  destruct (length ip <? 16)%nat eqn:Ei; cbn [negb]; [|done]. apply Nat.ltb_lt in Ei.
  destruct (hex_group s 0 0) as [[off acc] rest]. destruct ((4 <? off) || (off =? 0)); [done|].
  destruct (HasPrefix rest "."); [done|]. destruct rest as [|c [|c' rest]]; [done|done|].
  assert (∀ s' e', parse6_loop fuel' s' (ip ++ [Z.shiftr acc 8; Z.land acc 255]) e' =
    parse6_loop fuel s' (ip ++ [Z.shiftr acc 8; Z.land acc 255]) e') as Hrec.
  { intros s' e'. subst fuel'. apply IH; rewrite length_app; cbn; lia. }
  by rewrite !Hrec.
Qed.

Lemma ParseAddr_scan_cases in_ s a :
  ParseAddr_scan in_ s = Some a →
  (parseIPv4Fields in_ = Some (ad_bytes a) ∧ ad_zone a = ε) ∨
  (ContainsByte s ":" = true ∧ parseIPv6 in_ = Some a).
Proof.
  induction s as [|c s IH]; [done|]. cbn [ParseAddr_scan]. unfold ContainsByte in *. cbn [IndexByte].
  destruct (Ascii.eqb c ".") eqn:Ed.
  { destruct (parseIPv4Fields in_); [|done]. intros [= <-]. by left. }
  destruct (Ascii.eqb c ":"); [by right|]. destruct (Ascii.eqb c "%"); [done|].
  intros [?|[Hc ?]]%IH; [by left|right]. split; [|done]. by destruct (IndexByte s ":").
Qed.

Lemma no_byte p s c : str_forall p s = true → p c = false → ContainsByte s c = false.
Proof.
  intros Hs Hc. unfold ContainsByte. induction s as [|d s IH]; [done|].
  cbn in Hs |- *. apply andb_true_iff in Hs as [Hd Hs].
  destruct (Ascii.eqb_spec d c) as [->|]; [congruence|]. specialize (IH Hs).
  by destruct (IndexByte s c).
Qed.

(** An address without a zone: its bytes, and what its text tells. *)
Lemma ParseAddr_spec s a :
  ParseAddr s = Some a → ad_zone a = ε →
  addr_wf a ∧ ContainsByte s "/" = false ∧
  ContainsByte s ":" = (length (ad_bytes a) =? 16)%nat.
Proof.
  intros [[H4 _]|[Hc H6]]%ParseAddr_scan_cases Hz.
  - apply parseIPv4Fields_spec in H4 as (Hl & Hb & Hs).
    split; [split; [by left|done]|]. rewrite Hl. by split; eapply no_byte.
  - unfold parseIPv6 in H6. destruct (IndexByte s "%") as [i|].
    { destruct (String.eqb_spec (str_drop (S i) s) ε); [done|].
      destruct (parse6 _); [|done]. by injection H6 as <-. }
    destruct (parse6 s) as [ip|] eqn:E; [|done]. injection H6 as <-.
    apply parse6_spec in E as (Hl & Hb & Hs). cbn [ad_bytes]. rewrite Hl.
    split; [split; [by right|done]|]. split; [|done]. by eapply no_byte.
Qed.

Lemma ParseIP_spec s ip : ParseIP s = Some ip → length ip = 16%nat ∧ Forall is_byte ip.
Proof.
  unfold ParseIP. destruct (ParseAddr s) as [a|] eqn:E; [|done].
  destruct (String.eqb_spec (ad_zone a) ε) as [Hz|]; [|done]. intros [= <-].
  apply As16_wf. by eapply ParseAddr_spec.
Qed.

Lemma dtoi_Itoa n : 0 ≤ n ≤ 128 → dtoi (Itoa n) = Some (n, len (Itoa n)).
Proof.
  intros Hn. apply (bool_decide_eq_true_1 (dtoi (Itoa n) = Some (n, len (Itoa n)))).
  refine (all_below (λ n, bool_decide (dtoi (Itoa n) = Some (n, len (Itoa n)))) 129 n _ ltac:(lia)).
  by vm_compute.
Qed.

Lemma ParseCIDR_text addr a n :
  ParseAddr addr = Some a → ad_zone a = ε → 0 ≤ n ≤ BitLen a →
  ParseCIDR (addr +:+ "/" +:+ Itoa n) = Some (network a n).
Proof.
  intros Ha Hz Hn. destruct (ParseAddr_spec _ _ Ha Hz) as ([Hw _] & Hs & _).
  assert (0 ≤ n ≤ 128) as Hn' by (unfold BitLen in Hn; destruct Hw as [E|E]; rewrite E in Hn; lia).
  unfold ContainsByte in Hs. unfold ParseCIDR. rewrite IndexByte_append.
  destruct (IndexByte addr "/"); [done|]. cbn [IndexByte append Ascii.eqb Bool.eqb fmap option_fmap option_map mbind option_bind].
  rewrite Nat.add_0_r. change ("/" +:+ Itoa n) with (String "/" (Itoa n)).
  assert (str_take (String.length addr) (addr +:+ String "/" (Itoa n)) = addr) as ->.
  { by rewrite str_take_append. }
  assert (str_drop (S (String.length addr)) (addr +:+ String "/" (Itoa n)) = Itoa n) as ->.
  { clear. induction addr as [|c addr IH]; [done|]. cbn. apply IH. }
  rewrite Ha. cbn [mbind option_bind]. rewrite Hz, dtoi_Itoa by done. cbn [String.eqb negb mbind option_bind].
  rewrite Z.eqb_refl, (proj2 (Z.ltb_ge n 0)), (proj2 (Z.ltb_ge (BitLen a) n)) by lia. done.
Qed.
