(* ===== verification/Net.v ===== *)
(** * internal/celenv/net.go: the address functions of the expressions

    [cidrContains], [stringOf] and the bindings of [inCIDR], [ipFamily],
    [isPrivateIP] and [isLoopbackIP], on the values CEL hands to them. *)

From Stdlib Require Import Btauto.
From S2P Require Import Prelude GoStrings GoHttp GoValues CelEnv GoNet.
Local Open Scope Z_scope.

(** [stringOf]. *)
Definition stringOf (v : refval) : string :=
  match Value v with GString s => s | _ => ε end.

(** [cidrContains]. *)
Definition cidrContains (s : string) (ip : IP) : bool :=
  let s := if negb (ContainsByte s "/") then
             if ContainsByte s ":" then s +:+ "/128" else s +:+ "/32"
           else s in
  match ParseCIDR s with
  | None => false
  | Some n => Contains n ip
  end.

(** The element test of the two loops of [inCIDR]. *)
Definition cidr_hit (ip : IP) (v : gval) : bool :=
  match v with GString s => cidrContains s ip | _ => false end.

(** The binding of [inCIDR]. *)
Definition inCIDR (ipv cidrsv : refval) : bool :=
  match ParseIP (stringOf ipv) with
  | None => false
  | Some ip =>
      match Value cidrsv with
      | GRefList raws => existsb (cidr_hit ip) raws
      | GList anys => existsb (cidr_hit ip) anys
      | _ => false
      end
  end.

(** The binding of [ipFamily]. *)
Definition ipFamily (v : refval) : string :=
  match ParseIP (stringOf v) with
  | None => ε
  | Some ip => match To4 ip with Some _ => "ipv4" | None => "ipv6" end
  end.

(** The binding of [isPrivateIP]. *)
Definition isPrivateIP (v : refval) : bool :=
  match ParseIP (stringOf v) with
  | None => false
  | Some ip => IsPrivate ip || IsLinkLocalUnicast ip || IsLinkLocalMulticast ip
  end.

(** The binding of [isLoopbackIP]. *)
Definition isLoopbackIP (v : refval) : bool :=
  match ParseIP (stringOf v) with
  | None => false
  | Some ip => IsLoopback ip
  end.

(** ** Theorems *)

Lemma cidrContains_text addr a n ip :
  ParseAddr addr = Some a → ad_zone a = ε → 0 ≤ n ≤ BitLen a →
  cidrContains (addr +:+ "/" +:+ Itoa n) ip = Contains (network a n) ip.
Proof.
  intros Ha Hz Hn. unfold cidrContains.
  assert (ContainsByte (addr +:+ "/" +:+ Itoa n) "/" = true) as ->.
  { unfold ContainsByte. rewrite IndexByte_append. by destruct (IndexByte addr "/"). }
  cbn [negb]. by rewrite (ParseCIDR_text _ a n).
Qed.

(** A bare address stands for the longest prefix. *)
Lemma cidrContains_bare addr a ip :
  ParseAddr addr = Some a → ad_zone a = ε →
  cidrContains addr ip = Contains (network a (BitLen a)) ip.
Proof.
  intros Ha Hz. destruct (ParseAddr_spec _ _ Ha Hz) as ([Hl _] & Hs & Hc). unfold cidrContains.
  rewrite Hs, Hc. cbn [negb]. assert (0 ≤ BitLen a ≤ BitLen a) as Hn by (unfold BitLen; lia).
  pose proof (ParseCIDR_text _ _ _ Ha Hz Hn) as Hp. unfold BitLen in *.
  destruct Hl as [E|E]; rewrite E in *; cbn [Nat.eqb].
  - change ("/" +:+ Itoa (8 * Z.of_nat 4)) with "/32" in Hp. by rewrite Hp.
  - change ("/" +:+ Itoa (8 * Z.of_nat 16)) with "/128" in Hp. by rewrite Hp.
Qed.

Lemma Contains_full a ip :
  addr_wf a → length ip = 16%nat → Forall is_byte ip →
  Contains (network a (BitLen a)) ip = true ↔ ip = As16 a.
Proof.
  intros Hw Hl Hb. destruct (As16_wf a Hw) as [HA HAb].
  rewrite Contains_mask by (try done; unfold BitLen; lia).
  replace (bits16 a (BitLen a)) with 128 by (unfold bits16; lia).
  change (cidr_mask 16 128) with (repeat 255 16). rewrite !mask_255 by (done || lia).
  cbn [Z.leb Z.compare Pos.compare Pos.compare_cont]. rewrite andb_true_r.
  split; [by intros [-> _]|]. by intros ->.
Qed.

(** C26 [inCIDR] is true exactly when the address lies in one of the networks
    listed.  An address lies in [addr/n] when the leading bits of the two agree,
    counted in the 16-byte form where IPv4 is mapped, and the two are of the same
    family: a network is IPv4 only if its prefix covers the whole mapping prefix,
    so [::/0] holds no IPv4 address.  A bare address, in any spelling, holds
    itself and nothing else. *)
Theorem inCIDR_prefix (s addr : string) (ip : IP) (a : Addr) (n : Z) (cidrs : list string) :
  ParseIP s = Some ip → ParseAddr addr = Some a → ad_zone a = ε → 0 ≤ n ≤ BitLen a →
  (inCIDR (types_String s) (ref_other (GRefList (map GString cidrs))) = true ↔
   ∃ c, c ∈ cidrs ∧ cidrContains c ip = true) ∧
  (cidrContains (addr +:+ "/" +:+ Itoa n) ip = true ↔
   prefix_bits (bits16 a n) (As16 a) = prefix_bits (bits16 a n) ip ∧
   is_v4 ip = is_v4 (As16 a) && (96 <=? bits16 a n)) ∧
  (cidrContains addr ip = true ↔ ip = As16 a).
Proof.
  intros Hip Ha Hz Hn. destruct (ParseIP_spec s ip Hip) as [Hl Hb].
  destruct (ParseAddr_spec _ _ Ha Hz) as [Hw _]. split_and!.
  - unfold inCIDR. cbn [stringOf Value]. rewrite Hip, existsb_exists. split.
    + intros (v & (c & <- & Hc)%in_map_iff & Hh). exists c. by rewrite list_elem_of_In.
    + intros (c & Hc & Hh). exists (GString c). split; [|done]. by apply in_map, list_elem_of_In.
  - rewrite (cidrContains_text _ a n) by done. by apply Contains_prefix.
  - rewrite (cidrContains_bare _ a) by done. by apply Contains_full.
Qed.

Lemma inCIDR_prefix_witness :
  cidrContains "172.16.0.0/12" (v4InV6Prefix ++ [172; 31; 255; 1]) = true ∧
  inCIDR (types_String "172.31.255.1") (ref_other (GRefList (map GString ["::/0"; "10.0.0.1"]))) = false.
Proof.
  split; [|by vm_compute].
  apply (proj1 (proj2 (inCIDR_prefix "172.31.255.1" "172.16.0.0" (v4InV6Prefix ++ [172; 31; 255; 1])
    (mkAddr [172; 16; 0; 0] ε) 12 [] eq_refl eq_refl eq_refl ltac:(by vm_compute)))).
  by vm_compute.
Defined.

(** ** The address classes *)

(** RFC 1918, RFC 4193 and the link-local ranges, unicast and multicast. *)
Definition private_ranges : list string :=
  ["10.0.0.0/8"; "172.16.0.0/12"; "192.168.0.0/16"; "169.254.0.0/16"; "224.0.0.0/24";
   "fc00::/7"; "fe80::/10";
   "ff02::/16"; "ff12::/16"; "ff22::/16"; "ff32::/16"; "ff42::/16"; "ff52::/16"; "ff62::/16";
   "ff72::/16"; "ff82::/16"; "ff92::/16"; "ffa2::/16"; "ffb2::/16"; "ffc2::/16"; "ffd2::/16";
   "ffe2::/16"; "fff2::/16"].

Definition loopback_ranges : list string := ["127.0.0.0/8"; "::1"].

Definition in_ranges (s : string) (ranges : list string) : bool :=
  inCIDR (types_String s) (ref_other (GRefList (map GString ranges))).

(** The networks a list of texts denotes. *)
Definition networks (ranges : list string) : list IPNet :=
  omap (λ c, ParseCIDR (if negb (ContainsByte c "/") then
                          if ContainsByte c ":" then c +:+ "/128" else c +:+ "/32"
                        else c)) ranges.

Lemma existsb_networks ip ranges :
  existsb (cidr_hit ip) (map GString ranges) = existsb (λ n, Contains n ip) (networks ranges).
Proof.
  induction ranges as [|c ranges IH]; [done|]. cbn [map existsb]. rewrite IH.
  unfold networks, cidr_hit, cidrContains. cbn [omap list_omap].
  by destruct (ParseCIDR _).
Qed.

(** Agreement under a mask, byte by byte. *)
Fixpoint agrees (nn m x : list Z) : bool :=
  match nn, m, x with
  | [], _, [] => true
  | b :: nn', k :: m', y :: x' => (Z.land b k =? Z.land y k) && agrees nn' m' x'
  | _, _, _ => false
  end.

Lemma agrees_spec nn m x :
  length nn = length m →
  agrees nn m x =
    if negb (length x =? length nn)%nat then false else bool_decide (mask_bytes nn m = mask_bytes x m).
Proof.
  unfold mask_bytes. revert m x. induction nn as [|b nn IH]; intros [|k m] [|y x] Hl; try done.
  injection Hl as Hl. cbn [agrees length Nat.eqb zip_with]. rewrite IH by done.
  destruct (length x =? length nn)%nat; cbn [negb]; [|by rewrite andb_false_r].
  destruct (Z.eqb_spec (Z.land b k) (Z.land y k)) as [->|Hne]; cbn [andb].
  - apply bool_decide_ext. split; [by intros ->|]. intros E. by injection E.
  - symmetry. apply bool_decide_false. congruence.
Qed.

Lemma Contains_agrees net nn m ip :
  networkNumberAndMask net = (nn, m) → length nn = length m →
  Contains net ip = agrees nn m (default ip (To4 ip)).
Proof. intros E Hl. unfold Contains. by rewrite E, agrees_spec. Qed.

Lemma existsb_agrees ip nets :
  Forall (λ net, length (networkNumberAndMask net).1 = length (networkNumberAndMask net).2) nets →
  existsb (λ n, Contains n ip) nets =
  existsb (λ '(nn, m), agrees nn m (default ip (To4 ip))) (map networkNumberAndMask nets).
Proof.
  induction 1 as [|net nets Hl _ IH]; [done|]. cbn [existsb map]. rewrite IH.
  destruct (networkNumberAndMask net) as [nn m] eqn:E. by rewrite (Contains_agrees _ _ _ _ E).
Qed.

Lemma low_nibble b :
  is_byte b → (Z.land b 15 =? 2) = existsb (λ f, 16 * f + 2 =? b) (seqZ 0 16).
Proof.
  intros Hb. apply eqb_prop.
  refine (all_below (λ b, eqb (Z.land b 15 =? 2) (existsb (λ f, 16 * f + 2 =? b) (seqZ 0 16))) 256 b _ Hb).
  by vm_compute.
Qed.

(** Both forms an address can take. *)
Lemma ip_cases ip :
  length ip = 16%nat → Forall is_byte ip →
  (∃ b0 b1 b2 b3, To4 ip = Some [b0; b1; b2; b3] ∧ Forall is_byte [b0; b1; b2; b3]) ∨
  (∃ b0 b1 bs, To4 ip = None ∧ ip = b0 :: b1 :: bs ∧ length bs = 14%nat ∧ is_byte b0 ∧ is_byte b1).
Proof.
  intros Hl Hb. destruct (To4 ip) as [y|] eqn:E.
  - left. apply To4_16_Some in E as [-> Hy]; [|done]. apply Forall_app in Hb as [_ Hb].
    destruct y as [|b0 [|b1 [|b2 [|b3 [|]]]]]; try done. by exists b0, b1, b2, b3.
  - right. destruct ip as [|b0 [|b1 bs]]; try done. exists b0, b1, bs.
    rewrite !Forall_cons in Hb. destruct Hb as (? & ? & _). by injection Hl.
Qed.

Lemma agrees_zero nn x :
  length nn = length x → agrees nn (repeat 0 (length nn)) x = true.
Proof.
  revert x. induction nn as [|b nn IH]; intros [|y x] Hl; try done. cbn.
  rewrite !Z.land_0_r. cbn. apply IH. by injection Hl.
Qed.

Lemma agrees_cons b nn k m y x :
  agrees (b :: nn) (k :: m) (y :: x) = (Z.land b k =? Z.land y k) && agrees nn m x.
Proof. done. Qed.

Lemma agrees_short nn m x : length nn ≠ length x → agrees nn m x = false.
Proof.
  revert m x. induction nn as [|b nn IH]; intros [|k m] [|y x] Hl; try done.
  rewrite agrees_cons, IH, andb_false_r; [done|]. cbn in Hl. lia.
Qed.

(** Membership in ranges that differ in their first two bytes only. *)
Definition hit2 (b0 b1 n0 m0 n1 m1 : Z) : bool := (Z.land b0 m0 =? n0) && (Z.land b1 m1 =? n1).

Lemma agrees_two n0 n1 m0 m1 b0 b1 bs :
  length bs = 14%nat → Z.land n0 m0 = n0 → Z.land n1 m1 = n1 →
  agrees (n0 :: n1 :: repeat 0 14) (m0 :: m1 :: repeat 0 14) (b0 :: b1 :: bs) = hit2 b0 b1 n0 m0 n1 m1.
Proof.
  intros Hl E0 E1. rewrite !agrees_cons, E0, E1.
  assert (agrees (repeat 0 14) (repeat 0 14) bs = true) as ->
    by (apply (agrees_zero (repeat 0 14) bs); by rewrite Hl).
  unfold hit2. by rewrite andb_true_r, (Z.eqb_sym n0), (Z.eqb_sym n1).
Qed.

Lemma in_ranges_agrees s ip ranges nets :
  ParseIP s = Some ip → map networkNumberAndMask (networks ranges) = nets →
  Forall (λ nm, length nm.1 = length nm.2) nets →
  in_ranges s ranges = existsb (λ '(nn, m), agrees nn m (default ip (To4 ip))) nets.
Proof.
  intros Hip <- Hn. unfold in_ranges, inCIDR. cbn [stringOf Value]. rewrite Hip, existsb_networks.
  apply existsb_agrees. by apply Forall_map in Hn.
Qed.

(** The ranges as the numbers and masks they denote. *)
Definition v4_private : list (IP * IPMask) :=
  [([10; 0; 0; 0], [255; 0; 0; 0]); ([172; 16; 0; 0], [255; 240; 0; 0]);
   ([192; 168; 0; 0], [255; 255; 0; 0]); ([169; 254; 0; 0], [255; 255; 0; 0]);
   ([224; 0; 0; 0], [255; 255; 255; 0])].

Definition v6_private : list (Z * Z * Z * Z) :=
  [(252, 254, 0, 0); (254, 255, 128, 192)] ++ map (λ f, (255, 255, 16 * f + 2, 255)) (seqZ 0 16).

Lemma private_networks :
  map networkNumberAndMask (networks private_ranges) =
  v4_private ++ map (λ '(n0, m0, n1, m1), (n0 :: n1 :: repeat 0 14, m0 :: m1 :: repeat 0 14)) v6_private.
Proof. by vm_compute. Qed.

Lemma existsb_false {A} (f : A → bool) l : (∀ x, x ∈ l → f x = false) → existsb f l = false.
Proof.
  induction l as [|x l IH]; intros Hf; [done|]. cbn. rewrite Hf by set_solver. apply IH. set_solver.
Qed.

Lemma existsb_map {A B} (g : B → bool) (f : A → B) l : existsb g (map f l) = existsb (λ x, g (f x)) l.
Proof. induction l as [|x l IH]; cbn; [done|by rewrite IH]. Qed.

(** The predicates of the code on the two forms. *)
Definition private (ip : IP) : bool := IsPrivate ip || IsLinkLocalUnicast ip || IsLinkLocalMulticast ip.

Lemma private_v4 ip b0 b1 b2 b3 :
  To4 ip = Some [b0; b1; b2; b3] → Forall is_byte [b0; b1; b2; b3] →
  private ip = existsb (λ '(nn, m), agrees nn m [b0; b1; b2; b3]) v4_private.
Proof.
  intros E Hb. repeat (apply Forall_cons in Hb as [? Hb]).
  unfold private, IsPrivate, IsLinkLocalUnicast, IsLinkLocalMulticast. rewrite E.
  cbn [existsb v4_private agrees nth]. rewrite !Z.land_0_r, !land_255 by done.
  change (Z.land 10 255) with 10. change (Z.land 172 255) with 172. change (Z.land 16 240) with 16.
  change (Z.land 192 255) with 192. change (Z.land 168 255) with 168. change (Z.land 169 255) with 169.
  change (Z.land 254 255) with 254. change (Z.land 224 255) with 224. change (Z.land 0 255) with 0.
  rewrite !(Z.eqb_sym _ b0), !(Z.eqb_sym _ b1), (Z.eqb_sym _ b2), (Z.eqb_sym 16).
  cbn [Z.eqb]. btauto.
Qed.

Lemma private_v6 ip b0 b1 bs :
  To4 ip = None → ip = b0 :: b1 :: bs → length bs = 14%nat → is_byte b0 → is_byte b1 →
  private ip = existsb (λ '(n0, m0, n1, m1), hit2 b0 b1 n0 m0 n1 m1) v6_private.
Proof.
  intros E -> Hl H0 H1. unfold private, IsPrivate, IsLinkLocalUnicast, IsLinkLocalMulticast.
  rewrite E. cbn [length]. rewrite Hl. cbn [Nat.eqb andb nth]. unfold v6_private.
  cbn [existsb app]. rewrite existsb_map. unfold hit2 at 1 2. rewrite !Z.land_0_r, (land_255 b0) by done.
  rewrite andb_true_r, <- orb_assoc, low_nibble by done. f_equal. f_equal.
  induction (seqZ 0 16) as [|f l IH]; cbn [existsb]; [by rewrite andb_false_r|].
  rewrite <- IH, andb_orb_distrib_r. unfold hit2. by rewrite !land_255, (Z.eqb_sym b1) by done.
Qed.

Lemma existsb_ext_Forall {A} (f g : A → bool) l :
  Forall (λ x, f x = g x) l → existsb f l = existsb g l.
Proof. induction 1 as [|x l Hx _ IH]; cbn; [done|by rewrite Hx, IH]. Qed.

(** The two lists only hold networks of their family, already masked. *)
Lemma v4_private_length : Forall (λ nm, length nm.1 = 4%nat) v4_private.
Proof. by repeat constructor. Qed.

Lemma v6_private_masked :
  Forall (λ '(n0, m0, n1, m1), Z.land n0 m0 = n0 ∧ Z.land n1 m1 = n1) v6_private.
Proof. by repeat constructor. Qed.

Lemma private_in_ranges s ip :
  ParseIP s = Some ip → private ip = in_ranges s private_ranges.
Proof.
  intros Hip. destruct (ParseIP_spec s ip Hip) as [Hl Hb].
  rewrite (in_ranges_agrees s ip _ _ Hip private_networks) by (by repeat constructor).
  rewrite existsb_app, existsb_map.
  destruct (ip_cases ip Hl Hb) as [(b0 & b1 & b2 & b3 & E & Hb')|(b0 & b1 & bs & E & -> & Hbs & H0 & H1)];
    rewrite E; cbn [from_option id].
  - rewrite (private_v4 _ _ _ _ _ E Hb'). symmetry. rewrite <- (orb_false_r (existsb _ v4_private)) at 2.
    f_equal. apply existsb_false. intros [[[n0 m0] n1] m1] _. by apply agrees_short.
  - rewrite (private_v6 _ b0 b1 bs E eq_refl Hbs H0 H1).
    rewrite (existsb_false _ v4_private).
    2: { intros [nn m] Hin. apply agrees_short. cbn [length]. rewrite Hbs.
         pose proof (proj1 (Forall_forall _ _) v4_private_length _ Hin) as Hn. cbn in Hn. lia. }
    cbn [orb]. apply existsb_ext_Forall. eapply Forall_impl; [exact v6_private_masked|].
    intros [[[n0 m0] n1] m1] [? ?]. symmetry. by apply agrees_two.
Qed.

(** ::1 is listed bare. *)
Lemma loopback_networks :
  map networkNumberAndMask (networks loopback_ranges) =
  [([127; 0; 0; 0], [255; 0; 0; 0]); (repeat 0 15 ++ [1], repeat 255 16)].
Proof. by vm_compute. Qed.

Lemma loopback_in_ranges s ip :
  ParseIP s = Some ip → IsLoopback ip = in_ranges s loopback_ranges.
Proof.
  intros Hip. destruct (ParseIP_spec s ip Hip) as [Hl Hb].
  rewrite (in_ranges_agrees s ip _ _ Hip loopback_networks) by (by repeat constructor).
  cbn [existsb]. rewrite orb_false_r. unfold IsLoopback.
  destruct (ip_cases ip Hl Hb) as [(b0 & b1 & b2 & b3 & E & Hb')|(b0 & b1 & bs & E & _)];
    rewrite E; cbn [from_option id].
  - rewrite (agrees_short (repeat 0 15 ++ [1])), orb_false_r by done. apply Forall_cons in Hb' as [H0 _].
    cbn [agrees nth]. rewrite !Z.land_0_r, (land_255 b0), (Z.eqb_sym b0) by done.
    cbn [Z.eqb]. by rewrite !andb_true_r.
  - rewrite agrees_short by (by rewrite Hl). rewrite agrees_spec, Hl by done. cbn [orb].
    rewrite (mask_255 ip) by (done || lia). rewrite mask_255; [|by repeat (apply Forall_cons_2; [by split|])|cbn; lia].
    apply bool_decide_ext. split; by intros ->.
Qed.

(** C29 The address classes are the documented ranges: [isPrivateIP] holds of a text
    exactly when [inCIDR] puts it in the RFC 1918 networks, fc00::/7 or the link-local
    ranges, unicast or multicast of any flags; [isLoopbackIP] exactly when it is in
    127.0.0.0/8 or is ::1.  A text that is no address is in neither. *)
Theorem address_classes (s : string) :
  isPrivateIP (types_String s) = in_ranges s private_ranges ∧
  isLoopbackIP (types_String s) = in_ranges s loopback_ranges.
Proof.
  unfold isPrivateIP, isLoopbackIP. cbn [stringOf Value].
  destruct (ParseIP s) as [ip|] eqn:E; [|unfold in_ranges, inCIDR; cbn [stringOf Value]; by rewrite E].
  split; [exact (private_in_ranges s ip E)|exact (loopback_in_ranges s ip E)].
Qed.

Lemma address_classes_witness :
  in_ranges "fd00::1" private_ranges = true ∧ in_ranges "8.8.8.8" private_ranges = false ∧
  in_ranges "::ffff:127.0.0.1" loopback_ranges = true.
Proof.
  rewrite <- !(proj1 (address_classes _)), <- (proj2 (address_classes _)). by vm_compute.
Defined.
