(* ===== verification/GoRegexp.v ===== *)
(** * Go's package regexp: the fragment globs are translated to

    Texts as sequences of runes, and anchored patterns made of single-rune atoms
    (literals, escaped punctuation, the dot, bracket expressions of runes and
    ranges), each possibly starred or repeated a fixed number of times.
    [parse_re] reads such a pattern the way regexp/syntax does and [re_match] is
    its meaning.  Patterns outside the fragment (escapes and named classes inside
    brackets, other repetitions, errors) are left to the class [GoRegexp], which
    only fixes the behaviour of [regexp.Compile] on the fragment. *)

From S2P Require Import Prelude GoStrings.
Local Open Scope Z_scope.

(** ** Text as runes *)

Abbreviation text := (list Z).

Definition rune_list (s : string) : text := (runes s).*1.
Definition utf8 (l : text) : string := str_concat (map encode_rune l).

Definition valid_rune (r : Z) : bool := in_range 0 55295 r || in_range 57344 1114111 r.

(** [utf8.ValidString]. *)
Definition ValidString (s : string) : bool :=
  forallb (λ rc, negb ((rc.1 =? RuneError) && (String.length rc.2 =? 1)%nat)) (runes s).

(** ** Syntax *)

Inductive atom : Type :=
| ALit (r : Z)
| AAny                                        (** the dot: not a newline *)
| AClass (neg : bool) (ranges : list (Z * Z)).

Definition atom_match (a : atom) (r : Z) : bool :=
  match a with
  | ALit r' => r =? r'
  | AAny => negb (r =? 10)
  | AClass neg ranges => xorb neg (existsb (λ lh, in_range lh.1 lh.2 r) ranges)
  end.

(** An atom, and whether it is starred. *)
Abbreviation items := (list (atom * bool)).

Fixpoint re_match (l : items) : text → bool :=
  match l with
  | [] => λ s, match s with [] => true | _ => false end
  | (a, false) :: l' => λ s,
      match s with [] => false | c :: s' => atom_match a c && re_match l' s' end
  | (a, true) :: l' =>
      fix star (s : text) : bool :=
        re_match l' s ||
        match s with [] => false | c :: s' => atom_match a c && star s' end
  end.

(** ** Parsing *)

(** The bytes [regexp.QuoteMeta] escapes. *)
Definition metachars : list Z := map byteZ (String.list_ascii_of_string "\.+*?()|[]{}^$").
Definition is_meta (r : Z) : bool := existsb (Z.eqb r) metachars.

(** The runes of a bracket expression up to its closing bracket.  A closing
    bracket in first place, a backslash and an opening bracket are outside the
    fragment, and so is an inverted range, which is an error. *)
Fixpoint class_ranges (l : text) : option (list (Z * Z) * text) :=
  match l with
  | [] => None
  | c :: l1 =>
      if c =? 93 then Some ([], l1)
      else if (c =? 92) || (c =? 91) then None
      else
        let single := match class_ranges l1 with
                      | Some (rs, rest) => Some ((c, c) :: rs, rest)
                      | None => None
                      end in
        match l1 with
        | d :: ((hi :: l3) as l2) =>
            if (d =? 45) && negb (hi =? 93) then
              if (hi =? 92) || (hi =? 91) || (hi <? c) then None
              else match class_ranges l3 with
                   | Some (rs, rest) => Some ((c, hi) :: rs, rest)
                   | None => None
                   end
            else single
        | _ => single
        end
  end.

(** An atom at the head of a pattern. *)
Definition parse_atom (l : text) : option (atom * text) :=
  match l with
  | [] => None
  | c :: l1 =>
      if c =? 46 then Some (AAny, l1)
      else if c =? 92 then
        match l1 with
        | d :: l2 => if is_meta d then Some (ALit d, l2) else None
        | [] => None
        end
      else if c =? 91 then
        let '(neg, l2) := match l1 with
                          | d :: l2 => if d =? 94 then (true, l2) else (false, l1)
                          | [] => (false, l1)
                          end in
        match class_ranges l2 with
        | Some (((_ :: _) as rs), rest) => Some (AClass neg rs, rest)
        | _ => None
        end
      else if (c =? 93) || (c =? 125) then Some (ALit c, l1)
      else if is_meta c then None
      else Some (ALit c, l1)
  end.

(** The decimal number a repetition starts with. *)
Fixpoint take_digits (l : text) : text :=
  match l with
  | c :: l' => if in_range 48 57 c then c :: take_digits l' else []
  | [] => []
  end.

(** What follows an atom: a star, a repetition [{n}] with n at most 1000, or
    nothing. *)
Definition parse_quant (a : atom) (l : text) : option (items * text) :=
  match l with
  | [] => Some ([(a, false)], [])
  | c :: l1 =>
      if c =? 42 then Some ([(a, true)], l1)
      else if c =? 123 then
        let ds := take_digits l1 in
        let n := foldl (λ n d, n * 10 + (d - 48)) 0 ds in
        match ds, drop (length ds) l1 with
        | d :: ds', e :: l2 =>
            if ((d =? 48) && negb (length ds' =? 0)%nat) || (1000 <? n) || negb (e =? 125) then None
            else Some (repeat (a, false) (Z.to_nat n), l2)
        | _, _ => None
        end
      else if (c =? 43) || (c =? 63) then None
      else Some ([(a, false)], l)
  end.

(** A pattern past the opening anchor, up to the closing one. *)
Fixpoint parse_items (fuel : nat) (l : text) : option items :=
  match fuel with
  | O => None
  | S fuel' =>
      match l with
      | [c] => if c =? 36 then Some [] else None
      | _ =>
          '(a, l1) ← parse_atom l;
          '(its, l2) ← parse_quant a l1;
          rest ← parse_items fuel' l2;
          Some (its ++ rest)
      end
  end.

Definition parse_re (pattern : string) : option items :=
  if negb (ValidString pattern) then None
  else match rune_list pattern with
       | c :: l => if c =? 94 then parse_items (length l) l else None
       | [] => None
       end.

(** ** The package *)

(** [regexp.Compile] limits the size of a program; a million runes is below the
    limit. *)
Class GoRegexp := {
  regexp : Type;
  regexp_Compile : string → option regexp;
  MatchString : regexp → string → bool;
  regexp_fragment : ∀ pattern e,
    parse_re pattern = Some e → Z.of_nat (length e) ≤ 1000000 →
    ∃ re, regexp_Compile pattern = Some re ∧ ∀ s, MatchString re s = re_match e (rune_list s);
}.

(** ** UTF-8 *)

Local Ltac Zify.zify_post_hook ::= Z.div_mod_to_equations.

Lemma runes_cons_ascii c t :
  byteZ c < 128 → runes (String c t) = (byteZ c, str1 c) :: runes t.
Proof.
  intros Hc. unfold runes, runes_from; fold runes_from. unfold decode_rune.
  rewrite (proj2 (Z.ltb_lt _ _) Hc). cbn -[runes_from]. done.
Qed.

(** Decoding what was encoded. *)
Lemma decode_encode r t :
  valid_rune r = true → decode_rune (encode_rune r +:+ t) = (r, String.length (encode_rune r)).
Proof.
  intros Hv. unfold valid_rune, in_range in Hv.
  assert (0 ≤ r ≤ 55295 ∨ 57344 ≤ r ≤ 1114111) as Hr by lia. clear Hv.
  unfold encode_rune. destruct (Z.ltb_spec r 128) as [H1|H1].
  { cbn -[byteZ chr]. rewrite byteZ_chr by lia. by rewrite (proj2 (Z.ltb_lt _ _)). }
  destruct (Z.ltb_spec r 2048) as [H2|H2].
  { cbn -[byteZ chr Z.div Z.modulo Z.mul Z.add Z.sub in_range].
    rewrite !byteZ_chr by lia. unfold in_range.
    repeat (rewrite (proj2 (Z.ltb_ge _ _)) by lia). repeat (rewrite (proj2 (Z.leb_le _ _)) by lia).
    cbn [andb]. f_equal. lia. }
  assert (in_range 55296 57343 r || (1114111 <? r) = false) as -> by (unfold in_range; lia).
  destruct (Z.ltb_spec r 65536) as [H3|H3].
  - cbn -[byteZ chr Z.div Z.modulo Z.mul Z.add Z.sub in_range].
    rewrite !byteZ_chr by lia. rewrite (proj2 (Z.ltb_ge _ _)) by lia.
    assert (in_range 194 223 (224 + r / 4096) = false) as -> by (unfold in_range; lia).
    assert (in_range 224 239 (224 + r / 4096) = true) as -> by (unfold in_range; lia).
    set (lo := if _ =? 224 then _ else _). set (hi := if _ =? 237 then _ else _).
    assert (in_range lo hi (128 + (r / 64) mod 64) = true) as ->.
    { subst lo hi. unfold in_range.
      destruct (Z.eqb_spec (224 + r / 4096) 224), (Z.eqb_spec (224 + r / 4096) 237); lia. }
    assert (in_range 128 191 (128 + r mod 64) = true) as -> by (unfold in_range; lia).
    cbn [andb]. f_equal. lia.
  - cbn -[byteZ chr Z.div Z.modulo Z.mul Z.add Z.sub in_range].
    rewrite !byteZ_chr by lia. rewrite (proj2 (Z.ltb_ge _ _)) by lia.
    assert (in_range 194 223 (240 + r / 262144) = false) as -> by (unfold in_range; lia).
    assert (in_range 224 239 (240 + r / 262144) = false) as -> by (unfold in_range; lia).
    assert (in_range 240 244 (240 + r / 262144) = true) as -> by (unfold in_range; lia).
    set (lo := if _ =? 240 then _ else _). set (hi := if _ =? 244 then _ else _).
    assert (in_range lo hi (128 + (r / 4096) mod 64) = true) as ->.
    { subst lo hi. unfold in_range.
      destruct (Z.eqb_spec (240 + r / 262144) 240), (Z.eqb_spec (240 + r / 262144) 244); lia. }
    assert (in_range 128 191 (128 + (r / 64) mod 64) = true) as -> by (unfold in_range; lia).
    assert (in_range 128 191 (128 + r mod 64) = true) as -> by (unfold in_range; lia).
    cbn [andb]. f_equal. lia.
Qed.

Lemma runes_from_drop k s : runes_from k s = runes (str_drop k s).
Proof. revert s. induction k as [|k IH]; intros [|c s]; [done..|]. apply IH. Qed.

Lemma encode_rune_cons r : ∃ c s, encode_rune r = String c s.
Proof. unfold encode_rune, str1. repeat case_match; eauto. Qed.

Lemma runes_encode r t :
  valid_rune r = true → runes (encode_rune r +:+ t) = (r, encode_rune r) :: runes t.
Proof.
  intros Hv. pose proof (decode_encode r t Hv) as Hd.
  destruct (encode_rune_cons r) as (c & s & E). rewrite E in *. cbn [append String.length] in *.
  unfold runes at 1. cbn [runes_from]. rewrite Hd. cbn [fst snd]. f_equal.
  - f_equal. change (String c (s +:+ t)) with (String c s +:+ t). by rewrite (str_take_append (String c s)).
  - rewrite runes_from_drop. cbn [Nat.sub]. rewrite Nat.sub_0_r. f_equal. apply str_drop_append.
Qed.

Lemma utf8_cons r l : utf8 (r :: l) = encode_rune r +:+ utf8 l.
Proof. done. Qed.

Lemma utf8_app l k : utf8 (l ++ k) = utf8 l +:+ utf8 k.
Proof. unfold utf8. by rewrite map_app, str_concat_app. Qed.

Abbreviation valid_text l := (forallb valid_rune l) (only parsing).

Lemma rune_list_utf8 l : valid_text l = true → rune_list (utf8 l) = l.
Proof.
  unfold rune_list. induction l as [|r l IH]; [done|]. cbn [forallb]. intros [Hr Hl]%andb_true_iff.
  rewrite utf8_cons, runes_encode by done. cbn. by rewrite IH.
Qed.

Lemma ValidString_utf8 l : valid_text l = true → ValidString (utf8 l) = true.
Proof.
  unfold ValidString. induction l as [|r l IH]; [done|]. cbn [forallb]. intros [Hr Hl]%andb_true_iff.
  rewrite utf8_cons, runes_encode by done. cbn [forallb fst snd]. rewrite IH by done.
  destruct (Z.eqb_spec r RuneError) as [->|]; [by vm_compute|done].
Qed.

(** Text that is valid UTF-8 is the encoding of its runes, in particular ASCII
    text is. *)
Lemma utf8_ascii s : is_ascii s = true → utf8 (map byteZ (String.list_ascii_of_string s)) = s.
Proof.
  induction s as [|c s IH]; [done|]. intros [Hc Hs]%andb_true_iff.
  cbn [String.list_ascii_of_string map]. rewrite utf8_cons, IH by done.
  unfold encode_rune. rewrite Hc. by rewrite chr_byteZ.
Qed.

(** The bytes of the encoding of a rune beyond ASCII are beyond ASCII. *)
Lemma encode_rune_high r :
  128 ≤ r → valid_rune r = true → str_forall (λ c, 128 <=? byteZ c) (encode_rune r) = true.
Proof.
  intros Hr Hv. unfold valid_rune, in_range in Hv. unfold encode_rune.
  rewrite (proj2 (Z.ltb_ge _ _) Hr). destruct (Z.ltb_spec r 2048).
  { cbn -[byteZ chr Z.div Z.modulo Z.leb]. rewrite !byteZ_chr by lia. lia. }
  assert (in_range 55296 57343 r || (1114111 <? r) = false) as -> by (unfold in_range; lia).
  destruct (Z.ltb_spec r 65536); cbn -[byteZ chr Z.div Z.modulo Z.leb]; rewrite !byteZ_chr by lia; lia.
Qed.

(** ** Parsing one item after the other *)

Lemma parse_items_step fuel l a l1 its l2 rest :
  (2 ≤ length l)%nat → parse_atom l = Some (a, l1) → parse_quant a l1 = Some (its, l2) →
  parse_items fuel l2 = Some rest → parse_items (S fuel) l = Some (its ++ rest).
Proof.
  intros Hl Ha Hq Hr. cbn [parse_items]. destruct l as [|c [|d l]]; [cbn in Hl; lia..|].
  rewrite Ha. cbn [mbind option_bind]. rewrite Hq. cbn [mbind option_bind]. by rewrite Hr.
Qed.

Lemma parse_items_more fuel l rest :
  parse_items fuel l = Some rest → parse_items (S fuel) l = Some rest.
Proof.
  revert l rest. induction fuel as [|fuel IH]; intros l rest; [done|].
  remember (S fuel) as fuel' eqn:E. rewrite E at 1. cbn [parse_items].
  destruct l as [|c [|d l]]; [done|done|].
  destruct (parse_atom _) as [[a l1]|]; [|done]. cbn [mbind option_bind].
  destruct (parse_quant a l1) as [[its l2]|]; [|done]. cbn [mbind option_bind].
  destruct (parse_items fuel l2) as [r|] eqn:Er; [|done]. subst fuel'. by rewrite (IH _ _ Er).
Qed.

Lemma parse_items_le fuel fuel' l rest :
  (fuel ≤ fuel')%nat → parse_items fuel l = Some rest → parse_items fuel' l = Some rest.
Proof. induction 1 as [|m _ IH]; [done|]. intros Hp. by apply parse_items_more, IH. Qed.

Lemma re_match_star a l s :
  re_match ((a, true) :: l) s = true ↔
  ∃ s1 s2, s = s1 ++ s2 ∧ forallb (atom_match a) s1 = true ∧ re_match l s2 = true.
Proof.
  induction s as [|c s IH]; cbn -[atom_match].
  - rewrite orb_false_r. split; [intros Hm; by exists [], []|].
    intros (s1 & s2 & E & _ & Hm). symmetry in E. by apply app_eq_nil in E as [_ ->].
  - rewrite orb_true_iff, andb_true_iff. split.
    + intros [Hm|[Hc (s1 & s2 & -> & Hf & Hm)%IH]]; [by exists [], (c :: s)|].
      exists (c :: s1), s2. split_and!; [done| |done]. cbn [forallb]. by rewrite Hc.
    + intros ([|c' s1] & s2 & E & Hf & Hm); cbn in E; simplify_eq; [by left|right].
      cbn [forallb] in Hf. apply andb_true_iff in Hf as [Hc Hf]. split; [done|]. apply IH. eauto.
Qed.

Lemma re_match_one a l s :
  re_match ((a, false) :: l) s = true ↔ ∃ c s', s = c :: s' ∧ atom_match a c = true ∧ re_match l s' = true.
Proof.
  destruct s as [|c s]; cbn -[atom_match]; [naive_solver|]. rewrite andb_true_iff. naive_solver.
Qed.
