(* ===== verification/Glob.v ===== *)
(** * internal/celenv/strings.go: shell-style globs

    The translation [globRE2] byte by byte, [matchGlob] with its process-wide cache
    of compiled patterns as explicit state, and the bindings of [glob] and
    [globAny].  The meaning of a glob is given on its tokens, as the documentation
    lists them. *)

From Stdlib Require Import Btauto.
From S2P Require Import Prelude GoStrings GoHttp GoValues CelEnv GoNet Net GoRegexp.
Local Open Scope Z_scope.

(** ** Translation *)

Definition glob_special : list ascii := ["."; "+"; "("; ")"; "|"; "^"; "$"; "\"]%char.

(** The loop of [globRE2]; [k] bytes are still to be skipped. *)
Fixpoint glob_body (k : nat) (g : string) : string :=
  match g with
  | ε => ε
  | String c g' =>
      match k with
      | S k' => glob_body k' g'
      | O =>
          if Ascii.eqb c "*" then
            if HasPrefix g' "*" then ".*" +:+ glob_body 1 g' else "[^/]*" +:+ glob_body 0 g'
          else if Ascii.eqb c "?" then "[^/]" +:+ glob_body 0 g'
          else if Ascii.eqb c "[" then
            match IndexByte g "]" with
            | None => "\[" +:+ glob_body 0 g'
            | Some j => str_take (S j) g +:+ glob_body j g'
            end
          else if existsb (Ascii.eqb c) glob_special then String "\" (str1 c) +:+ glob_body 0 g'
          else String c (glob_body 0 g')
      end
  end.

(** [globRE2]. *)
Definition globRE2 (g : string) : string := "^" +:+ glob_body 0 g +:+ "$".

(** ** Matching *)

Section matching.
Context `{GoRegexp}.

(** [globCache], a [sync.Map]. *)
Abbreviation glob_cache := (gmap string regexp).

(** [matchGlob]: the answer and the cache it leaves. *)
Definition matchGlob (cache : glob_cache) (s pattern : string) : bool * glob_cache :=
  match cache !! pattern with
  | Some re => (MatchString re s, cache)
  | None =>
      match regexp_Compile (globRE2 pattern) with
      | None => (false, cache)
      | Some re => (MatchString re s, <[pattern := re]> cache)
      end
  end.

(** The binding of [glob]. *)
Definition glob (cache : glob_cache) (sv pv : refval) : bool * glob_cache :=
  matchGlob cache (stringOf sv) (stringOf pv).

(** The loop over the patterns; an element that is no string is passed over. *)
Fixpoint globAny_loop (cache : glob_cache) (s : string) (l : list gval) : bool * glob_cache :=
  match l with
  | [] => (false, cache)
  | GString p :: l' =>
      let '(ok, cache) := matchGlob cache s p in
      if ok then (true, cache) else globAny_loop cache s l'
  | _ :: l' => globAny_loop cache s l'
  end.

(** The binding of [globAny]. *)
Definition globAny (cache : glob_cache) (sv psv : refval) : bool * glob_cache :=
  let s := stringOf sv in
  match Value psv with
  | GRefList raws => globAny_loop cache s raws
  | GList anys => globAny_loop cache s anys
  | _ => (false, cache)
  end.

(** Every entry is the compiled translation of its pattern. *)
Definition glob_cache_ok (cache : glob_cache) : Prop :=
  ∀ p re, cache !! p = Some re → regexp_Compile (globRE2 p) = Some re.

(** Matching without a cache. *)
Definition glob_match (s pattern : string) : bool :=
  match regexp_Compile (globRE2 pattern) with
  | None => false
  | Some re => MatchString re s
  end.

Lemma matchGlob_ok cache s p :
  glob_cache_ok cache →
  (matchGlob cache s p).1 = glob_match s p ∧ glob_cache_ok (matchGlob cache s p).2.
Proof.
  intros Hc. unfold matchGlob, glob_match. destruct (cache !! p) as [re|] eqn:E.
  { by rewrite (Hc _ _ E). }
  destruct (regexp_Compile (globRE2 p)) as [re|] eqn:Er; [|done]. split; [done|].
  intros p' re'. cbn. rewrite lookup_insert_Some. intros [[<- <-]|[_ ?]]; [done|by apply Hc].
Qed.

Lemma globAny_loop_ok cache s l :
  glob_cache_ok cache →
  (globAny_loop cache s l).1 = existsb (λ v, match v with GString p => glob_match s p | _ => false end) l ∧
  glob_cache_ok (globAny_loop cache s l).2.
Proof.
  revert cache. induction l as [|v l IH]; intros cache Hc; [done|].
  destruct v; cbn [globAny_loop existsb orb]; try by apply IH.
  destruct (matchGlob_ok cache s s0 Hc) as [E Hc']. destruct (matchGlob cache s s0) as [ok cache'].
  cbn in E, Hc'. subst ok. destruct (glob_match s s0); [done|]. by apply IH.
Qed.

End matching.

(** ** The documented patterns *)

Inductive tok : Type :=
| TLit (r : Z)
| TStar          (** [*] *)
| TStarStar      (** [**] *)
| TQuestion      (** [?] *)
| TClass (neg : bool) (ranges : list (Z * Z)).   (** [[a-z]], [[^abc]] *)

Definition range_text (lh : Z * Z) : text := if lh.1 =? lh.2 then [lh.1] else [lh.1; 45; lh.2].

Definition class_text (neg : bool) (ranges : list (Z * Z)) : text :=
  (if neg then [94] else []) ++ flat_map range_text ranges.

(** How a token is written. *)
Definition tok_text (t : tok) : text :=
  match t with
  | TLit r => [r]
  | TStar => [42]
  | TStarStar => [42; 42]
  | TQuestion => [63]
  | TClass neg ranges => 91 :: class_text neg ranges ++ [93]
  end.

Definition glob_text (ts : list tok) : string := utf8 (flat_map tok_text ts).

(** Text a glob matches: a star and a question mark do not cross a slash; two
    stars do, but they do not cross a newline. *)
Inductive glob_matches : list tok → text → Prop :=
| gm_nil : glob_matches [] []
| gm_lit r ts s : glob_matches ts s → glob_matches (TLit r :: ts) (r :: s)
| gm_star s1 ts s :
    Forall (λ c, c ≠ 47) s1 → glob_matches ts s → glob_matches (TStar :: ts) (s1 ++ s)
| gm_starstar s1 ts s :
    Forall (λ c, c ≠ 10) s1 → glob_matches ts s → glob_matches (TStarStar :: ts) (s1 ++ s)
| gm_question c ts s : c ≠ 47 → glob_matches ts s → glob_matches (TQuestion :: ts) (c :: s)
| gm_class (neg : bool) ranges c ts s :
    ((∃ lh, lh ∈ ranges ∧ lh.1 ≤ c ≤ lh.2) ↔ neg = false) → glob_matches ts s →
    glob_matches (TClass neg ranges :: ts) (c :: s).

(** Runes that stand for themselves, in a glob and between brackets.  Braces are
    not documented and not escaped: they reach the regular expression. *)
Definition lit_ok (r : Z) : bool := valid_rune r && negb (existsb (Z.eqb r) [42; 63; 91; 123]).
Definition class_rune_ok (r : Z) : bool := valid_rune r && negb (existsb (Z.eqb r) [45; 91; 92; 93]).

Definition tok_ok (t : tok) : bool :=
  match t with
  | TLit r => lit_ok r
  | TClass neg ranges =>
      forallb (λ lh, class_rune_ok lh.1 && class_rune_ok lh.2 && (lh.1 <=? lh.2)) ranges &&
      match ranges with [] => false | lh :: _ => neg || negb (lh.1 =? 94) end
  | _ => true
  end.

(** A single star is not written next to another star. *)
Fixpoint toks_ok (ts : list tok) : bool :=
  match ts with
  | [] => true
  | t :: ts' =>
      tok_ok t && toks_ok ts' &&
      match t, ts' with
      | TStar, TStar :: _ | TStar, TStarStar :: _ => false
      | _, _ => true
      end
  end.

(** ** The translation of a token *)

Definition special_rune (r : Z) : bool := existsb (λ c, r =? byteZ c) glob_special.

Definition tok_re (t : tok) : text :=
  match t with
  | TLit r => if special_rune r then [92; r] else [r]
  | TStar => [91; 94; 47; 93; 42]
  | TStarStar => [46; 42]
  | TQuestion => [91; 94; 47; 93]
  | TClass neg ranges => 91 :: class_text neg ranges ++ [93]
  end.

Definition tok_item (t : tok) : atom * bool :=
  match t with
  | TLit r => (ALit r, false)
  | TStar => (AClass true [(47, 47)], true)
  | TStarStar => (AAny, true)
  | TQuestion => (AClass true [(47, 47)], false)
  | TClass neg ranges => (AClass neg ranges, false)
  end.

(** ** From tokens to the regular expression *)

Lemma glob_body_drop k s : glob_body k s = glob_body 0 (str_drop k s).
Proof. revert s. induction k as [|k IH]; intros [|c s]; [done..|]. apply IH. Qed.

Lemma eqb_chr r c : 0 ≤ r < 256 → Ascii.eqb (chr r) c = (r =? byteZ c).
Proof.
  intros Hr. destruct (Z.eqb_spec r (byteZ c)) as [->|Hne].
  - rewrite chr_byteZ. apply Ascii.eqb_refl.
  - apply Ascii.eqb_neq. intros E. apply Hne. by rewrite <- E, byteZ_chr.
Qed.

Lemma existsb_special_chr r : 0 ≤ r < 256 → existsb (Ascii.eqb (chr r)) glob_special = special_rune r.
Proof. intros Hr. unfold special_rune, glob_special. cbn [existsb]. by rewrite !eqb_chr. Qed.

Lemma special_rune_ascii r : special_rune r = true → 0 ≤ r < 128.
Proof.
  unfold special_rune. rewrite existsb_exists. intros (c & Hc & ->%Z.eqb_eq).
  repeat (destruct Hc as [<-|Hc]; [by vm_compute|]). done.
Qed.

(** Bytes beyond ASCII are copied. *)
Lemma glob_body_high s t :
  str_forall (λ c, 128 <=? byteZ c) s = true → glob_body 0 (s +:+ t) = s +:+ glob_body 0 t.
Proof.
  induction s as [|c s IH]; [done|]. intros [Hc Hs]%andb_true_iff. apply Z.leb_le in Hc.
  cbn [append glob_body]. rewrite <- (chr_byteZ c). pose proof (byteZ_range c) as Hr.
  rewrite existsb_special_chr, !eqb_chr by lia.
  destruct (special_rune (byteZ c)) eqn:Es; [apply special_rune_ascii in Es; lia|].
  change (byteZ "*") with 42. change (byteZ "?") with 63. change (byteZ "[") with 91.
  rewrite !(proj2 (Z.eqb_neq (byteZ c) _)) by lia. by rewrite IH.
Qed.

Lemma encode_ascii r : 0 ≤ r < 128 → encode_rune r = str1 (chr r).
Proof. intros Hr. unfold encode_rune. by rewrite (proj2 (Z.ltb_lt r 128)) by lia. Qed.

Lemma valid_rune_nonneg r : valid_rune r = true → 0 ≤ r.
Proof. unfold valid_rune, in_range. lia. Qed.

Lemma lit_ok_valid r : lit_ok r = true → valid_rune r = true.
Proof. by intros [Hv _]%andb_true_iff. Qed.

Lemma glob_body_lit r t :
  lit_ok r = true → glob_body 0 (encode_rune r +:+ t) = utf8 (tok_re (TLit r)) +:+ glob_body 0 t.
Proof.
  intros [Hv Hm]%andb_true_iff. pose proof (valid_rune_nonneg r Hv). cbn [tok_re].
  destruct (Z.lt_ge_cases r 128) as [Ha|Ha].
  - rewrite encode_ascii by lia. unfold str1. cbn [append glob_body].
    rewrite existsb_special_chr, !eqb_chr by lia. cbn [existsb] in Hm.
    assert (r ≠ 42 ∧ r ≠ 63 ∧ r ≠ 91) as (H1 & H2 & H3) by lia.
    change (byteZ "*") with 42. change (byteZ "?") with 63. change (byteZ "[") with 91.
    rewrite !(proj2 (Z.eqb_neq r _)) by done.
    destruct (special_rune r); unfold utf8; cbn [map str_concat];
      rewrite !encode_ascii by lia; unfold str1; cbn [append]; done.
  - rewrite glob_body_high by by apply encode_rune_high.
    destruct (special_rune r) eqn:Es; [apply special_rune_ascii in Es; lia|].
    unfold utf8. cbn [map str_concat]. by rewrite append_nil_r.
Qed.

(** The first byte of encoded text tells an ASCII rune. *)
Lemma HasPrefix_utf8 r l c :
  valid_rune r = true → byteZ c < 128 → HasPrefix (utf8 (r :: l)) (str1 c) = (r =? byteZ c).
Proof.
  intros Hv Hc. pose proof (valid_rune_nonneg r Hv). rewrite utf8_cons. unfold HasPrefix, str1.
  assert (∀ d s, String.prefix (String c ε) (String d s) = Ascii.eqb d c) as Hp.
  { intros d s. cbn. destruct (ascii_dec c d) as [->|Hne]; [by destruct s, (Ascii.eqb_spec d d)|].
    symmetry. by apply Ascii.eqb_neq. }
  destruct (Z.lt_ge_cases r 128) as [Ha|Ha].
  - rewrite encode_ascii by lia. unfold str1. cbn [append]. rewrite Hp. apply eqb_chr. lia.
  - pose proof (encode_rune_high r Ha Hv) as Hh. destruct (encode_rune_cons r) as (d & s & E).
    rewrite E in *. cbn [append]. rewrite Hp. cbn in Hh. apply andb_true_iff in Hh as [Hd _].
    apply Z.leb_le in Hd. rewrite (proj2 (Z.eqb_neq r _)) by lia.
    apply Ascii.eqb_neq. intros ->. lia.
Qed.

Lemma IndexByte_utf8 l c :
  valid_text l = true → byteZ c < 128 → forallb (λ r, negb (r =? byteZ c)) l = true →
  IndexByte (utf8 l) c = None.
Proof.
  intros Hv Hc Hn. induction l as [|r l IH]; [done|].
  cbn [forallb] in *. apply andb_true_iff in Hv as [Hr Hv], Hn as [Hrc Hn].
  rewrite utf8_cons, IndexByte_append, IH by done.
  assert (IndexByte (encode_rune r) c = None) as ->; [|done].
  pose proof (valid_rune_nonneg r Hr). destruct (Z.lt_ge_cases r 128) as [Ha|Ha].
  - rewrite encode_ascii by lia. cbn. rewrite eqb_chr by lia. by destruct (r =? byteZ c).
  - pose proof (encode_rune_high r Ha Hr) as Hh.
    assert (ContainsByte (encode_rune r) c = false) as Hcb by (eapply no_byte; [exact Hh|]; by apply Z.leb_gt).
    unfold ContainsByte in Hcb. by destruct (IndexByte (encode_rune r) c).
Qed.

Lemma glob_body_class l t :
  valid_text l = true → forallb (λ r, negb (r =? 93)) l = true →
  glob_body 0 (utf8 (91 :: l ++ [93]) +:+ t) = utf8 (91 :: l ++ [93]) +:+ glob_body 0 t.
Proof.
  intros Hv Hn. rewrite utf8_cons, utf8_app. change (encode_rune 91) with "[".
  change (utf8 [93]) with "]". set (u := utf8 l).
  assert (IndexByte ("[" +:+ u +:+ "]" +:+ t) "]" = Some (S (String.length u))) as Hi.
  { cbn [append IndexByte Ascii.eqb Bool.eqb]. rewrite IndexByte_append.
    unfold u. rewrite IndexByte_utf8 by done. cbn. f_equal. lia. }
  rewrite !append_assoc. cbn [append] in *. cbn [glob_body].
  change (Ascii.eqb "[" "*") with false. change (Ascii.eqb "[" "?") with false.
  change (Ascii.eqb "[" "[") with true. rewrite Hi. cbn iota.
  rewrite glob_body_drop.
  assert (∀ k, str_drop (S (String.length u)) (u +:+ String "]" k) = k) as ->.
  { clear. intros k. induction u as [|c u IH]; [by destruct k|]. apply IH. }
  assert (str_take (S (S (String.length u))) (String "[" (u +:+ String "]" t)) = String "[" (u +:+ "]")) as ->.
  { change (str_take (S ?n) (String ?c ?x)) with (String c (str_take n x)). f_equal.
    clear. induction u as [|c u IH]; [by destruct t|]. cbn [append String.length].
    change (str_take (S ?n) (String ?c ?x)) with (String c (str_take n x)). f_equal. apply IH. }
  cbn [append]. f_equal. by rewrite append_assoc.
Qed.

Lemma class_rune_valid r : class_rune_ok r = true → valid_rune r = true ∧ r ≠ 45 ∧ r ≠ 91 ∧ r ≠ 92 ∧ r ≠ 93.
Proof. intros [Hv Hm]%andb_true_iff. cbn [existsb] in Hm. split; [done|]. lia. Qed.

(** The runes between the brackets. *)
Lemma class_text_ok neg ranges :
  forallb (λ lh, class_rune_ok lh.1 && class_rune_ok lh.2 && (lh.1 <=? lh.2)) ranges = true →
  valid_text (class_text neg ranges) = true ∧
  forallb (λ r, negb (r =? 93)) (class_text neg ranges) = true.
Proof.
  intros Hr. unfold class_text. rewrite !forallb_app.
  assert (valid_text (flat_map range_text ranges) = true ∧
          forallb (λ r, negb (r =? 93)) (flat_map range_text ranges) = true) as [-> ->];
    [|by destruct neg].
  induction ranges as [|[lo hi] ranges IH]; [done|]. cbn [flat_map forallb] in *.
  apply andb_true_iff in Hr as [[[Hlo Hhi]%andb_true_iff _]%andb_true_iff Hr].
  apply class_rune_valid in Hlo as (Hvl & _ & _ & _ & Hl), Hhi as (Hvh & _ & _ & _ & Hh).
  cbn [fst snd] in *. rewrite !forallb_app. destruct (IH Hr) as [-> ->].
  unfold range_text. cbn [fst snd]. destruct (lo =? hi); cbn [forallb];
    rewrite ?Hvl, ?Hvh, !(proj2 (Z.eqb_neq _ 93)) by lia; done.
Qed.

Lemma tok_text_valid t : tok_ok t = true → valid_text (tok_text t) = true.
Proof.
  destruct t as [r| | | |neg ranges]; cbn [tok_ok tok_text]; try done.
  - intros Hr. cbn. by rewrite (lit_ok_valid r).
  - intros [Hr _]%andb_true_iff. cbn [forallb]. rewrite forallb_app.
    by rewrite (proj1 (class_text_ok neg ranges Hr)).
Qed.

(** A text that does not start with a star. *)
Lemma no_star_prefix t ts :
  tok_ok t = true → t ≠ TStar → t ≠ TStarStar → HasPrefix (glob_text (t :: ts)) "*" = false.
Proof.
  intros Ht H1 H2. unfold glob_text. cbn [flat_map].
  destruct t as [r| | | |neg ranges]; try done; cbn [tok_ok tok_text app] in *;
    (rewrite (HasPrefix_utf8 _ _ "*") by (try done; by apply lit_ok_valid)).
  apply andb_true_iff in Ht as [_ Ht]. cbn [existsb] in Ht. change (byteZ "*") with 42. lia.
Qed.

Lemma glob_body_toks ts :
  toks_ok ts = true → glob_body 0 (glob_text ts) = utf8 (flat_map tok_re ts).
Proof.
  induction ts as [|t ts IH]; [done|]. cbn [toks_ok].
  intros [[Ht Hts]%andb_true_iff Hadj]%andb_true_iff. specialize (IH Hts).
  unfold glob_text in *. cbn [flat_map]. rewrite !utf8_app, <- IH.
  destruct t as [r| | | |neg ranges]; cbn [tok_ok tok_text] in *.
  - unfold utf8 at 1. cbn [map str_concat]. rewrite append_nil_r. by apply glob_body_lit.
  - change (utf8 [42]) with "*". cbn [append]. cbn [glob_body Ascii.eqb Bool.eqb].
    assert (HasPrefix (utf8 (flat_map tok_text ts)) "*" = false) as ->; [|done].
    destruct ts as [|t ts]; [done|]. cbn [toks_ok] in Hts.
    apply andb_true_iff in Hts as [[Ht' _]%andb_true_iff _].
    apply no_star_prefix; [done|by intros ->..].
  - change (utf8 [42; 42]) with "**". cbn [append]. cbn [glob_body Ascii.eqb Bool.eqb].
    assert (∀ x, HasPrefix (String "*" x) "*" = true) as -> by (by intros []). done.
  - done.
  - apply andb_true_iff in Ht as [Ht _]. destruct (class_text_ok neg ranges Ht) as [Hv Hn].
    by apply glob_body_class.
Qed.

Lemma globRE2_toks ts :
  toks_ok ts = true → globRE2 (glob_text ts) = utf8 (94 :: flat_map tok_re ts ++ [36]).
Proof.
  intros Hts. unfold globRE2. rewrite glob_body_toks by done.
  by rewrite utf8_cons, utf8_app.
Qed.

Lemma tok_re_valid t : tok_ok t = true → valid_text (tok_re t) = true.
Proof.
  intros Ht. destruct t as [r| | | |neg ranges]; [|done..|exact (tok_text_valid _ Ht)].
  cbn [tok_re]. destruct (special_rune r); cbn; by rewrite (lit_ok_valid r).
Qed.

Lemma class_ranges_text ranges rest :
  forallb (λ lh, class_rune_ok lh.1 && class_rune_ok lh.2 && (lh.1 <=? lh.2)) ranges = true →
  class_ranges (flat_map range_text ranges ++ 93 :: rest) = Some (ranges, rest).
Proof.
  induction ranges as [|[lo hi] ranges IH]; [done|]. cbn [flat_map forallb].
  intros [[[Hlo Hhi]%andb_true_iff Hle]%andb_true_iff Hr]%andb_true_iff. specialize (IH Hr).
  apply class_rune_valid in Hlo as (_ & L1 & L2 & L3 & L4), Hhi as (_ & H1 & H2 & H3 & H4).
  cbn [fst snd] in *. unfold range_text at 1. cbn [fst snd].
  destruct (Z.eqb_spec lo hi) as [<-|Hne]; cbn [app].
  - cbn [class_ranges]. rewrite !(proj2 (Z.eqb_neq lo _)) by done. cbn [orb]. rewrite IH.
    destruct (flat_map range_text ranges ++ 93 :: rest) as [|d [|e l]] eqn:E; [done|done|].
    assert (d ≠ 45) as Hd; [|by rewrite (proj2 (Z.eqb_neq d 45))].
    destruct ranges as [|[lo' hi'] ranges]; cbn in E; [by simplify_eq|].
    cbn [forallb] in Hr. apply andb_true_iff in Hr as [[[Hlo' _]%andb_true_iff _]%andb_true_iff _].
    apply class_rune_valid in Hlo' as (_ & ? & _). cbn in *. unfold range_text in E. cbn in E.
    destruct (lo' =? hi'); cbn in E; by simplify_eq.
  - cbn [class_ranges]. rewrite !(proj2 (Z.eqb_neq lo _)), !(proj2 (Z.eqb_neq hi _)) by done.
    cbn [orb negb andb Z.eqb]. rewrite (proj2 (Z.ltb_ge hi lo)) by lia. by rewrite IH.
Qed.

(** What follows is not a repetition. *)
Definition no_quant (l : text) : bool :=
  match l with [] => true | c :: _ => negb (existsb (Z.eqb c) [42; 43; 63; 123]) end.

Lemma parse_quant_one a l : no_quant l = true → parse_quant a l = Some ([(a, false)], l).
Proof.
  destruct l as [|c l]; [done|]. cbn [no_quant existsb parse_quant]. intros Hq.
  by rewrite !(proj2 (Z.eqb_neq c _)) by lia.
Qed.

Lemma parse_atom_class neg ranges rest :
  tok_ok (TClass neg ranges) = true →
  parse_atom (91 :: class_text neg ranges ++ 93 :: rest) = Some (AClass neg ranges, rest).
Proof.
  cbn [tok_ok]. intros [Hr Hne]%andb_true_iff. unfold class_text.
  cbn [parse_atom Z.eqb]. destruct ranges as [|[lo hi] ranges]; [done|].
  destruct neg; cbn [app].
  - cbn [parse_atom Z.eqb Pos.eqb]. by rewrite class_ranges_text.
  - pose proof (class_ranges_text _ rest Hr) as Hc.
    destruct (flat_map range_text ((lo, hi) :: ranges) ++ 93 :: rest) as [|d l] eqn:E;
      [by destruct (flat_map range_text ((lo, hi) :: ranges))|].
    assert (d ≠ 94) as Hd.
    { cbn [flat_map] in E. unfold range_text in E at 1. cbn [fst snd orb] in *.
      destruct (lo =? hi); cbn in E; simplify_eq; lia. }
    change (parse_atom (91 :: d :: l)) with
      (let '(neg, l2) := if d =? 94 then (true, l) else (false, d :: l) in
       match class_ranges l2 with
       | Some (((_ :: _) as rs), rest) => Some (AClass neg rs, rest)
       | _ => None
       end).
    rewrite (proj2 (Z.eqb_neq d 94)) by done. by rewrite Hc.
Qed.

Lemma is_meta_iff r :
  is_meta r = special_rune r || existsb (Z.eqb r) [42; 63; 91; 93; 123; 125].
Proof.
  unfold is_meta, metachars, special_rune, glob_special. cbn [String.list_ascii_of_string map existsb].
  change (byteZ "\") with 92. change (byteZ ".") with 46. change (byteZ "+") with 43.
  change (byteZ "*") with 42. change (byteZ "?") with 63. change (byteZ "(") with 40.
  change (byteZ ")") with 41. change (byteZ "|") with 124. change (byteZ "[") with 91.
  change (byteZ "]") with 93. change (byteZ "{") with 123. change (byteZ "}") with 125.
  change (byteZ "^") with 94. change (byteZ "$") with 36. btauto.
Qed.

Lemma parse_tok t rest :
  tok_ok t = true → no_quant rest = true →
  ∃ a l1, parse_atom (tok_re t ++ rest) = Some (a, l1) ∧ parse_quant a l1 = Some ([tok_item t], rest).
Proof.
  intros Ht Hq. destruct t as [r| | | |neg ranges]; cbn [tok_re tok_item].
  - exists (ALit r), rest. split; [|by apply parse_quant_one].
    apply andb_true_iff in Ht as [_ Ht]. cbn [existsb] in Ht.
    destruct (special_rune r) eqn:Es; cbn [app parse_atom Z.eqb Pos.eqb].
    { by rewrite is_meta_iff, Es. }
    assert (r ≠ 46 ∧ r ≠ 92) as [H1 H2].
    { split; intros ->; by vm_compute in Es. }
    rewrite !(proj2 (Z.eqb_neq r 46)), !(proj2 (Z.eqb_neq r 92)), !(proj2 (Z.eqb_neq r 91)) by lia.
    destruct ((r =? 93) || (r =? 125)) eqn:Eb; [done|].
    rewrite is_meta_iff, Es. cbn [existsb orb].
    assert ((r =? 42) || ((r =? 63) || ((r =? 91) || ((r =? 93) || ((r =? 123) || ((r =? 125) || false))))) = false)
      as -> by lia. done.
  - by exists (AClass true [(47, 47)]), (42 :: rest).
  - by exists AAny, (42 :: rest).
  - exists (AClass true [(47, 47)]), rest. split; [|by apply parse_quant_one].
    by apply (parse_atom_class true [(47, 47)] rest).
  - exists (AClass neg ranges), rest. split; [|by apply parse_quant_one].
    cbn [app]. rewrite <- app_assoc. by apply parse_atom_class.
Qed.

Lemma no_quant_toks ts : toks_ok ts = true → no_quant (flat_map tok_re ts ++ [36]) = true.
Proof.
  destruct ts as [|t ts]; [done|]. cbn [toks_ok flat_map].
  intros [[Ht _]%andb_true_iff _]%andb_true_iff. destruct t as [r| | | |neg ranges]; try done.
  cbn [tok_re]. apply andb_true_iff in Ht as [_ Ht]. cbn [existsb] in Ht.
  destruct (special_rune r) eqn:Es; [done|]. cbn [app no_quant existsb].
  assert (r ≠ 43) by (intros ->; by vm_compute in Es). lia.
Qed.

Lemma tok_re_length t : (1 ≤ length (tok_re t))%nat.
Proof. destruct t as [r| | | |]; cbn [tok_re length]; try lia. destruct (special_rune r); cbn; lia. Qed.

Lemma parse_items_toks ts :
  toks_ok ts = true →
  parse_items (S (length ts)) (flat_map tok_re ts ++ [36]) = Some (map tok_item ts).
Proof.
  induction ts as [|t ts IH]; [done|]. intros Hok. pose proof Hok as Hok'. cbn [toks_ok] in Hok.
  apply andb_true_iff in Hok as [[Ht Hts]%andb_true_iff _]. specialize (IH Hts).
  cbn [flat_map length]. rewrite <- app_assoc.
  destruct (parse_tok t (flat_map tok_re ts ++ [36]) Ht (no_quant_toks ts Hts)) as (a & l1 & Ha & Hq).
  change (map tok_item (t :: ts)) with ([tok_item t] ++ map tok_item ts).
  eapply parse_items_step; [|exact Ha|exact Hq|exact IH].
  rewrite !length_app. pose proof (tok_re_length t). change (length [36]) with 1%nat. lia.
Qed.

Lemma toks_re_valid ts : toks_ok ts = true → valid_text (flat_map tok_re ts) = true.
Proof.
  induction ts as [|t ts IH]; [done|]. cbn [toks_ok flat_map].
  intros [[Ht Hts]%andb_true_iff _]%andb_true_iff. by rewrite forallb_app, tok_re_valid, IH.
Qed.

Lemma parse_re_toks ts :
  toks_ok ts = true → parse_re (globRE2 (glob_text ts)) = Some (map tok_item ts).
Proof.
  intros Hts. rewrite globRE2_toks by done. unfold parse_re.
  assert (valid_text (94 :: flat_map tok_re ts ++ [36]) = true) as Hv.
  { cbn [forallb]. by rewrite forallb_app, toks_re_valid. }
  rewrite ValidString_utf8, rune_list_utf8 by done. cbn [negb Z.eqb Pos.eqb].
  apply (parse_items_le (S (length ts))); [|by apply parse_items_toks].
  rewrite length_app. cbn. clear. induction ts as [|t ts IH]; cbn [flat_map length]; [lia|].
  rewrite length_app. pose proof (tok_re_length t). lia.
Qed.

(** ** Meaning *)

Lemma not_slash_match c : atom_match (AClass true [(47, 47)]) c = true ↔ c ≠ 47.
Proof.
  unfold atom_match, in_range. cbn [existsb fst snd].
  destruct (Z.leb_spec 47 c), (Z.leb_spec c 47); cbn; lia.
Qed.

Lemma class_match neg ranges c :
  atom_match (AClass neg ranges) c = true ↔
  ((∃ lh, lh ∈ ranges ∧ lh.1 ≤ c ≤ lh.2) ↔ neg = false).
Proof.
  assert (existsb (λ lh, in_range lh.1 lh.2 c) ranges = true ↔ ∃ lh, lh ∈ ranges ∧ lh.1 ≤ c ≤ lh.2) as He.
  { rewrite existsb_exists. unfold in_range. split; intros (lh & Hin & Hc); exists lh;
      rewrite list_elem_of_In in *; (split; [done|lia]). }
  cbn [atom_match]. destruct (existsb _ ranges), neg; cbn; naive_solver.
Qed.

Lemma glob_matches_re ts s :
  re_match (map tok_item ts) s = true ↔ glob_matches ts s.
Proof.
  assert (∀ P : Z → Prop, ∀ a, (∀ c, atom_match a c = true ↔ P c) →
    ∀ l, forallb (atom_match a) l = true ↔ Forall P l) as Hall.
  { intros P a Ha l. rewrite forallb_forall, Forall_forall. setoid_rewrite list_elem_of_In.
    by setoid_rewrite Ha. }
  revert s. induction ts as [|t ts IH]; intros s.
  { destruct s; cbn; split; try done; [constructor|by inversion 1]. }
  destruct t as [r| | | |neg ranges]; cbn [map tok_item].
  - rewrite re_match_one. split.
    + intros (c & s' & -> & ->%Z.eqb_eq & Hm%IH). by constructor.
    + inversion 1; subst. eexists _, _. split_and!; [done|apply Z.eqb_refl|by apply IH].
  - rewrite re_match_star. setoid_rewrite (Hall _ _ not_slash_match). split.
    + intros (s1 & s2 & -> & Hf & Hm%IH). by constructor.
    + inversion 1; subst. eexists _, _. split_and!; [done|done|by apply IH].
  - rewrite re_match_star.
    assert (∀ c, atom_match AAny c = true ↔ c ≠ 10) as Ha by (intros c; cbn; lia).
    setoid_rewrite (Hall _ _ Ha). split.
    + intros (s1 & s2 & -> & Hf & Hm%IH). by constructor.
    + inversion 1; subst. eexists _, _. split_and!; [done|done|by apply IH].
  - rewrite re_match_one. split.
    + intros (c & s' & -> & Hc%not_slash_match & Hm%IH). by constructor.
    + inversion 1; subst. eexists _, _. split_and!; [done|by apply not_slash_match|by apply IH].
  - rewrite re_match_one. split.
    + intros (c & s' & -> & Hc%class_match & Hm%IH). by constructor.
    + inversion 1; subst. eexists _, _. split_and!; [done|by apply class_match|by apply IH].
Qed.

Section theorems.
Context `{GoRegexp}.

Lemma glob_match_toks ts s :
  toks_ok ts = true → Z.of_nat (length ts) ≤ 1000000 →
  glob_match s (glob_text ts) = true ↔ glob_matches ts (rune_list s).
Proof.
  intros Hts Hl. unfold glob_match.
  destruct (regexp_fragment _ _ (parse_re_toks ts Hts) ltac:(by rewrite length_map)) as (re & -> & Hm).
  rewrite Hm. apply glob_matches_re.
Qed.


End theorems.

(** ** An instance: the fragment alone *)

#[export] Instance fragment_regexp : GoRegexp := {|
  regexp := items;
  regexp_Compile := parse_re;
  MatchString := λ re s, re_match re (rune_list s);
  regexp_fragment := λ pattern e Hp _, ex_intro _ e (conj Hp (λ s, eq_refl));
|}.

Definition sample_glob : list tok := map TLit (map byteZ (String.list_ascii_of_string "/v1/")) ++
  [TStarStar; TLit 47; TStar; TLit 46; TClass false [(48, 57); (97, 102)]; TQuestion].


(** Braces are left to the regular expression: [a{2}] is not the text it shows. *)
Example glob_braces :
  (glob ∅ (types_String "aa") (types_String "a{2}")).1 = true ∧
  (glob ∅ (types_String "a{2}") (types_String "a{2}")).1 = false.
Proof. by vm_compute. Qed.
