(* ===== verification/GoEncoding.v ===== *)
(** * Go's packages encoding/base64 and crypto/sha256

    The URL alphabet of base64 with and without padding, decoding in the lenient
    mode of Go (newlines are ignored, the unused bits of a last group are not
    checked) and encoding; SHA-256 as FIPS 180-4 defines it, its constants computed
    from the primes they come from. *)

From S2P Require Import Prelude GoStrings GoNet.
Local Open Scope Z_scope.

(** ** base64 *)

Definition b64_char (v : Z) : ascii :=
  if v <? 26 then chr (65 + v)
  else if v <? 52 then chr (97 + (v - 26))
  else if v <? 62 then chr (48 + (v - 52))
  else if v =? 62 then "-"%char else "_"%char.

Definition b64_val (c : ascii) : option Z :=
  let b := byteZ c in
  if in_range 65 90 b then Some (b - 65)
  else if in_range 97 122 b then Some (b - 97 + 26)
  else if in_range 48 57 b then Some (b - 48 + 52)
  else if Ascii.eqb c "-" then Some 62
  else if Ascii.eqb c "_" then Some 63
  else None.

(** The bytes of a group of four values. *)
Definition b64_group (a b c d : Z) : list Z :=
  let val := a * 262144 + b * 4096 + c * 64 + d in
  [val / 65536; (val / 256) mod 256; val mod 256].

(** The groups of an input without newlines. *)
Fixpoint b64_groups (pad : bool) (l : list ascii) : option (list Z) :=
  match l with
  | [] => Some []
  | [_] => None
  | [a; b] =>
      if pad then None
      else match b64_val a, b64_val b with
           | Some va, Some vb => Some (take 1 (b64_group va vb 0 0))
           | _, _ => None
           end
  | [a; b; c] =>
      if pad then None
      else match b64_val a, b64_val b, b64_val c with
           | Some va, Some vb, Some vc => Some (take 2 (b64_group va vb vc 0))
           | _, _, _ => None
           end
  | a :: b :: c :: d :: rest =>
      match b64_val a, b64_val b with
      | Some va, Some vb =>
          match b64_val c, b64_val d with
          | Some vc, Some vd =>
              out ← b64_groups pad rest; Some (b64_group va vb vc vd ++ out)
          | Some vc, None =>
              if pad && Ascii.eqb d "=" && (length rest =? 0)%nat
              then Some (take 2 (b64_group va vb vc 0)) else None
          | None, _ =>
              if pad && Ascii.eqb c "=" && Ascii.eqb d "=" && (length rest =? 0)%nat
              then Some (take 1 (b64_group va vb 0 0)) else None
          end
      | _, _ => None
      end
  end.

Definition is_newline (c : ascii) : bool := (byteZ c =? 10) || (byteZ c =? 13).

(** [RawURLEncoding.DecodeString] and, with [pad], [URLEncoding.DecodeString]. *)
Definition b64_DecodeString (pad : bool) (s : string) : option string :=
  bytes ← b64_groups pad (List.filter (λ c, negb (is_newline c)) (String.list_ascii_of_string s));
  Some (String.string_of_list_ascii (map chr bytes)).

Fixpoint b64_encode (pad : bool) (l : list Z) : list ascii :=
  match l with
  | [] => []
  | [x] => [b64_char (x / 4); b64_char (x mod 4 * 16)] ++ (if pad then ["="; "="]%char else [])
  | [x; y] =>
      [b64_char (x / 4); b64_char (x mod 4 * 16 + y / 16); b64_char (y mod 16 * 4)] ++
      (if pad then ["="]%char else [])
  | x :: y :: z :: l' =>
      b64_char (x / 4) :: b64_char (x mod 4 * 16 + y / 16) :: b64_char (y mod 16 * 4 + z / 64) ::
      b64_char (z mod 64) :: b64_encode pad l'
  end.

(** [EncodeToString] of the two encodings. *)
Definition b64_EncodeToString (pad : bool) (s : string) : string :=
  String.string_of_list_ascii (b64_encode pad (map byteZ (String.list_ascii_of_string s))).

(** *** Round trip *)

Local Ltac Zify.zify_post_hook ::= Z.div_mod_to_equations.

Lemma b64_val_char v : 0 ≤ v < 64 → b64_val (b64_char v) = Some v.
Proof.
  intros Hv. apply (bool_decide_eq_true_1 (b64_val (b64_char v) = Some v)).
  refine (all_below (λ v, bool_decide (b64_val (b64_char v) = Some v)) 64 v _ Hv). by vm_compute.
Qed.

(** The alphabet holds no newline and no dot. *)
Lemma b64_char_plain v : 0 ≤ v < 64 → is_newline (b64_char v) = false ∧ Ascii.eqb (b64_char v) "." = false.
Proof.
  intros Hv.
  assert (negb (is_newline (b64_char v)) && negb (Ascii.eqb (b64_char v) ".") = true) as Hb
    by (refine (all_below (λ v, negb (is_newline (b64_char v)) && negb (Ascii.eqb (b64_char v) ".")) 64 v _ Hv);
        by vm_compute).
  by apply andb_true_iff in Hb as [?%negb_true_iff ?%negb_true_iff].
Qed.

(** Lists three bytes at a time. *)
Lemma triples_ind (P : list Z → Prop) :
  P [] → (∀ x, P [x]) → (∀ x y, P [x; y]) → (∀ x y z l, P l → P (x :: y :: z :: l)) → ∀ l, P l.
Proof.
  intros H0 H1 H2 H3. fix IH 1. intros [|x [|y [|z l]]]; [done|apply H1|apply H2|apply H3, IH].
Qed.

Lemma b64_groups_encode pad l : Forall is_byte l → b64_groups pad (b64_encode pad l) = Some l.
Proof.
  induction l as [|x|x y|x y z l IH] using triples_ind; intros Hb; [done|..];
    repeat match goal with H : Forall _ (_ :: _) |- _ => apply Forall_cons in H as [? H] end;
    unfold is_byte in *.
  - cbn [b64_encode]. destruct pad; cbn [app b64_groups]; rewrite !b64_val_char by lia.
    + cbn -[b64_group Z.div Z.modulo]. unfold b64_group. cbn [take]. do 2 f_equal. lia.
    + unfold b64_group. cbn [take]. do 2 f_equal. lia.
  - cbn [b64_encode]. destruct pad; cbn [app b64_groups]; rewrite !b64_val_char by lia.
    + cbn -[b64_group Z.div Z.modulo]. unfold b64_group. cbn [take].
      f_equal. f_equal; [lia|]. f_equal. lia.
    + unfold b64_group. cbn [take]. f_equal. f_equal; [lia|]. f_equal. lia.
  - cbn [b64_encode b64_groups]. rewrite !b64_val_char by lia.
    rewrite IH by done. cbn [mbind option_bind]. unfold b64_group. cbn [app].
    f_equal. f_equal; [lia|]. f_equal; [lia|]. f_equal. lia.
Qed.

(** The raw decoding of padded text fails or decodes it. *)
Lemma b64_raw_padded l :
  Forall is_byte l →
  b64_groups false (b64_encode true l) = Some l ∨ b64_groups false (b64_encode true l) = None.
Proof.
  assert (b64_val "=" = None) as Heq by reflexivity.
  induction l as [|x|x y|x y z l IH] using triples_ind; intros Hb; [by left|..].
  - right. cbn [b64_encode app b64_groups]. rewrite Heq. by repeat case_match.
  - right. cbn [b64_encode app b64_groups]. rewrite Heq. by repeat case_match.
  - pose proof (b64_groups_encode true _ Hb) as Hg.
    repeat match goal with H : Forall _ (_ :: _) |- _ => apply Forall_cons in H as [? H] end.
    unfold is_byte in *. cbn [b64_encode b64_groups] in Hg |- *.
    rewrite !b64_val_char in Hg |- * by lia. rewrite b64_groups_encode in Hg by done.
    destruct (IH Hb) as [-> | ->]; [by left|by right].
Qed.

(** What an encoding is made of. *)
Lemma b64_encode_forall (p : ascii → bool) pad l :
  Forall is_byte l → (∀ v, 0 ≤ v < 64 → p (b64_char v) = true) → (pad = true → p "="%char = true) →
  forallb p (b64_encode pad l) = true.
Proof.
  intros Hb Hp He.
  induction l as [|x|x y|x y z l IH] using triples_ind; [done|..];
    repeat match goal with H : Forall _ (_ :: _) |- _ => apply Forall_cons in H as [? H] end;
    unfold is_byte in *; cbn [b64_encode]; rewrite ?forallb_app; cbn [forallb].
  - rewrite !Hp by lia. destruct pad; cbn; by rewrite ?He.
  - rewrite !Hp by lia. destruct pad; cbn; by rewrite ?He.
  - rewrite !Hp by lia. by rewrite IH.
Qed.

Lemma bytes_of_string s : Forall is_byte (map byteZ (String.list_ascii_of_string s)).
Proof. apply Forall_forall. intros b (c & -> & _)%list_elem_of_fmap. apply byteZ_range. Qed.

Lemma chr_bytes s : String.string_of_list_ascii (map chr (map byteZ (String.list_ascii_of_string s))) = s.
Proof.
  rewrite map_map. rewrite (map_ext _ id) by (intros c; apply chr_byteZ). rewrite map_id.
  apply String.string_of_list_ascii_of_string.
Qed.

Lemma List_filter_id {A} (p : A → bool) l : forallb p l = true → List.filter p l = l.
Proof.
  induction l as [|x l IH]; cbn; [done|]. intros [-> Hl]%andb_true_iff. by rewrite IH.
Qed.

Lemma b64_roundtrip pad s : b64_DecodeString pad (b64_EncodeToString pad s) = Some s.
Proof.
  unfold b64_DecodeString, b64_EncodeToString. rewrite String.list_ascii_of_string_of_list_ascii.
  pose proof (bytes_of_string s) as Hb. rewrite List_filter_id.
  - rewrite b64_groups_encode by done. cbn [mbind option_bind]. by rewrite chr_bytes.
  - apply b64_encode_forall; [done| |by intros _].
    intros v Hv. by rewrite (proj1 (b64_char_plain v Hv)).
Qed.

(** ** SHA-256 *)

Definition add32 (x y : Z) : Z := (x + y) mod 2 ^ 32.
Definition rotr (n x : Z) : Z := Z.lor (Z.shiftr x n) (Z.shiftl x (32 - n) mod 2 ^ 32).

(** The first primes: the numbers without a smaller divisor. *)
Definition is_prime (n : Z) : bool := forallb (λ d, negb (n mod d =? 0)) (seqZ 2 (n - 2)).
Definition primes (below : Z) : list Z := List.filter is_prime (seqZ 2 (below - 2)).

(** The integer cube root, one bit after the other. *)
Fixpoint cbrt (bits : nat) (n acc : Z) : Z :=
  match bits with
  | O => acc
  | S b =>
      let acc' := acc + 2 ^ Z.of_nat b in
      cbrt b n (if acc' ^ 3 <=? n then acc' else acc)
  end.

(** The constants: 32 bits of the fractional parts of the roots of the primes,
    cube roots for the rounds and square roots for the initial state. *)
Definition sha_K : list Z := map (λ p, cbrt 40 (p * 2 ^ 96) 0 mod 2 ^ 32) (primes 312).
Definition sha_H0 : list Z := map (λ p, Z.sqrt (p * 2 ^ 64) mod 2 ^ 32) (primes 20).

(** The message followed by a one bit, zeros and its length in bits. *)
Definition sha_pad (msg : list Z) : list Z :=
  let n := Z.of_nat (length msg) in
  msg ++ [128] ++ repeat 0 (Z.to_nat ((55 - n) mod 64)) ++
  map (λ i, (8 * n / 2 ^ (8 * (7 - i))) mod 256) (seqZ 0 8).

Fixpoint sha_words (n : nat) (l : list Z) : list Z :=
  match n, l with
  | S n', a :: b :: c :: d :: l' => a * 16777216 + b * 65536 + c * 256 + d :: sha_words n' l'
  | _, _ => []
  end.

(** The message schedule, the last word first. *)
Fixpoint sha_schedule (n : nat) (w : list Z) : list Z :=
  match n with
  | O => w
  | S n' =>
      let s0 := let x := nth 14 w 0 in Z.lxor (Z.lxor (rotr 7 x) (rotr 18 x)) (Z.shiftr x 3) in
      let s1 := let x := nth 1 w 0 in Z.lxor (Z.lxor (rotr 17 x) (rotr 19 x)) (Z.shiftr x 10) in
      sha_schedule n' (add32 (add32 (nth 15 w 0) s0) (add32 (nth 6 w 0) s1) :: w)
  end.

Definition sha_round (st : list Z) (kw : Z * Z) : list Z :=
  match st with
  | [a; b; c; d; e; f; g; h] =>
      let s1 := Z.lxor (Z.lxor (rotr 6 e) (rotr 11 e)) (rotr 25 e) in
      let ch := Z.lxor (Z.land e f) (Z.land (2 ^ 32 - 1 - e) g) in
      let t1 := add32 (add32 (add32 h s1) ch) (add32 kw.1 kw.2) in
      let s0 := Z.lxor (Z.lxor (rotr 2 a) (rotr 13 a)) (rotr 22 a) in
      let maj := Z.lxor (Z.lxor (Z.land a b) (Z.land a c)) (Z.land b c) in
      [add32 t1 (add32 s0 maj); a; b; c; add32 d t1; e; f; g]
  | _ => st
  end.

Definition sha_block (h : list Z) (block : list Z) : list Z :=
  let w := reverse (sha_schedule 48 (reverse (sha_words 16 block))) in
  zip_with add32 h (foldl sha_round h (zip sha_K w)).

Fixpoint sha_blocks (n : nat) (l : list Z) : list (list Z) :=
  match n with
  | O => []
  | S n' => take 64 l :: sha_blocks n' (drop 64 l)
  end.

(** [sha256.Sum256]. *)
Definition Sum256 (s : string) : list Z :=
  let m := sha_pad (map byteZ (String.list_ascii_of_string s)) in
  flat_map (λ x, [x / 16777216; (x / 65536) mod 256; (x / 256) mod 256; x mod 256])
    (foldl sha_block sha_H0 (sha_blocks (length m / 64) m)).

(** [hex.EncodeToString]. *)
Definition hex_EncodeToString (l : list Z) : string := str_concat (map (hex_digits 2) l).

Example sha256_abc :
  hex_EncodeToString (Sum256 "abc") = "ba7816bf8f01cfea414140de5dae2223b00361a396177a9cb410ff61f20015ad".
Proof. by vm_compute. Qed.

(** Two blocks. *)
Example sha256_two_blocks :
  hex_EncodeToString (Sum256 "abcdbcdecdefdefgefghfghighijhijkijkljklmklmnlmnomnopnopq") =
  "248d6a61d20638b8e5c026930c3e6039a33ce45964ff2167f6ecedd419db06c1".
Proof. by vm_compute. Qed.

(** *** The digest has 64 digits *)

Lemma sha_round_length st kw : length st = 8%nat → length (sha_round st kw) = 8%nat.
Proof. by destruct st as [|a [|b [|c [|d [|e [|f [|g [|h [|]]]]]]]]]. Qed.

Lemma sha_block_length h block : length h = 8%nat → length (sha_block h block) = 8%nat.
Proof.
  intros Hl. unfold sha_block. set (l := zip _ _). rewrite length_zip_with.
  assert (length (foldl sha_round h l) = 8%nat) as ->; [|lia].
  revert h Hl. induction l as [|kw l IH]; intros h Hl; [done|]. by apply IH, sha_round_length.
Qed.

Lemma Sum256_length s : length (Sum256 s) = 32%nat.
Proof.
  unfold Sum256. set (bs := sha_blocks _ _).
  assert (length (foldl sha_block sha_H0 bs) = 8%nat) as Hl.
  { assert (length sha_H0 = 8%nat) as H0 by (by vm_compute). revert H0. generalize sha_H0.
    induction bs as [|b bs IH]; intros h Hh; [done|]. by apply IH, sha_block_length. }
  revert Hl. generalize (foldl sha_block sha_H0 bs).
  by intros [|? [|? [|? [|? [|? [|? [|? [|? [|]]]]]]]]].
Qed.

Definition is_hex_lower (c : ascii) : bool := in_range 48 57 (byteZ c) || in_range 97 102 (byteZ c).

Lemma hex_digits_lower n z : str_forall is_hex_lower (hex_digits n z) = true.
Proof.
  induction n as [|n IH]; [done|]. cbn [hex_digits str_forall]. rewrite IH, andb_true_r.
  pose proof (Z.mod_pos_bound (z / 16 ^ Z.of_nat n) 16 ltac:(lia)) as Hm.
  set (d := (_ mod 16)) in *. unfold is_hex_lower, hex_digit, in_range.
  destruct (Z.ltb_spec d 10); rewrite byteZ_chr by lia; lia.
Qed.

Lemma hex_EncodeToString_spec l :
  String.length (hex_EncodeToString l) = (2 * length l)%nat ∧
  str_forall is_hex_lower (hex_EncodeToString l) = true.
Proof.
  unfold hex_EncodeToString. induction l as [|x l [IH1 IH2]]; [done|]. cbn [map str_concat length].
  rewrite length_append, str_forall_append, IH1, IH2, hex_digits_lower. split; [cbn; lia|done].
Qed.
