(* ===== verification/ConfigWatch.v ===== *)
(** * internal/configwatch/watch.go: the file watcher

    [relevant] and the loop of [Run] with its debounce timer.  An input carries the
    time at which the loop receives it; the timer started by [time.AfterFunc] is
    the time at which it will call back, and it calls back before an input that
    comes at or after that time.  fsnotify is not part of the repository: its
    operation bits are the class [Fsnotify]. *)

From S2P Require Import Prelude GoStrings GoPath.
Local Open Scope Z_scope.

(** The operations are distinct bits of [fsnotify.Op]. *)
Class Fsnotify := {
  fs_Create : Z;
  fs_Write : Z;
  fs_Remove : Z;
  fs_Rename : Z;
  fs_Chmod : Z;
  fs_remove_disjoint : ∀ op, op ∈ [fs_Create; fs_Write; fs_Rename; fs_Chmod] → Z.land fs_Remove op = 0;
}.

Record Event := mkEvent { ev_Name : string; ev_Op : Z }.

Definition kubeProjectedSymlink : string := "..data".

Section watch.
Context `{Fsnotify}.

(** [relevant]. *)
Definition relevant (ev : Event) (name : string) : bool :=
  let base := Base (ev_Name ev) in
  if negb (String.eqb base name) && negb (String.eqb base kubeProjectedSymlink) then false
  else negb (Z.land (ev_Op ev)
    (Z.lor (Z.lor (Z.lor fs_Create fs_Write) fs_Rename) fs_Chmod) =? 0).

Inductive watch_input : Type :=
| InEvent (ev : Event)
| InError
| InEventsClosed
| InErrorsClosed
| InCancel.

(** The pending timer, the times of the calls to [onChange], and whether the loop
    still runs. *)
Record watch_state := mkWatch { ws_timer : option Z; ws_calls : list Z; ws_running : bool }.

(** Lets the timer call back if its time has come. *)
Definition expire (ws : watch_state) (now : Z) : watch_state :=
  match ws_timer ws with
  | Some d => if d <=? now then mkWatch None (ws_calls ws ++ [d]) (ws_running ws) else ws
  | None => ws
  end.

(** The closure [fire]: the pending timer is replaced. *)
Definition fire (debounce : Z) (ws : watch_state) (now : Z) : watch_state :=
  mkWatch (Some (now + debounce)) (ws_calls ws) (ws_running ws).

(** One turn of the loop. *)
Definition watch_step (name : string) (debounce : Z) (ws : watch_state) (ti : Z * watch_input) :
    watch_state :=
  let ws := expire ws ti.1 in
  if negb (ws_running ws) then ws
  else match ti.2 with
  | InCancel => mkWatch None (ws_calls ws) false
  | InEventsClosed | InErrorsClosed => mkWatch (ws_timer ws) (ws_calls ws) false
  | InError => ws
  | InEvent ev => if negb (relevant ev name) then ws else fire debounce ws ti.1
  end.

(** [Run] with a watcher on the directory of the file: the calls to [onChange] made
    by the time [until].  The two errors are those of [NewWatcher] and [Add]. *)
Definition Watch_Run (newWatcher addDir : result string unit) (path : string) (debounce : Z)
    (inputs : list (Z * watch_input)) (until : Z) : result string (list Z) :=
  let debounce := if debounce <=? 0 then 200000000 else debounce in
  match newWatcher with
  | Err err => Err ("fsnotify: " +:+ err)
  | Ok _ =>
      match addDir with
      | Err err => Err ("watch " +:+ Dir path +:+ ": " +:+ err)
      | Ok _ =>
          Ok (ws_calls (expire (foldl (watch_step (Base path) debounce)
                (mkWatch None [] true) inputs) until))
      end
  end.

(** ** What a run does *)

(** The times of the relevant events. *)
Definition relevant_times (name : string) (inputs : list (Z * watch_input)) : list Z :=
  omap (λ ti, match ti.2 with
              | InEvent ev => if relevant ev name then Some ti.1 else None
              | _ => None
              end) inputs.

(** One call per burst: an event leads to a call [debounce] later unless another
    one comes first. *)
Fixpoint bursts (debounce : Z) (ts : list Z) : list Z :=
  match ts with
  | [] => []
  | t :: ts' =>
      match ts' with
      | [] => [t + debounce]
      | t' :: _ => if t + debounce <=? t' then (t + debounce) :: bursts debounce ts' else bursts debounce ts'
      end
  end.

Definition keeps_running (i : watch_input) : bool :=
  match i with InEvent _ | InError => true | _ => false end.

Lemma expire_calls ws now : ws_timer ws = None → expire ws now = ws.
Proof. unfold expire. by intros ->. Qed.

(** The inputs are received in the order of their times, the last before [until]. *)
Fixpoint in_order (from : Z) (inputs : list (Z * watch_input)) (until : Z) : Prop :=
  match inputs with
  | [] => from ≤ until
  | (t, _) :: rest => from ≤ t ∧ in_order t rest until
  end.

Lemma in_order_le from inputs until : in_order from inputs until → from ≤ until.
Proof.
  revert from. induction inputs as [|[t i] rest IH]; intros from; cbn; [done|].
  intros [? Hr]. apply IH in Hr. lia.
Qed.

Lemma relevant_times_after name from inputs until :
  in_order from inputs until → Forall (λ t, from ≤ t) (relevant_times name inputs).
Proof.
  revert from. induction inputs as [|[t i] rest IH]; intros from; cbn; [constructor|].
  intros [Hle Hr]. apply IH in Hr.
  assert (Forall (λ u, from ≤ u) (relevant_times name rest)) 
    by (eapply Forall_impl; [exact Hr|]; cbn; intros; lia).
  unfold relevant_times. cbn. destruct i; try done. destruct (relevant ev name); [by constructor|done].
Qed.

Lemma bursts_early debounce t ts :
  Forall (λ u, t + debounce ≤ u) ts → bursts debounce (t :: ts) = (t + debounce) :: bursts debounce ts.
Proof.
  intros Hts. destruct Hts as [|u ts Hu Hts]; [done|].
  change (bursts debounce (t :: u :: ts)) with
    (if t + debounce <=? u then (t + debounce) :: bursts debounce (u :: ts) else bursts debounce (u :: ts)).
  by replace (t + debounce <=? u) with true by lia.
Qed.

Lemma bursts_late debounce t u ts :
  u < t + debounce → bursts debounce (t :: u :: ts) = bursts debounce (u :: ts).
Proof.
  intros Hu. change (bursts debounce (t :: u :: ts)) with
    (if t + debounce <=? u then (t + debounce) :: bursts debounce (u :: ts) else bursts debounce (u :: ts)).
  by replace (t + debounce <=? u) with false by lia.
Qed.

(** The calls still to come, from a pending timer and from none. *)
Definition run_calls (name : string) (debounce : Z) (ws : watch_state)
    (inputs : list (Z * watch_input)) (until : Z) : list Z :=
  ws_calls (expire (foldl (watch_step name debounce) ws inputs) until).

Lemma run_calls_spec name debounce inputs until from :
  in_order from inputs until → forallb (λ ti, keeps_running ti.2) inputs = true →
  (∀ calls,
     (∀ u, list.last (relevant_times name inputs) = Some u → u + debounce ≤ until) →
     run_calls name debounce (mkWatch None calls true) inputs until =
       calls ++ bursts debounce (relevant_times name inputs)) ∧
  (∀ calls t,
     (∀ u, list.last (t :: relevant_times name inputs) = Some u → u + debounce ≤ until) →
     run_calls name debounce (mkWatch (Some (t + debounce)) calls true) inputs until =
       calls ++ bursts debounce (t :: relevant_times name inputs)).
Proof.
  revert from. induction inputs as [|[s i] rest IH]; intros from Ho Hk.
  { unfold run_calls. cbn. split; [intros; by rewrite app_nil_r|]. intros calls t Hu.
    specialize (Hu t eq_refl). unfold expire. cbn. by replace (t + debounce <=? until) with true by lia. }
  cbn in Ho, Hk. destruct Ho as [_ Ho]. apply andb_true_iff in Hk as [Hi Hk].
  destruct (IH s Ho Hk) as [IHn IHt]. pose proof (relevant_times_after name s rest until Ho) as Hafter.
  assert (∀ ws, run_calls name debounce ws ((s, i) :: rest) until =
    run_calls name debounce (watch_step name debounce ws (s, i)) rest until) as Hstep by done.
  assert (relevant_times name ((s, i) :: rest) =
    match i with InEvent ev => if relevant ev name then s :: relevant_times name rest
                               else relevant_times name rest
            | _ => relevant_times name rest end) as Hr.
  { unfold relevant_times. cbn. destruct i; try done. by destruct (relevant ev name). }
  assert (∀ (t : Z) (l : list Z), list.last (t :: l) = match list.last l with Some u => Some u | None => Some t end) as Hlast
    by (intros; by rewrite last_cons).
  split.
  - intros calls Hu. rewrite Hstep. unfold watch_step, expire. cbn. rewrite Hr in *.
    destruct i as [ev| | | |]; try done; [|by apply IHn].
    destruct (relevant ev name); cbn; [by apply IHt|by apply IHn].
  - intros calls t Hu. rewrite Hstep. unfold watch_step, expire. cbn -[bursts]. rewrite Hr in *.
    destruct (Z.leb_spec (t + debounce) s) as [Hexp|Hpend]; cbn -[bursts].
    + assert (Forall (λ u, t + debounce ≤ u) (relevant_times name rest)) as Hearly
        by (eapply Forall_impl; [exact Hafter|]; cbn -[bursts]; intros; lia).
      destruct i as [ev| | | |]; try done; [destruct (relevant ev name)|]; cbn -[bursts].
      * unfold fire. cbn -[bursts]. rewrite IHt; [|intros u E; apply Hu; by rewrite Hlast, E].
        rewrite (bursts_early debounce t) by (constructor; [lia|done]). by rewrite <- app_assoc.
      * rewrite IHn; [|intros u E; apply Hu; by rewrite Hlast, E].
        rewrite (bursts_early debounce t) by done. by rewrite <- app_assoc.
      * rewrite IHn; [|intros u E; apply Hu; by rewrite Hlast, E].
        rewrite (bursts_early debounce t) by done. by rewrite <- app_assoc.
    + destruct i as [ev| | | |]; try done; [destruct (relevant ev name)|]; cbn -[bursts]; [|by apply IHt..].
      unfold fire. cbn -[bursts]. rewrite IHt; [|intros u E; apply Hu; by rewrite Hlast, E].
      by rewrite bursts_late by lia.
Qed.

Lemma land_lor_zero a b c : Z.land a (Z.lor b c) = 0 ↔ Z.land a b = 0 ∧ Z.land a c = 0.
Proof. by rewrite Z.land_lor_distr_r, Z.lor_eq_0_iff. Qed.

(** An event concerns the configuration exactly when its base name is the
    file's or kubelet's [..data] and it is a create, write, rename or chmod; a pure
    removal never is. *)
Theorem relevant_spec (ev : Event) (name : string) :
  (relevant ev name = true ↔
   (Base (ev_Name ev) = name ∨ Base (ev_Name ev) = kubeProjectedSymlink) ∧
   ∃ op, op ∈ [fs_Create; fs_Write; fs_Rename; fs_Chmod] ∧ Z.land (ev_Op ev) op ≠ 0) ∧
  (ev_Op ev = fs_Remove → relevant ev name = false).
Proof.
  assert (relevant ev name = true ↔
   (Base (ev_Name ev) = name ∨ Base (ev_Name ev) = kubeProjectedSymlink) ∧
   ∃ op, op ∈ [fs_Create; fs_Write; fs_Rename; fs_Chmod] ∧ Z.land (ev_Op ev) op ≠ 0) as Hiff.
  { unfold relevant.
    assert (negb (Z.land (ev_Op ev) (Z.lor (Z.lor (Z.lor fs_Create fs_Write) fs_Rename) fs_Chmod) =? 0) = true
      ↔ ∃ op, op ∈ [fs_Create; fs_Write; fs_Rename; fs_Chmod] ∧ Z.land (ev_Op ev) op ≠ 0) as Hop.
    { rewrite negb_true_iff, Z.eqb_neq, !land_lor_zero. split.
      - intros Hn. destruct (decide (Z.land (ev_Op ev) fs_Create = 0)), (decide (Z.land (ev_Op ev) fs_Write = 0)),
          (decide (Z.land (ev_Op ev) fs_Rename = 0)), (decide (Z.land (ev_Op ev) fs_Chmod = 0));
          try (by eexists; split; [|eassumption]; set_solver). tauto.
      - intros (op & Hin & Hne) Hz. set_unfold. naive_solver. }
    destruct (String.eqb_spec (Base (ev_Name ev)) name) as [->|N1]; cbn [negb andb]; [rewrite Hop; tauto|].
    destruct (String.eqb_spec (Base (ev_Name ev)) kubeProjectedSymlink) as [->|N2]; cbn [negb]; [rewrite Hop; tauto|].
    split; [done|]. tauto. }
  split; [done|]. intros Hrm. apply not_true_is_false. intros [_ (op & Hin & Hne)]%Hiff.
  rewrite Hrm in Hne. by apply Hne, fs_remove_disjoint.
Qed.

(** C40 Debouncing: while the watcher runs, [onChange] is called once per burst of
    relevant events, [debounce] after the last event of the burst (200 ms when the
    setting is not positive), and the last change is never missed; other events and
    watcher errors have no effect. *)
Theorem debounce_bursts (path : string) (debounce : Z) (inputs : list (Z * watch_input))
    (from until : Z) :
  let d := if debounce <=? 0 then 200000000 else debounce in
  in_order from inputs until → forallb (λ ti, keeps_running ti.2) inputs = true →
  (∀ u, list.last (relevant_times (Base path) inputs) = Some u → u + d ≤ until) →
  Watch_Run (Ok ()) (Ok ()) path debounce inputs until =
    Ok (bursts d (relevant_times (Base path) inputs)).
Proof.
  cbv zeta. intros Ho Hk Hu. unfold Watch_Run.
  f_equal. exact (proj1 (run_calls_spec (Base path) _ inputs until from Ho Hk) [] Hu).
Qed.

Lemma watch_running name d inputs ws :
  ws_running ws = true → forallb (λ ti, keeps_running ti.2) inputs = true →
  ws_running (foldl (watch_step name d) ws inputs) = true.
Proof.
  revert ws. induction inputs as [|[t i] l IH]; intros ws Hr; [done|]. cbn.
  intros [Hi Hl]%andb_true_iff. apply IH; [|done]. unfold watch_step. cbn.
  assert (ws_running (expire ws t) = true) as He by (unfold expire; by repeat go_case).
  rewrite He. cbn. destruct i; try done. by destruct (relevant ev name).
Qed.

(** Cancelling stops the pending reload: once the context is done no call is
    made any more, whatever arrives later and however long one waits. *)
Theorem cancel_stops_reload (path : string) (debounce : Z) (inputs later : list (Z * watch_input))
    (t until : Z) :
  forallb (λ ti, keeps_running ti.2) inputs = true →
  Watch_Run (Ok ()) (Ok ()) path debounce (inputs ++ (t, InCancel) :: later) until =
  Watch_Run (Ok ()) (Ok ()) path debounce inputs t.
Proof.
  intros Hk. unfold Watch_Run. rewrite foldl_app. cbn [foldl].
  set (d := if debounce <=? 0 then _ else _).
  pose proof (watch_running (Base path) d inputs (mkWatch None [] true) eq_refl Hk) as Hrun.
  set (ws := foldl _ (mkWatch None [] true) inputs) in *.
  assert (∀ l ws', ws_timer ws' = None → ws_running ws' = false →
    foldl (watch_step (Base path) d) ws' l = ws') as Hstop.
  { induction l as [|[u i] l IH]; intros ws' Ht Hr; [done|]. cbn.
    assert (watch_step (Base path) d ws' (u, i) = ws') as ->; [|by apply IH].
    unfold watch_step. cbn. by rewrite expire_calls, Hr. }
  unfold watch_step at 2. cbn [fst snd].
  assert (ws_running (expire ws t) = true) as -> by (unfold expire; by repeat go_case).
  cbn [negb]. rewrite Hstop by done. by rewrite expire_calls.
Qed.

End watch.

#[global] Instance fsnotify_linux : Fsnotify.
Proof.
  refine {| fs_Create := 1; fs_Write := 2; fs_Remove := 4; fs_Rename := 8; fs_Chmod := 16 |}.
  intros op Hin. set_unfold. naive_solver.
Defined.

Definition config_written (t : Z) : Z * watch_input := (t, InEvent (mkEvent "/etc/rv/policy.yaml" 2)).

Lemma relevant_spec_witness :
  relevant (mkEvent "/etc/rv/..data" 1) "policy.yaml" = true ∧
  relevant (mkEvent "/etc/rv/policy.yaml" 4) "policy.yaml" = false.
Proof.
  split.
  - apply (proj1 (relevant_spec (mkEvent "/etc/rv/..data" 1) "policy.yaml")).
    split; [by right; vm_compute|]. exists 1. split; [set_solver|done].
  - exact (proj2 (relevant_spec (mkEvent "/etc/rv/policy.yaml" 4) "policy.yaml") eq_refl).
Defined.

(** Two bursts, the first of two events. *)
Lemma debounce_bursts_witness :
  Watch_Run (Ok ()) (Ok ()) "/etc/rv/policy.yaml" 100
    [config_written 0; config_written 50; (60, InError); config_written 500] 1000 = Ok [150; 600].
Proof.
  rewrite (debounce_bursts "/etc/rv/policy.yaml" 100
    [config_written 0; config_written 50; (60, InError); config_written 500] 0 1000).
  - by vm_compute.
  - cbn. lia.
  - by vm_compute.
  - intros u Hu. vm_compute in Hu. injection Hu as <-. vm_compute. congruence.
Defined.

Lemma cancel_stops_reload_witness :
  Watch_Run (Ok ()) (Ok ()) "/etc/rv/policy.yaml" 100 [config_written 0; (50, InCancel)] 1000 = Ok [].
Proof.
  rewrite (cancel_stops_reload "/etc/rv/policy.yaml" 100 [config_written 0] [] 50 1000); by vm_compute.
Defined.
