(* ===== verification/JsonPath.v ===== *)
(** * internal/jsonpath/jsonpath.go: the JSONPath subset

    [Compile] on the bytes of the expression, with the three regular expressions
    as the functions that compute their leftmost match, and [Eval] with
    [collectRecursive] and [sortStrings].  The loop of [Compile] runs on fuel: an
    iteration either consumes at least two bytes or inserts the dot of a shorthand,
    so [len + 3] iterations are enough (Compile_total below). *)

From S2P Require Import Prelude GoStrings GoValues.
Local Open Scope Z_scope.

Inductive step : Type :=
| stepKey (name : string)
| stepIndex (idx : Z)
| stepWildcard
| stepRecursive (name : string).

Inductive jp_error : Type :=
| JErrEmpty
| JErrRecursive (near : string)
| JErrChild (near : string)
| JErrBracket (near : string)
| JErrIndex (inner : string)
| JErrFragment (near : string)
| JErrFuel.

(** ** Lexical elements *)

Definition isIdentStart (b : ascii) : bool :=
  Ascii.eqb b "_" || in_range 65 90 (byteZ b) || in_range 97 122 (byteZ b).

(** The class [A-Za-z0-9_\-]. *)
Definition is_ident_char (b : ascii) : bool := isIdentStart b || is_digit b || Ascii.eqb b "-".

Fixpoint prefix_of (p : ascii → bool) (s : string) : string :=
  match s with
  | ε => ε
  | String c s' => if p c then String c (prefix_of p s') else ε
  end.

(** The group of [reChild] and [reRecursive], past the dots. *)
Definition match_ident (s : string) : option string :=
  match s with
  | String c s' => if isIdentStart c then Some (String c (prefix_of is_ident_char s')) else None
  | ε => None
  end.

Definition quote1 : ascii := "'".
Definition quote2 : ascii := chr 34.

(** A quoted name: the text up to the next quote, then a bracket. *)
Definition match_quoted (q : ascii) (s : string) : option string :=
  match IndexByte s q with
  | Some i => if HasPrefix (str_drop (S i) s) "]"
              then Some (String q (str_take i s +:+ str1 q)) else None
  | None => None
  end.

(** [-?\d+], then a bracket. *)
Definition match_number (s : string) : option string :=
  let '(sign, ds) := match s with String "-" s' => ("-", s') | _ => (ε, s) end in
  let n := prefix_of is_digit ds in
  if negb (String.eqb n ε) && HasPrefix (str_drop (String.length n) ds) "]"
  then Some (sign +:+ n) else None.

(** The group of [reBracket], past the opening bracket. *)
Definition match_bracket (s : string) : option string :=
  match s with
  | String c s' =>
      if Ascii.eqb c "*" then if HasPrefix s' "]" then Some "*" else None
      else if Ascii.eqb c quote1 then match_quoted quote1 s'
      else if Ascii.eqb c quote2 then match_quoted quote2 s'
      else match_number s
  | ε => None
  end.

(** The switch over the group of [reBracket]. *)
Definition bracket_step (inner : string) : result jp_error step :=
  if String.eqb inner "*" then Ok stepWildcard
  else if HasPrefix inner (str1 quote1) || HasPrefix inner (str1 quote2)
  then Ok (stepKey (str_take (String.length inner - 2) (str_drop 1 inner)))
  else match Atoi inner with
       | None => Err (JErrIndex inner)
       | Some n => Ok (stepIndex n)
       end.

(** ** Compile *)

(** The loop; [None] is out of fuel. *)
Fixpoint compile_loop (fuel : nat) (rest : string) (steps : list step) :
    option (result jp_error (list step)) :=
  match fuel with
  | O => None
  | S fuel' =>
      match rest with
      | ε => Some (Ok steps)
      | String c tail =>
          if HasPrefix rest ".." then
            match match_ident (str_drop 2 rest) with
            | None => Some (Err (JErrRecursive rest))
            | Some name =>
                compile_loop fuel' (str_drop (2 + String.length name) rest) (steps ++ [stepRecursive name])
            end
          else if HasPrefix rest "." then
            match match_ident (str_drop 1 rest) with
            | None => Some (Err (JErrChild rest))
            | Some name =>
                compile_loop fuel' (str_drop (1 + String.length name) rest) (steps ++ [stepKey name])
            end
          else if HasPrefix rest "[" then
            match match_bracket (str_drop 1 rest) with
            | None => Some (Err (JErrBracket rest))
            | Some inner =>
                match bracket_step inner with
                | Err e => Some (Err e)
                | Ok s => compile_loop fuel' (str_drop (2 + String.length inner) rest) (steps ++ [s])
                end
            end
          else if isIdentStart c then compile_loop fuel' (String "." rest) steps
          else Some (Err (JErrFragment rest))
      end
  end.

(** [Compile]. *)
Definition jsonpath_Compile (expr : string) : result jp_error (list step) :=
  if String.eqb expr ε then Err JErrEmpty
  else
    let rest := TrimPrefix expr "$" in
    match compile_loop (3 + String.length rest) rest [] with
    | Some r => r
    | None => Err JErrFuel
    end.

(** ** Eval *)

(** [sortStrings]: the inner loop moves [s[i]] left past greater elements; the
    sorted prefix is kept last element first. *)
Fixpoint bubble (x : string) (revpre : list string) : list string :=
  match revpre with
  | [] => [x]
  | y :: revpre' => if negb (string_leb y x) then y :: bubble x revpre' else x :: revpre
  end.

Definition sortStrings (s : list string) : list string :=
  rev (foldl (λ pre x, bubble x pre) [] s).

(** [collectRecursive]: what it appends to [out]. *)
Fixpoint collectRecursive (n : gval) (name : string) : list gval :=
  match n with
  | GMap m =>
      option_list (map_get m name) ++ flat_map (λ kv, collectRecursive kv.2 name) m
  | GList l => flat_map (λ vv, collectRecursive vv name) l
  | _ => []
  end.

(** The body of the inner loop of [Eval]: what one node contributes. *)
Definition eval_step (s : step) (n : gval) : list gval :=
  match s, n with
  | stepKey name, GMap m => option_list (map_get m name)
  | stepIndex idx, GList a =>
      let i := if idx <? 0 then Z.of_nat (length a) + idx else idx in
      if (0 <=? i) && (i <? Z.of_nat (length a)) then option_list (a !! Z.to_nat i) else []
  | stepWildcard, GList a => a
  | stepWildcard, GMap m => map (λ k, default GNil (map_get m k)) (sortStrings m.*1)
  | stepRecursive name, _ => collectRecursive n name
  | _, _ => []
  end.

(** [Expr.Eval]. *)
Definition jsonpath_Eval (steps : list step) (root : gval) : list gval :=
  foldl (λ nodes s, flat_map (eval_step s) nodes) [root] steps.

(** ** Compile terminates *)

Definition measure (rest : string) : nat :=
  String.length rest +
  match rest with String c _ => if isIdentStart c then 2 else 0 | ε => 0 end.

Lemma prefix_of_drop p s :
  match str_drop (String.length (prefix_of p s)) s with String c _ => p c = false | ε => True end.
Proof.
  induction s as [|c s IH]; [done|]. cbn. destruct (p c) eqn:E; cbn; [exact IH|done].
Qed.

Lemma prefix_of_length p s : (String.length (prefix_of p s) ≤ String.length s)%nat.
Proof. induction s as [|c s IH]; cbn; [lia|]. destruct (p c); cbn; lia. Qed.

(** After an identifier comes no other one. *)
Lemma match_ident_rest s name :
  match_ident s = Some name →
  (1 ≤ String.length name ≤ String.length s)%nat ∧
  measure (str_drop (String.length name) s) = (String.length s - String.length name)%nat.
Proof.
  destruct s as [|c s]; [done|]. unfold match_ident. destruct (isIdentStart c); [|done].
  intros [= <-]. cbn [String.length str_drop]. pose proof (prefix_of_length is_ident_char s).
  split; [lia|]. pose proof (prefix_of_drop is_ident_char s) as Hd. unfold measure.
  rewrite length_str_drop. destruct (str_drop _ s) as [|d t]; [lia|].
  unfold is_ident_char in Hd. destruct (isIdentStart d); [done|lia].
Qed.

Lemma measure_le s : (String.length s ≤ measure s ≤ String.length s + 2)%nat.
Proof. unfold measure. destruct s as [|c s]; [lia|]. destruct (isIdentStart c); lia. Qed.

Lemma HasPrefix_drop n s c : HasPrefix (str_drop n s) (str1 c) = true → (n < String.length s)%nat.
Proof.
  intros Hp. pose proof (length_str_drop n s) as Hl. destruct (str_drop n s) as [|d t]; [done|].
  cbn in Hl. lia.
Qed.

(** A bracket accessor is not empty and is followed by its closing bracket. *)
Lemma match_bracket_length s inner :
  match_bracket s = Some inner → (1 ≤ String.length inner < String.length s)%nat.
Proof.
  assert (∀ q t, match_quoted q t = Some inner → 1 ≤ String.length inner ≤ String.length t)%nat as Hq.
  { intros q t. unfold match_quoted. destruct (IndexByte t q) as [i|]; [|done].
    destruct (HasPrefix _ _) eqn:Ep; [|done]. intros [= <-]. apply (HasPrefix_drop _ _ "]") in Ep.
    cbn. rewrite length_append, length_str_take. cbn. lia. }
  assert (match_number s = Some inner → 1 ≤ String.length inner < String.length s)%nat as Hn.
  { unfold match_number.
    match goal with |- (let '(_, _) := ?q in _) = _ → _ => set (p := q) end.
    assert (String.length s = String.length p.1 + String.length p.2)%nat as Hp
      by (subst p; repeat go_case; done).
    destruct p as [sign ds]. cbn [fst snd] in Hp. set (n := prefix_of is_digit ds).
    destruct (negb (String.eqb n ε) && _) eqn:E; [|done]. apply andb_true_iff in E as [E1 E2].
    apply (HasPrefix_drop _ _ "]") in E2. apply negb_true_iff, String.eqb_neq in E1.
    intros [= <-]. rewrite length_append. destruct n; [done|]. cbn in *. lia. }
  unfold match_bracket. destruct s as [|c t]; [done|].
  destruct (Ascii.eqb c "*").
  { destruct (HasPrefix t "]") eqn:Ep; [|done]. intros [= <-].
    apply (HasPrefix_drop 0 t "]") in Ep. cbn. lia. }
  destruct (Ascii.eqb c quote1); [intros Hi%Hq; cbn; lia|].
  destruct (Ascii.eqb c quote2); [intros Hi%Hq; cbn; lia|]. exact Hn.
Qed.

Lemma str_drop_plus a b s : str_drop (a + b) s = str_drop b (str_drop a s).
Proof.
  revert s. induction a as [|a IH]; intros s; [done|]. destruct s; [by destruct b|]. apply IH.
Qed.

Lemma compile_loop_total fuel rest steps :
  (measure rest < fuel)%nat → compile_loop fuel rest steps ≠ None.
Proof.
  revert rest steps. induction fuel as [|fuel IH]; intros rest steps Hf; [lia|].
  cbn [compile_loop]. destruct rest as [|c tail]; [done|].
  pose proof (measure_le (String c tail)) as Hle.
  destruct (HasPrefix (String c tail) "..") eqn:Ed.
  { destruct (match_ident _) as [name|] eqn:En; [|done]. apply match_ident_rest in En as [Hn Hm].
    apply IH. rewrite str_drop_plus, Hm. rewrite length_str_drop in *. lia. }
  destruct (HasPrefix (String c tail) ".") eqn:E1.
  { destruct (match_ident _) as [name|] eqn:En; [|done]. apply match_ident_rest in En as [Hn Hm].
    apply IH. rewrite str_drop_plus, Hm. rewrite length_str_drop in *. lia. }
  destruct (HasPrefix (String c tail) "[") eqn:E2.
  { destruct (match_bracket _) as [inner|] eqn:En; [|done]. apply match_bracket_length in En.
    rewrite length_str_drop in En.
    destruct (bracket_step inner); [|done]. apply IH.
    pose proof (measure_le (str_drop (2 + String.length inner) (String c tail))) as Hd.
    rewrite length_str_drop in Hd. lia. }
  destruct (isIdentStart c) eqn:Ei; [|done]. apply IH. unfold measure in *. rewrite Ei in Hf.
  change (isIdentStart ".") with false. cbn [String.length] in *. lia.
Qed.

Lemma bracket_step_errors inner : bracket_step inner ≠ Err JErrFuel.
Proof. unfold bracket_step. by repeat go_case. Qed.

Lemma compile_loop_errors fuel rest steps : compile_loop fuel rest steps ≠ Some (Err JErrFuel).
Proof.
  revert rest steps. induction fuel as [|fuel IH]; intros rest steps; [done|]. cbn [compile_loop].
  destruct rest as [|c tail]; [done|].
  destruct (HasPrefix _ ".."); [by destruct (match_ident _)|].
  destruct (HasPrefix _ "."); [by destruct (match_ident _)|].
  destruct (HasPrefix _ "["); [|by destruct (isIdentStart c)].
  destruct (match_bracket _) as [inner|]; [|done].
  pose proof (bracket_step_errors inner). destruct (bracket_step inner); [done|congruence].
Qed.

(** C37 [Compile] terminates on every expression, within [len + 3] iterations: it
    returns steps or one of its own errors. *)
Theorem Compile_total (expr : string) : jsonpath_Compile expr ≠ Err JErrFuel.
Proof.
  unfold jsonpath_Compile. destruct (String.eqb expr ε); [done|].
  set (rest := TrimPrefix expr "$").
  destruct (compile_loop (3 + String.length rest) rest []) as [r|] eqn:E.
  - intros ->. by apply compile_loop_errors in E.
  - exfalso. revert E. apply compile_loop_total. pose proof (measure_le rest). lia.
Qed.

(** ** Printing and parsing *)

Definition is_ident (s : string) : bool :=
  match s with String c s' => isIdentStart c && str_forall is_ident_char s' | ε => false end.

(** One way to write each step. *)
Definition show_step (s : step) : string :=
  match s with
  | stepKey name =>
      if is_ident name then "." +:+ name
      else let q := match IndexByte name quote1 with None => quote1 | Some _ => quote2 end in
           "[" +:+ String q (name +:+ String q "]")
  | stepIndex idx => "[" +:+ Itoa idx +:+ "]"
  | stepWildcard => "[*]"
  | stepRecursive name => ".." +:+ name
  end.

(** The steps the syntax can express. *)
Definition step_ok (s : step) : Prop :=
  match s with
  | stepKey name => IndexByte name quote1 = None ∨ IndexByte name quote2 = None
  | stepIndex idx => int64_ok idx
  | stepWildcard => True
  | stepRecursive name => is_ident name = true
  end.

(** The rest of an expression, as seen by an identifier that ends before it. *)
Definition ends_ident (rest : string) : Prop :=
  match rest with String c _ => is_ident_char c = false | ε => True end.

Lemma prefix_of_app p s rest :
  str_forall p s = true → match rest with String c _ => p c = false | ε => True end →
  prefix_of p (s +:+ rest) = s.
Proof.
  intros Hs Hr. induction s as [|c s IH]; cbn in *.
  - destruct rest as [|c rest]; [done|]. cbn. by rewrite Hr.
  - apply andb_true_iff in Hs as [-> Hs]. by rewrite IH.
Qed.

Lemma match_ident_app name rest :
  is_ident name = true → ends_ident rest → match_ident (name +:+ rest) = Some name.
Proof.
  unfold is_ident. destruct name as [|c name]; [done|]. intros [Hc Hn]%andb_true_iff Hr.
  cbn. rewrite Hc. by rewrite prefix_of_app.
Qed.

Lemma str_take_exact s rest n : String.length s = n → str_take n (s +:+ rest) = s.
Proof. intros <-. apply str_take_append. Qed.

Lemma str_drop_exact s rest n : String.length s = n → str_drop n (s +:+ rest) = rest.
Proof. intros <-. apply str_drop_append. Qed.

Lemma match_quoted_app q name rest :
  IndexByte name q = None →
  match_quoted q (name +:+ String q (String "]" rest)) = Some (String q (name +:+ str1 q)).
Proof.
  intros Hn. unfold match_quoted.
  assert (IndexByte (name +:+ String q (String "]" rest)) q = Some (String.length name)) as ->.
  { rewrite IndexByte_append, Hn. cbn. rewrite Ascii.eqb_refl. cbn. by rewrite Nat.add_0_r. }
  rewrite str_take_append.
  replace (name +:+ String q (String "]" rest)) with ((name +:+ str1 q) +:+ String "]" rest)
    by by rewrite append_assoc.
  rewrite str_drop_exact by (rewrite length_append; cbn; lia). by destruct rest.
Qed.

Lemma bracket_step_quoted q name :
  q = quote1 ∨ q = quote2 → bracket_step (String q (name +:+ str1 q)) = Ok (stepKey name).
Proof.
  intros Hq. unfold bracket_step.
  assert (String.eqb (String q (name +:+ str1 q)) "*" = false) as ->
    by (apply String.eqb_neq; by destruct Hq as [->| ->]).
  assert (HasPrefix (String q (name +:+ str1 q)) (str1 quote1) ||
          HasPrefix (String q (name +:+ str1 q)) (str1 quote2) = true) as ->
    by (destruct Hq as [->| ->]; cbn; by destruct (name +:+ _)).
  do 2 f_equal. cbn [String.length str_drop]. rewrite length_append. apply str_take_exact. cbn. lia.
Qed.

(** The digits of a number. *)
Lemma Itoa_shape z :
  ∃ ds c ds', ds = String c ds' ∧ str_forall is_digit ds = true ∧
    Itoa z = (if z <? 0 then String "-" ds else ds).
Proof.
  unfold Itoa. set (n := Z.abs z).
  destruct (fmt_dec_digit (Z.to_nat (Z.log2 n)) n ε ltac:(lia)) as (c & s & Es & _).
  pose proof (fmt_dec_digits (S (Z.to_nat (Z.log2 n))) n ε ltac:(lia) eq_refl) as Hd.
  rewrite Es in *. by exists (String c s), c, s.
Qed.

Lemma match_number_app z rest :
  match_bracket (Itoa z +:+ String "]" rest) = Some (Itoa z).
Proof.
  destruct (Itoa_shape z) as (ds & c & ds' & -> & Hd & ->).
  assert (match_number (String c ds' +:+ String "]" rest) = Some (String c ds') ∧
          match_number (String "-" (String c ds' +:+ String "]" rest)) = Some (String "-" (String c ds')))
    as [Hpos Hneg].
  { assert (prefix_of is_digit (String c ds' +:+ String "]" rest) = String c ds') as Hp
      by by apply prefix_of_app.
    split.
    - unfold match_number.
      match goal with |- (let '(_, _) := ?q in _) = _ => replace q with (ε, String c ds' +:+ String "]" rest) end.
      + rewrite Hp, str_drop_append. cbn. by destruct rest.
      + cbn in Hd. apply andb_true_iff in Hd as [Hc _].
        destruct c as [[] [] [] [] [] [] [] []]; try done; vm_compute in Hc; discriminate.
    - unfold match_number. rewrite Hp, str_drop_append. cbn. by destruct rest. }
  cbn in Hd. apply andb_true_iff in Hd as [Hc _].
  destruct (z <? 0); [exact Hneg|]. revert Hpos. cbn [append]. intros Hpos. unfold match_bracket.
  assert (Ascii.eqb c "*" = false ∧ Ascii.eqb c quote1 = false ∧ Ascii.eqb c quote2 = false) as (-> & -> & ->);
    [|exact Hpos].
  destruct c as [[] [] [] [] [] [] [] []]; vm_compute in Hc; try discriminate; by vm_compute.
Qed.

Lemma bracket_step_number z : int64_ok z → bracket_step (Itoa z) = Ok (stepIndex z).
Proof.
  intros Hz. unfold bracket_step. rewrite (Atoi_Itoa z Hz).
  destruct (Itoa_shape z) as (ds & c & ds' & -> & Hd & ->). cbn in Hd. apply andb_true_iff in Hd as [Hc _].
  destruct (z <? 0); [by destruct ds'|].
  destruct c as [[] [] [] [] [] [] [] []]; vm_compute in Hc; try discriminate; by destruct ds'.
Qed.

Lemma compile_bracket fuel inner rest steps s :
  match_bracket (inner +:+ String "]" rest) = Some inner → bracket_step inner = Ok s →
  compile_loop (S fuel) ("[" +:+ inner +:+ String "]" rest) steps =
    compile_loop fuel rest (steps ++ [s]).
Proof.
  intros Hm Hs. cbn [compile_loop append].
  change (HasPrefix (String "[" ?x) "..") with false. change (HasPrefix (String "[" ?x) ".") with false.
  replace (HasPrefix (String "[" (inner +:+ String "]" rest)) "[") with true
    by (cbn; by destruct (inner +:+ _)).
  change (str_drop 1 (String "[" ?x)) with x. rewrite Hm, Hs. f_equal.
  change (str_drop (2 + String.length inner) (String "[" ?x)) with (str_drop (S (String.length inner)) x).
  replace (inner +:+ String "]" rest) with ((inner +:+ "]") +:+ rest) by by rewrite append_assoc.
  apply str_drop_exact. rewrite length_append. cbn. lia.
Qed.

(** One step of the loop reads one printed step. *)
Lemma compile_show fuel s rest steps :
  step_ok s → ends_ident rest →
  compile_loop (S fuel) (show_step s +:+ rest) steps = compile_loop fuel rest (steps ++ [s]).
Proof.
  intros Hs Hr. destruct s as [name|idx| |name].
  - unfold show_step. destruct (is_ident name) eqn:Ei.
    + cbn [compile_loop append].
      replace (HasPrefix (String "." (name +:+ rest)) "..") with false
        by (destruct name as [|c name]; [done|]; cbn in Ei; apply andb_true_iff in Ei as [Ec _];
            by destruct c as [[] [] [] [] [] [] [] []]).
      replace (HasPrefix (String "." (name +:+ rest)) ".") with true by (cbn; by destruct (name +:+ _)).
      change (str_drop 1 (String "." ?x)) with x. rewrite match_ident_app by done.
      f_equal. exact (str_drop_append name rest).
    + set (q := match IndexByte name quote1 with None => quote1 | Some _ => quote2 end).
      assert ((q = quote1 ∨ q = quote2) ∧ IndexByte name q = None) as [Hq Hn].
      { subst q. destruct (IndexByte name quote1) eqn:E; [|auto]. destruct Hs as [Hs|Hs]; [congruence|auto]. }
      replace (("[" +:+ String q (name +:+ String q "]")) +:+ rest)
        with ("[" +:+ String q (name +:+ str1 q) +:+ String "]" rest)
        by (cbn; rewrite !append_assoc; done).
      apply compile_bracket; [|by apply bracket_step_quoted]. cbn [append]. rewrite append_assoc. cbn [append str1].
      unfold match_bracket. destruct Hq as [E|E]; rewrite E in *; by apply match_quoted_app.
  - unfold show_step. replace (("[" +:+ Itoa idx +:+ "]") +:+ rest)
      with ("[" +:+ Itoa idx +:+ String "]" rest) by (rewrite !append_assoc; done).
    apply compile_bracket; [apply match_number_app|by apply bracket_step_number].
  - apply (compile_bracket fuel "*" rest steps stepWildcard); [|done]. cbn. by destruct rest.
  - unfold show_step. cbn [compile_loop append].
    replace (HasPrefix (String "." (String "." (name +:+ rest))) "..") with true by (cbn; by destruct (name +:+ _)).
    change (str_drop 2 (String "." (String "." ?x))) with x. rewrite match_ident_app by done.
    f_equal. exact (str_drop_append name rest).
Qed.

Lemma show_ends_ident steps : Forall step_ok steps → ends_ident (str_concat (map show_step steps)).
Proof.
  intros [|s l Hs _]; [done|]. cbn. destruct s as [name|idx| |name]; cbn; try done.
  by destruct (is_ident name).
Qed.

Lemma compile_show_all steps acc fuel :
  Forall step_ok steps → (length steps < fuel)%nat →
  compile_loop fuel (str_concat (map show_step steps)) acc = Some (Ok (acc ++ steps)).
Proof.
  intros Hs. revert acc fuel. induction Hs as [|s steps Hs Hss IH]; intros acc fuel Hf.
  - destruct fuel; [lia|]. cbn. by rewrite app_nil_r.
  - destruct fuel as [|fuel]; [lia|]. cbn [map str_concat].
    rewrite compile_show by (done || by apply show_ends_ident).
    rewrite IH by (cbn in Hf; lia). by rewrite <- app_assoc.
Qed.

(** C36 Round trip: printing any list of expressible steps, with a quoted name where
    the name is not an identifier, and compiling the text gives the steps back. *)
Theorem Compile_print (steps : list step) :
  Forall step_ok steps →
  jsonpath_Compile ("$" +:+ str_concat (map show_step steps)) = Ok steps.
Proof.
  intros Hs. unfold jsonpath_Compile. cbn [String.eqb append].
  set (txt := str_concat (map show_step steps)).
  replace (TrimPrefix (String "$" txt) "$") with txt by (unfold TrimPrefix, HasPrefix; cbn; by destruct txt).
  assert (length steps ≤ String.length txt)%nat as Hlen.
  2: { pose proof (compile_show_all steps [] (3 + String.length txt) Hs ltac:(lia)) as E.
       fold txt in E. by rewrite E. }
  subst txt. clear Hs. induction steps as [|s steps IH]; cbn; [lia|]. rewrite length_append.
  assert (1 ≤ String.length (show_step s))%nat; [|lia].
  destruct s as [name|idx| |name]; cbn; try lia. destruct (is_ident name); cbn; lia.
Qed.

Lemma Compile_print_witness :
  jsonpath_Compile ("$.items[-1]['x y'][*]..id") =
    Ok [stepKey "items"; stepIndex (-1); stepKey "x y"; stepWildcard; stepRecursive "id"].
Proof.
  apply (Compile_print [stepKey "items"; stepIndex (-1); stepKey "x y"; stepWildcard; stepRecursive "id"]).
  repeat constructor; by vm_compute.
Defined.

(** ** What Eval selects *)

(** A value stored under [name] somewhere below a node, the node included. *)
Inductive below (name : string) : gval → gval → Prop :=
| below_here m v : map_get m name = Some v → below name (GMap m) v
| below_map m k x v : (k, x) ∈ m → below name x v → below name (GMap m) v
| below_list l x v : x ∈ l → below name x v → below name (GList l) v.

(** The documented meaning of one step. *)
Inductive selects1 : step → gval → gval → Prop :=
| sel_key name m v : map_get m name = Some v → selects1 (stepKey name) (GMap m) v
| sel_index idx l i v :
    l !! i = Some v → (Z.of_nat i = idx ∨ Z.of_nat i - Z.of_nat (length l) = idx) →
    selects1 (stepIndex idx) (GList l) v
| sel_elem l v : v ∈ l → selects1 stepWildcard (GList l) v
| sel_value m k v : map_get m k = Some v → selects1 stepWildcard (GMap m) v
| sel_rec name n v : below name n v → selects1 (stepRecursive name) n v.

Inductive selects : list step → gval → gval → Prop :=
| sel_nil v : selects [] v v
| sel_cons s steps n x v : selects1 s n x → selects steps x v → selects (s :: steps) n v.

Lemma bubble_perm x l : bubble x l ≡ₚ x :: l.
Proof.
  induction l as [|y l IH]; cbn; [done|]. destruct (negb _); [|done].
  rewrite IH. apply Permutation_swap.
Qed.

Lemma foldl_bubble_perm l acc : foldl (λ pre x, bubble x pre) acc l ≡ₚ l ++ acc.
Proof.
  revert acc. induction l as [|x l IH]; intros acc; cbn; [done|].
  rewrite IH, bubble_perm. symmetry. apply Permutation_middle.
Qed.

Lemma sortStrings_perm l : sortStrings l ≡ₚ l.
Proof.
  unfold sortStrings. rewrite <- Permutation_rev, foldl_bubble_perm. by rewrite app_nil_r.
Qed.

Lemma bubble_sorted x l :
  StronglySorted (flip string_le) l → StronglySorted (flip string_le) (bubble x l).
Proof.
  induction 1 as [|y l Hl IH Hy]; cbn; [by repeat constructor|].
  destruct (string_leb y x) eqn:E; cbn [negb].
  - constructor; [by constructor|]. constructor; [done|].
    eapply Forall_impl; [exact Hy|]. intros z Hz. unfold flip in *. by transitivity y.
  - constructor; [done|]. rewrite bubble_perm. constructor; [|done]. unfold flip.
    destruct (total string_le y x) as [Hle|]; [|done]. unfold string_le in Hle. congruence.
Qed.

Lemma StronglySorted_rev (l : list string) :
  StronglySorted (flip string_le) l → StronglySorted string_le (rev l).
Proof.
  induction 1 as [|y l Hl IH Hy]; cbn; [constructor|].
  apply StronglySorted_app. split_and!; [|done|by repeat constructor].
  intros a b Ha Hb. apply list_elem_of_singleton in Hb as ->. rewrite Forall_forall in Hy.
  apply Hy. apply list_elem_of_In. apply list_elem_of_In, in_rev in Ha. done.
Qed.

Lemma sortStrings_sorted l : StronglySorted string_le (sortStrings l).
Proof.
  unfold sortStrings. apply StronglySorted_rev.
  assert (∀ acc, StronglySorted (flip string_le) acc →
    StronglySorted (flip string_le) (foldl (λ pre x, bubble x pre) acc l)) as Hf.
  { induction l as [|x l IH]; intros acc Ha; cbn; [done|]. by apply IH, bubble_sorted. }
  apply Hf. constructor.
Qed.

Lemma elem_flat_map {A B} (f : A → list B) l (y : B) : y ∈ flat_map f l ↔ ∃ x, x ∈ l ∧ y ∈ f x.
Proof.
  rewrite list_elem_of_In, in_flat_map. split; intros (x & H1 & H2); exists x;
    rewrite ?list_elem_of_In in *; done.
Qed.

Lemma collect_below n name v : v ∈ collectRecursive n name ↔ below name n v.
Proof.
  revert n. apply (gval_ind' (λ n, v ∈ collectRecursive n name ↔ below name n v));
    [|intros l IH|intros l IH|intros m IH|intros m IH|intros m IH].
  - intros []; try done; cbn; (split; [by intros ?%elem_of_nil|by inversion 1]).
  - cbn. rewrite elem_flat_map, Forall_forall in *. split.
    + intros (x & Hx & Hv). eapply below_list; [done|]. by apply IH.
    + inversion 1; subst. eexists. split; [done|]. by apply IH.
  - cbn. split; [by intros ?%elem_of_nil|by inversion 1].
  - cbn. rewrite elem_of_app, elem_flat_map, Forall_forall in *. split.
    + intros [Hv|([k x] & Hx & Hv)].
      * destruct (map_get m name) as [w|] eqn:E; cbn in Hv; [|by apply elem_of_nil in Hv].
        apply list_elem_of_singleton in Hv as ->. by apply below_here.
      * eapply below_map; [done|]. by apply (IH (k, x)).
    + inversion 1 as [m' w E|m' k x w Hx Hb|]; subst.
      * left. rewrite E. by apply list_elem_of_singleton.
      * right. exists (k, x). split; [done|]. by apply (IH (k, x)).
  - cbn. split; [by intros ?%elem_of_nil|by inversion 1].
  - cbn. split; [by intros ?%elem_of_nil|by inversion 1].
Qed.

Lemma eval_step_selects s n v : v ∈ eval_step s n ↔ selects1 s n v.
Proof.
  destruct s as [name|idx| |name].
  - destruct n; cbn; try (split; [by intros ?%elem_of_nil|by inversion 1]).
    destruct (map_get m name) as [w|] eqn:E; cbn.
    + rewrite list_elem_of_singleton. split; [intros ->; by constructor|inversion 1; congruence].
    + split; [by intros ?%elem_of_nil|inversion 1; congruence].
  - destruct n; cbn; try (split; [by intros ?%elem_of_nil|by inversion 1]).
    set (i := if idx <? 0 then Z.of_nat (length l) + idx else idx). split.
    + destruct (_ && _) eqn:E; [|by intros ?%elem_of_nil]. intros Hv.
      destruct (l !! Z.to_nat i) as [w|] eqn:El; [|by apply elem_of_nil in Hv].
      apply list_elem_of_singleton in Hv as ->. econstructor; [exact El|]. subst i.
      destruct (Z.ltb_spec idx 0); lia.
    + inversion 1 as [|idx' l' j w Hj Hi| | |]; subst. pose proof (lookup_lt_Some _ _ _ Hj).
      assert (i = Z.of_nat j) as -> by (subst i; destruct (Z.ltb_spec idx 0); lia).
      replace ((0 <=? Z.of_nat j) && (Z.of_nat j <? Z.of_nat (length l))) with true by lia.
      rewrite Nat2Z.id, Hj. by apply list_elem_of_singleton.
  - destruct n; cbn; try (split; [by intros ?%elem_of_nil|by inversion 1]).
    + split; [by constructor|by inversion 1].
    + rewrite list_elem_of_In, in_map_iff. split.
      * intros (k & <- & Hk%list_elem_of_In). rewrite sortStrings_perm in Hk.
        destruct (map_get m k) as [w|] eqn:E; [by econstructor|]. by apply map_get_None in E.
      * inversion 1 as [| | |m' k w E|]; subst. exists k. rewrite E. split; [done|].
        apply list_elem_of_In. rewrite sortStrings_perm. apply map_get_Some in E.
        apply list_elem_of_fmap. by exists (k, v).
  - cbn. assert (v ∈ collectRecursive n name ↔ selects1 (stepRecursive name) n v) as Hc.
    { rewrite collect_below. split; [by constructor|by inversion 1]. }
    by destruct n.
Qed.

Lemma jsonpath_Eval_iff steps root v :
  v ∈ jsonpath_Eval steps root ↔ selects steps root v.
Proof.
  unfold jsonpath_Eval.
  assert (∀ nodes, v ∈ foldl (λ nodes s, flat_map (eval_step s) nodes) nodes steps ↔
    ∃ n, n ∈ nodes ∧ selects steps n v) as Hf.
  { induction steps as [|s steps IH]; intros nodes; cbn.
    - split; [intros Hv; exists v; by split; [|constructor]|]. intros (n & Hn & Hs). by inversion Hs; subst.
    - rewrite IH. setoid_rewrite elem_flat_map. setoid_rewrite eval_step_selects. split.
      + intros (x & (n & Hn & Hs) & Hx). exists n. split; [done|]. by econstructor.
      + intros (n & Hn & Hs). inversion Hs; subst. eauto 10. }
  rewrite Hf. split.
  - by intros (n & ->%list_elem_of_singleton & Hs).
  - intros Hs. exists root. split; [by apply list_elem_of_singleton|done].
Qed.

(** C35 [Eval] returns a value exactly when the documented meaning of the steps
    selects it: keys, indices counted from either end, wildcards over elements or
    values, and every occurrence of a name at any depth. *)
Theorem Eval_selects (steps : list step) (root v : gval) :
  v ∈ jsonpath_Eval steps root ↔ selects steps root v.
Proof. apply jsonpath_Eval_iff. Qed.

(** A wildcard over an object lists its values in the order of the sorted keys,
    whatever order Go visits the map in; recursive descent does not: the order of
    its results follows the visit, which Go leaves unspecified. *)
Theorem wildcard_deterministic (m m' : list (string * gval)) :
  NoDup m.*1 → m ≡ₚ m' →
  eval_step stepWildcard (GMap m) = eval_step stepWildcard (GMap m') ∧
  StronglySorted string_le (sortStrings m.*1) ∧
  (∃ (a b : gval), let l := [("a", GMap [("id", a)]); ("b", GMap [("id", b)])] in
     jsonpath_Eval [stepRecursive "id"] (GMap l) ≠ jsonpath_Eval [stepRecursive "id"] (GMap (rev l))).
Proof.
  intros Hnd Hp. split_and!.
  - cbn. assert (sortStrings m.*1 = sortStrings m'.*1) as ->.
    { apply sorted_unique; [apply sortStrings_sorted..|]. by rewrite !sortStrings_perm, Hp. }
    apply map_ext. intros k. by rewrite (map_get_perm m m').
  - apply sortStrings_sorted.
  - exists (GBool true), (GBool false). by vm_compute.
Qed.

Definition two_users : gval :=
  GMap [("b", GMap [("id", GInt 2)]); ("a", GMap [("id", GInt 1)]); ("l", GList [GInt 7; GInt 8])].

Lemma Eval_selects_witness :
  selects [stepKey "l"; stepIndex (-1)] two_users (GInt 8) ∧
  ¬ selects [stepKey "l"; stepIndex 2] two_users (GInt 8).
Proof.
  split.
  - apply (proj1 (Eval_selects [stepKey "l"; stepIndex (-1)] two_users (GInt 8))). vm_compute. left.
  - intros Hs. apply (proj2 (Eval_selects _ _ _)) in Hs. vm_compute in Hs. by apply elem_of_nil in Hs.
Defined.

Lemma wildcard_deterministic_witness :
  eval_step stepWildcard (GMap [("b", GInt 2); ("a", GInt 1)]) =
  eval_step stepWildcard (GMap [("a", GInt 1); ("b", GInt 2)]).
Proof.
  apply (wildcard_deterministic [("b", GInt 2); ("a", GInt 1)] [("a", GInt 1); ("b", GInt 2)]).
  - apply (bool_decide_unpack _). by vm_compute.
  - apply Permutation_swap.
Defined.
