(* ===== verification/CelFunctions.v ===== *)
(** * internal/celenv/{http,data,encoding}.go: the other functions of the expressions

    The bindings of [has], [firstOr] (two overloads), [jsonPath], [parseJSON],
    [parseYAML], [sha256Hex] and [parseJWTUnverified], on the values CEL hands to
    them.  How cel-go wraps a native value is the class [CelAdapter]: wrapping a
    map or a list and asking for its [Value()] gives the native value back. *)

From S2P Require Import Prelude GoStrings GoHttp GoValues CelEnv Facts Policy Evaluate.
From S2P Require Import GoNet Net GoEncoding JsonPath Instances EvalTheorems.
Local Open Scope Z_scope.

(** Native maps and lists. *)
Definition is_container (v : gval) : bool :=
  match v with
  | GStrings _ | GList _ | GMap _ | GMapStrings _ | GMapString _ => true
  | _ => false
  end.

Class CelAdapter := {
  NativeToValue : gval → refval;
  NewDynamicList : list gval → refval;
  NewStringInterfaceMap : list (string * gval) → refval;
  Value_native : ∀ v, is_container v = true → Value (NativeToValue v) = v;
  Value_dynamic_list : ∀ l, Value (NewDynamicList l) = GList l;
  Value_string_map : ∀ m, Value (NewStringInterfaceMap m) = GMap m;
}.

(** ** http.go *)

(** [anyNonEmpty]. *)
Fixpoint anyNonEmpty (vs : list string) : bool :=
  match vs with
  | [] => false
  | v :: vs' => if negb (String.eqb v ε) then true else anyNonEmpty vs'
  end.

Definition non_empty_string (v : gval) : bool :=
  match v with GString s => negb (String.eqb s ε) | _ => false end.

(** The binding of [has]. *)
Definition has (nameV bucketV : refval) : bool :=
  let name := stringOf nameV in
  match Value bucketV with
  | GMapStrings b => match b !! name with Some vals => anyNonEmpty vals | None => false end
  | GMap alt =>
      match map_get alt name with
      | Some (GStrings x) => anyNonEmpty x
      | Some (GList x) => existsb non_empty_string x
      | _ => false
      end
  | _ => false
  end.

(** [firstOr] over a map of strings. *)
Definition firstOr_string (bucketV nameV defV : refval) : string :=
  let name := stringOf nameV in
  let def := stringOf defV in
  match Value bucketV with
  | GMapString b =>
      match b !! name with
      | Some v => if negb (String.eqb v ε) then v else def
      | None => def
      end
  | GMap alt =>
      match map_get alt name with
      | Some (GString s) => if negb (String.eqb s ε) then s else def
      | _ => def
      end
  | _ => def
  end.

(** [firstOr] over a map of lists of strings. *)
Definition firstOr_list (bucketV nameV defV : refval) : string :=
  let name := stringOf nameV in
  let def := stringOf defV in
  match Value bucketV with
  | GMapStrings b =>
      match b !! name with
      | Some (v :: _) => if negb (String.eqb v ε) then v else def
      | _ => def
      end
  | GMap alt =>
      match map_get alt name with
      | Some (GStrings (v :: _)) => if negb (String.eqb v ε) then v else def
      | Some (GList (GString s :: _)) => if negb (String.eqb s ε) then s else def
      | _ => def
      end
  | _ => def
  end.

(** ** data.go *)

Section data.
Context `{CelAdapter, Decoders}.

Definition emptyMap : refval := NativeToValue (GMap []).

(** [normalise]. *)
Fixpoint normalise (v : gval) : gval :=
  match v with
  | GMapAny m =>
      GMap (foldl (λ out kv, map_set out kv.1 kv.2) []
              (map (λ kv, (Sprint kv.1, normalise kv.2)) m))
  | GMap m => GMap (map (λ kv, (kv.1, normalise kv.2)) m)
  | GList l => GList (map normalise l)
  | _ => v
  end.

(** [parseJSONFromAny]. *)
Definition parseJSONFromAny (v : refval) : refval :=
  match Value v with
  | GString s =>
      if String.eqb s ε then emptyMap
      else match json_Unmarshal s with
           | None => emptyMap
           | Some raw => NativeToValue (normalise raw)
           end
  | _ => emptyMap
  end.

(** [parseYAMLFromAny]. *)
Definition parseYAMLFromAny (v : refval) : refval :=
  match Value v with
  | GString s =>
      if String.eqb s ε then emptyMap
      else match yaml_Unmarshal s with
           | None => emptyMap
           | Some raw => NativeToValue (normalise raw)
           end
  | _ => emptyMap
  end.

(** The binding of [jsonPath]. *)
Definition jsonPath (rootv pathv : refval) : refval :=
  match jsonpath_Compile (stringOf pathv) with
  | Err _ => NewDynamicList []
  | Ok expr => NewDynamicList (jsonpath_Eval expr (Value rootv))
  end.

(** ** encoding.go *)

(** The binding of [sha256Hex]. *)
Definition sha256Hex (v : refval) : string := hex_EncodeToString (Sum256 (stringOf v)).

(** [json.Unmarshal] into a [map[string]any]: an object, or null, which leaves the
    map nil. *)
Definition json_object (raw : string) : option (list (string * gval)) :=
  match json_Unmarshal raw with
  | Some (GMap m) => Some m
  | Some GNil => Some []
  | _ => None
  end.

(** [decodeJWTSegment]: the map and whether there was an error. *)
Definition decodeJWTSegment (s : string) : list (string * gval) * bool :=
  let raw := match b64_DecodeString false s with
             | Some raw => Some raw
             | None => b64_DecodeString true s
             end in
  match raw with
  | None => ([], true)
  | Some raw =>
      match json_object raw with
      | None => ([], true)
      | Some out => (out, false)
      end
  end.

(** The binding of [parseJWTUnverified]. *)
Definition parseJWTUnverified (v : refval) : refval :=
  match Split (stringOf v) "." with
  | p0 :: p1 :: _ =>
      NewStringInterfaceMap
        [("header", GMap (decodeJWTSegment p0).1); ("payload", GMap (decodeJWTSegment p1).1)]
  | _ => NewStringInterfaceMap []
  end.

(** ** Lemmas *)

Lemma anyNonEmpty_true vs : anyNonEmpty vs = true ↔ ∃ v, v ∈ vs ∧ v ≠ ε.
Proof.
  induction vs as [|v vs IH]; cbn; [set_solver|].
  destruct (String.eqb_spec v ε) as [->|Hne]; cbn [negb].
  - rewrite IH. set_solver.
  - split; [|done]. intros _. exists v. set_solver.
Qed.

(** Both copies of the normalisation agree. *)
Lemma normalise_eq v : normalise v = normaliseDecoded v.
Proof. reflexivity. Qed.

Lemma b64_either pad s :
  match b64_DecodeString false (b64_EncodeToString pad s) with
  | Some raw => Some raw
  | None => b64_DecodeString true (b64_EncodeToString pad s)
  end = Some s.
Proof.
  destruct pad; [|by rewrite b64_roundtrip]. rewrite (b64_roundtrip true).
  unfold b64_DecodeString, b64_EncodeToString. rewrite String.list_ascii_of_string_of_list_ascii.
  pose proof (bytes_of_string s) as Hb. rewrite List_filter_id.
  - destruct (b64_raw_padded _ Hb) as [-> | ->]; cbn [mbind option_bind]; [by rewrite chr_bytes|done].
  - apply b64_encode_forall; [done| |done]. intros v Hv. by rewrite (proj1 (b64_char_plain v Hv)).
Qed.

Lemma IndexByte_of_list l c :
  forallb (λ d, negb (Ascii.eqb d c)) l = true → IndexByte (String.string_of_list_ascii l) c = None.
Proof.
  induction l as [|d l IH]; cbn; [done|]. intros [Hd Hl]%andb_true_iff.
  destruct (Ascii.eqb d c); [done|]. by rewrite IH.
Qed.

Lemma b64_no_dot pad s : IndexByte (b64_EncodeToString pad s) "." = None.
Proof.
  apply IndexByte_of_list, b64_encode_forall; [apply bytes_of_string| |done].
  intros v Hv. by rewrite (proj2 (b64_char_plain v Hv)).
Qed.

Lemma decodeJWTSegment_encoded pad s m :
  json_object s = Some m → decodeJWTSegment (b64_EncodeToString pad s) = (m, false).
Proof. intros Hj. unfold decodeJWTSegment. rewrite b64_either. by rewrite Hj. Qed.

Lemma Eval_empty_document steps : steps ≠ [] → jsonpath_Eval steps (GMap []) = [].
Proof.
  intros Hne. destruct (jsonpath_Eval steps (GMap [])) as [|v l] eqn:E; [done|].
  assert (selects steps (GMap []) v) as Hs by (apply jsonpath_Eval_iff; rewrite E; left).
  destruct steps as [|st steps]; [done|]. inversion Hs as [|? ? ? x ? H1]; subst.
  assert (∀ name v, ¬ below name (GMap []) v) as Hb by (intros ?? Hb; inversion Hb; set_solver).
  inversion H1; subst; [done..|]. by edestruct Hb.
Qed.

Lemma Value_emptyMap : Value emptyMap = GMap [].
Proof. by apply Value_native. Qed.

(** The digest is 64 lower-case hexadecimal digits. *)
Lemma sha256Hex_shape v :
  String.length (sha256Hex v) = 64%nat ∧
  str_forall is_hex_lower (sha256Hex v) = true.
Proof.
  unfold sha256Hex. destruct (hex_EncodeToString_spec (Sum256 (stringOf v))) as [-> ->].
  by rewrite Sum256_length.
Qed.

Lemma Split_dot s : IndexByte s "." ≠ None → ∃ a b l, Split s "." = a :: b :: l.
Proof.
  destruct (IndexByte s ".") as [i|] eqn:E; [|done]. intros _.
  destruct (IndexByte_Some s "." i E) as [Hs Hn]. rewrite Hs, Split_append by done.
  pose proof (Split_nonempty (str_drop (S i) s) ".") as Hne.
  destruct (Split (str_drop (S i) s) ".") as [|b l]; [done|]. by exists (str_take i s), b, l.
Qed.

(** The data helpers never fail an expression: [parseJSON] and [parseYAML] of a
    value that is no string, of the empty string and of a malformed document give
    the empty map, and [jsonPath] gives no value on a path that does not compile
    and on the empty document, whatever non-trivial path is asked of it. *)
Theorem data_errors (v pathv : refval) :
  ((∀ s, Value v = GString s → s = ε ∨ json_Unmarshal s = None) →
   Value (parseJSONFromAny v) = GMap []) ∧
  ((∀ s, Value v = GString s → s = ε ∨ yaml_Unmarshal s = None) →
   Value (parseYAMLFromAny v) = GMap []) ∧
  (∀ e, jsonpath_Compile (stringOf pathv) = Err e → Value (jsonPath v pathv) = GList []) ∧
  (∀ steps, jsonpath_Compile (stringOf pathv) = Ok steps → steps ≠ [] →
   Value (jsonPath emptyMap pathv) = GList []).
Proof.
  split_and!.
  - intros Hv. rewrite <- Value_emptyMap. f_equal. unfold parseJSONFromAny.
    destruct (Value v) as [| | | | | |s| | | | | | | | |]; try done.
    destruct (Hv s eq_refl) as [-> | Hs]; [done|]. rewrite Hs. by destruct (String.eqb s ε).
  - intros Hv. rewrite <- Value_emptyMap. f_equal. unfold parseYAMLFromAny.
    destruct (Value v) as [| | | | | |s| | | | | | | | |]; try done.
    destruct (Hv s eq_refl) as [-> | Hs]; [done|]. rewrite Hs. by destruct (String.eqb s ε).
  - intros e He. unfold jsonPath. rewrite He. apply Value_dynamic_list.
  - intros steps Hs Hne. unfold jsonPath. rewrite Hs, Value_dynamic_list, Value_emptyMap.
    by rewrite Eval_empty_document.
Qed.



End data.

Section request_shortcuts.
Context `{CelAdapter, Decoders, UnicodeTables, GoRange}.

(** The first value of a header, or the default when there is none or it is empty. *)
Definition get_or (h : Header) (name def : string) : string :=
  if String.eqb (Header_Get h name) ε then def else Header_Get h name.

(** In an expression, [has(name, request.headers)] says whether the request
    carries a non-empty value of the header, and both forms of [firstOr], over
    [request.header] and over [request.headers], give what [http.Header.Get]
    returns, or the default where that is empty; the name is asked for in lower
    case, whatever its case on the wire. *)
Theorem header_shortcuts (r : Request) (name def : string) :
  header_wf (q_Headers r) → valid_token name = true →
  ∃ m headers header,
    buildRequestVar r = GMap m ∧ map_get m "headers" = Some headers ∧
    map_get m "header" = Some header ∧
    let key := types_String (ToLower name) in
    (has key (NativeToValue headers) = true ↔
       ∃ v, v ∈ header_values (q_Headers r) name ∧ v ≠ ε) ∧
    firstOr_string (NativeToValue header) key (types_String def) = get_or (q_Headers r) name def ∧
    firstOr_list (NativeToValue headers) key (types_String def) = get_or (q_Headers r) name def.
Proof.
  intros Hwf Hn. destruct (headers_projection _ _ Hwf Hn) as [Hall Hfirst].
  unfold buildRequestVar. destruct (project_headers (q_Headers r)) as [hs h1] eqn:E.
  destruct (project_query (q_RawQuery r)) as [qs q1]. cbn [fst snd] in *.
  eexists _, (GMapStrings hs), (GMapString h1). do 3 (split; [reflexivity|]).
  cbv zeta. unfold has, firstOr_string, firstOr_list, get_or, Header_Get, header_values.
  rewrite !Value_native by done. cbn [stringOf Value]. unfold stringOf. cbn [Value].
  rewrite Hall, Hfirst. destruct (q_Headers r !! CanonicalHeaderKey name) as [[|v vs]|] eqn:Ev; cbn.
  - split_and!; [set_solver|done..].
  - split_and!; [|by destruct (String.eqb v ε)..]. apply (anyNonEmpty_true (v :: vs)).
  - split_and!; [set_solver|done..].
Qed.

End request_shortcuts.

(** ** Witnesses *)

#[global] Instance wrapping_adapter : CelAdapter.
Proof.
  refine {| NativeToValue := ref_other; NewDynamicList := λ l, ref_other (GList l);
            NewStringInterfaceMap := λ m, ref_other (GMap m) |}; done.
Defined.

Definition quote : string := String "034" ε.

(** An object with one field. *)
Definition json_field (k v : string) : string :=
  "{" +:+ quote +:+ k +:+ quote +:+ ":" +:+ quote +:+ v +:+ quote +:+ "}".

(** Decoders that know two documents, one of them an object with an [any]-keyed map
    as YAML gives them. *)
Definition two_documents : Decoders :=
  {| json_Unmarshal := λ s,
       if String.eqb s (json_field "alg" "none") then Some (GMap [("alg", GString "none")])
       else if String.eqb s (json_field "sub" "ops") then Some (GMap [("sub", GString "ops")])
       else None;
     yaml_Unmarshal := λ s,
       if String.eqb s "1: x" then Some (GMapAny [(GInt 1, GString "x")]) else None;
     sprint_other := λ _, "?" |}.

Lemma header_shortcuts_witness :
  ∃ m headers header,
    buildRequestVar get_request = GMap m ∧ map_get m "headers" = Some headers ∧
    map_get m "header" = Some header ∧
    has (types_String "x-tag") (NativeToValue headers) = true ∧
    firstOr_string (NativeToValue header) (types_String "x-tag") (types_String "none") = "one".
Proof.
  assert (header_wf (q_Headers get_request)) as Hwf
    by (cbn; by apply header_wf_Add; [|apply header_wf_Add]).
  destruct (header_shortcuts get_request "X-TAG" "none" Hwf eq_refl)
    as (m & hs & h1 & Hm & Hs & H1 & Hhas & Hstr & _).
  exists m, hs, h1. split_and!; [exact Hm|exact Hs|exact H1| |exact Hstr].
  apply Hhas. exists "one". split; [by vm_compute; left|done].
Defined.

Lemma data_errors_witness :
  Value (parseJSONFromAny (ref_other GNil)) = GMap [] ∧
  Value (jsonPath (parseYAMLFromAny (types_String "a: [")) (types_String "$.users[0")) = GList [] ∧
  Value (jsonPath emptyMap (types_String "$.users[0].name")) = GList [].
Proof.
  split_and!.
  - by apply (proj1 (data_errors (ref_other GNil) (types_String "$"))).
  - destruct (data_errors (parseYAMLFromAny (types_String "a: [")) (types_String "$.users[0"))
      as (_ & _ & Hpath & _). eapply Hpath. by vm_compute.
  - destruct (data_errors (ref_other GNil) (types_String "$.users[0].name")) as (_ & _ & _ & Hdoc).
    eapply Hdoc; [by vm_compute|done].
Defined.


