(* ===== verification/Lifecycle.v ===== *)
(** * cmd/main.go: the life of the process

    What [main] does after boot, with every goroutine it starts: the SIGHUP loop, the
    callbacks of the file watcher (each on a goroutine of its own), the two servers'
    [Run], the refresh loops of the facts, and [main] itself, which waits for a signal
    or for a server to return and then stops everything.  The goroutines interleave
    freely, the steps of a reload being those of Reload.v. *)

From S2P Require Import Prelude GoStrings GoHttp GoValues CelEnv Facts Policy Evaluate.
From S2P Require Import Log Instances Reload ReloadTheorems.
Local Open Scope Z_scope.

(** ** The servers' Run and Stop *)

(** What [ListenAndServe] and [Serve] return: the error that reports a requested stop,
    or another one. *)
Inductive serve_error : Type :=
| ErrServerClosed
| ErrServe (text : string).

(** [httpserver.Server.Run] on what [ListenAndServe] returned; [None] is nil. *)
Definition http_Run (err : serve_error) : option string :=
  match err with
  | ErrServerClosed => None
  | ErrServe e => Some e
  end.

(** [grpcserver.Server.Run] on what [net.Listen] and then [Serve] returned. *)
Definition grpc_Run (listen : result string unit) (served : option serve_error) : option string :=
  match listen with
  | Err err => Some err
  | Ok _ =>
      match served with
      | Some ErrServerClosed => None
      | Some (ErrServe e) => Some e
      | None => None
      end
  end.

(** The field [srv] and what its listener does: nil, serving, asked to stop, or
    [Run] has returned. *)
Inductive listener : Type := LNil | LServing | LShut | LReturned.

#[global] Instance listener_eq : EqDecision listener.
Proof. solve_decision. Defined.

(** [httpserver.Server.Stop] and [grpcserver.Server.Stop]: nothing where [srv] is
    nil. *)
Definition http_Stop (l : listener) : listener :=
  match l with LNil => LNil | LServing => LShut | LShut => LShut | LReturned => LReturned end.

Definition grpc_Stop (l : listener) : listener :=
  match l with LNil => LNil | LServing => LShut | LShut => LShut | LReturned => LReturned end.

(** ** The process *)

(** Where [main] is: at the select, in the branch of the signal, or gone. *)
Inductive main_state : Type :=
| MSelect
| MStopHttp
| MStopGrpc
| MLoadPolicy
| MStopPolicy (p : option nat)
| MWait (p : option nat)
| MStopped (p : option nat)
| MServerReturned
| MExit (code : Z).

Definition running (m : main_state) : bool :=
  match m with MStopped _ | MServerReturned | MExit _ => false | _ => true end.

Section state.
Context `{CelGo}.

(** [lf_hup] is the buffer of one signal; thread 0 is the SIGHUP loop, [TDone] when
    it waits.  [lf_refused] is a history variable: the policies whose facts failed
    to start. *)
Record life := mkLife {
  lf_pr : process;
  lf_hup : bool;
  lf_threads : list thread;
  lf_http : listener;
  lf_grpc : listener;
  lf_errCh : list (option string);
  lf_main : main_state;
  lf_refused : list nat;
}.

Definition set_main (s : life) (pr : process) (m : main_state) : life :=
  mkLife pr (lf_hup s) (lf_threads s) (lf_http s) (lf_grpc s) (lf_errCh s) m (lf_refused s).
Definition set_listeners (s : life) (h g : listener) (errs : list (option string)) : life :=
  mkLife (lf_pr s) (lf_hup s) (lf_threads s) h g (lf_errCh s ++ errs) (lf_main s) (lf_refused s).
Definition set_threads (s : life) (pr : process) (ts : list thread) (refused : list nat) : life :=
  mkLife pr (lf_hup s) ts (lf_http s) (lf_grpc s) (lf_errCh s) (lf_main s) (lf_refused s ++ refused).
Definition set_hup (s : life) (b : bool) (ts : list thread) : life :=
  mkLife (lf_pr s) b ts (lf_http s) (lf_grpc s) (lf_errCh s) (lf_main s) (lf_refused s).

(** After boot. *)
Definition life0 (pr : process) : life := mkLife pr false [TDone] LNil LNil [] MSelect [].

Definition info (pr : process) (msg : string) (kv : list attr) : process :=
  emit pr (mkRecord LevelInfo msg kv).

(** The policies a step of a reload added to the store without going on with them. *)
Definition refused_by (pr pr' : process) (t' : thread) : list nat :=
  match t' with
  | TDone => seq (length (pr_store pr)) (length (pr_store pr') - length (pr_store pr))
  | _ => []
  end.

(** A turn of a refresh loop, or its end. *)
Inductive bg_step (r r' : Registry) : Prop :=
| bg_refresh i res : refresh r i res = Some r' → bg_step r r'
| bg_exit i : exit_proc r i = Some r' → bg_step r r'.

Definition update_policy (pr : process) (a : nat) (c : Config) : process :=
  mkProcess (<[a := c]> (pr_store pr)) (pr_http pr) (pr_grpc pr) (pr_log pr) (pr_records pr).

(** ** The steps of main *)

(** The select of [main] and the branch of the signal; [None] while it is blocked.
    [sig] says that SIGINT or SIGTERM has come. *)
Definition main_next (s : life) (sig : bool) : option life :=
  let pr := lf_pr s in
  match lf_main s with
  | MSelect =>
      if sig then Some (set_main s (info pr "shutting down" []) MStopHttp)
      else match lf_errCh s with
           | Some err :: _ =>
               Some (set_main s (emit pr (mkRecord LevelError "server crashed" [Attr "err" (SString err)]))
                       (MExit 1))
           | None :: _ => Some (set_main s pr MServerReturned)
           | [] => None
           end
  | MStopHttp =>
      Some (set_main (set_listeners s (http_Stop (lf_http s)) (lf_grpc s) []) pr MStopGrpc)
  | MStopGrpc =>
      Some (set_main (set_listeners s (lf_http s) (grpc_Stop (lf_grpc s)) []) pr MLoadPolicy)
  | MLoadPolicy => Some (set_main s pr (MStopPolicy (pr_http pr)))
  | MStopPolicy p => Some (set_main s (stop_at pr p) (MWait p))
  | MWait p =>
      match (p ≫= λ a, pr_store pr !! a) ≫= c_registry with
      | Some reg =>
          if forallb g_done (procs reg) then Some (set_main s pr (MStopped p)) else None
      | None => Some (set_main s pr (MStopped p))
      end
  | MStopped _ | MServerReturned | MExit _ => None
  end.

End state.

(** ** Who stops which policy *)

Section ledger.
Context `{CelGo, GoRange, FactsWorld}.

(** Every refresh loop has been told to stop, and none has. *)
Definition cancelled (c : Config) : Prop :=
  ∀ reg, c_registry c = Some reg → Forall (λ p, g_cancelled p = true) (procs reg).

Definition live (c : Config) : Prop :=
  ∃ reg, c_registry c = Some reg ∧ Forall (λ p, g_cancelled p = false) (procs reg).

(** The policy a reload still has to install, or to stop. *)
Definition thread_owns (t : thread) : list nat :=
  match t with
  | TLogging _ a | TSwapHttp _ a => [a]
  | TSwapGrpc _ _ old | TStop _ _ old => option_list old
  | _ => []
  end.

(** The policy [main] has stopped. *)
Definition main_stopped (m : main_state) : option nat :=
  match m with MWait p | MStopped p => p | _ => None end.

(** The policies of the store: those somebody owns are live unless [main] stopped
    them, the others, refused ones apart, are stopped. *)
Definition policies_ok (st : list Config) (refused owned : list nat) (stopped : option nat) : Prop :=
  NoDup owned ∧ (∀ a, a ∈ owned → a < length st ∧ a ∉ refused)%nat ∧
  (∀ a, a ∈ refused → a < length st)%nat ∧
  (∀ a c, st !! a = Some c → a ∉ refused →
    started c ∧ (a ∈ owned → live c ∨ stopped = Some a) ∧
    (a ∉ owned ∨ stopped = Some a → cancelled c)).

Lemma policies_ok_perm st refused o o' stopped :
  o ≡ₚ o' → policies_ok st refused o stopped → policies_ok st refused o' stopped.
Proof. intros Ho. unfold policies_ok. by setoid_rewrite Ho. Qed.

Lemma Config_Start_live c :
  loaded c → unstarted c →
  ∃ c' err, Config_Start c = Ret (c', err) ∧ (err = None → started c' ∧ live c').
Proof.
  intros Hl Hu. destruct (Config_Start_ok c Hl Hu) as (c' & err & E & _ & Hs).
  exists c', err. split; [done|]. intros Hn. split; [by apply Hs|].
  destruct Hu as (reg & Hr & Hn'). unfold Config_Start in E. rewrite Hr in E.
  destruct (Registry_Start_spec reg (New_entry_ok _ _ Hn')) as (reg' & err' & E' & _ & _ & _ & Hc).
  rewrite E' in E. injection E as <- _. exists reg'. split; [done|]. apply Hc.
  by rewrite (proj2 (New_procs _ _ Hn')).
Qed.

Lemma Config_Stop_ok c : started c → started (Config_Stop c) ∧ cancelled (Config_Stop c).
Proof.
  intros Hs. pose proof Hs as (Hl & reg & Hr & Hp & Ho).
  assert (Config_Stop c = with_registry c (Stop_cancel reg)) as -> by (unfold Config_Stop; by rewrite Hr).
  split; [by eapply started_step; [| |constructor]|]. intros reg' [= <-]. apply Forall_lookup.
  intros i p. cbn. rewrite foldl_cancel_lookup. case_bool_decide as Hin.
  - destruct (procs reg !! i); [|done]. by intros [= <-].
  - intros Hi. destruct (g_cancelled p) eqn:E; [done|]. destruct Hin. by eapply Ho.
Qed.

(** A new policy, owned by the reload that loaded it, or refused. *)
Lemma policies_ok_add st refused owned stopped c :
  policies_ok st refused owned stopped → started c → live c →
  stopped ≠ Some (length st) →
  policies_ok (st ++ [c]) refused (length st :: owned) stopped.
Proof.
  intros (Hnd & Hlt & Href & Hst) Hs Hl Hne. split_and!.
  - apply NoDup_cons. split; [|done]. intros Hin. apply Hlt in Hin. lia.
  - rewrite length_app. cbn. intros a [->|Ha]%elem_of_cons; [|split; [|by apply Hlt]].
    + split; [lia|]. intros Hin. apply Href in Hin. lia.
    + apply Hlt in Ha. lia.
  - rewrite length_app. intros a Ha. apply Href in Ha. lia.
  - intros a x [Hx|[Hge Hx]]%lookup_app_Some Ha.
    + destruct (Hst a x Hx Ha) as (Hsx & Hlx & Hcx). apply lookup_lt_Some in Hx.
      split_and!; [done|intros [->|?]%elem_of_cons; [lia|auto]|].
      intros [Hn|?]; apply Hcx; [left; set_solver|by right].
    + apply list_lookup_singleton_Some in Hx as [Ea <-].
      assert (a = length st) as -> by lia. split_and!; [done|by left|].
      intros [Hn|?]; [|done]. destruct Hn. left.
Qed.

Lemma policies_ok_refuse st refused owned stopped c :
  policies_ok st refused owned stopped →
  policies_ok (st ++ [c]) (refused ++ [length st]) owned stopped.
Proof.
  intros (Hnd & Hlt & Href & Hst). split_and!; [done|..].
  - rewrite length_app. intros a Ha. apply Hlt in Ha as [Ha Hn]. split; [lia|].
    intros [?| ->%list_elem_of_singleton]%elem_of_app; [done|lia].
  - rewrite length_app. cbn. intros a [Ha| ->%list_elem_of_singleton]%elem_of_app; [|lia].
    apply Href in Ha. lia.
  - intros a x [Hx|[Hge Hx]]%lookup_app_Some Ha; [apply Hst; set_solver|].
    apply list_lookup_singleton_Some in Hx as [Ea <-]. destruct Ha.
    assert (a = length st) as -> by lia. set_solver.
Qed.

(** Stopping a policy, on behalf of its owner or of [main]. *)
Lemma policies_ok_stop st refused o owned stopped :
  policies_ok st refused (o :: owned) stopped →
  policies_ok (alter Config_Stop o st) refused owned stopped.
Proof.
  intros (Hnd & Hlt & Href & Hst). apply NoDup_cons in Hnd as [Hn Hnd].
  split_and!; rewrite ?length_alter; [done|set_solver|done|].
  intros a x. destruct (decide (a = o)) as [->|Hne].
  - rewrite list_lookup_alter_eq. intros (c & Hc & ->)%fmap_Some Ha.
    destruct (Config_Stop_ok c) as [Hs1 Hs2]; [by eapply Hst|]. by split_and!.
  - rewrite list_lookup_alter_ne by done. intros Hx Ha.
    destruct (Hst a x Hx Ha) as (Hs & Hl & Hc). split_and!; [done|set_solver|set_solver].
Qed.

Lemma policies_ok_main_stop st refused owned a :
  policies_ok st refused owned None → policies_ok (alter Config_Stop a st) refused owned (Some a).
Proof.
  intros (Hnd & Hlt & Href & Hst). split_and!; rewrite ?length_alter; [done|done|done|].
  intros b x. destruct (decide (b = a)) as [->|Hne].
  - rewrite list_lookup_alter_eq. intros (c & Hc & ->)%fmap_Some Hb.
    destruct (Config_Stop_ok c) as [Hs1 Hs2]; [by eapply Hst|]. by split_and!; [|right|].
  - rewrite list_lookup_alter_ne by done. intros Hx Hb.
    destruct (Hst b x Hx Hb) as (Hs & Hl & Hc). split_and!; [done|naive_solver|naive_solver].
Qed.

Lemma bg_step_cancelled r r' b :
  bg_step r r' → Forall (λ p, g_cancelled p = b) (procs r) →
  Forall (λ p, g_cancelled p = b) (procs r').
Proof.
  intros [i res E|i E] Hf.
  - unfold refresh in E. repeat go_case_in E; by simplify_eq.
  - unfold exit_proc in E. destruct (procs r !! i) as [p|] eqn:Ei; [|done].
    pose proof (Forall_lookup_1 _ _ _ _ Hf Ei) as Hp. cbn in Hp.
    destruct (g_cancelled p) eqn:Ec; [|done]. destruct (negb (g_done p)); [|done].
    injection E as <-. cbn. by apply Forall_insert.
Qed.

Lemma policies_ok_background st refused owned stopped a c reg reg' :
  policies_ok st refused owned stopped → st !! a = Some c → c_registry c = Some reg →
  bg_step reg reg' → policies_ok (<[a := with_registry c reg']> st) refused owned stopped.
Proof.
  intros (Hnd & Hlt & Href & Hst) Ha Hr Hb. split_and!; rewrite ?length_insert; [done|done|done|].
  intros b x [(<- & <- & _)|[Hne Hx]]%list_lookup_insert_Some Hn; [|by apply Hst].
  destruct (Hst a c Ha Hn) as (Hs & Hl & Hc). split_and!.
  - eapply started_step; [done|done|]. destruct Hb; [by eapply step_refresh|by eapply step_exit].
  - intros Ho. destruct (Hl Ho) as [(r & Hr' & Hf)|]; [left|by right]. exists reg'. split; [done|].
    eapply bg_step_cancelled; [done|]. congruence.
  - intros Ho reg'' [= <-]. eapply bg_step_cancelled; [done|]. by apply Hc.
Qed.

End ledger.

Section life.
Context `{CelGo, UnicodeTables, GoRange, FactsWorld, !YamlPolicy}.
Context (getenv : string → string).
Context (load_error_text : load_error → string) (facts_error_text : facts_error → string).
Context (version : string).

Abbreviation thread_step := (thread_step getenv load_error_text facts_error_text version).
Abbreviation boot := (boot getenv version).

(** Every goroutine of the process may take the next step while [main] is there.
    [ListenAndServe] and [Serve] report a requested stop only after it was
    requested. *)
Inductive life_step (f : flags) (watch : bool) (s : life) : life → Prop :=
| life_main sig s' : main_next s sig = Some s' → life_step f watch s s'
| life_sighup : running (lf_main s) = true → life_step f watch s (set_hup s true (lf_threads s))
| life_hup_take file :
    running (lf_main s) = true → lf_hup s = true → lf_threads s !! O = Some TDone →
    life_step f watch s (set_hup s false (<[O := TLoad "sighup" file]> (lf_threads s)))
| life_watch file :
    running (lf_main s) = true → watch = true →
    life_step f watch s (set_hup s (lf_hup s) (lf_threads s ++ [TLoad "fsnotify" file]))
| life_thread i t pr' t' :
    running (lf_main s) = true → lf_threads s !! i = Some t → t ≠ TDone →
    thread_step f (lf_pr s) t = Ret (pr', t') →
    life_step f watch s
      (set_threads s pr' (<[i := t']> (lf_threads s)) (refused_by (lf_pr s) pr' t'))
| life_background a c reg reg' :
    running (lf_main s) = true → pr_store (lf_pr s) !! a = Some c → c_registry c = Some reg →
    bg_step reg reg' →
    life_step f watch s
      (set_threads s (update_policy (lf_pr s) a (with_registry c reg')) (lf_threads s) [])
| life_http_start addr :
    running (lf_main s) = true → lf_http s = LNil →
    life_step f watch s
      (set_main (set_listeners s LServing (lf_grpc s) [])
         (info (lf_pr s) "starting http server" [Attr "addr" (SString addr)]) (lf_main s))
| life_http_return err :
    running (lf_main s) = true →
    lf_http s = LServing ∧ err ≠ ErrServerClosed ∨ lf_http s = LShut →
    life_step f watch s (set_listeners s LReturned (lf_grpc s) [http_Run err])
| life_grpc_no_listener err :
    running (lf_main s) = true → lf_grpc s = LNil →
    life_step f watch s (set_listeners s (lf_http s) LReturned [grpc_Run (Err err) None])
| life_grpc_start addr :
    running (lf_main s) = true → lf_grpc s = LNil →
    life_step f watch s
      (set_main (set_listeners s (lf_http s) LServing [])
         (info (lf_pr s) "starting grpc server" [Attr "addr" (SString addr)]) (lf_main s))
| life_grpc_return err :
    running (lf_main s) = true →
    lf_grpc s = LServing ∧ (∃ text, err = Some (ErrServe text)) ∨ lf_grpc s = LShut →
    life_step f watch s (set_listeners s (lf_http s) LReturned [grpc_Run (Ok ()) err]).

(** ** The invariant *)

Definition thread_reads (t : thread) : list nat :=
  match t with
  | TLogging _ a | TSwapHttp _ a | TSwapGrpc _ a _ | TStop _ a _ | TReport _ a => [a]
  | TLoad _ _ | TDone => []
  end.

Definition reads_ok (st : list Config) (t : thread) : Prop :=
  ∀ a, a ∈ thread_reads t → (a < length st)%nat.

Lemma thread_step_length f pr t pr' t' :
  thread_step f pr t = Ret (pr', t') →
  (length (pr_store pr) ≤ length (pr_store pr'))%nat ∧
  (reads_ok (pr_store pr) t → reads_ok (pr_store pr') t').
Proof.
  unfold reads_ok. destruct t as [source file|source a|source a|source a old|source a old|source a|]; cbn.
  - destruct (LoadFile getenv file) as [c|]; [|intros [= <- <-]; split; [done|set_solver]].
    destruct (Config_Start c) as [[c' [err|]]|]; cbn; [intros [= <- <-]..|done]; cbn;
      rewrite length_app; cbn; (split; [lia|]); set_solver by lia.
  - destruct (pr_store pr !! a) as [c|]; [|done]. intros [= <- <-].
    by rewrite (proj1 (applyLogging_fields pr (c_Logging c) f)).
  - by intros [= <- <-].
  - by intros [= <- <-].
  - intros [= <- <-]. destruct old; cbn; rewrite ?length_alter; done.
  - destruct (pr_store pr !! a) as [c|]; [|done]. intros [= <- <-]. cbn. split; [done|set_solver].
  - by intros [= <- <-].
Qed.

Lemma refused_by_same pr pr' t' :
  length (pr_store pr') = length (pr_store pr) → refused_by pr pr' t' = [].
Proof. intros E. unfold refused_by. destruct t'; rewrite ?E, ?Nat.sub_diag; done. Qed.

(** A step of a reload hands ownership on: the HTTP server owns the policy it holds,
    the reload the one it is about to install and then the one it took out. *)
Lemma thread_step_policies f pr t pr' t' h rest refused stopped :
  thread_step f pr t = Ret (pr', t') → pr_http pr = Some h →
  (∀ a, stopped = Some a → (a < length (pr_store pr))%nat) →
  policies_ok (pr_store pr) refused (h :: thread_owns t ++ rest) stopped →
  ∃ h', pr_http pr' = Some h' ∧
    policies_ok (pr_store pr') (refused ++ refused_by pr pr' t') (h' :: thread_owns t' ++ rest) stopped.
Proof.
  intros Hstep Hh Hstop Hok.
  destruct t as [source file|source a|source a|source a old|source a old|source a|]; cbn in Hstep.
  - destruct (LoadFile getenv file) as [c|] eqn:El.
    2: { injection Hstep as <- <-. exists h. rewrite refused_by_same, app_nil_r by done. done. }
    destruct (LoadFile_loaded getenv _ _ El) as [Hl Hu].
    destruct (Config_Start_live c Hl Hu) as (c' & err & Es & Hs). rewrite Es in Hstep. cbn in Hstep.
    destruct err as [err|]; injection Hstep as <- <-; exists h; (split; [done|]); cbn.
    + rewrite length_app, Nat.add_sub'. by apply policies_ok_refuse.
    + rewrite app_nil_r. eapply policies_ok_perm; [apply Permutation_swap|].
      destruct (Hs eq_refl) as [Hs1 Hs2]. apply policies_ok_add; [done..|].
      intros E. apply Hstop in E. lia.
  - destruct (pr_store pr !! a) as [c|]; [|done]. injection Hstep as <- <-. exists h.
    destruct (applyLogging_fields pr (c_Logging c) f) as (E1 & E2 & _).
    by rewrite E1, E2, refused_by_same, app_nil_r by by rewrite E1.
  - injection Hstep as <- <-. exists a. rewrite refused_by_same, app_nil_r, Hh by done. split; [done|].
    eapply policies_ok_perm; [apply Permutation_swap|]. exact Hok.
  - injection Hstep as <- <-. exists h. by rewrite refused_by_same, app_nil_r.
  - injection Hstep as <- <-. exists h. destruct old as [o|]; cbn in *; rewrite app_nil_r; [|done].
    split; [done|]. eapply policies_ok_stop, policies_ok_perm; [apply Permutation_swap|done].
  - destruct (pr_store pr !! a) as [c|]; [|done]. injection Hstep as <- <-. exists h.
    by rewrite refused_by_same, app_nil_r.
  - injection Hstep as <- <-. exists h. by rewrite refused_by_same, app_nil_r.
Qed.

(** Whom the policies belong to. *)
Definition owned (s : life) : list nat :=
  option_list (pr_http (lf_pr s)) ++ (lf_threads s ≫= thread_owns).

Definition main_target (m : main_state) : option (option nat) :=
  match m with MStopPolicy p | MWait p | MStopped p => Some p | _ => None end.

Record life_inv (s : life) : Prop := {
  inv_http : is_Some (pr_http (lf_pr s));
  inv_policies : policies_ok (pr_store (lf_pr s)) (lf_refused s) (owned s) (main_stopped (lf_main s));
  inv_reads : Forall (reads_ok (pr_store (lf_pr s))) (lf_threads s);
  inv_target : ∀ p, main_target (lf_main s) = Some p →
    ∃ a, p = Some a ∧ (a < length (pr_store (lf_pr s)))%nat ∧ a ∉ lf_refused s;
}.

Lemma owned_split ts i t :
  ts !! i = Some t → ts ≫= thread_owns ≡ₚ thread_owns t ++ (delete i ts ≫= thread_owns).
Proof. intros Hi. by rewrite (delete_Permutation _ _ _ Hi) at 1. Qed.

Lemma owned_insert ts i t t' :
  ts !! i = Some t → <[i := t']> ts ≫= thread_owns ≡ₚ thread_owns t' ++ (delete i ts ≫= thread_owns).
Proof.
  intros Hi. rewrite (owned_split (<[i := t']> ts) i t').
  - rewrite !delete_take_drop, take_insert_ge, drop_insert_lt by lia. done.
  - apply list_lookup_insert_eq. by eapply lookup_lt_Some.
Qed.

Lemma bind_app_nil ts t : thread_owns t = [] → (ts ++ [t]) ≫= thread_owns = ts ≫= thread_owns.
Proof. intros E. rewrite bind_app. cbn. by rewrite E, !app_nil_r. Qed.

Lemma main_next_inv s sig s' : main_next s sig = Some s' → life_inv s → life_inv s'.
Proof.
  unfold main_next. intros E [Hh Hp Hr Ht].
  destruct (lf_main s) as [| | | |p|p|p| |code] eqn:Em; cbn [main_stopped main_target] in *.
  - destruct sig; [|destruct (lf_errCh s) as [|[err|] ?]; [done|..]];
      injection E as <-; by constructor.
  - injection E as <-. by constructor.
  - injection E as <-. by constructor.
  - injection E as <-. constructor; [done..|]. cbn. intros p [= <-].
    destruct Hh as [h Hh]. exists h. destruct Hp as (_ & Ho & _).
    split; [done|]. apply Ho. unfold owned. rewrite Hh. cbn. left.
  - injection E as <-. destruct (Ht p eq_refl) as (a & -> & Ha & Hn).
    constructor; cbn; rewrite ?length_alter; [done| | |].
    + by apply policies_ok_main_stop.
    + eapply Forall_impl; [exact Hr|]. intros t Hrt b Hb. rewrite length_alter. by apply Hrt.
    + intros p [= <-]. by exists a.
  - assert (s' = set_main s (lf_pr s) (MStopped p)) as ->
      by (repeat case_match; by simplify_eq). by constructor.
  - done.
  - done.
  - done.
Qed.

Lemma thread_inv f s i t pr' t' :
  life_inv s → lf_threads s !! i = Some t → thread_step f (lf_pr s) t = Ret (pr', t') →
  life_inv (set_threads s pr' (<[i := t']> (lf_threads s)) (refused_by (lf_pr s) pr' t')).
Proof.
  intros [[h Hh] Hp Hr Ht] Hi Hstep. pose proof (thread_step_length _ _ _ _ _ Hstep) as [Hlen Hreads].
  assert (∀ a, main_stopped (lf_main s) = Some a → (a < length (pr_store (lf_pr s)))%nat) as Hstop.
  { intros a Ea. destruct (Ht (Some a)) as (b & [= <-] & Hb & _); [|done].
    destruct (lf_main s); cbn in *; congruence. }
  destruct (thread_step_policies f (lf_pr s) t pr' t' h (delete i (lf_threads s) ≫= thread_owns)
    (lf_refused s) (main_stopped (lf_main s)) Hstep Hh Hstop) as (h' & Hh' & Hp').
  { eapply policies_ok_perm; [|exact Hp]. unfold owned. rewrite Hh. cbn. constructor.
    by apply owned_split. }
  constructor; cbn.
  - by rewrite Hh'.
  - eapply policies_ok_perm; [|exact Hp']. unfold owned. cbn. rewrite Hh'. cbn. constructor.
    symmetry. by eapply owned_insert.
  - apply Forall_insert; [|by apply Hreads; eapply Forall_lookup_1].
    eapply Forall_impl; [exact Hr|]. intros x Hx a Ha. specialize (Hx a Ha). lia.
  - intros p Hpt. destruct (Ht p Hpt) as (a & -> & Ha & Hn). exists a. split_and!; [done|lia|].
    rewrite elem_of_app. intros [?|Hin]; [done|]. unfold refused_by in Hin.
    destruct t'; [set_solver..|]. apply elem_of_seq in Hin. lia.
Qed.

Lemma life_step_inv f watch s s' : life_step f watch s s' → life_inv s → life_inv s'.
Proof.
  intros Hs Hinv. destruct Hs as [sig s' Hm|Hrun|file Hrun Hhup Hz|file Hrun Hw|i t pr' t' Hrun Hi Hnd Hstep
    |a c reg reg' Hrun Ha Hreg Hb| | | | |].
  - by eapply main_next_inv.
  - destruct Hinv. by constructor.
  - destruct Hinv as [Hh Hp Hr Ht]. constructor; cbn; [done| |by apply Forall_insert; [|intros ? ?%elem_of_nil]|done].
    eapply policies_ok_perm; [|exact Hp]. unfold owned. cbn. f_equiv.
    rewrite (owned_insert _ _ _ (TLoad "sighup" file) Hz), (owned_split _ _ _ Hz). done.
  - destruct Hinv as [Hh Hp Hr Ht]. constructor; cbn; [done| | |done].
    + unfold owned. cbn. by rewrite bind_app_nil.
    + apply Forall_app. split; [done|]. apply Forall_singleton. by intros ? ?%elem_of_nil.
  - by eapply thread_inv.
  - destruct Hinv as [Hh Hp Hr Ht]. constructor; cbn; rewrite ?length_insert, ?app_nil_r; [done| | |done].
    + by eapply policies_ok_background.
    + eapply Forall_impl; [exact Hr|]. intros t Hrt b Hb'. rewrite length_insert. by apply Hrt.
  - destruct Hinv. by constructor.
  - destruct Hinv. by constructor.
  - destruct Hinv. by constructor.
  - destruct Hinv. by constructor.
  - destruct Hinv. by constructor.
Qed.

(** What boot leaves. *)
Lemma boot_state f file st pr :
  boot f file st = Ret (Some pr) →
  ∃ c, pr_store pr = [c] ∧ pr_http pr = Some O ∧ pr_grpc pr = Some O ∧ started c ∧ live c.
Proof.
  unfold Reload.boot. destruct (LoadFile getenv file) as [c|] eqn:E; [|done].
  destruct (LoadFile_loaded getenv _ _ E) as [Hl Hu].
  destruct (Config_Start_live c Hl Hu) as (c' & err & -> & Hs). cbn [mbind outcome_bind].
  destruct err as [err|]; [done|]. intros [= <-]. exists c'. destruct (Hs eq_refl) as [Hs1 Hs2].
  split_and!; try done. cbn.
  by rewrite (proj1 (applyLogging_fields (mkProcess [] None None st []) (c_Logging c) f)).
Qed.

Lemma boot_inv f file st pr : boot f file st = Ret (Some pr) → life_inv (life0 pr).
Proof.
  intros (c & Est & Eh & _ & Hs & Hl)%boot_state. constructor; cbn; rewrite ?Eh, ?Est.
  - by eexists.
  - unfold owned. cbn. rewrite Eh. split_and!.
    + apply NoDup_singleton.
    + intros a ->%list_elem_of_singleton. split; [cbn; lia|set_solver].
    + set_solver.
    + intros a x [-> <-]%list_lookup_singleton_Some _. split_and!; [done|by left|].
      intros [Hn|]; [|done]. destruct Hn. left.
  - apply Forall_singleton. by intros ? ?%elem_of_nil.
  - done.
Qed.

Lemma life_reachable_inv f watch file st pr s :
  boot f file st = Ret (Some pr) → rtc (life_step f watch) (life0 pr) s → life_inv s.
Proof.
  intros Hb Hs. apply boot_inv in Hb. induction Hs as [|s1 s2 s3 Hstep _ IH]; [done|].
  apply IH. by eapply life_step_inv.
Qed.

Lemma thread_step_no_panic f pr t : reads_ok (pr_store pr) t → thread_step f pr t ≠ Panic.
Proof.
  intros Hr. destruct t as [source file|source a|source a|source a old|source a old|source a|]; cbn; try done.
  - destruct (LoadFile getenv file) as [c|] eqn:El; [|done].
    destruct (LoadFile_loaded getenv _ _ El) as [Hl Hu].
    destruct (Config_Start_ok c Hl Hu) as (c' & err & -> & _). cbn. by destruct err.
  - destruct (lookup_lt_is_Some_2 (pr_store pr) a) as [c ->]; [apply Hr; left|done].
  - destruct (lookup_lt_is_Some_2 (pr_store pr) a) as [c ->]; [apply Hr; left|done].
Qed.

(** C19 However the reloads of SIGHUP and of the file watcher, the refresh loops and
    the servers interleave, and until [main] stops it, the policy the HTTP server
    holds is a loaded one with every fact populated and every refresh loop still
    running: no reload ever stops the policy that is being served.  No step of a
    reload panics. *)
Theorem http_policy_live (f : flags) (watch : bool) (file : result string string) (st : log_state)
    (pr : process) (s : life) :
  boot f file st = Ret (Some pr) → rtc (life_step f watch) (life0 pr) s →
  main_stopped (lf_main s) = None →
  (∃ a c, pr_http (lf_pr s) = Some a ∧ pr_store (lf_pr s) !! a = Some c ∧ started c ∧ live c) ∧
  (∀ t, t ∈ lf_threads s → thread_step f (lf_pr s) t ≠ Panic).
Proof.
  intros Hb Hs Hm. destruct (life_reachable_inv _ _ _ _ _ _ Hb Hs) as [[h Hh] Hp Hr _].
  split; [|intros t Ht; apply thread_step_no_panic; by eapply Forall_forall in Hr].
  destruct Hp as (_ & Ho & _ & Hst). assert (h ∈ owned s) as Hin by (unfold owned; rewrite Hh; left).
  destruct (Ho h Hin) as [Hlt Hn]. destruct (lookup_lt_is_Some_2 _ _ Hlt) as [c Hc].
  destruct (Hst h c Hc Hn) as (Hs1 & Hl & _). exists h, c. split_and!; try done.
  destruct (Hl Hin); [done|congruence].
Qed.

(** *** Shutdown *)

(** [main] returns from [wg.Wait] when the loops of the policy it stopped are gone. *)
Lemma stopped_drained f watch s s' a c reg :
  life_step f watch s s' → lf_main s' = MStopped (Some a) →
  pr_store (lf_pr s') !! a = Some c → c_registry c = Some reg → drained reg.
Proof.
  intros Hs Hm Hc Hr.
  assert (running (lf_main s) = true → lf_main s' = lf_main s → False) as Hrun
    by (intros Hrun E; rewrite <- E, Hm in Hrun; done).
  destruct Hs as [sig s' E| | | | | | | | | | ]; try (exfalso; by apply Hrun).
  unfold main_next in E. destruct (lf_main s) as [| | | |p|p|p| |code]; try done;
    try (injection E as <-; cbn in Hm; discriminate Hm).
  - destruct sig; [by injection E as <-|].
    destruct (lf_errCh s) as [|[err|] ?]; [done|by injection E as <-|by injection E as <-].
  - destruct ((p ≫= λ a, pr_store (lf_pr s) !! a) ≫= c_registry) as [r|] eqn:Ep.
    + destruct (forallb g_done (procs r)) eqn:Ed; [|done]. injection E as <-. injection Hm as ->.
      cbn in *. rewrite Hc in Ep. cbn in Ep. rewrite Hr in Ep. injection Ep as <-.
      apply Forall_forall. intros q Hq. by eapply forallb_forall in Ed; [|by apply list_elem_of_In].
    + injection E as <-. injection Hm as ->. cbn in *. rewrite Hc in Ep. cbn in Ep. congruence.
Qed.

(** C20 When [main] returns after a signal and no reload is half-way, the refresh
    loops of the policy it stopped have ended, and every other policy that was ever
    installed has been stopped too, however the reloads interleaved; the one
    exception is a policy that a reload put in the HTTP server after [main] had
    read which one to stop. *)
Theorem shutdown_no_leak (f : flags) (watch : bool) (file : result string string) (st : log_state)
    (pr : process) (s : life) (p : option nat) :
  boot f file st = Ret (Some pr) → rtc (life_step f watch) (life0 pr) s →
  lf_main s = MStopped p → Forall (λ t, t = TDone) (lf_threads s) →
  (∃ a c reg, p = Some a ∧ pr_store (lf_pr s) !! a = Some c ∧ c_registry c = Some reg ∧ drained reg) ∧
  (∀ b c, pr_store (lf_pr s) !! b = Some c → b ∉ lf_refused s →
     p = Some b ∨ pr_http (lf_pr s) ≠ Some b → cancelled c).
Proof.
  intros Hb Hs Hm Hq. destruct (life_reachable_inv _ _ _ _ _ _ Hb Hs) as [[h Hh] Hp _ Ht].
  rewrite Hm in Hp, Ht. destruct (Ht p eq_refl) as (a & -> & Ha & Hn). destruct Hp as (_ & _ & _ & Hst).
  destruct (lookup_lt_is_Some_2 _ _ Ha) as [c Hc]. split.
  - destruct (Hst a c Hc Hn) as ((_ & reg & Hr & _) & _). exists a, c, reg. split_and!; try done.
    apply rtc_inv_r in Hs as [<-|(s1 & _ & Hstep)]; [done|]. by eapply stopped_drained.
  - intros b x Hx Hnb Hcase. destruct (Hst b x Hx Hnb) as (_ & _ & Hcx). apply Hcx.
    destruct Hcase as [?|Hne]; [by right|left]. unfold owned. rewrite Hh.
    assert (lf_threads s ≫= thread_owns = []) as ->
      by (induction Hq as [|t ts -> _ IH]; cbn; [done|exact IH]).
    cbn. intros ->%list_elem_of_singleton. congruence.
Qed.

(** The exits of the loops of a policy, as steps of the process. *)
Lemma drain_life f watch a reg reg' :
  rtc (λ r r', ∃ i, exit_proc r i = Some r') reg reg' →
  ∀ s c, running (lf_main s) = true → pr_store (lf_pr s) !! a = Some c → c_registry c = Some reg →
  ∃ s' c', rtc (life_step f watch) s s' ∧ lf_main s' = lf_main s ∧
    pr_store (lf_pr s') !! a = Some c' ∧ c_registry c' = Some reg'.
Proof.
  induction 1 as [reg|r1 r2 r3 [i Hi] _ IH]; intros s c Hrun Hc Hr.
  { exists s, c. split; [apply rtc_refl|done]. }
  set (s1 := set_threads s (update_policy (lf_pr s) a (with_registry c r2)) (lf_threads s) []).
  destruct (IH s1 (with_registry c r2)) as (s' & c' & Hs & Hm & Hc' & Hr'); [done| |done|].
  { cbn. apply list_lookup_insert_eq. by eapply lookup_lt_Some. }
  exists s', c'. split_and!; try done. eapply rtc_l; [|done].
  by eapply life_background; [..|by eapply bg_exit].
Qed.

Lemma wait_completes f watch s p :
  life_inv s → lf_main s = MWait p →
  ∃ s', rtc (life_step f watch) s s' ∧ lf_main s' = MStopped p.
Proof.
  intros [_ Hp _ Ht] Hm. rewrite Hm in Hp, Ht. destruct (Ht p eq_refl) as (a & -> & Ha & Hn).
  destruct (lookup_lt_is_Some_2 _ _ Ha) as [c Hc]. destruct Hp as (_ & _ & _ & Hst).
  destruct (Hst a c Hc Hn) as ((_ & reg & Hr & _) & _ & Hcan).
  destruct (drain_exits reg) as (reg' & Hd & Hdr); [apply Hcan; [by right|done]|].
  destruct (drain_life f watch a reg reg' Hd s c) as (s1 & c1 & Hs1 & Hm1 & Hc1 & Hr1);
    [by rewrite Hm|done|done|].
  exists (set_main s1 (lf_pr s1) (MStopped (Some a))). split; [|done].
  eapply rtc_r; [exact Hs1|]. apply (life_main _ _ _ false). unfold main_next. rewrite Hm1, Hm.
  cbn. rewrite Hc1. cbn. rewrite Hr1.
  assert (forallb g_done (procs reg') = true) as ->; [|done].
  apply forallb_forall. intros q Hq%list_elem_of_In. by eapply Forall_forall in Hdr.
Qed.

Definition stopping (m : main_state) : bool :=
  match m with MStopHttp | MStopGrpc | MLoadPolicy | MStopPolicy _ | MWait _ => true | _ => false end.

Lemma stop_progress s :
  stopping (lf_main s) = true → (∀ p, lf_main s ≠ MWait p) →
  ∃ s', main_next s false = Some s' ∧ stopping (lf_main s') = true ∧
    match lf_main s, lf_main s' with
    | MStopHttp, MStopGrpc | MStopGrpc, MLoadPolicy | MLoadPolicy, MStopPolicy _
    | MStopPolicy _, MWait _ => True
    | _, _ => False
    end.
Proof.
  unfold main_next. destruct (lf_main s); intros Hs Hw; try done; try (by eexists; split_and!).
  by edestruct Hw.
Qed.


(** *** Crashes *)

Definition returned (l : listener) : nat := match l with LReturned => 1 | _ => 0 end.

(** Before a signal is taken no server has been asked to stop, so what it returned is
    an error. *)
Record crash_inv (s : life) : Prop := {
  crash_select : stopping (lf_main s) = false → (∀ p, lf_main s ≠ MStopped p) →
    lf_http s ≠ LShut ∧ lf_grpc s ≠ LShut ∧ Forall is_Some (lf_errCh s);
  crash_main : lf_main s ≠ MServerReturned;
  crash_exit : ∀ code, lf_main s = MExit code → code = 1 ∧ ∃ e rest, lf_errCh s = Some e :: rest;
  crash_length : length (lf_errCh s) = (returned (lf_http s) + returned (lf_grpc s))%nat;
}.

Lemma Stop_returned l : returned (http_Stop l) = returned l ∧ returned (grpc_Stop l) = returned l.
Proof. by destruct l. Qed.

Lemma main_next_crash s sig s' : main_next s sig = Some s' → crash_inv s → crash_inv s'.
Proof.
  unfold main_next. intros E [Hsel Hm Hx Hl].
  destruct (lf_main s) as [| | | |p|p|p| |code] eqn:Em; try done.
  - destruct Hsel as (Hh & Hg & Hf); [done|done|].
    destruct sig; [injection E as <-; by constructor|].
    destruct (lf_errCh s) as [|[err|] rest] eqn:Ee; [done| |].
    + injection E as <-. constructor; cbn; rewrite ?Ee; [done|done| |done].
      intros code [= <-]. split; [done|by eexists _, _].
    + by apply Forall_cons in Hf as [[e [=]] _].
  - injection E as <-. constructor; cbn; rewrite ?app_nil_r, ?(proj1 (Stop_returned _)), ?(proj2 (Stop_returned _)); done.
  - injection E as <-. constructor; cbn; rewrite ?app_nil_r, ?(proj1 (Stop_returned _)), ?(proj2 (Stop_returned _)); done.
  - injection E as <-. by constructor.
  - injection E as <-. by constructor.
  - assert (s' = set_main s (lf_pr s) (MStopped p)) as ->
      by (repeat case_match; by simplify_eq).
    constructor; try done. cbn. intros _ Hn. by destruct (Hn p).
Qed.

(** A server starts, or its [Run] returns. *)
Lemma listeners_crash s h g errs pr :
  running (lf_main s) = true → crash_inv s →
  (h = LShut → lf_http s = LShut) → (g = LShut → lf_grpc s = LShut) →
  (lf_http s ≠ LShut → lf_grpc s ≠ LShut → Forall is_Some errs) →
  (length errs + returned (lf_http s) + returned (lf_grpc s) = returned h + returned g)%nat →
  crash_inv (set_main (set_listeners s h g errs) pr (lf_main s)).
Proof.
  intros Hrun [Hsel Hm Hx Hl] Hh Hg He Hlen. constructor; cbn.
  - intros Hns Hnp. destruct (Hsel Hns Hnp) as (? & ? & ?). split_and!; [auto|auto|].
    apply Forall_app. auto.
  - done.
  - intros code Hc. by rewrite Hc in Hrun.
  - rewrite length_app, Hl. lia.
Qed.

Lemma set_main_same s h g errs :
  set_listeners s h g errs = set_main (set_listeners s h g errs) (lf_pr s) (lf_main s).
Proof. done. Qed.

Lemma life_step_crash f watch s s' : life_step f watch s s' → crash_inv s → crash_inv s'.
Proof.
  intros Hs Hinv. destruct Hs as [sig s' Hm|Hrun|file Hrun Hhup Hz|file Hrun Hw|i t pr' t' Hrun Hi Hnd Hstep
    |a c reg reg' Hrun Ha Hreg Hb|addr Hrun Hl|err Hrun Hl|err Hrun Hl|addr Hrun Hl|err Hrun Hl].
  - by eapply main_next_crash.
  - destruct Hinv. by constructor.
  - destruct Hinv. by constructor.
  - destruct Hinv. by constructor.
  - destruct Hinv. by constructor.
  - destruct Hinv. by constructor.
  - apply listeners_crash; rewrite ?Hl; done.
  - rewrite set_main_same. apply listeners_crash; try done.
    + intros Hs _. apply Forall_singleton. destruct Hl as [[_ Hne]|Hl]; [|done].
      destruct err; [done|by eexists].
    + by destruct Hl as [[-> _]| ->].
  - rewrite set_main_same. apply listeners_crash; rewrite ?Hl; try done; [|cbn; lia].
    intros _ _. apply Forall_singleton. by eexists.
  - apply listeners_crash; rewrite ?Hl; done.
  - rewrite set_main_same. apply listeners_crash; try done.
    + intros _ Hs. apply Forall_singleton. destruct Hl as [[_ [text ->]]|Hl]; [by eexists|done].
    + destruct Hl as [[-> _]| ->]; cbn; lia.
Qed.

(** C22 A server that ends by itself is never mistaken for a clean shutdown: while no
    signal has been taken, whatever [Run] of either server reports is an error, so
    that [main] exits with status 1 on it and the branch in which it would return
    silently is never taken; the channel of two errors never blocks a server. *)
Theorem crash_exit_status (f : flags) (watch : bool) (pr : process) (s : life) :
  rtc (life_step f watch) (life0 pr) s →
  lf_main s ≠ MServerReturned ∧
  (∀ code, lf_main s = MExit code → code = 1 ∧ ∃ e rest, lf_errCh s = Some e :: rest) ∧
  (lf_main s = MSelect → Forall is_Some (lf_errCh s)) ∧
  (length (lf_errCh s) ≤ 2)%nat.
Proof.
  intros Hs. assert (crash_inv s) as [Hsel Hm Hx Hl].
  { assert (crash_inv (life0 pr)) as H0' by (constructor; try done; split_and!; done || constructor).
    induction Hs as [|s1 s2 s3 Hstep _ IH]; [done|]. apply IH. by eapply life_step_crash. }
  split_and!; [done|done|intros E; rewrite E in Hsel; by apply Hsel|].
  rewrite Hl. destruct (lf_http s), (lf_grpc s); cbn; lia.
Qed.

(** ** Schedules *)

Inductive life_event : Type :=
| EMain (sig : bool)
| ESighup
| EHup (file : result string string)
| EWatch (file : result string string)
| EThread (i : nat)
| EExit (a i : nat)
| EHttpStart (addr : string)
| EHttpCrash (text : string).

Definition life_exec (f : flags) (s : life) (e : life_event) : option life :=
  match e with
  | EMain sig => main_next s sig
  | ESighup => Some (set_hup s true (lf_threads s))
  | EHup file =>
      match lf_hup s, lf_threads s !! O with
      | true, Some TDone => Some (set_hup s false (<[O := TLoad "sighup" file]> (lf_threads s)))
      | _, _ => None
      end
  | EWatch file => Some (set_hup s (lf_hup s) (lf_threads s ++ [TLoad "fsnotify" file]))
  | EThread i =>
      match lf_threads s !! i with
      | None | Some TDone => None
      | Some t =>
          match thread_step f (lf_pr s) t with
          | Ret (pr', t') =>
              Some (set_threads s pr' (<[i := t']> (lf_threads s)) (refused_by (lf_pr s) pr' t'))
          | Panic => None
          end
      end
  | EExit a i =>
      c ← pr_store (lf_pr s) !! a; reg ← c_registry c; reg' ← exit_proc reg i;
      Some (set_threads s (update_policy (lf_pr s) a (with_registry c reg')) (lf_threads s) [])
  | EHttpStart addr =>
      if decide (lf_http s = LNil) then
        Some (set_main (set_listeners s LServing (lf_grpc s) [])
          (info (lf_pr s) "starting http server" [Attr "addr" (SString addr)]) (lf_main s))
      else None
  | EHttpCrash text =>
      if decide (lf_http s = LServing)
      then Some (set_listeners s LReturned (lf_grpc s) [http_Run (ErrServe text)]) else None
  end.

Fixpoint life_run (f : flags) (s : life) (es : list life_event) : option life :=
  match es with
  | [] => Some s
  | e :: es' => if running (lf_main s) then s' ← life_exec f s e; life_run f s' es' else None
  end.

Lemma life_exec_step f s e s' :
  running (lf_main s) = true → life_exec f s e = Some s' → life_step f true s s'.
Proof.
  intros Hrun. destruct e as [sig| |file|file|i|a i|addr|text]; cbn.
  - by apply life_main.
  - intros [= <-]. by apply life_sighup.
  - destruct (lf_hup s) eqn:Eh; [|done]. destruct (lf_threads s !! O) as [[]|] eqn:E0; try done.
    intros [= <-]. by apply life_hup_take.
  - intros [= <-]. by apply life_watch.
  - destruct (lf_threads s !! i) as [t|] eqn:Ei; [|done].
    assert (t = TDone ∨ t ≠ TDone) as [->|Hnd] by (destruct t; auto); [done|].
    destruct (thread_step f (lf_pr s) t) as [[pr' t']|] eqn:Et; [|by destruct t].
    intros E. assert (s' = set_threads s pr' (<[i := t']> (lf_threads s)) (refused_by (lf_pr s) pr' t')) as ->
      by (destruct t; congruence). by eapply life_thread.
  - destruct (pr_store (lf_pr s) !! a) as [c|] eqn:Ea; cbn; [|done].
    destruct (c_registry c) as [reg|] eqn:Er; cbn; [|done].
    destruct (exit_proc reg i) as [reg'|] eqn:Ee; cbn; [|done]. intros [= <-].
    by eapply life_background; [..|by eapply bg_exit].
  - destruct (decide _) as [Hl|]; [|done]. intros [= <-]. by apply life_http_start.
  - destruct (decide _) as [Hl|]; [|done]. intros [= <-]. apply (life_http_return _ _ _ (ErrServe text)); [done|]. by left.
Qed.

Lemma life_run_rtc f s es s' : life_run f s es = Some s' → rtc (life_step f true) s s'.
Proof.
  revert s. induction es as [|e es IH]; intros s; cbn; [intros [= ->]; apply rtc_refl|].
  destruct (running (lf_main s)) eqn:Hr; [|done]. destruct (life_exec f s e) as [s1|] eqn:E; [|done].
  cbn. intros Hs. eapply rtc_l; [by eapply life_exec_step|auto].
Qed.

End life.

(** ** Witnesses *)

Definition sample_run (es : list life_event) : option life :=
  life_run no_env no_load_text no_facts_text "dev" sample_flags (life0 booted) es.

Definition after (es : list life_event) : life := default (life0 booted) (sample_run es).

Abbreviation sample_step := (life_step no_env no_load_text no_facts_text "dev" sample_flags true).

Lemma after_reachable es : is_some (sample_run es) = true → rtc sample_step (life0 booted) (after es).
Proof.
  unfold after. destruct (sample_run es) as [s|] eqn:E; [|done]. intros _. cbn.
  by eapply life_run_rtc.
Qed.

(** A SIGHUP whose reload crosses one of the file watcher. *)
Definition crossing_reloads : list life_event :=
  [ESighup; EHup (Ok "sample"); EThread 0; EThread 0; EThread 0; EWatch (Ok "sample");
   EThread 1; EThread 1; EThread 1; EThread 1; EThread 1; EThread 1; EThread 0; EThread 0; EThread 0].

Definition full_life : list life_event :=
  crossing_reloads ++ [EMain true; EMain false; EMain false; EMain false; EMain false; EExit 2 0; EMain false].

Lemma http_policy_live_witness :
  pr_http (lf_pr (after crossing_reloads)) = Some 2%nat ∧
  ∃ a c, pr_http (lf_pr (after crossing_reloads)) = Some a ∧
    pr_store (lf_pr (after crossing_reloads)) !! a = Some c ∧ started c ∧ live c.
Proof.
  split; [by vm_compute|].
  refine (proj1 (http_policy_live no_env no_load_text no_facts_text "dev" sample_flags true (Ok "sample")
    quiet_log booted (after crossing_reloads) boot_booted _ _)); [|by vm_compute].
  apply after_reachable. by vm_compute.
Defined.

Lemma shutdown_no_leak_witness : Forall cancelled (pr_store (lf_pr (after full_life))).
Proof.
  apply Forall_lookup. intros b c Hb.
  assert (lf_main (after full_life) = MStopped (Some 2%nat)) as Hm by (by vm_compute).
  assert (lf_threads (after full_life) = [TDone; TDone]) as Ht by (by vm_compute).
  assert (lf_refused (after full_life) = []) as Hr by (by vm_compute).
  assert (pr_http (lf_pr (after full_life)) = Some 2%nat) as Hh by (by vm_compute).
  refine (proj2 (shutdown_no_leak no_env no_load_text no_facts_text "dev" sample_flags true (Ok "sample")
    quiet_log booted (after full_life) (Some 2%nat) boot_booted _ Hm _) b c Hb _ _).
  - apply after_reachable. by vm_compute.
  - rewrite Ht. by repeat constructor.
  - rewrite Hr. apply not_elem_of_nil.
  - rewrite Hh. destruct (decide (b = 2%nat)) as [->|]; [by left|right; congruence].
Defined.


Definition crashed_life : life := after [EHttpStart ":8080"; EHttpCrash "address in use"; EMain false].

Lemma crash_exit_status_witness :
  lf_main crashed_life = MExit 1 ∧ ∃ e rest, lf_errCh crashed_life = Some e :: rest.
Proof.
  split; [by vm_compute|].
  refine (proj2 (proj1 (proj2 (crash_exit_status no_env no_load_text no_facts_text "dev" sample_flags true
    booted crashed_life _)) 1 _)); [|by vm_compute].
  apply after_reachable. by vm_compute.
Defined.
