(* ===== verification/Url.v ===== *)
(** * parseURL of internal/celenv/net.go, on Go's url.Parse

    [url.Parse] with its scheme, authority, host and path, and the binding of
    [parseURL].  What becomes of a host with a square bracket differs between patch
    releases of Go and is the class [IPLiterals]; the rest is defined. *)

From S2P Require Import Prelude GoStrings GoHttp GoValues CelEnv Facts Policy Evaluate.
From S2P Require Import GoNet Net GoPath GoEncoding CelFunctions Instances.
Local Open Scope Z_scope.

(** ** Bytes of the parts *)

Definition is_alpha (c : ascii) : bool := in_range 97 122 (byteZ c) || in_range 65 90 (byteZ c).

Definition one_of (l : list ascii) (c : ascii) : bool := existsb (Ascii.eqb c) l.

(** [stringContainsCTLByte]. *)
Definition is_ctl (c : ascii) : bool := (byteZ c <? 32) || (byteZ c =? 127).

(** Not [shouldEscape(c, encodeHost)]. *)
Definition host_byte (c : ascii) : bool :=
  is_alpha c || is_digit c ||
  one_of ["!"; "$"; "&"; "'"; "("; ")"; "*"; "+"; ","; ";"; "="; ":"; "["; "]"; "<"; ">"; "034"]%char c ||
  one_of ["-"; "_"; "."; "~"]%char c.

(** [validUserinfo]. *)
Definition userinfo_byte (c : ascii) : bool :=
  is_alpha c || is_digit c ||
  one_of ["-"; "."; "_"; ":"; "~"; "!"; "$"; "&"; "'"; "("; ")"; "*"; "+"; ","; ";"; "="; "%"; "@"]%char c.

(** [validOptionalPort]. *)
Definition validOptionalPort (port : string) : bool :=
  match port with
  | ε => true
  | String c rest => Ascii.eqb c ":" && str_forall is_digit rest
  end.

(** ** Parsing *)

(** A host with a square bracket: what it becomes, if it is accepted. *)
Class IPLiterals := {
  parse_ip_literal : string → option string;
  ip_literal_delimiters : ∀ s h, parse_ip_literal s = Some h →
    str_forall (λ c, negb (one_of ["/"; "?"; "#"; "@"; "\"]%char c)) h = true;
}.

(** [unescape] in the mode [encodeHost]. *)
Fixpoint unescape_host (s : string) : option string :=
  match s with
  | ε => Some ε
  | String "%" s1 =>
      match s1 with
      | String a (String b s3) =>
          match hex_val a, hex_val b with
          | Some x, Some y =>
              if (x <? 8) && negb ((x =? 2) && (y =? 5)) then None
              else String (chr (16 * x + y)) <$> unescape_host s3
          | _, _ => None
          end
      | _ => None
      end
  | String c s1 =>
      if (byteZ c <? 128) && negb (host_byte c) then None else String c <$> unescape_host s1
  end.

(** [getScheme]: the scheme and the rest; [None] is an error. *)
Fixpoint scheme_loop (i : nat) (rawURL s : string) : option (string * string) :=
  match s with
  | ε => Some (ε, rawURL)
  | String c s' =>
      if is_alpha c then scheme_loop (S i) rawURL s'
      else if is_digit c || one_of ["+"; "-"; "."]%char c then
        if (i =? 0)%nat then Some (ε, rawURL) else scheme_loop (S i) rawURL s'
      else if Ascii.eqb c ":" then
        if (i =? 0)%nat then None else Some (str_take i rawURL, str_drop (S i) rawURL)
      else Some (ε, rawURL)
  end.

Definition getScheme (rawURL : string) : option (string * string) := scheme_loop O rawURL rawURL.

(** The fields of a [url.URL] that are read; [u_User] is the user name and the
    password. *)
Record URLinfo := mkURLinfo {
  u_Scheme : string;
  u_User : option (string * string);
  u_Host : string;
  u_Path : string;
  u_RawQuery : string;
  u_Fragment : string;
}.

Section parse.
Context `{UnicodeTables, IPLiterals}.

Definition parseHost (host : string) : option string :=
  if ContainsByte host "[" then parse_ip_literal host
  else match LastIndexByte host ":" with
       | Some i => if validOptionalPort (str_drop i host) then unescape_host host else None
       | None => unescape_host host
       end.

Definition parse_userinfo (userinfo : string) : option (string * string) :=
  if negb (str_forall userinfo_byte userinfo) then None
  else if negb (ContainsByte userinfo ":") then
    user ← PathUnescape userinfo; Some (user, ε)
  else
    let '(username, password) := Cut userinfo ":" in
    username ← PathUnescape username; password ← PathUnescape password;
    Some (username, password).

Definition parseAuthority (authority : string) : option (option (string * string) * string) :=
  match LastIndexByte authority "@" with
  | None => host ← parseHost authority; Some (None, host)
  | Some i =>
      host ← parseHost (str_drop (S i) authority);
      user ← parse_userinfo (str_take i authority);
      Some (Some user, host)
  end.

(** The end of [parse]: the scheme and the query have been cut off. *)
Definition parse_rest (scheme query rest : string) : option URLinfo :=
  if negb (HasPrefix rest "/") && negb (String.eqb scheme ε)
  then Some (mkURLinfo scheme None ε ε query ε)
  else if negb (HasPrefix rest "/") && ContainsByte (Cut rest "/").1 ":" then None
  else if (negb (String.eqb scheme ε) || negb (HasPrefix rest "///")) && HasPrefix rest "//" then
    let authority := str_drop 2 rest in
    let '(authority, rest) := match IndexByte authority "/" with
                              | Some i => (str_take i authority, str_drop i authority)
                              | None => (authority, ε)
                              end in
    '(user, host) ← parseAuthority authority;
    path ← PathUnescape rest; Some (mkURLinfo scheme user host path query ε)
  else path ← PathUnescape rest; Some (mkURLinfo scheme None ε path query ε).

(** [parse], not for a request.  A lone [?] at the end gives the same fields as an
    empty query. *)
Definition parse (rawURL : string) : option URLinfo :=
  if negb (str_forall (λ c, negb (is_ctl c)) rawURL) then None
  else if String.eqb rawURL "*" then Some (mkURLinfo ε None ε "*" ε ε)
  else
    '(scheme, rest) ← getScheme rawURL;
    let '(rest, query) := Cut rest "?" in
    parse_rest (ToLower scheme) query rest.

(** [url.Parse]. *)
Definition url_Parse (rawURL : string) : option URLinfo :=
  let '(u, frag) := Cut rawURL "#" in
  url ← parse u;
  if String.eqb frag ε then Some url
  else fragment ← PathUnescape frag;
       Some (mkURLinfo (u_Scheme url) (u_User url) (u_Host url) (u_Path url) (u_RawQuery url) fragment).

End parse.

(** [splitHostPort], behind [Hostname] and [Port]. *)
Definition splitHostPort (hostPort : string) : string * string :=
  let '(host, port) :=
    match LastIndexByte hostPort ":" with
    | Some colon =>
        if validOptionalPort (str_drop colon hostPort)
        then (str_take colon hostPort, str_drop (S colon) hostPort) else (hostPort, ε)
    | None => (hostPort, ε)
    end in
  if HasPrefix host "[" && HasSuffix host "]"
  then (str_drop 1 (str_take (String.length host - 1) host), port) else (host, port).

Definition Hostname (u : URLinfo) : string := (splitHostPort (u_Host u)).1.
Definition Port (u : URLinfo) : string := (splitHostPort (u_Host u)).2.

(** ** The binding *)

Section binding.
Context `{UnicodeTables, IPLiterals, CelAdapter}.

(** [parseURL]. *)
Definition parseURL (v : refval) : refval :=
  match url_Parse (stringOf v) with
  | None => NewStringInterfaceMap []
  | Some u =>
      let '(user, pass) := default (ε, ε) (u_User u) in
      NewStringInterfaceMap
        [("scheme", GString (u_Scheme u)); ("host", GString (Hostname u)); ("port", GString (Port u));
         ("path", GString (u_Path u)); ("query", GString (u_RawQuery u));
         ("fragment", GString (u_Fragment u)); ("username", GString user); ("password", GString pass)]
  end.

End binding.

#[global] Instance no_ip_literals : IPLiterals.
Proof. refine {| parse_ip_literal := λ _, None |}. done. Defined.

Example parse_full :
  (λ u, (u_Scheme u, u_User u, Hostname u, Port u, (u_Path u, u_RawQuery u, u_Fragment u))) <$>
    url_Parse "HTTPS://ann:pw@example.com:8443/a%20b?x=1#top" =
  Some ("https", Some ("ann", "pw"), "example.com", "8443", ("/a b", "x=1", "top")).
Proof. vm_compute. reflexivity. Qed.

Example parse_odd :
  (λ u, Hostname u) <$> url_Parse "https:evil.example" = Some ε ∧
  (λ u, Hostname u) <$> url_Parse "//evil.example/x" = Some "evil.example" ∧
  (λ u, (Hostname u, u_Path u)) <$> url_Parse "///evil.example/x" = Some (ε, "///evil.example/x") ∧
  url_Parse "https://good.example\@evil.example" = None ∧
  url_Parse "https://good.example:x" = None ∧
  url_Parse "a:b/c" = Some (mkURLinfo "a" None ε ε ε ε) ∧ url_Parse "1:b/c" = None.
Proof. vm_compute. repeat split. Qed.

(** ** Facts about strings *)

Lemma str_forall_impl (p q : ascii → bool) s :
  (∀ c, p c = true → q c = true) → str_forall p s = true → str_forall q s = true.
Proof.
  intros Hpq. induction s as [|c s IH]; cbn; [done|]. rewrite !andb_true_iff. intros [Hc Hs]. auto.
Qed.

Lemma str_forall_take p n s : str_forall p s = true → str_forall p (str_take n s) = true.
Proof. rewrite <- (str_take_drop n s) at 1. rewrite str_forall_append. by intros [? _]%andb_true_iff. Qed.

Lemma str_forall_drop p n s : str_forall p s = true → str_forall p (str_drop n s) = true.
Proof. rewrite <- (str_take_drop n s) at 1. rewrite str_forall_append. by intros [_ ?]%andb_true_iff. Qed.

Lemma IndexByte_forall p s c : str_forall p s = true → p c = false → IndexByte s c = None.
Proof.
  induction s as [|d s IH]; cbn; [done|]. intros [Hd Hs]%andb_true_iff Hc.
  destruct (Ascii.eqb_spec d c) as [->|]; [congruence|]. by rewrite IH.
Qed.

Lemma LastIndexByte_append s t c :
  LastIndexByte (s +:+ t) c =
    match LastIndexByte t c with
    | Some i => Some (String.length s + i)%nat
    | None => LastIndexByte s c
    end.
Proof.
  induction s as [|d s IH]; cbn; [by destruct (LastIndexByte t c)|]. rewrite IH.
  by destruct (LastIndexByte t c).
Qed.

Lemma LastIndexByte_None s c : IndexByte s c = None → LastIndexByte s c = None.
Proof.
  induction s as [|d s IH]; cbn; [done|]. destruct (Ascii.eqb d c); [done|].
  destruct (IndexByte s c); [done|]. intros _. by rewrite IH.
Qed.

Lemma str_drop_S_append s c t : str_drop (S (String.length s)) (s +:+ String c t) = t.
Proof. induction s as [|d s IH]; [by destruct t|]. exact IH. Qed.

Lemma str_drop_drop i s : str_drop (S i) s = str_drop 1 (str_drop i s).
Proof. revert s. induction i as [|i IH]; intros [|c s]; try done. apply (IH s). Qed.

(** A part with its delimiter, left out when it is empty. *)
Definition opt (c : ascii) (t : string) : string := match t with ε => ε | _ => String c t end.

Lemma Cut_opt s c t : IndexByte s c = None → Cut (s +:+ opt c t) c = (s, t).
Proof.
  intros Hs. unfold Cut, opt. destruct t as [|d t].
  - by rewrite append_nil_r, Hs.
  - rewrite IndexByte_append, Hs. cbn [IndexByte]. rewrite Ascii.eqb_refl. cbn [fmap option_fmap option_map].
    rewrite Nat.add_0_r, str_take_append. by rewrite str_drop_S_append.
Qed.

(** ** Hosts *)

(** The bytes that end an authority, and the backslash that some clients take for
    a slash. *)
Definition delimiter (c : ascii) : bool := one_of ["/"; "?"; "#"; "@"; "\"]%char c.

Definition undelimited (s : string) : bool := str_forall (λ c, negb (delimiter c)) s.

Lemma delimiter_not_host c : delimiter c = true → byteZ c < 128 ∧ host_byte c = false.
Proof.
  unfold delimiter, one_of. cbn. rewrite !orb_true_iff. intros Hc.
  repeat destruct Hc as [Hc|Hc]; try done; apply Ascii.eqb_eq in Hc as ->; by vm_compute.
Qed.

Lemma chr_delimiter z : 128 ≤ z < 256 ∨ z = 37 → delimiter (chr z) = false.
Proof.
  intros Hz. destruct (delimiter (chr z)) eqn:E; [|done]. exfalso.
  pose proof (delimiter_not_host _ E) as [Hlt _]. destruct Hz as [Hz| ->]; [|by vm_compute in E].
  rewrite byteZ_chr in Hlt by lia. lia.
Qed.

Lemma hex_val_range c x : hex_val c = Some x → 0 ≤ x < 16.
Proof.
  unfold hex_val, in_range. pose proof (byteZ_range c).
  repeat case_match; intros [= <-]; rewrite ?andb_true_iff, ?Z.leb_le in *; lia.
Qed.

Lemma unescape_host_cons c s :
  unescape_host (String c s) =
    if Ascii.eqb c "%" then
      match s with
      | String a (String b s3) =>
          match hex_val a, hex_val b with
          | Some x, Some y =>
              if (x <? 8) && negb ((x =? 2) && (y =? 5)) then None
              else String (chr (16 * x + y)) <$> unescape_host s3
          | _, _ => None
          end
      | _ => None
      end
    else if (byteZ c <? 128) && negb (host_byte c) then None else String c <$> unescape_host s.
Proof. destruct c as [[] [] [] [] [] [] [] []]; reflexivity. Qed.

Lemma unescape_host_undelimited s h : unescape_host s = Some h → undelimited h = true.
Proof.
  revert h. induction s as [s IH] using (induction_ltof1 _ String.length). unfold ltof in IH.
  intros h. destruct s as [|c s]; [by intros [= <-]|]. rewrite unescape_host_cons.
  destruct (Ascii.eqb c "%").
  - destruct s as [|a [|b s]]; [done|done|].
    destruct (hex_val a) as [x|] eqn:Ex; [|done]. destruct (hex_val b) as [y|] eqn:Ey; [|done].
    destruct ((x <? 8) && _) eqn:Exy; [done|]. intros (h' & Hh & ->)%fmap_Some. unfold undelimited. cbn [str_forall].
    apply hex_val_range in Ex, Ey. rewrite chr_delimiter.
    + apply (IH s); [cbn; lia|done].
    + apply andb_false_iff in Exy as [Hx|Hx]; [apply Z.ltb_ge in Hx; left; lia|].
      apply negb_false_iff, andb_true_iff in Hx as [->%Z.eqb_eq ->%Z.eqb_eq]. by right.
  - destruct ((byteZ c <? 128) && negb (host_byte c)) eqn:Ec; [done|].
    intros (h' & Hh & ->)%fmap_Some. unfold undelimited. cbn [str_forall]. apply andb_true_iff.
    split; [|by apply (IH s); [cbn; lia|]].
    destruct (delimiter c) eqn:Ed; [|done]. exfalso. destruct (delimiter_not_host c Ed) as [Hlt Hb].
    rewrite Hb, (proj2 (Z.ltb_lt _ _) Hlt) in Ec. done.
Qed.

Section theorems.
Context `{UnicodeTables, IPLiterals, CelAdapter}.

Lemma parseHost_undelimited s h : parseHost s = Some h → undelimited h = true.
Proof.
  unfold parseHost. destruct (ContainsByte s "["); [apply ip_literal_delimiters|].
  destruct (LastIndexByte s ":"); [case_match; [|done]|]; apply unescape_host_undelimited.
Qed.

Lemma parseAuthority_host a u h : parseAuthority a = Some (u, h) → undelimited h = true.
Proof.
  unfold parseAuthority. destruct (LastIndexByte a "@") as [i|].
  - destruct (parseHost (str_drop (S i) a)) as [h'|] eqn:Eh; [|done]. cbn.
    destruct (parse_userinfo _); [|done]. cbn. intros [= _ <-]. by eapply parseHost_undelimited.
  - destruct (parseHost a) as [h'|] eqn:Eh; [|done]. cbn. intros [= _ <-]. by eapply parseHost_undelimited.
Qed.

Lemma parse_rest_host scheme query rest u :
  parse_rest scheme query rest = Some u → undelimited (u_Host u) = true.
Proof.
  unfold parse_rest. destruct (_ && negb (String.eqb scheme ε)); [by intros [= <-]|].
  destruct (_ && ContainsByte _ ":"); [done|]. destruct (_ && HasPrefix rest "//").
  - destruct (match IndexByte (str_drop 2 rest) "/" with Some i => _ | None => _ end) as [a r].
    destruct (parseAuthority a) as [[us h]|] eqn:Ea; [|done]. cbn.
    destruct (PathUnescape r); [|done]. cbn. intros [= <-]. by eapply parseAuthority_host.
  - destruct (PathUnescape rest); [|done]. by intros [= <-].
Qed.

Lemma url_Parse_host s u : url_Parse s = Some u → undelimited (u_Host u) = true.
Proof.
  unfold url_Parse. destruct (Cut s "#") as [t frag]. destruct (parse t) as [url|] eqn:E; [|done].
  cbn. assert (undelimited (u_Host url) = true) as Hh.
  { unfold parse in E. destruct (negb _); [done|]. destruct (String.eqb t "*"); [by injection E as <-|].
    destruct (getScheme t) as [[sc rest]|]; [|done]. cbn in E. destruct (Cut rest "?") as [r q].
    by eapply parse_rest_host. }
  destruct (String.eqb frag ε); [by intros [= <-]|]. destruct (PathUnescape frag); [|done].
  by intros [= <-].
Qed.

Lemma splitHostPort_ok h :
  undelimited h = true →
  undelimited (splitHostPort h).1 = true ∧ str_forall is_digit (splitHostPort h).2 = true.
Proof.
  intros Hh. unfold splitHostPort.
  assert (∃ host port, (match LastIndexByte h ":" with
    | Some colon => if validOptionalPort (str_drop colon h)
        then (str_take colon h, str_drop (S colon) h) else (h, ε)
    | None => (h, ε) end) = (host, port) ∧ undelimited host = true ∧ str_forall is_digit port = true)
    as (host & port & -> & Hhost & Hport).
  { destruct (LastIndexByte h ":") as [i|]; [|by eexists _, _].
    destruct (validOptionalPort (str_drop i h)) eqn:Ev; [|by eexists _, _].
    eexists _, _. split; [done|]. split; [by apply str_forall_take|].
    assert (str_drop (S i) h = str_drop 1 (str_drop i h)) as -> by apply str_drop_drop.
    destruct (str_drop i h) as [|c r]; [done|]. by apply andb_true_iff in Ev as [_ Ev]; destruct r. }
  destruct (HasPrefix host "[" && HasSuffix host "]"); [|done].
  split; [|done]. by apply str_forall_drop, str_forall_take.
Qed.


(** ** Printing and parsing *)

(** The parts of an absolute URL, as they are written. *)
Record url_parts := mkParts {
  up_scheme : string;
  up_user : option (string * option string);
  up_host : string;
  up_port : string;
  up_path : string;
  up_query : string;
  up_fragment : string;
}.

Definition userinfo_text (u : option (string * option string)) : string :=
  match u with
  | None => ε
  | Some (name, None) => name +:+ "@"
  | Some (name, Some pass) => name +:+ ":" +:+ pass +:+ "@"
  end.

Definition authority_text (p : url_parts) : string :=
  userinfo_text (up_user p) +:+ up_host p +:+ opt ":" (up_port p).

Definition url_text (p : url_parts) : string :=
  ((up_scheme p +:+ ":" +:+ "//" +:+ authority_text p +:+ up_path p) +:+ opt "?" (up_query p)) +:+
  opt "#" (up_fragment p).

Definition scheme_byte (c : ascii) : bool := is_alpha c || is_digit c || one_of ["+"; "-"; "."]%char c.

Definition plain_host_byte (c : ascii) : bool :=
  host_byte c && negb (one_of [":"; "["; "]"]%char c).

Definition name_byte (c : ascii) : bool := userinfo_byte c && negb (Ascii.eqb c ":").

Definition path_byte (c : ascii) : bool := negb (is_ctl c) && negb (one_of ["?"; "#"]%char c).
Definition query_byte (c : ascii) : bool := negb (is_ctl c) && negb (Ascii.eqb c "#").

Definition user_ok (u : option (string * option string)) : bool :=
  match u with
  | None => true
  | Some (name, pass) => str_forall name_byte name && str_forall userinfo_byte (default ε pass)
  end.

Definition parts_ok (p : url_parts) : bool :=
  match up_scheme p with ε => false | String c _ => is_alpha c end &&
  str_forall scheme_byte (up_scheme p) && user_ok (up_user p) &&
  str_forall plain_host_byte (up_host p) && str_forall is_digit (up_port p) &&
  (String.eqb (up_path p) ε || HasPrefix (up_path p) "/") && str_forall path_byte (up_path p) &&
  str_forall query_byte (up_query p).

(** Every byte is checked. *)
Lemma byte_check (p q : ascii → bool) :
  forallb (λ n, implb (p (ascii_of_nat n)) (q (ascii_of_nat n))) (seq 0 256) = true →
  ∀ c, p c = true → q c = true.
Proof.
  intros Hf c Hc. rewrite forallb_forall in Hf. specialize (Hf (nat_of_ascii c)).
  rewrite ascii_nat_embedding, Hc in Hf. apply Hf, in_seq. pose proof (nat_ascii_bounded c). lia.
Qed.

Lemma host_no_at p : str_forall plain_host_byte p = true → IndexByte p "@" = None ∧ IndexByte p ":" = None ∧
  IndexByte p "/" = None ∧ IndexByte p "[" = None.
Proof. intros Hp. split_and!; by eapply IndexByte_forall. Qed.

Lemma unescape_host_plain h : str_forall host_byte h = true → unescape_host h = Some h.
Proof.
  induction h as [|c h IH]; [done|]. cbn [str_forall]. intros [Hc Hh]%andb_true_iff.
  rewrite unescape_host_cons, IH by done. rewrite Hc, andb_false_r.
  destruct (Ascii.eqb_spec c "%") as [->|]; [by vm_compute in Hc|done].
Qed.

Lemma scheme_loop_ok n pre s rest :
  str_forall scheme_byte s = true → n = String.length pre → (0 < n)%nat →
  scheme_loop n (pre +:+ s +:+ String ":" rest) (s +:+ String ":" rest) = Some (pre +:+ s, rest).
Proof.
  revert n pre. induction s as [|c s IH]; intros n pre; cbn [str_forall append].
  - intros _ -> Hn. cbn [scheme_loop].
    change (is_alpha ":") with false. change (is_digit ":" || one_of ["+"; "-"; "."]%char ":") with false.
    change (Ascii.eqb ":" ":") with true. destruct (Nat.eqb_spec (String.length pre) 0); [lia|].
    by rewrite str_take_append, str_drop_S_append, append_nil_r.
  - intros [Hc Hs]%andb_true_iff -> Hn. cbn [scheme_loop].
    assert (pre +:+ String c (s +:+ String ":" rest) = (pre +:+ str1 c) +:+ s +:+ String ":" rest) as ->
      by (by rewrite append_assoc).
    assert (scheme_loop (S (String.length pre)) ((pre +:+ str1 c) +:+ s +:+ String ":" rest)
      (s +:+ String ":" rest) = Some (pre +:+ String c s, rest)) as Hgo.
    { rewrite (IH _ (pre +:+ str1 c)); [by rewrite append_assoc|done|rewrite length_append; cbn; lia|lia]. }
    unfold scheme_byte in Hc. destruct (is_alpha c); [exact Hgo|]. cbn [orb] in Hc. rewrite Hc.
    destruct (Nat.eqb_spec (String.length pre) 0); [lia|]. exact Hgo.
Qed.

Lemma getScheme_ok c s rest :
  is_alpha c = true → str_forall scheme_byte s = true →
  getScheme (String c s +:+ String ":" rest) = Some (String c s, rest).
Proof.
  intros Hc Hs. unfold getScheme. cbn [append scheme_loop]. rewrite Hc.
  exact (scheme_loop_ok 1 (str1 c) s rest Hs eq_refl (Nat.lt_0_succ 0)).
Qed.

Lemma authority_plain p :
  parts_ok p = true → IndexByte (authority_text p) "/" = None ∧
    str_forall path_byte (authority_text p) = true.
Proof.
  unfold parts_ok. rewrite !andb_true_iff. intros [[[[[[[_ _] Hu] Hh] Hp] _] _] _].
  assert (str_forall (λ c, path_byte c && negb (Ascii.eqb c "/")) (authority_text p) = true) as Ha.
  { unfold authority_text. rewrite !str_forall_append, !andb_true_iff. split_and!.
    - destruct (up_user p) as [[name [pass|]]|]; cbn in Hu |- *; [| |done];
        rewrite ?str_forall_append; apply andb_true_iff in Hu as [Hn Hps].
      + rewrite (str_forall_impl name_byte _ name) by (done || by apply byte_check).
        cbn. rewrite str_forall_append, (str_forall_impl userinfo_byte _ pass) by (done || by apply byte_check).
        done.
      + by rewrite (str_forall_impl name_byte _ name) by (done || by apply byte_check).
    - eapply str_forall_impl; [|done]. by apply byte_check.
    - destruct (up_port p) as [|d port]; [done|]. cbn [opt].
      change (str_forall ?q (String ":" ?t)) with (q ":"%char && str_forall q t).
      apply andb_true_iff. split; [done|]. eapply str_forall_impl; [|done]. by apply byte_check. }
  split; [by eapply IndexByte_forall|]. eapply str_forall_impl; [|done].
  by intros c [? _]%andb_true_iff.
Qed.

Definition host_text (p : url_parts) : string := up_host p +:+ opt ":" (up_port p).

(** The two ways the colon of the port shows up. *)
Lemma host_text_colon host port :
  str_forall plain_host_byte host = true → str_forall is_digit port = true →
  LastIndexByte (host +:+ opt ":" port) ":" = match port with ε => None | _ => Some (String.length host) end.
Proof.
  intros Hh Hp. destruct (host_no_at host Hh) as (_ & Hc & _). destruct port as [|d port].
  - rewrite append_nil_r. by apply LastIndexByte_None.
  - rewrite LastIndexByte_append. change (opt ":" (String d port)) with (str1 ":" +:+ String d port).
    rewrite LastIndexByte_append, (LastIndexByte_None (String d port)) by by eapply IndexByte_forall.
    cbn. f_equal. lia.
Qed.

Lemma host_text_ok host port :
  str_forall plain_host_byte host = true → str_forall is_digit port = true →
  let h := host +:+ opt ":" port in
  parseHost h = Some h ∧ splitHostPort h = (host, port) ∧ LastIndexByte h "@" = None.
Proof.
  intros Hh Hp h. subst h. destruct (host_no_at host Hh) as (Ha & Hc & _ & Hb).
  assert (∀ c, is_digit c = false → c ≠ ":"%char → IndexByte (opt ":" port) c = None) as Hopt.
  { intros c Hd Hne. destruct port as [|d port]; [done|]. cbn [opt IndexByte].
    destruct (Ascii.eqb_spec ":" c); [done|]. change (S <$> IndexByte (String d port) c = None).
    by rewrite (IndexByte_forall is_digit). }
  assert (str_forall host_byte (host +:+ opt ":" port) = true) as Hall.
  { rewrite str_forall_append, andb_true_iff. split.
    - eapply str_forall_impl; [|done]. by apply byte_check.
    - destruct port as [|d port]; [done|]. cbn [opt].
      change (host_byte ":" && str_forall host_byte (String d port) = true).
      eapply str_forall_impl; [|done]. by apply byte_check. }
  assert (match port with ε => True | _ => validOptionalPort (String ":" port) = true end) as Hv
    by (by destruct port).
  split_and!.
  - unfold parseHost, ContainsByte. rewrite IndexByte_append, Hb, Hopt by done. cbn [fmap option_fmap option_map].
    rewrite host_text_colon, unescape_host_plain by done. destruct port as [|d port]; [done|].
    rewrite str_drop_append. cbn [opt]. by rewrite Hv.
  - unfold splitHostPort. rewrite host_text_colon by done.
    assert (HasPrefix host "[" = false) as Hpre.
    { destruct host as [|c host]; [done|]. unfold HasPrefix. cbn [String.prefix].
      destruct (Ascii.ascii_dec "[" c) as [<-|Hne]; [discriminate Hb|].
      by destruct (ascii_dec "[" c). }
    destruct port as [|d port]; [by rewrite append_nil_r, Hpre|]. cbn [opt].
    rewrite str_drop_append, Hv, str_take_append, str_drop_S_append. by rewrite Hpre.
  - apply LastIndexByte_None. by rewrite IndexByte_append, Ha, Hopt.
Qed.

(** The user name and the password, unescaped. *)
Definition user_decoded (u : option (string * option string)) : option (option (string * string)) :=
  match u with
  | None => Some None
  | Some (name, pass) =>
      name ← PathUnescape name; pass ← PathUnescape (default ε pass); Some (Some (name, pass))
  end.

Lemma parse_userinfo_ok name pass name' pass' :
  str_forall name_byte name = true → str_forall userinfo_byte (default ε pass) = true →
  PathUnescape name = Some name' → PathUnescape (default ε pass) = Some pass' →
  parse_userinfo (match pass with None => name | Some pass => name +:+ String ":" pass end) =
    Some (name', pass').
Proof.
  intros Hn Hp En Ep.
  assert (str_forall userinfo_byte name = true) as Hu
    by (eapply str_forall_impl; [|done]; by apply byte_check).
  assert (IndexByte name ":" = None) as Hc by by apply (IndexByte_forall name_byte).
  unfold parse_userinfo, ContainsByte. destruct pass as [pass|]; cbn [default from_option id] in *.
  - rewrite str_forall_append, Hu. change (str_forall userinfo_byte (String ":" pass)) with
      (userinfo_byte ":" && str_forall userinfo_byte pass). rewrite Hp. cbn [andb negb userinfo_byte].
    unfold Cut. rewrite IndexByte_append, Hc. cbn [IndexByte]. rewrite Ascii.eqb_refl.
    cbn [fmap option_fmap option_map negb andb]. rewrite Nat.add_0_r, str_take_append, str_drop_S_append.
    change (negb (true && (userinfo_byte ":" && true))) with false. cbv iota. by rewrite En, Ep.
  - rewrite Hu, Hc. cbn. rewrite En. cbn. by injection Ep as <-.
Qed.

Lemma parseAuthority_ok p user :
  parts_ok p = true → user_decoded (up_user p) = Some user →
  parseAuthority (authority_text p) = Some (user, host_text p).
Proof.
  unfold parts_ok. rewrite !andb_true_iff. intros [[[[[[[_ _] Hu] Hh] Hp] _] _] _] Hd.
  destruct (host_text_ok _ _ Hh Hp) as (Eh & _ & Ea). fold (host_text p) in Eh, Ea.
  unfold authority_text. fold (host_text p). unfold parseAuthority.
  destruct (up_user p) as [[name pass]|].
  - cbn in Hu, Hd. apply andb_true_iff in Hu as [Hn Hps].
    destruct (PathUnescape name) as [name'|] eqn:En; [|done]. cbn in Hd.
    destruct (PathUnescape (default ε pass)) as [pass'|] eqn:Ep; [|done]. injection Hd as <-.
    pose proof (parse_userinfo_ok name pass name' pass' Hn Hps En Ep) as Hinfo.
    set (info := match pass with None => name | Some pass => name +:+ String ":" pass end) in *.
    assert (userinfo_text (Some (name, pass)) +:+ host_text p = info +:+ String "@" (host_text p)) as ->.
    { subst info. destruct pass as [pass|]; cbn [userinfo_text]; by rewrite !append_assoc. }
    rewrite LastIndexByte_append. change (String "@" (host_text p)) with (str1 "@" +:+ host_text p) at 1.
    rewrite LastIndexByte_append, Ea. cbn [LastIndexByte str1 Ascii.eqb Bool.eqb].
    rewrite Nat.add_0_r, str_drop_S_append, str_take_append, Eh. cbn. by rewrite Hinfo.
  - injection Hd as <-. cbn [userinfo_text append]. by rewrite Ea, Eh.
Qed.

Lemma opt_forall p c t : p c = true → str_forall p t = true → str_forall p (opt c t) = true.
Proof. destruct t; [done|]. intros Hc Ht. cbn [opt str_forall]. by rewrite Hc. Qed.

(** The bytes before the query, and before the fragment. *)
Lemma url_text_bytes p :
  parts_ok p = true →
  str_forall path_byte (up_scheme p +:+ ":" +:+ "//" +:+ authority_text p +:+ up_path p) = true ∧
  str_forall query_byte ((up_scheme p +:+ ":" +:+ "//" +:+ authority_text p +:+ up_path p) +:+
    opt "?" (up_query p)) = true.
Proof.
  intros Hp. destruct (authority_plain p Hp) as [_ Ha]. unfold parts_ok in Hp.
  rewrite !andb_true_iff in Hp. destruct Hp as [[[[[[[_ Hs] _] _] _] _] Hpath] Hq].
  assert (str_forall path_byte (up_scheme p +:+ ":" +:+ "//" +:+ authority_text p +:+ up_path p) = true) as Hb.
  { rewrite !str_forall_append, Ha, Hpath.
    rewrite (str_forall_impl scheme_byte _ (up_scheme p)) by (done || by apply byte_check). done. }
  split; [done|]. rewrite str_forall_append.
  rewrite (str_forall_impl path_byte _ _) by (done || by apply byte_check). by apply opt_forall.
Qed.

Lemma parse_rest_ok p query user path :
  parts_ok p = true → user_decoded (up_user p) = Some user → PathUnescape (up_path p) = Some path →
  parse_rest (ToLower (up_scheme p)) query ("//" +:+ authority_text p +:+ up_path p) =
    Some (mkURLinfo (ToLower (up_scheme p)) user (host_text p) path query ε).
Proof.
  intros Hp Hu Hpath. destruct (authority_plain p Hp) as [Hs _].
  pose proof (parseAuthority_ok p user Hp Hu) as Ha. unfold parts_ok in Hp. rewrite !andb_true_iff in Hp.
  destruct Hp as [[[[[[[Hsc Hsb] _] _] _] Hpp] _] _]. unfold parse_rest.
  assert (String.eqb (ToLower (up_scheme p)) ε = false) as ->.
  { destruct (up_scheme p) as [|c s] eqn:E; [done|]. rewrite ToLower_ascii; [done|].
    eapply str_forall_impl; [|done]. by apply byte_check. }
  change (HasPrefix ("//" +:+ authority_text p +:+ up_path p) "/") with true.
  assert (HasPrefix ("//" +:+ authority_text p +:+ up_path p) "//" = true) as ->
    by by destruct (authority_text p +:+ up_path p).
  cbn [negb andb orb]. change (str_drop 2 ("//" +:+ ?t)) with t.
  assert ((match IndexByte (authority_text p +:+ up_path p) "/" with
    | Some i => (str_take i (authority_text p +:+ up_path p), str_drop i (authority_text p +:+ up_path p))
    | None => (authority_text p +:+ up_path p, ε) end) = (authority_text p, up_path p)) as ->.
  { rewrite IndexByte_append, Hs. destruct (up_path p) as [|c path'].
    - cbn. by rewrite append_nil_r.
    - cbn [String.eqb orb] in Hpp. unfold HasPrefix in Hpp. cbn [String.prefix] in Hpp.
      destruct (ascii_dec "/" c) as [<-|]; [|done]. cbn [IndexByte]. rewrite Ascii.eqb_refl.
      cbn [fmap option_fmap option_map]. by rewrite Nat.add_0_r, str_take_append, str_drop_append. }
  rewrite Ha. cbn. by rewrite Hpath.
Qed.

Lemma parse_ok p user path :
  parts_ok p = true → user_decoded (up_user p) = Some user → PathUnescape (up_path p) = Some path →
  parse ((up_scheme p +:+ ":" +:+ "//" +:+ authority_text p +:+ up_path p) +:+ opt "?" (up_query p)) =
    Some (mkURLinfo (ToLower (up_scheme p)) user (host_text p) path (up_query p) ε).
Proof.
  intros Hp Hu Hpath. destruct (url_text_bytes p Hp) as [Hb Hq].
  pose proof (parse_rest_ok p (up_query p) user path Hp Hu Hpath) as Hrest.
  unfold parse. rewrite (str_forall_impl query_byte _ _) by (done || by apply byte_check).
  unfold parts_ok in Hp. rewrite !andb_true_iff in Hp. destruct Hp as [[[[[[[Hsc Hsb] _] _] _] _] _] _].
  destruct (up_scheme p) as [|c s] eqn:Es; [done|].
  rewrite !append_assoc. cbn [str_forall] in Hsb. apply andb_true_iff in Hsb as [_ Hsb].
  assert (∀ t, String.eqb (String c s +:+ t) "*" = false) as ->.
  { intros t. cbn. destruct (Ascii.eqb_spec c "*") as [->|]; [by vm_compute in Hsc|done]. }
  cbn [negb]. set (rest := "//" +:+ authority_text p +:+ up_path p) in *.
  assert (IndexByte rest "?" = None) as Hrq.
  { apply (IndexByte_forall path_byte); [|done]. rewrite str_forall_append in Hb.
    apply andb_true_iff in Hb as [_ Hb]. exact (proj2 (proj1 (andb_true_iff _ _) Hb)). }
  assert (String c s +:+ ":" +:+ "//" +:+ authority_text p +:+ up_path p +:+ opt "?" (up_query p) =
    String c s +:+ String ":" (rest +:+ opt "?" (up_query p))) as ->
    by (subst rest; cbn [append]; by rewrite append_assoc).
  rewrite getScheme_ok by done. cbn [mbind option_bind]. by rewrite Cut_opt.
Qed.


End theorems.

(** ** Witnesses *)

Definition redirect : url_parts :=
  mkParts "HTTPS" (Some ("ann", Some "p%40ss")) "login.example.com" "8443" "/a%20b" "next=/?x" "top".


