(* ===== verification/Slog.v ===== *)
(** * internal/log/log.go: records on their way out

    The helpers [Debugw], [Infow], [Warnw] and [Errorw], slog's level check, and the
    JSON handler that [Configure] installs by default, with the [ReplaceAttr] of
    log.go.  A value is rendered the way slog's JSON handler does; floats, times and
    values of other types go through encoding/json, which is the class [JsonTables].
    [ReplaceAttr] asks for the time of any attribute called [time], at any depth, and
    slog panics when the value is not a time. *)

From Stdlib Require Import SpecFloat.
From S2P Require Import Prelude GoStrings GoHttp GoValues CelEnv Facts Policy Evaluate.
From S2P Require Import Log AccessLog Instances LogTheorems GoRegexp.
Local Open Scope Z_scope.

(** ** JSON text *)

(** The hexadecimal digits of a byte. *)
Definition hex2 (z : Z) : string := hex_digits 2 z.

(** slog's [safeSet]. *)
Definition json_safe (b : Z) : bool := (32 <=? b) && negb ((b =? 34) || (b =? 92)).

(** One rune of [appendEscapedJSONString], with the bytes it was decoded from. *)
Definition json_rune (rb : Z * string) : string :=
  let '(r, bytes) := rb in
  if (r =? RuneError) && (String.length bytes =? 1)%nat then "\ufffd"
  else if r <? 128 then
    if json_safe r then bytes
    else if (r =? 92) || (r =? 34) then String "\" bytes
    else if r =? 10 then "\n"
    else if r =? 13 then "\r"
    else if r =? 9 then "\t"
    else "\u00" +:+ hex2 r
  else if (r =? 8232) then "\u2028"
  else if (r =? 8233) then "\u2029"
  else bytes.

Definition dquote : string := str1 (chr 34).

Definition json_escape (s : string) : string := str_concat (map json_rune (runes s)).

(** [appendString] of the JSON handler. *)
Definition json_quote (s : string) : string := dquote +:+ json_escape s +:+ dquote.

Class JsonTables := {
  json_float : spec_float → string;
  json_time : Z → string;
  json_millis : Z → string;
  json_strings : list string → string;
  json_any : gval → string;
  json_float_line : ∀ f, one_line (json_float f) = true;
  json_time_line : ∀ t, one_line (json_time t) = true;
  json_millis_line : ∀ t, one_line (json_millis t) = true;
  json_strings_line : ∀ l, one_line (json_strings l) = true;
  json_any_line : ∀ v, one_line (json_any v) = true;
}.

Section slog.
Context `{UnicodeTables, FmtTables, JsonTables}.

(** [appendJSONValue]. *)
Definition json_value (v : slog_value) : string :=
  match v with
  | SString s => json_quote s
  | SInt64 z | SUint64 z | SDuration z => Itoa z
  | SFloat64 f => json_float f
  | SBool b => if b then "true" else "false"
  | STime t => json_time t
  | SStrings l => json_strings l
  | SAny v => json_any v
  end.

(** The [ReplaceAttr] that [Configure] gives the handler; [Value.Time] panics on a
    value of another kind. *)
Definition ReplaceAttr (key : string) (v : slog_value) : outcome (string * slog_value) :=
  if String.eqb key "time" then
    match v with
    | STime t => Ret ("time", SString (json_millis t))
    | _ => Panic
    end
  else Ret (key, v).

(** A member of a JSON object. *)
#[warnings="-register-all"]
Inductive member : Type :=
| JField (key value : string)
| JObject (key : string) (l : list member).

(** [appendAttr]: the members an attribute adds.  An empty attribute and a group
    with nothing in it add none, and the members of a group without a name are
    those of the object around it. *)
Fixpoint json_attr (a : attr) : outcome (list member) :=
  match a with
  | Attr key v =>
      '(key, v) ← ReplaceAttr key v;
      if is_zero_attr key v then Ret [] else Ret [JField key (json_value v)]
  | Group_ key l =>
      ms ← (fix go (l : list attr) : outcome (list member) :=
              match l with
              | [] => Ret []
              | x :: l' => m ← json_attr x; ms ← go l'; Ret (m ++ ms)
              end) l;
      match ms with
      | [] => Ret []
      | _ => if String.eqb key ε then Ret ms else Ret [JObject key ms]
      end
  end.

(** The attributes of a record or of a group, one after the other. *)
Fixpoint json_attrs (l : list attr) : outcome (list member) :=
  match l with
  | [] => Ret []
  | x :: l' => m ← json_attr x; ms ← json_attrs l'; Ret (m ++ ms)
  end.

Fixpoint print_member (m : member) : string :=
  match m with
  | JField key value => json_quote key +:+ ":" +:+ value
  | JObject key l => json_quote key +:+ ":{" +:+ Join (map print_member l) "," +:+ "}"
  end.

(** [slog.Level.String]. *)
Definition Level_String (l : Z) : string :=
  let str base d := if d =? 0 then base else base +:+ (if 0 <? d then "+" else ε) +:+ Itoa d in
  if l <? LevelInfo then str "DEBUG" (l - LevelDebug)
  else if l <? LevelWarn then str "INFO" (l - LevelInfo)
  else if l <? LevelError then str "WARN" (l - LevelWarn)
  else str "ERROR" (l - LevelError).

(** The JSON handler's [Handle]. *)
Definition json_Handle (now : Z) (r : log_record) : outcome string :=
  head ← json_attrs [Attr "time" (STime now); Attr "level" (SString (Level_String (lr_level r)));
                     Attr "msg" (SString (lr_msg r))];
  ms ← json_attrs (lr_attrs r);
  Ret ("{" +:+ Join (map print_member (head ++ ms)) "," +:+ "}" +:+ str1 (chr 10)).

(** ** Emitting *)

(** [newConsoleHandler]. *)
Definition newConsoleHandler : consoleHandler := mkConsole ε [].

(** [slog.Logger.log] behind the helpers: nothing below the level, otherwise what the
    handler writes; the console handler shows the time of day. *)
Definition log_call (st : log_state) (now : Z) (clock : string) (r : log_record) :
    outcome (option string) :=
  if negb (Enabled st (lr_level r)) then Ret None
  else match current st with
       | ConsoleHandler => Ret (Some (Handle newConsoleHandler clock r))
       | JSONHandler => line ← json_Handle now r; Ret (Some line)
       end.

Definition Debugw (st : log_state) (now : Z) (clock msg : string) (kv : list attr) :=
  log_call st now clock (mkRecord LevelDebug msg kv).
Definition Infow (st : log_state) (now : Z) (clock msg : string) (kv : list attr) :=
  log_call st now clock (mkRecord LevelInfo msg kv).
Definition Warnw (st : log_state) (now : Z) (clock msg : string) (kv : list attr) :=
  log_call st now clock (mkRecord LevelWarn msg kv).
Definition Errorw (st : log_state) (now : Z) (clock msg : string) (kv : list attr) :=
  log_call st now clock (mkRecord LevelError msg kv).

(** The records of a handler, in order. *)
Fixpoint log_all (st : log_state) (now : Z) (clock : string) (rs : list log_record) :
    outcome (list string) :=
  match rs with
  | [] => Ret []
  | r :: rs' =>
      o ← log_call st now clock r; out ← log_all st now clock rs';
      Ret (option_list o ++ out)
  end.

(** [init]: the state before [main] runs. *)
Definition log_init : log_state := (Configure (mkLogState LevelInfo JSONHandler) (mkOptions ε ε)).1.

End slog.

(** ** Lemmas *)

(** Every rune of a string, with its bytes. *)
Lemma runes_Forall (P : Z * string → Prop) s :
  (∀ t, t ≠ ε → P ((decode_rune t).1, str_take (decode_rune t).2 t)) → Forall P (runes s).
Proof.
  intros HP. unfold runes. generalize O. induction s as [|c s IH]; intros k; [constructor|].
  destruct k as [|k]; [|apply IH]. cbn [runes_from]. constructor; [|apply IH]. by apply HP.
Qed.

(** A rune with its bytes: the encoding of a valid rune, unless it stands for an
    invalid byte. *)
Definition rune_bytes (rb : Z * string) : Prop :=
  rb.1 = RuneError ∧ String.length rb.2 = 1%nat ∨ valid_rune rb.1 = true ∧ rb.2 = encode_rune rb.1.

Ltac euclid := Z.to_euclidean_division_equations; lia.

Lemma encode2 c0 c1 :
  in_range 194 223 (byteZ c0) = true → in_range 128 191 (byteZ c1) = true →
  encode_rune ((byteZ c0 - 192) * 64 + (byteZ c1 - 128)) = String c0 (str1 c1).
Proof.
  unfold in_range. intros. unfold encode_rune. set (r := _ + _). assert (r = (byteZ c0 - 192) * 64 + (byteZ c1 - 128)) as Er by done. clearbody r.
  assert ((r <? 128) = false) as -> by lia. assert ((r <? 2048) = true) as -> by lia. cbn [str1].
  replace (192 + r / 64) with (byteZ c0) by euclid. replace (128 + r mod 64) with (byteZ c1) by euclid.
  by rewrite !chr_byteZ.
Qed.

Lemma encode3 c0 c1 c2 :
  in_range 224 239 (byteZ c0) = true →
  in_range (if byteZ c0 =? 224 then 160 else 128) (if byteZ c0 =? 237 then 159 else 191) (byteZ c1) = true →
  in_range 128 191 (byteZ c2) = true →
  let r := (byteZ c0 - 224) * 4096 + (byteZ c1 - 128) * 64 + (byteZ c2 - 128) in
  valid_rune r = true ∧ encode_rune r = String c0 (String c1 (str1 c2)).
Proof.
  intros H0 H1 H2 r. unfold in_range in H0, H1, H2.
  assert (2048 ≤ r < 65536 ∧ ¬ (55296 ≤ r ≤ 57343)) as [Hr Hs].
  { destruct (Z.eqb_spec (byteZ c0) 224), (Z.eqb_spec (byteZ c0) 237); lia. }
  split; [unfold valid_rune, in_range; lia|]. unfold encode_rune.
  match goal with r := ?e |- _ => assert (r = e) as Er by done; clearbody r end.
  assert (in_range 55296 57343 r || (1114111 <? r) = false) as -> by (unfold in_range; lia).
  assert ((r <? 128) = false) as -> by lia. assert ((r <? 2048) = false) as -> by lia.
  assert ((r <? 65536) = true) as -> by lia.
  assert (128 ≤ byteZ c1 ≤ 191) by (clear -H1; destruct (_ =? 224), (_ =? 237); lia).
  replace (224 + r / 4096) with (byteZ c0) by euclid. replace (128 + (r / 64) mod 64) with (byteZ c1) by euclid.
  replace (128 + r mod 64) with (byteZ c2) by euclid. by rewrite !chr_byteZ.
Qed.

Lemma encode4 c0 c1 c2 c3 :
  in_range 240 244 (byteZ c0) = true →
  in_range (if byteZ c0 =? 240 then 144 else 128) (if byteZ c0 =? 244 then 143 else 191) (byteZ c1) = true →
  in_range 128 191 (byteZ c2) = true → in_range 128 191 (byteZ c3) = true →
  let r := (byteZ c0 - 240) * 262144 + (byteZ c1 - 128) * 4096 + (byteZ c2 - 128) * 64 + (byteZ c3 - 128) in
  valid_rune r = true ∧ encode_rune r = String c0 (String c1 (String c2 (str1 c3))).
Proof.
  intros H0 H1 H2 H3 r. unfold in_range in H0, H1, H2, H3.
  assert (65536 ≤ r ≤ 1114111) as Hr.
  { destruct (Z.eqb_spec (byteZ c0) 240), (Z.eqb_spec (byteZ c0) 244); lia. }
  split; [unfold valid_rune, in_range; lia|]. unfold encode_rune.
  match goal with r := ?e |- _ => assert (r = e) as Er by done; clearbody r end.
  assert (in_range 55296 57343 r || (1114111 <? r) = false) as -> by (unfold in_range; lia).
  assert ((r <? 128) = false) as -> by lia. assert ((r <? 2048) = false) as -> by lia.
  assert ((r <? 65536) = false) as -> by lia.
  assert (128 ≤ byteZ c1 ≤ 191) by (clear -H1; destruct (_ =? 240), (_ =? 244); lia).
  replace (240 + r / 262144) with (byteZ c0) by euclid.
  replace (128 + (r / 4096) mod 64) with (byteZ c1) by euclid.
  replace (128 + (r / 64) mod 64) with (byteZ c2) by euclid.
  replace (128 + r mod 64) with (byteZ c3) by euclid. by rewrite !chr_byteZ.
Qed.

(** Decoding a rune takes the bytes that encode it. *)
Lemma decode_rune_cases t :
  t ≠ ε → rune_bytes ((decode_rune t).1, str_take (decode_rune t).2 t).
Proof.
  intros Ht. unfold rune_bytes, decode_rune. destruct t as [|c0 s1]; [done|].
  destruct (Z.ltb_spec (byteZ c0) 128) as [Hc|Hc]; cbn [fst snd].
  { right. pose proof (byteZ_range c0). unfold valid_rune, in_range, encode_rune.
    rewrite (proj2 (Z.ltb_lt _ _) Hc), chr_byteZ. split; [lia|by destruct s1]. }
  destruct s1 as [|c1 s2]; [by left|].
  destruct (in_range 194 223 (byteZ c0)) eqn:E1.
  { destruct (in_range 128 191 (byteZ c1)) eqn:E2; [|by left]. right. cbn [fst snd].
    rewrite (encode2 c0 c1) by done. split; [unfold valid_rune, in_range in *; lia|by destruct s2]. }
  destruct s2 as [|c2 s3]; [by left|].
  destruct (in_range 224 239 (byteZ c0)) eqn:E2.
  { destruct (in_range _ _ (byteZ c1) && _) eqn:E; [|by left]. apply andb_true_iff in E as [E3 E4]. right. cbn [fst snd].
    destruct (encode3 c0 c1 c2) as [? ->]; [done..|]. split; [done|by destruct s3]. }
  destruct s3 as [|c3 s4]; [by left|].
  destruct (in_range 240 244 (byteZ c0)) eqn:E3; [|by left].
  destruct (in_range _ _ (byteZ c1) && _ && _) eqn:E; [|by left].
  apply andb_true_iff in E as [[E4 E5]%andb_true_iff E6]. right. cbn [fst snd].
  destruct (encode4 c0 c1 c2 c3) as [? ->]; [done..|]. split; [done|by destruct s4].
Qed.

(** ** What a reader of the log sees *)

Definition prepend (s : string) (o : option (string * string)) : option (string * string) :=
  '(v, rest) ← o; Some (s +:+ v, rest).

(** A reader of JSON, after the opening quote: the string, and the text behind the
    closing quote. *)
Fixpoint json_string (s : string) : option (string * string) :=
  match s with
  | ε => None
  | String c s1 =>
      if byteZ c =? 34 then Some (ε, s1)
      else if byteZ c =? 92 then
        match s1 with
        | String e s2 =>
            if (byteZ e =? 34) || (byteZ e =? 92) then prepend (str1 e) (json_string s2)
            else if byteZ e =? 110 then prepend (str1 (chr 10)) (json_string s2)
            else if byteZ e =? 114 then prepend (str1 (chr 13)) (json_string s2)
            else if byteZ e =? 116 then prepend (str1 (chr 9)) (json_string s2)
            else if byteZ e =? 117 then
              match s2 with
              | String h3 (String h2 (String h1 (String h0 s3))) =>
                  match hex_val h3, hex_val h2, hex_val h1, hex_val h0 with
                  | Some a, Some b, Some c, Some d =>
                      prepend (encode_rune (((a * 16 + b) * 16 + c) * 16 + d)) (json_string s3)
                  | _, _, _, _ => None
                  end
              | _ => None
              end
            else None
        | ε => None
        end
      else if byteZ c <? 32 then None
      else prepend (str1 c) (json_string s1)
  end.

(** The text with every invalid byte replaced by U+FFFD, as [strings.ToValidUTF8]. *)
Definition to_valid (s : string) : string :=
  str_concat (map (λ rb, encode_rune rb.1) (runes s)).

Lemma prepend_append s t o : prepend s (prepend t o) = prepend (s +:+ t) o.
Proof. destruct o as [[v rest]|]; [|done]. cbn. by rewrite append_assoc. Qed.

Lemma json_string_high s t :
  str_forall (λ c, 128 <=? byteZ c) s = true → json_string (s +:+ t) = prepend s (json_string t).
Proof.
  induction s as [|c s IH]; [change (ε +:+ t) with t; by destruct (json_string t) as [[]|]|].
  cbn [str_forall]. rewrite andb_true_iff. intros [Hc Hs]. cbn [append json_string].
  assert ((byteZ c =? 34) = false) as -> by lia. assert ((byteZ c =? 92) = false) as -> by lia.
  assert ((byteZ c <? 32) = false) as -> by lia. by rewrite IH, prepend_append.
Qed.

Lemma hex_val_digit d : 0 ≤ d < 16 → hex_val (hex_digit d) = Some d.
Proof.
  intros Hd. unfold hex_val, hex_digit, in_range. destruct (Z.ltb_spec d 10); rewrite byteZ_chr by lia.
  - assert ((48 <=? 48 + d) && (48 + d <=? 57) = true) as -> by lia. f_equal. lia.
  - assert ((48 <=? 87 + d) && (87 + d <=? 57) = false) as -> by lia.
    assert ((97 <=? 87 + d) && (87 + d <=? 102) = true) as -> by lia. f_equal. lia.
Qed.

Lemma json_string_hex h3 h2 h1 h0 t :
  json_string (String "\" (String "u" (String h3 (String h2 (String h1 (String h0 t)))))) =
  match hex_val h3, hex_val h2, hex_val h1, hex_val h0 with
  | Some a, Some b, Some c, Some d =>
      prepend (encode_rune (((a * 16 + b) * 16 + c) * 16 + d)) (json_string t)
  | _, _, _, _ => None
  end.
Proof. reflexivity. Qed.

(** An escaped control character is read back. *)
Lemma json_string_control r t :
  0 ≤ r < 256 → json_string (("\u00" +:+ hex2 r) +:+ t) = prepend (encode_rune r) (json_string t).
Proof.
  intros Hr. unfold hex2. cbn [append hex_digits]. rewrite json_string_hex.
  rewrite !hex_val_digit by (apply Z.mod_pos_bound; lia). change (hex_val "0") with (Some 0).
  cbn match. change (16 ^ Z.of_nat 1) with 16. change (16 ^ Z.of_nat 0) with 1.
  do 2 f_equal. euclid.
Qed.

(** Every escaped rune is read back as its encoding. *)
Lemma json_string_rune rb t :
  rune_bytes rb → json_string (json_rune rb +:+ t) = prepend (encode_rune rb.1) (json_string t).
Proof.
  destruct rb as [r bytes]. intros [[Hr Hl]|[Hv Hb]]; cbn [fst snd] in *; unfold json_rune.
  { subst r. by rewrite Hl. }
  subst bytes. destruct ((r =? RuneError) && _) eqn:Ee.
  { apply andb_true_iff in Ee as [->%Z.eqb_eq ?]. done. }
  destruct (Z.ltb_spec r 128) as [Hr|Hr].
  - assert (0 ≤ r) by (unfold valid_rune, in_range in Hv; lia).
    assert (encode_rune r = str1 (chr r)) as Ec by (unfold encode_rune; by rewrite (proj2 (Z.ltb_lt _ _) Hr)).
    destruct (json_safe r) eqn:Es.
    { rewrite Ec. cbn [append str1 json_string]. rewrite byteZ_chr by lia. unfold json_safe in Es.
      assert ((r =? 34) = false) as -> by lia. assert ((r =? 92) = false) as -> by lia.
      by assert ((r <? 32) = false) as -> by lia. }
    destruct (_ || _) eqn:Eq.
    { rewrite Ec. cbn [append str1 json_string]. change (byteZ "\") with 92. cbn [Z.eqb].
      rewrite byteZ_chr by lia. rewrite orb_comm in Eq. by rewrite Eq. }
    destruct (Z.eqb_spec r 10); [by subst|]. destruct (Z.eqb_spec r 13); [by subst|].
    destruct (Z.eqb_spec r 9); [by subst|]. apply json_string_control. lia.
  - destruct (Z.eqb_spec r 8232); [by subst|]. destruct (Z.eqb_spec r 8233); [by subst|].
    by apply json_string_high, encode_rune_high.
Qed.

(** Whatever bytes a logged string has, a reader of the log gets that string back,
    with U+FFFD for the bytes that are not UTF-8, and goes on behind its closing
    quote: a header or a path cannot end its own field or add another one. *)
Theorem json_quote_roundtrip (s rest : string) :
  json_string (json_escape s +:+ dquote +:+ rest) = Some (to_valid s, rest).
Proof.
  unfold json_escape, to_valid. assert (Forall rune_bytes (runes s)) as Hf.
  { apply runes_Forall. apply decode_rune_cases. }
  induction Hf as [|rb l Hrb _ IH]; [done|]. cbn [map str_concat].
  by rewrite append_assoc, json_string_rune, IH.
Qed.

(** Escaped text has no line break. *)
Lemma json_rune_line rb : rune_bytes rb → one_line (json_rune rb) = true.
Proof.
  destruct rb as [r bytes]. intros [[Hr Hl]|[Hv Hb]]; cbn [fst snd] in *; unfold json_rune.
  { subst r. by rewrite Hl. }
  subst bytes. destruct (_ && _); [done|]. destruct (Z.ltb_spec r 128) as [Hr|Hr].
  - assert (0 ≤ r) by (unfold valid_rune, in_range in Hv; lia).
    assert (encode_rune r = str1 (chr r)) as -> by (unfold encode_rune; by rewrite (proj2 (Z.ltb_lt _ _) Hr)).
    destruct (json_safe r) eqn:Es.
    { unfold json_safe in Es. unfold one_line. cbn [str_forall str1]. rewrite byteZ_chr by lia. lia. }
    destruct (_ || _) eqn:Eq.
    { unfold one_line. cbn [str_forall str1]. rewrite byteZ_chr by lia. change (byteZ "\") with 92. lia. }
    repeat (go_case; [done|]). rewrite one_line_append. apply one_line_hex.
  - repeat (go_case; [done|]). by apply one_line_high, encode_rune_high.
Qed.

Lemma json_quote_line s : one_line (json_quote s) = true.
Proof.
  unfold json_quote, json_escape. rewrite !one_line_append. apply andb_true_iff. split; [done|].
  apply andb_true_iff. split; [|done]. apply one_line_concat, Forall_map, runes_Forall.
  intros t Ht. by apply json_rune_line, decode_rune_cases.
Qed.

(** ** The members of a record *)

(** Induction on an attribute and the attributes of its groups. *)
Lemma attr_nested_ind (P : attr → Prop) :
  (∀ key v, P (Attr key v)) → (∀ key l, Forall P l → P (Group_ key l)) → ∀ a, P a.
Proof.
  intros HA HG. fix IH 1. intros [key v|key l]; [apply HA|apply HG].
  revert l. fix IHl 1. intros [|x l]; constructor; [apply IH|apply IHl].
Qed.

(** An attribute that [ReplaceAttr] panics on, at any depth. *)
Fixpoint time_attr (a : attr) : bool :=
  match a with
  | Attr key v => String.eqb key "time" && match v with STime _ => false | _ => true end
  | Group_ _ l => existsb time_attr l
  end.

Section members.
Context `{UnicodeTables, FmtTables, JsonTables}.

Lemma json_attr_group key l :
  json_attr (Group_ key l) =
  (ms ← json_attrs l;
   match ms with [] => Ret [] | _ => if String.eqb key ε then Ret ms else Ret [JObject key ms] end).
Proof. reflexivity. Qed.

Lemma json_attrs_panic l :
  Forall (λ a, json_attr a = Panic ↔ time_attr a = true) l →
  json_attrs l = Panic ↔ existsb time_attr l = true.
Proof.
  induction 1 as [|a l Ha _ IH]; [done|]. cbn [json_attrs existsb]. rewrite orb_true_iff, <- Ha, <- IH.
  destruct (json_attr a); cbn; [|by split; [left|]].
  destruct (json_attrs l); cbn; [|by split; [right|]]. split; [done|by intros [|]].
Qed.

Lemma json_attr_panic a : json_attr a = Panic ↔ time_attr a = true.
Proof.
  induction a as [key v|key l IH] using attr_nested_ind.
  - cbn [json_attr time_attr]. unfold ReplaceAttr. destruct (String.eqb key "time"); cbn.
    + destruct v; cbn; split; try done. all: by destruct (is_zero_attr _ _).
    + by destruct (is_zero_attr _ _).
  - rewrite json_attr_group. apply json_attrs_panic in IH. cbn [time_attr]. rewrite <- IH.
    destruct (json_attrs l) as [ms|]; cbn; [|done]. destruct ms; [done|]. by destruct (String.eqb _ _).
Qed.

(** Rendering a record panics exactly when one of its attributes, however deep, is
    called [time] and is not a time. *)
Lemma json_Handle_panic now r :
  json_Handle now r = Panic ↔ existsb time_attr (lr_attrs r) = true.
Proof.
  rewrite <- json_attrs_panic by (apply Forall_forall; intros; apply json_attr_panic).
  unfold json_Handle. cbn. by destruct (json_attrs (lr_attrs r)).
Qed.

Lemma json_value_line v : one_line (json_value v) = true.
Proof.
  destruct v as [s|z|z|f|[]|d|t|l|v]; cbn [json_value]; try done.
  all: auto using one_line_itoa, json_float_line, json_time_line, json_strings_line, json_any_line.
  apply json_quote_line.
Qed.

Definition member_line (m : member) : Prop := one_line (print_member m) = true.

Lemma JField_line key v : one_line v = true → member_line (JField key v).
Proof. intros Hv. unfold member_line. cbn [print_member]. by rewrite !one_line_append, json_quote_line, Hv. Qed.

Lemma JObject_line key l : Forall member_line l → member_line (JObject key l).
Proof.
  intros Hl. unfold member_line. cbn [print_member].
  rewrite !one_line_append, json_quote_line, Join_one_line; [done|done|by apply Forall_map].
Qed.

Lemma json_attrs_line l :
  Forall (λ a, ∀ ms, json_attr a = Ret ms → Forall member_line ms) l →
  ∀ ms, json_attrs l = Ret ms → Forall member_line ms.
Proof.
  induction 1 as [|a l Ha _ IH]; intros ms E; [by injection E as <-|]. cbn [json_attrs] in E.
  apply outcome_bind_ret in E as (m & Em & E). apply outcome_bind_ret in E as (ms' & Ems & E).
  injection E as <-. apply Forall_app. split; [by apply Ha|by apply IH].
Qed.

Lemma json_attr_line a ms : json_attr a = Ret ms → Forall member_line ms.
Proof.
  revert ms. induction a as [key v|key l IH] using attr_nested_ind; intros ms E.
  - cbn [json_attr] in E. apply outcome_bind_ret in E as ([key' v'] & _ & E).
    destruct (is_zero_attr key' v'); injection E as <-; constructor; [|done].
    apply JField_line, json_value_line.
  - rewrite json_attr_group in E. apply outcome_bind_ret in E as (l' & El & E).
    pose proof (json_attrs_line l IH l' El) as Hl.
    destruct l' as [|m l']; [by injection E as <-|].
    destruct (String.eqb key ε); injection E as <-; [done|]. constructor; [|done].
    by apply JObject_line.
Qed.

(** C14 The JSON handler: a record with an attribute called [time] that is not a time,
    however deep in its groups, makes [ReplaceAttr] panic; any other record becomes
    one line, whatever bytes its message, its keys and its values hold. *)
Theorem json_Handle_spec (now : Z) (r : log_record) :
  if existsb time_attr (lr_attrs r) then json_Handle now r = Panic
  else ∃ line, json_Handle now r = Ret (line +:+ str1 (chr 10)) ∧ one_line line = true.
Proof.
  destruct (existsb time_attr (lr_attrs r)) eqn:Et; [by apply json_Handle_panic|].
  unfold json_Handle. destruct (json_attrs (lr_attrs r)) as [ms|] eqn:Em.
  - cbn [mbind outcome_bind]. destruct (json_attrs [_; _; _]) as [head|] eqn:Eh; [|done].
    exists ("{" +:+ Join (map print_member (head ++ ms)) "," +:+ "}").
    split; [cbn; by rewrite !append_assoc|]. rewrite !one_line_append.
    rewrite Join_one_line; [done|done|]. apply Forall_map, Forall_app.
    split; (eapply json_attrs_line; [|done]); apply Forall_forall; intros; by eapply json_attr_line.
  - apply json_attrs_panic in Em; [congruence|]. apply Forall_forall. intros. apply json_attr_panic.
Qed.

End members.

(** ** The access log *)

(** The headers can be logged: none is called [time], or that header is excluded. *)
Definition loggable `{UnicodeTables} (lg : Logging) (h : Header) : bool :=
  bool_decide ("time" ∈ lowerSet (l_ExcludeHeaders lg)) ||
  forallb (λ kv, negb (String.eqb (ToLower kv.1) "time")) (map_to_list h).

Section access.
Context `{UnicodeTables, GoRange}.

Lemma loggable_spec lg h :
  loggable lg h = true ↔
  "time" ∈ lowerSet (l_ExcludeHeaders lg) ∨ ∀ k vs, h !! k = Some vs → ToLower k ≠ "time".
Proof.
  unfold loggable. rewrite orb_true_iff, bool_decide_eq_true, forallb_forall. f_equiv. split.
  - intros Hh k vs Hk. apply elem_of_map_to_list, list_elem_of_In, Hh in Hk. cbn [fst] in Hk.
    by destruct (String.eqb_spec (ToLower k) "time").
  - intros Hh [k vs] Hin. apply list_elem_of_In, elem_of_map_to_list, Hh in Hin. cbn [fst].
    by destruct (String.eqb_spec (ToLower k) "time").
Qed.

Lemma loggable_empty lg : loggable lg ∅ = true.
Proof. unfold loggable. by rewrite map_to_list_empty, orb_true_r. Qed.

Lemma not_loggable lg h :
  loggable lg h = false ↔
  ("time" ∉ lowerSet (l_ExcludeHeaders lg)) ∧ ∃ k vs, h !! k = Some vs ∧ ToLower k = "time".
Proof.
  rewrite <- not_true_iff_false, loggable_spec. split.
  - intros Hn. split; [tauto|].
    destruct (decide (Exists (λ kv, ToLower kv.1 = "time") (map_to_list h))) as [Hx|Hx].
    + apply Exists_exists in Hx as ([k vs] & Hin%elem_of_map_to_list & Ek). eauto.
    + destruct Hn. right. intros k vs Hk Ek. apply Hx, Exists_exists. exists (k, vs).
      by split; [apply elem_of_map_to_list|].
  - intros [Hex (k & vs & Hk & Ek)] [|Hno]; [done|by apply (Hno k vs)].
Qed.

Lemma headers_shown_time h lg :
  existsb time_attr (headers_shown h lg) = negb (loggable lg h).
Proof.
  apply eq_iff_eq_true. rewrite negb_true_iff, not_loggable, existsb_exists. split.
  - intros (a & Ha%list_elem_of_In & Ht). unfold headers_shown in Ha.
    apply list_elem_of_omap in Ha as ([k vs] & Hin%range_map_lookup & Hs).
    unfold header_shown in Hs. cbn [fst snd] in Hs. case_bool_decide as Hex; [done|].
    injection Hs as <-. cbn [time_attr] in Ht. rewrite andb_true_r in Ht. apply String.eqb_eq in Ht.
    rewrite Ht in Hex. eauto.
  - intros (Hex & k & vs & Hk & Ek).
    eexists. split; [apply list_elem_of_In, list_elem_of_omap; exists (k, vs);
      split; [by apply range_map_lookup|]; unfold header_shown; cbn [fst snd];
      rewrite Ek, bool_decide_false by done; done|done].
Qed.

Lemma RequestAttrs_time req lg ra :
  reveal_ok (l_RedactReveal lg) → RequestAttrs req lg = Ret ra →
  time_attr ra = negb (loggable lg (q_Headers req)).
Proof.
  intros Hr. unfold RequestAttrs. rewrite header_attrs_eq by done. cbn [mbind outcome_bind].
  intros [= <-]. cbn [time_attr existsb String.eqb Ascii.eqb Bool.eqb andb orb].
  rewrite headers_shown_time. unfold body_attr. by destruct (_ && _); rewrite orb_false_r.
Qed.

Lemma ResponseAttrs_time resp lg sa :
  reveal_ok (l_RedactReveal lg) → ResponseAttrs (Some resp) lg = Ret sa →
  time_attr sa = negb (loggable lg (s_Headers resp)).
Proof.
  intros Hr. unfold ResponseAttrs. rewrite header_attrs_eq by done. cbn [mbind outcome_bind].
  intros [= <-]. cbn [time_attr existsb String.eqb Ascii.eqb Bool.eqb andb orb].
  rewrite headers_shown_time. unfold body_attr. by destruct (_ && _); rewrite orb_false_r.
Qed.

End access.

(** Tables for witnesses. *)
#[global] Instance plain_json : JsonTables :=
  { json_float := λ _, "0"; json_time := λ _, "0"; json_millis := λ _, "2026-01-01T00:00:00.000Z";
    json_strings := λ _, "[]"; json_any := λ _, "null";
    json_float_line := λ _, eq_refl; json_time_line := λ _, eq_refl; json_millis_line := λ _, eq_refl;
    json_strings_line := λ _, eq_refl; json_any_line := λ _, eq_refl }.

(** A value with a quote and a line break stays inside its field. *)
Example json_injection :
  json_Handle 0 (mkRecord LevelInfo "m" [Group_ "request" [Attr "path" (SString ("/" +:+ dquote +:+ str1 (chr 10)))]]) =
  Ret (str_concat ["{"; json_quote "time"; ":"; json_quote "2026-01-01T00:00:00.000Z"; ","; json_quote "level"; ":";
    json_quote "INFO"; ","; json_quote "msg"; ":"; json_quote "m"; ","; json_quote "request"; ":{";
    json_quote "path"; ":"; dquote; "/\"; dquote; "\n"; dquote; "}}"; str1 (chr 10)]).
Proof. by vm_compute. Qed.
