(* ===== verification/ServerLogs.v ===== *)
(** * The records of the servers, rendered

    What happens to the records that [handle] and [Process] log once they reach the
    handler of Slog.v: which of them the JSON handler can render, in terms of the
    headers of the request or of the messages of the stream. *)

From Stdlib Require Import SpecFloat.
From S2P Require Import Prelude GoStrings GoHttp GoValues CelEnv Facts Policy Evaluate ExtProc.
From S2P Require Import Log AccessLog GrpcServer Metrics HttpServer Instances LogTheorems.
From S2P Require Import ServerTheorems Slog.
Local Open Scope Z_scope.

(** A record the JSON handler panics on. *)
Definition bad_record (r : log_record) : bool := existsb time_attr (lr_attrs r).

Section records.
Context `{UnicodeTables, FmtTables, JsonTables}.

(** Records that can be rendered are written, with either handler and at any level. *)
Lemma log_all_ok st now clock rs :
  existsb bad_record rs = false → ∃ out, log_all st now clock rs = Ret out.
Proof.
  induction rs as [|r rs IH]; [eauto|]. cbn [existsb log_all]. intros [Hr Hrs]%orb_false_iff.
  destruct (IH Hrs) as [out Eo]. rewrite Eo. unfold log_call.
  destruct (negb (Enabled st (lr_level r))); [cbn; eauto|].
  destruct (current st); [cbn; eauto|].
  destruct (json_Handle now r) as [line|] eqn:E; [cbn; eauto|].
  apply json_Handle_panic in E. unfold bad_record in Hr. congruence.
Qed.

(** The JSON handler at a level that lets the others through. *)
Lemma log_all_panic st now clock rs :
  current st = JSONHandler → levelVar st ≤ LevelInfo →
  Forall (λ r, bad_record r = true → LevelInfo ≤ lr_level r) rs →
  log_all st now clock rs = Panic ↔ existsb bad_record rs = true.
Proof.
  intros Hj Hl. induction 1 as [|r rs Hr _ IH]; [done|]. cbn [existsb log_all].
  rewrite orb_true_iff, <- IH. unfold log_call, Enabled. rewrite Hj.
  assert (json_Handle now r = Panic ↔ bad_record r = true) as Hb by apply json_Handle_panic.
  destruct (bad_record r).
  { specialize (Hr eq_refl). assert ((levelVar st <=? lr_level r) = true) as -> by lia. cbn [negb].
    rewrite (proj2 Hb eq_refl). cbn. by split; [left|]. }
  destruct (json_Handle now r) as [line|]; [|discriminate (proj1 Hb eq_refl)].
  destruct (negb _); cbn; (destruct (log_all st now clock rs); cbn; [|by split; [right|]]); split;
    [done|by intros [|]|done|by intros [|]].
Qed.

End records.

Section servers.
Context `{CelGo, UnicodeTables, GoRange, Decoders}.

(** ** The HTTP server *)

Lemma access_attrs_time decision rule reason dry dur ra :
  existsb time_attr (access_attrs decision rule reason dry dur ra) = time_attr ra.
Proof. cbn -[time_attr]. by rewrite orb_false_r. Qed.

(** The records of a request: the access record, which shows its headers, unless
    there is no policy or the body could not be read. *)
Lemma handle_records s r dur m w logs :
  handle s r dur = Ret (m, w, logs) →
  (∀ p, sv_policy s = Some p → reveal_ok (l_RedactReveal (c_Logging p))) →
  existsb bad_record logs =
    match sv_policy s with
    | None => false
    | Some p =>
        match ReadAll_limited (hr_Body r) (wrap64 (ea_MaxBodyBytes (d_ExtAuthz (c_Defaults p)) + 1)) with
        | Err _ => false
        | Ok _ => negb (loggable (c_Logging p) (hr_Header r))
        end
    end.
Proof.
  intros Hh Hr. unfold handle in Hh. destruct (sv_policy s) as [p|].
  2:{ apply outcome_bind_ret in Hh as (w' & _ & [= <- <- <-]). done. }
  specialize (Hr p eq_refl). destruct (ReadAll_limited _ _) as [body|err].
  2:{ apply outcome_bind_ret in Hh as (w' & _ & [= <- <- <-]). done. }
  destruct (_ <? len body).
  - unfold handle_overflow in Hh. apply outcome_bind_ret in Hh as (tb & _ & Hh).
    apply outcome_bind_ret in Hh as (w' & _ & Hh). apply outcome_bind_ret in Hh as (ra & Ea & [= <- <- <-]).
    cbn [existsb]. unfold bad_record. cbn [lr_attrs]. rewrite access_attrs_time, orb_false_r.
    by rewrite (RequestAttrs_time _ _ _ Hr Ea).
  - unfold handle_decide in Hh. apply outcome_bind_ret in Hh as (d & _ & Hh).
    apply outcome_bind_ret in Hh as (w' & _ & Hh). apply outcome_bind_ret in Hh as (ra & Ea & [= <- <- <-]).
    cbn [existsb]. unfold bad_record. cbn [lr_attrs]. rewrite access_attrs_time, orb_false_r.
    by rewrite (RequestAttrs_time _ _ _ Hr Ea).
Qed.

(** They are shown at the default level. *)
Lemma handle_levels s r dur m w logs :
  handle s r dur = Ret (m, w, logs) → Forall (λ rec, LevelInfo ≤ lr_level rec) logs.
Proof.
  intros Hh. unfold handle in Hh. destruct (sv_policy s) as [p|].
  2:{ by apply outcome_bind_ret in Hh as (w' & _ & [= <- <- <-]). }
  destruct (ReadAll_limited _ _) as [body|err].
  2:{ apply outcome_bind_ret in Hh as (w' & _ & [= <- <- <-]). by apply Forall_singleton. }
  destruct (_ <? len body).
  - unfold handle_overflow in Hh. apply outcome_bind_ret in Hh as (tb & _ & Hh).
    apply outcome_bind_ret in Hh as (w' & _ & Hh). apply outcome_bind_ret in Hh as (ra & Ea & [= <- <- <-]).
    by apply Forall_singleton.
  - unfold handle_decide in Hh. apply outcome_bind_ret in Hh as (d & _ & Hh).
    apply outcome_bind_ret in Hh as (w' & _ & Hh). apply outcome_bind_ret in Hh as (ra & Ea & [= <- <- <-]).
    apply Forall_singleton. cbn. by destruct (Allowed d).
Qed.

(** ** The gRPC server *)

(** The headers that the access record of a message shows. *)
Definition shown_headers (p : Config) (st : stream) (msg : ProcessingRequest) : list Header :=
  let limit := ep_MaxBodyBytes (d_ExtProc (c_Defaults p)) in
  let req := default empty_request (st_req st) in
  let resp := default empty_response (st_resp st) in
  match msg with
  | ProcessingRequest_RequestHeaders h => [q_Headers (parseRequestHeaders h)]
  | ProcessingRequest_RequestBody b =>
      if limit <? len (q_Body req +:+ b) then [] else [q_Headers req]
  | ProcessingRequest_ResponseHeaders h => [q_Headers req; s_Headers (parseResponseHeaders h)]
  | ProcessingRequest_ResponseBody b =>
      if limit <? len (s_Body resp +:+ b) then [] else [s_Headers resp]
  | ProcessingRequest_Other => []
  end.

Lemma handleProcResult_record sid phase res dry :
  bad_record (handleProcResult sid phase res dry).1 = false.
Proof.
  unfold handleProcResult, bad_record. destruct (find_direct dry res); [done|].
  destruct (partition_mutations dry res) as [[applied al] sl]. by destruct (buildMutations applied).
Qed.

Lemma access_record_time sid phase extra req :
  bad_record (access_record sid phase extra req) = existsb time_attr extra.
Proof.
  unfold bad_record, access_record, phase_attrs. cbn [lr_attrs]. rewrite !existsb_app.
  destruct (String.eqb _ ε); cbn -[time_attr existsb]; by rewrite orb_false_r.
Qed.

(** The end every arm of [Process] shares: the phase is evaluated, the record of the
    mutations is added to the access record. *)
Lemma proc_tail {A} (res : outcome (list ResolvedMutation)) sid phase dry (st st' : A) first logs resp :
  (res ← res; let '(rec, respMsg) := handleProcResult sid phase res dry in
   Ret (st, [first; rec], respMsg)) = Ret (st', logs, resp) →
  st' = st ∧ existsb bad_record logs = bad_record first ∧
  (LevelInfo ≤ lr_level first → Forall (λ r, bad_record r = true → LevelInfo ≤ lr_level r) logs).
Proof.
  intros E. apply outcome_bind_ret in E as (rs & _ & E).
  pose proof (handleProcResult_record sid phase rs dry) as Hb.
  destruct (handleProcResult sid phase rs dry) as [rec msg]. injection E as <- <- <-. cbn in Hb |- *.
  split_and!; [done|by rewrite Hb, !orb_false_r|]. intros Hl.
  repeat constructor; [done|by rewrite Hb].
Qed.

(** The records of a message that cannot be rendered are those that show headers
    which cannot be logged. *)
Lemma Process_records sid p st msg st' logs resp :
  reveal_ok (l_RedactReveal (c_Logging p)) →
  Process_step sid (Some p) st msg = Ret (st', logs, resp) →
  existsb bad_record logs = existsb (λ h, negb (loggable (c_Logging p) h)) (shown_headers p st msg).
Proof.
  intros Hr Hp. destruct msg as [h|b|h|b|]; cbn [Process_step shown_headers] in *.
  - apply outcome_bind_ret in Hp as (ra & Ea & Hp). apply proc_tail in Hp as (_ & -> & _).
    rewrite access_record_time. cbn [existsb]. by rewrite (RequestAttrs_time _ _ _ Hr Ea).
  - unfold on_request_body in Hp. cbn [with_body q_Body] in Hp. destruct (_ <? _); [by injection Hp as <- <- <-|].
    apply outcome_bind_ret in Hp as (ra & Ea & Hp). apply proc_tail in Hp as (_ & -> & _).
    rewrite access_record_time. cbn [existsb]. by rewrite (RequestAttrs_time _ _ _ Hr Ea).
  - apply outcome_bind_ret in Hp as (ra & Ea & Hp). apply outcome_bind_ret in Hp as (sa & Es & Hp).
    apply proc_tail in Hp as (_ & -> & _). rewrite access_record_time. cbn [existsb].
    by rewrite (RequestAttrs_time _ _ _ Hr Ea), (ResponseAttrs_time _ _ _ Hr Es).
  - unfold on_response_body in Hp. cbn [s_Body] in Hp. destruct (_ <? _); [by injection Hp as <- <- <-|].
    apply outcome_bind_ret in Hp as (sa & Es & Hp). apply proc_tail in Hp as (_ & -> & _).
    unfold bad_record. cbn [lr_attrs]. rewrite existsb_app. cbn [existsb phase_attrs].
    by rewrite (ResponseAttrs_time _ _ _ Hr Es).
  - by injection Hp as <- <- <-.
Qed.

Lemma Process_levels sid o st msg st' logs resp :
  Process_step sid o st msg = Ret (st', logs, resp) →
  Forall (λ r, bad_record r = true → LevelInfo ≤ lr_level r) logs.
Proof.
  destruct o as [p|]; [|by intros [= <- <- <-]].
  destruct msg as [h|b|h|b|]; cbn [Process_step]; intros Hp.
  - apply outcome_bind_ret in Hp as (ra & Ea & Hp). by apply proc_tail in Hp as (_ & _ & Hf); apply Hf.
  - unfold on_request_body in Hp. destruct (_ <? _); [injection Hp as <- <- <-; by apply Forall_singleton|].
    apply outcome_bind_ret in Hp as (ra & Ea & Hp). by apply proc_tail in Hp as (_ & _ & Hf); apply Hf.
  - apply outcome_bind_ret in Hp as (ra & Ea & Hp). apply outcome_bind_ret in Hp as (sa & Es & Hp).
    by apply proc_tail in Hp as (_ & _ & Hf); apply Hf.
  - unfold on_response_body in Hp. destruct (_ <? _); [injection Hp as <- <- <-; by apply Forall_singleton|].
    apply outcome_bind_ret in Hp as (sa & Es & Hp). by apply proc_tail in Hp as (_ & _ & Hf); apply Hf.
  - by injection Hp as <- <- <-.
Qed.

(** The headers a stream holds come from its messages. *)
Definition message_headers (msg : ProcessingRequest) : list Header :=
  match msg with
  | ProcessingRequest_RequestHeaders h => [q_Headers (parseRequestHeaders h)]
  | ProcessingRequest_ResponseHeaders h => [s_Headers (parseResponseHeaders h)]
  | _ => []
  end.

Definition stream_headers (st : stream) : list Header :=
  [q_Headers (default empty_request (st_req st)); s_Headers (default empty_response (st_resp st))].

Lemma shown_from p st msg : shown_headers p st msg ⊆ stream_headers st ++ message_headers msg.
Proof.
  destruct msg as [h|b|h|b|]; cbn; try destruct (_ <? _); intros x; rewrite ?elem_of_app; set_solver.
Qed.

Lemma Process_headers sid o st msg st' logs resp :
  Process_step sid o st msg = Ret (st', logs, resp) →
  stream_headers st' ⊆ stream_headers st ++ message_headers msg.
Proof.
  destruct o as [p|]; [|cbn; intros [= <- <- <-]; set_solver].
  destruct msg as [h|b|h|b|]; cbn [Process_step]; intros Hp.
  - apply outcome_bind_ret in Hp as (ra & Ea & Hp). apply proc_tail in Hp as (-> & _). cbn. set_solver.
  - unfold on_request_body in Hp. destruct (_ <? _); [injection Hp as <- <- <-; cbn; set_solver|].
    apply outcome_bind_ret in Hp as (ra & Ea & Hp). apply proc_tail in Hp as (-> & _). cbn. set_solver.
  - apply outcome_bind_ret in Hp as (ra & Ea & Hp). apply outcome_bind_ret in Hp as (sa & Es & Hp).
    apply proc_tail in Hp as (-> & _). cbn. set_solver.
  - unfold on_response_body in Hp. destruct (_ <? _); [injection Hp as <- <- <-; cbn; set_solver|].
    apply outcome_bind_ret in Hp as (sa & Es & Hp). apply proc_tail in Hp as (-> & _). cbn. set_solver.
  - injection Hp as <- <- <-. set_solver.
Qed.

End servers.

(** ** The access log under the default format *)

Section panics.
Context `{CelGo, UnicodeTables, GoRange, Decoders, FmtTables, JsonTables}.

(** With the JSON handler at a level that shows the record, logging an answered
    request panics exactly when its body was read and the headers that are not
    excluded include one called [time]; the response was written by then. *)
Theorem handle_log_panics (s : Server) (p : Config) (r : http_request) (dur : spec_float)
    (m : metrics) (w : writer) (logs : list log_record) (st : log_state) (now : Z) (clock : string) :
  sv_policy s = Some p → reveal_ok (l_RedactReveal (c_Logging p)) →
  handle s r dur = Ret (m, w, logs) →
  current st = JSONHandler → levelVar st ≤ LevelInfo →
  (log_all st now clock logs = Panic ↔
   is_ok (ReadAll_limited (hr_Body r) (wrap64 (ea_MaxBodyBytes (d_ExtAuthz (c_Defaults p)) + 1))) = true ∧
   ("time" ∉ lowerSet (l_ExcludeHeaders (c_Logging p))) ∧
   ∃ name vs, hr_Header r !! name = Some vs ∧ ToLower name = "time").
Proof.
  intros Hp Hr Hh Hj Hl. rewrite log_all_panic; [|done|done|].
  2:{ eapply Forall_impl; [by eapply handle_levels|]. done. }
  rewrite (handle_records _ _ _ _ _ _ Hh), Hp by (intros p'; rewrite Hp; by intros [= <-]).
  destruct (ReadAll_limited _ _); cbn; [|naive_solver].
  rewrite negb_true_iff, not_loggable. naive_solver.
Qed.

(** C15 With the JSON handler at a level that shows the access record, logging a
    message of a stream panics exactly when one of the headers its access record
    shows, those of the request or of the response, is called [time] and is not
    excluded; nothing on the way recovers, so the process ends. *)
Theorem Process_log_panics (sid : string) (p : Config) (st st' : stream) (msg : ProcessingRequest)
    (logs : list log_record) (resp : ProcessingResponse) (lst : log_state) (now : Z) (clock : string) :
  reveal_ok (l_RedactReveal (c_Logging p)) →
  Process_step sid (Some p) st msg = Ret (st', logs, resp) →
  current lst = JSONHandler → levelVar lst ≤ LevelInfo →
  (log_all lst now clock logs = Panic ↔
   ("time" ∉ lowerSet (l_ExcludeHeaders (c_Logging p))) ∧
   ∃ h name vs, h ∈ shown_headers p st msg ∧ h !! name = Some vs ∧ ToLower name = "time").
Proof.
  intros Hr Hp Hj Hl. rewrite log_all_panic by (done || by eapply Process_levels).
  rewrite (Process_records _ _ _ _ _ _ _ Hr Hp), existsb_exists.
  setoid_rewrite negb_true_iff. setoid_rewrite not_loggable. setoid_rewrite <- list_elem_of_In.
  naive_solver.
Qed.

End panics.

(** ** Witnesses *)

Definition time_request : http_request :=
  mkHttpRequest "GET" "example.org" ε "/a" "/a" ε "10.0.0.9:4321" (Header_Add ∅ "Time" "noon") (mkBody "x" None).

Lemma handle_log_panics_witness :
  match handle sample_server time_request (S754_zero false) with
  | Ret (_, _, logs) => log_all log_init 0 ε logs = Panic
  | Panic => False
  end.
Proof.
  destruct (handle sample_server time_request (S754_zero false)) as [[[m w] logs]|] eqn:E.
  - refine (proj2 (handle_log_panics sample_server sample_policy time_request (S754_zero false)
      m w logs log_init 0 ε eq_refl (proj2 sample_ready) E eq_refl (Z.le_refl _)) _). clear E.
    split; [by vm_compute|]. split; [by vm_compute|]. by exists "Time", ["noon"].
  - assert (match handle sample_server time_request (S754_zero false) with Panic => false | _ => true end = true)
      as Hn by (by vm_compute). by rewrite E in Hn.
Defined.

Definition time_message : ProcessingRequest :=
  ProcessingRequest_RequestHeaders (Some [mkHeaderValue ":path" "/a" ε; mkHeaderValue "time" "noon" ε]).

Lemma Process_log_panics_witness :
  match Process_step "id" (Some sample_policy) (mkStream None None) time_message with
  | Ret (_, logs, _) => log_all log_init 0 ε logs = Panic
  | Panic => False
  end.
Proof.
  destruct (Process_step "id" (Some sample_policy) (mkStream None None) time_message)
    as [[[st logs] resp]|] eqn:E.
  - refine (proj2 (Process_log_panics "id" sample_policy (mkStream None None) st time_message logs resp
      log_init 0 ε (proj2 sample_ready) E eq_refl (Z.le_refl _)) _). clear E.
    split; [by vm_compute|]. eexists _, "Time", ["noon"]. split; [left|by vm_compute].
  - assert (match Process_step "id" (Some sample_policy) (mkStream None None) time_message with
      | Panic => false | _ => true end = true) as Hn by (by vm_compute). by rewrite E in Hn.
Defined.
