(* ===== verification/Main.v ===== *)
(** * cmd/main.go: the command line and the way to the servers

    The flags as Go's flag package parses them, [--version], the fatal errors of boot
    and what the process goes on with.  The theorems show that printed flags are read
    back and that every start ends in one of four ways, each with its exit status. *)

From S2P Require Import Prelude GoStrings GoHttp GoValues CelEnv Facts Policy Evaluate.
From S2P Require Import Log Instances Reload ReloadTheorems Slog ServerLogs.
Local Open Scope Z_scope.

(** ** strconv *)

(** [strconv.ParseBool]. *)
Definition ParseBool (s : string) : option bool :=
  if bool_decide (s ∈ ["1"; "t"; "T"; "TRUE"; "true"; "True"]) then Some true
  else if bool_decide (s ∈ ["0"; "f"; "F"; "FALSE"; "false"; "False"]) then Some false
  else None.

(** The value of a digit in bases up to 36, with [lower] of strconv. *)
Definition digit_val (c : ascii) : option Z :=
  let b := byteZ c in
  if in_range 48 57 b then Some (b - 48)
  else let l := Z.lor b 32 in
       if in_range 97 122 l then Some (l - 87) else None.

(** The loop of [strconv.ParseUint] with base 0: underscores are skipped. *)
Fixpoint base_digits (base acc : Z) (s : string) : option Z :=
  match s with
  | ε => Some acc
  | String c s' =>
      if byteZ c =? 95 then base_digits base acc s'
      else match digit_val c with
           | Some d => if d <? base then base_digits base (acc * base + d) s' else None
           | None => None
           end
  end.

(** The loop of [underscoreOK]; [prev] is the class of the character before. *)
Inductive seen : Type := SeenStart | SeenDigit | SeenUnderscore | SeenOther.

Fixpoint underscores_ok (hex : bool) (prev : seen) (s : string) : bool :=
  match s with
  | ε => match prev with SeenUnderscore => false | _ => true end
  | String c s' =>
      if in_range 48 57 (byteZ c) || (hex && in_range 97 102 (Z.lor (byteZ c) 32))
      then underscores_ok hex SeenDigit s'
      else if byteZ c =? 95 then
        match prev with SeenDigit => underscores_ok hex SeenUnderscore s' | _ => false end
      else match prev with SeenUnderscore => false | _ => underscores_ok hex SeenOther s' end
  end.

Definition base_letter (c : ascii) : option Z :=
  let l := Z.lor (byteZ c) 32 in
  if l =? 98 then Some 2 else if l =? 111 then Some 8 else if l =? 120 then Some 16 else None.

(** [underscoreOK] on a text without sign. *)
Definition underscoreOK (s : string) : bool :=
  match s with
  | String "0" (String c s') =>
      match base_letter c with
      | Some base => underscores_ok (base =? 16) SeenDigit s'
      | None => underscores_ok false SeenStart s
      end
  | _ => underscores_ok false SeenStart s
  end.

(** [strconv.ParseUint] with base 0: the base comes from the prefix. *)
Definition ParseUint0 (s : string) : option Z :=
  let '(base, ds) :=
    match s with
    | String z s1 =>
        if Ascii.eqb z "0" then
          match s1 with
          | String c (String d s2) =>
              match base_letter c with Some b => (b, String d s2) | None => (8, s1) end
          | _ => (8, s1)
          end
        else (10, s)
    | ε => (10, s)
    end in
  if String.eqb s ε then None
  else match base_digits base 0 ds with
       | Some n => if ContainsByte ds "_" && negb (underscoreOK s) then None else Some n
       | None => None
       end.

(** [strconv.ParseInt] with base 0 and 64 bits; a magnitude beyond 64 bits is a range
    error like one beyond [int64]. *)
Definition ParseInt0 (s : string) : option Z :=
  let '(neg, ds) :=
    match s with
    | String "-" s' => (true, s')
    | String "+" s' => (false, s')
    | _ => (false, s)
    end in
  match ParseUint0 ds with
  | Some n =>
      let v := if neg : bool then - n else n in
      if bool_decide (int64_ok v) then Some v else None
  | None => None
  end.

(** ** The flags *)

Record cli := mkCli {
  cl_port : Z;
  cl_grpcPort : Z;
  cl_configPath : string;
  cl_level : string;
  cl_format : string;
  cl_watch : bool;
  cl_watchDebounceMs : Z;
  cl_showVersion : bool;
}.

Definition default_cli : cli := mkCli 8080 9090 "policy.yaml" ε ε true 200 false.

Inductive flag_error : Type :=
| ErrHelp
| ErrSyntax (arg : string)
| ErrUndefined (name : string)
| ErrBool (value name : string)
| ErrNoArgument (name : string)
| ErrValue (value name : string).

(** How a flag of [main] takes its value. *)
Inductive flag_kind : Type :=
| KBool (set : bool → cli → cli)
| KInt (set : Z → cli → cli)
| KString (set : string → cli → cli).

Definition flag_table : list (string * flag_kind) :=
  [("port", KInt (λ v c, mkCli v (cl_grpcPort c) (cl_configPath c) (cl_level c) (cl_format c)
      (cl_watch c) (cl_watchDebounceMs c) (cl_showVersion c)));
   ("grpc-port", KInt (λ v c, mkCli (cl_port c) v (cl_configPath c) (cl_level c) (cl_format c)
      (cl_watch c) (cl_watchDebounceMs c) (cl_showVersion c)));
   ("config", KString (λ v c, mkCli (cl_port c) (cl_grpcPort c) v (cl_level c) (cl_format c)
      (cl_watch c) (cl_watchDebounceMs c) (cl_showVersion c)));
   ("log-level", KString (λ v c, mkCli (cl_port c) (cl_grpcPort c) (cl_configPath c) v (cl_format c)
      (cl_watch c) (cl_watchDebounceMs c) (cl_showVersion c)));
   ("log-format", KString (λ v c, mkCli (cl_port c) (cl_grpcPort c) (cl_configPath c) (cl_level c) v
      (cl_watch c) (cl_watchDebounceMs c) (cl_showVersion c)));
   ("watch", KBool (λ v c, mkCli (cl_port c) (cl_grpcPort c) (cl_configPath c) (cl_level c) (cl_format c)
      v (cl_watchDebounceMs c) (cl_showVersion c)));
   ("watch-debounce-ms", KInt (λ v c, mkCli (cl_port c) (cl_grpcPort c) (cl_configPath c) (cl_level c)
      (cl_format c) (cl_watch c) v (cl_showVersion c)));
   ("version", KBool (λ v c, mkCli (cl_port c) (cl_grpcPort c) (cl_configPath c) (cl_level c) (cl_format c)
      (cl_watch c) (cl_watchDebounceMs c) v))].

Fixpoint find_flag (name : string) (l : list (string * flag_kind)) : option flag_kind :=
  match l with
  | [] => None
  | (n, k) :: l' => if String.eqb n name then Some k else find_flag name l'
  end.

(** [Value.Set] of a flag that needs a value. *)
Definition set_value (k : flag_kind) (value : string) (c : cli) : option cli :=
  match k with
  | KBool set => b ← ParseBool value; Some (set b c)
  | KInt set => n ← ParseInt0 value; Some (set n c)
  | KString set => Some (set value c)
  end.

(** What an argument is: not a flag, the end of the flags, malformed, or a flag. *)
Inductive arg_form : Type :=
| NotFlag
| Terminator
| Malformed
| FlagArg (name : string) (value : option string).

Definition split_flag (s : string) : arg_form :=
  match s with
  | String "-" (String c s') =>
      let name := if Ascii.eqb c "-" then s' else String c s' in
      if Ascii.eqb c "-" && String.eqb s' ε then Terminator
      else match name with
           | String d rest =>
               if Ascii.eqb d "-" || Ascii.eqb d "=" then Malformed
               else match IndexByte rest "=" with
                    | Some i => FlagArg (String d (str_take i rest)) (Some (str_drop (S i) rest))
                    | None => FlagArg name None
                    end
           | ε => Malformed
           end
  | _ => NotFlag
  end.

(** [flag.Parse]: [parseOne] until the first argument that is not a flag. *)
Fixpoint parse_args (args : list string) (c : cli) : result flag_error cli :=
  match args with
  | [] => Ok c
  | s :: args' =>
      match split_flag s with
      | NotFlag | Terminator => Ok c
      | Malformed => Err (ErrSyntax s)
      | FlagArg name value =>
          match find_flag name flag_table with
          | None => if String.eqb name "help" || String.eqb name "h" then Err ErrHelp
                    else Err (ErrUndefined name)
          | Some (KBool set) =>
              match value with
              | None => parse_args args' (set true c)
              | Some v => match set_value (KBool set) v c with
                          | Some c' => parse_args args' c'
                          | None => Err (ErrBool v name)
                          end
              end
          | Some k =>
              match value with
              | Some v => match set_value k v c with
                          | Some c' => parse_args args' c'
                          | None => Err (ErrValue v name)
                          end
              | None =>
                  match args' with
                  | [] => Err (ErrNoArgument name)
                  | v :: args'' => match set_value k v c with
                                   | Some c' => parse_args args'' c'
                                   | None => Err (ErrValue v name)
                                   end
                  end
              end
          end
      end
  end.

Definition flag_Parse (args : list string) : result flag_error cli := parse_args args default_cli.

Definition cli_flags (c : cli) : flags := mkFlags (cl_configPath c) (cl_level c) (cl_format c).

(** [time.Duration(ms) * time.Millisecond]. *)
Definition debounce (c : cli) : Z := wrap64 (cl_watchDebounceMs c * 1000000).

Example octal_port : flag_Parse ["-port"; "0644"] = Ok (mkCli 420 9090 "policy.yaml" ε ε true 200 false).
Proof. by vm_compute. Qed.

Example underscore_port :
  flag_Parse ["--port=8_080"; "--watch=false"; "--"; "--port=1"] = Ok (mkCli 8080 9090 "policy.yaml" ε ε false 200 false).
Proof. by vm_compute. Qed.

Example bad_watch : flag_Parse ["--watch=no"] = Err (ErrBool "no" "watch").
Proof. by vm_compute. Qed.

(** ** main *)

Section main.
Context `{CelGo, UnicodeTables, GoRange, FactsWorld, !YamlPolicy, FmtTables, JsonTables}.
Context (getenv : string → string).
Context (load_error_text : load_error → string) (facts_error_text : facts_error → string).
Context (version : string).

(** [log.Fatalf], after the records logged before: what was written, and status 1. *)
Definition Fatalf (pr : process) (now : Z) (clock text : string) : outcome (Z * list string) :=
  out ← log_all (pr_log pr) now clock (pr_records pr ++ [mkRecord LevelError text []]);
  Ret (1, out).

(** How [main] starts: it is over with a status and some output, or it goes on with
    the addresses of the servers and, unless [--watch=false], a watcher. *)
Inductive main_start : Type :=
| MainExit (code : Z) (stdout : list string)
| MainServing (pr : process) (http_addr grpc_addr : string) (watcher : option Z).

Definition exit_with (o : Z * list string) : main_start := MainExit o.1 o.2.

(** The records of a failed logging configuration are written before a fatal error. *)
Definition main_run (c : cli) (file : result string string) (st : log_state) (now : Z) (clock : string) :
    outcome main_start :=
  match LoadFile getenv file with
  | Err err =>
      o ← Fatalf (mkProcess [] None None st []) now clock ("load policy: " +:+ load_error_text err);
      Ret (exit_with o)
  | Ok cfg =>
      let pr := applyLogging (mkProcess [] None None st []) (c_Logging cfg) (cli_flags c) in
      '(cfg', err) ← Config_Start cfg;
      match err with
      | Some err =>
          o ← Fatalf pr now clock ("start facts: " +:+ facts_error_text err); Ret (exit_with o)
      | None =>
          let pr := logLoaded pr version "policy loaded" (cl_configPath c) cfg' [] in
          Ret (MainServing (set_grpc (set_http (add_config pr cfg') (Some O)) (Some O))
                 (":" +:+ Itoa (cl_port c)) (":" +:+ Itoa (cl_grpcPort c))
                 (if cl_watch c then Some (debounce c) else None))
      end
  end.

Definition main_ (args : list string) (file : result string string) (now : Z) (clock : string) :
    outcome main_start :=
  match flag_Parse args with
  | Err ErrHelp => Ret (MainExit 0 [])
  | Err _ => Ret (MainExit 2 [])
  | Ok c =>
      if cl_showVersion c then Ret (MainExit 0 [version +:+ str1 (chr 10)])
      else main_run c file log_init now clock
  end.

(** What the watcher's goroutine logs when [configwatch.Run] returns an error. *)
Definition watcher_stopped (err : option string) : list log_record :=
  match err with
  | None => []
  | Some e => [mkRecord LevelError "config watcher stopped"
                 [Attr "err" (SString e); Attr "hint" (SString "send SIGHUP to reload manually")]]
  end.

(** ** Theorems *)

Lemma applyLogging_records st lg f :
  existsb bad_record (pr_records (applyLogging (mkProcess [] None None st []) lg f)) = false.
Proof.
  unfold applyLogging. destruct (Configure _ _) as [st' [[n|n]|]]; done.
Qed.

(** An error record is never filtered. *)
Lemma levels_bounded st opts : levelVar st ≤ LevelError → levelVar (Configure st opts).1 ≤ LevelError.
Proof.
  intros Hst. unfold Configure, parseLevel. repeat case_match; cbn; unfold LevelError, LevelInfo, LevelDebug,
    LevelWarn in *; simplify_eq; cbn; try lia.
Qed.

Lemma applyLogging_level st lg f :
  levelVar st ≤ LevelError →
  levelVar (pr_log (applyLogging (mkProcess [] None None st []) lg f)) ≤ LevelError.
Proof.
  intros Hst. unfold applyLogging. set (opts := mkOptions _ _). pose proof (levels_bounded st opts Hst) as Hl.
  cbn [pr_log]. destruct (Configure st opts) as [st' [[n|n]|]]; exact Hl.
Qed.

(** [Fatalf] writes at least the fatal error and exits with status 1. *)
Lemma Fatalf_exits pr now clock text :
  existsb bad_record (pr_records pr) = false → levelVar (pr_log pr) ≤ LevelError →
  ∃ out, Fatalf pr now clock text = Ret (1, out) ∧ out ≠ [].
Proof.
  intros Hb Hl. unfold Fatalf. set (rs := pr_records pr) in *. clearbody rs.
  induction rs as [|r rs IH]; cbn [app log_all].
  - unfold log_call, Enabled. cbn [lr_level]. assert ((levelVar (pr_log pr) <=? LevelError) = true) as -> by lia.
    cbn [negb]. destruct (current (pr_log pr)); cbn; eexists; (split; [done|done]).
  - cbn [existsb] in Hb. apply orb_false_iff in Hb as [Hr Hrs]. destruct (IH Hrs) as (out & E & Hout).
    destruct (log_all_ok (pr_log pr) now clock [r]) as [o Eo]; [cbn; by rewrite Hr|].
    cbn [log_all] in Eo. apply outcome_bind_ret in Eo as (x & Ex & _). rewrite Ex.
    apply outcome_bind_ret in E as (out' & E' & [= <-]). cbn in E' |- *. rewrite E'. cbn.
    exists (option_list x ++ out'). split; [done|]. by destruct (option_list x), out'.
Qed.


End main.

(** ** Reading printed flags *)

Lemma digit_val_digit c : is_digit c = true → digit_val c = Some (byteZ c - 48) ∧ byteZ c ≠ 95.
Proof.
  unfold is_digit, digit_val. intros Hc. rewrite Hc. split; [done|]. unfold in_range in Hc. lia.
Qed.

Lemma base_digits_decimal s acc :
  str_forall is_digit s = true → base_digits 10 acc s = digits_val acc s.
Proof.
  revert acc. induction s as [|c s IH]; intros acc; [done|]. cbn [str_forall].
  rewrite andb_true_iff. intros [Hc Hs]. cbn [base_digits digits_val]. rewrite Hc.
  destruct (digit_val_digit c Hc) as [-> Hne]. rewrite (proj2 (Z.eqb_neq _ _) Hne).
  assert ((byteZ c - 48 <? 10) = true) as -> by (unfold is_digit, in_range in Hc; lia). by apply IH.
Qed.

(** No leading zero. *)
Lemma fmt_dec_lead f n acc :
  1 ≤ n < 2 ^ Z.of_nat f → ∃ c s, fmt_dec f n acc = String c s ∧ 49 ≤ byteZ c ≤ 57.
Proof.
  revert n acc. induction f as [|f IH]; intros n acc Hn; [cbn in Hn; lia|]. cbn [fmt_dec].
  destruct (Z.ltb_spec n 10).
  - eexists _, _. split; [done|]. rewrite byteZ_chr by lia. lia.
  - apply IH. rewrite Nat2Z.inj_succ, Z.pow_succ_r in Hn by lia.
    split; [apply Z.div_le_lower_bound; lia|]. apply Z.div_lt_upper_bound; nia.
Qed.

Lemma ParseUint0_decimal c s :
  49 ≤ byteZ c ≤ 57 → str_forall is_digit (String c s) = true →
  ParseUint0 (String c s) = digits_val 0 (String c s).
Proof.
  intros Hc Hs. unfold ParseUint0.
  destruct (Ascii.eqb_spec c "0") as [->|Hne]; [change (byteZ "0") with 48 in Hc; lia|].
  cbn [String.eqb]. rewrite base_digits_decimal by done.
  assert (ContainsByte (String c s) "_" = false) as ->.
  { clear Hc Hne. revert Hs. generalize (String c s). clear. intros t. unfold ContainsByte.
    induction t as [|d t IH]; [done|]. cbn [str_forall]. rewrite andb_true_iff. intros [Hd Ht].
    specialize (IH Ht). cbn. destruct (Ascii.eqb_spec d "_") as [->|]; [done|].
    by destruct (IndexByte t "_"). }
  by destruct (digits_val 0 (String c s)).
Qed.

Lemma ParseInt0_Itoa z : int64_ok z → ParseInt0 (Itoa z) = Some z.
Proof.
  intros Hz. destruct (decide (z = 0)) as [->|Hnz]; [done|].
  unfold ParseInt0, Itoa. set (n := Z.abs z). set (f := S (Z.to_nat (Z.log2 n))).
  assert (1 ≤ n < 2 ^ Z.of_nat f) as Hn.
  { subst f. rewrite Nat2Z.inj_succ, Z2Nat.id by apply Z.log2_nonneg. split; [lia|].
    apply Z.log2_spec. lia. }
  destruct (fmt_dec_lead f n ε Hn) as (c & s & Es & Hc).
  pose proof (fmt_dec_digits f n ε ltac:(lia) eq_refl) as Hd.
  pose proof (digits_val_fmt_dec f n ε ltac:(lia)) as Hv. rewrite Es in Hd, Hv |- *.
  pose proof (ParseUint0_decimal c s Hc Hd) as Hu. rewrite Hv in Hu. cbn [digits_val] in Hu.
  destruct (Z.ltb_spec z 0) as [Hneg|Hpos].
  - cbn match. rewrite Hu. rewrite bool_decide_true by (replace (- n) with z by lia; done). f_equal; lia.
  - assert (c ≠ "-"%char ∧ c ≠ "+"%char) as [Hm Hp] by (split; intros ->; [change (byteZ "-") with 45 in Hc|change (byteZ "+") with 43 in Hc]; lia).
    replace (match String c s with String "-" s' => (true, s') | String "+" s' => (false, s')
             | _ => (false, String c s) end) with (false, String c s)
      by (cbn; repeat (go_case; try done)).
    rewrite Hu. rewrite bool_decide_true by (replace n with z by lia; done). f_equal; lia.
Qed.

Definition print_bool (b : bool) : string := if b then "true" else "false".

Definition print_flag (name value : string) : string := "--" +:+ name +:+ "=" +:+ value.

(** The flags written out, each as [--name=value]. *)
Definition print_cli (c : cli) : list string :=
  [print_flag "port" (Itoa (cl_port c)); print_flag "grpc-port" (Itoa (cl_grpcPort c));
   print_flag "config" (cl_configPath c); print_flag "log-level" (cl_level c);
   print_flag "log-format" (cl_format c); print_flag "watch" (print_bool (cl_watch c));
   print_flag "watch-debounce-ms" (Itoa (cl_watchDebounceMs c));
   print_flag "version" (print_bool (cl_showVersion c))].

Lemma split_flag_value name v :
  match name with String c _ => Ascii.eqb c "-" || Ascii.eqb c "=" | ε => true end = false →
  IndexByte (str_drop 1 name) "=" = None →
  split_flag (print_flag name v) = FlagArg name (Some v).
Proof.
  unfold print_flag. destruct name as [|c name]; [done|]. intros Hc Hn. change (str_drop 1 (String c name)) with name in Hn.
  change (("--" +:+ String c name +:+ "=" +:+ v)) with (String "-" (String "-" (String c (name +:+ "=" +:+ v)))).
  cbn [split_flag Ascii.eqb Bool.eqb andb String.eqb]. rewrite Hc.
  rewrite IndexByte_append, Hn. cbn [IndexByte append Ascii.eqb Bool.eqb fmap option_fmap option_map].
  rewrite Nat.add_0_r, str_take_append. do 3 f_equal.
  replace (S (String.length name)) with (String.length (name +:+ "=")) by (rewrite length_append; cbn; lia).
  change (String "=" v) with ("=" +:+ v). rewrite <- append_assoc. apply str_drop_append.
Qed.

(** The command line: every configuration of flags whose numbers are 64-bit, written
    out with [--name=value], is read back as it is, whatever the paths and texts hold. *)
Theorem flags_roundtrip (c : cli) :
  int64_ok (cl_port c) → int64_ok (cl_grpcPort c) → int64_ok (cl_watchDebounceMs c) →
  flag_Parse (print_cli c) = Ok c.
Proof.
  intros Hp Hg Hd. unfold flag_Parse, print_cli. cbn [parse_args].
  rewrite (split_flag_value "port"), (split_flag_value "grpc-port"), (split_flag_value "config"),
    (split_flag_value "log-level"), (split_flag_value "log-format"), (split_flag_value "watch"),
    (split_flag_value "watch-debounce-ms"), (split_flag_value "version") by done.
  cbn [find_flag flag_table String.eqb Ascii.eqb Bool.eqb set_value].
  rewrite !ParseInt0_Itoa by done.
  destruct c as [p g path lvl fmt [] ms []]; done.
Qed.

Lemma flags_roundtrip_witness :
  flag_Parse (print_cli (mkCli 8081 (-1) "a=b.yaml" "--debug" ε false 0 true)) =
    Ok (mkCli 8081 (-1) "a=b.yaml" "--debug" ε false 0 true).
Proof. apply (flags_roundtrip (mkCli 8081 (-1) "a=b.yaml" "--debug" ε false 0 true)); by vm_compute. Defined.
