(* ===== verification/System.v ===== *)
(** * The running service: the process with its traffic

    The process of Lifecycle.v together with the requests the HTTP server is handling
    and the streams the gRPC server holds.  A handler loads the pointer to the policy
    first and evaluates later: in between, reloads may replace that policy and stop
    it, and its facts may be refreshed.  The theorems compose those of the parts:
    [LoadBytes] makes policies loaded, boot and reloads keep the servers on loaded
    policies, and a loaded policy makes the handlers keep their contracts. *)

From Stdlib Require Import SpecFloat.
From S2P Require Import Prelude GoStrings GoHttp GoValues CelEnv Facts Policy Evaluate.
From S2P Require Import Log AccessLog GrpcServer Metrics HttpServer Instances ServerTheorems.
From S2P Require Import Reload ReloadTheorems Lifecycle Slog ServerLogs.
Local Open Scope Z_scope.

Section system.
Context `{CelGo, UnicodeTables, GoRange, FactsWorld, !YamlPolicy, Decoders}.
Context {fmt_tables : FmtTables} {json_tables : JsonTables}.
Context (getenv : string → string).
Context (load_error_text : load_error → string) (facts_error_text : facts_error → string).
Context (version : string).

Abbreviation life_step := (life_step getenv load_error_text facts_error_text version).
Abbreviation thread_step := (thread_step getenv load_error_text facts_error_text version).
Abbreviation boot := (boot getenv version).

(** ** State *)

(** Where [handle] is: before [s.policy.Load()], after it, done, or unwound. *)
Inductive call_phase : Type :=
| HArrived
| HLoaded (a : option nat)
| HAnswered (a : option nat) (w : writer)
| HPanicked.

Record http_call := mkHttpCall {
  hc_request : http_request;
  hc_duration : spec_float;
  hc_phase : call_phase;
}.

(** Where [Process] is: in [Recv], or past [s.policy.Load()] with a message. *)
Inductive stream_phase : Type :=
| GReceiving
| GLoaded (msg : ProcessingRequest) (a : option nat)
| GPanicked (msg : ProcessingRequest).

Record grpc_stream := mkGrpcStream {
  gs_id : string;
  gs_state : stream;
  gs_phase : stream_phase;
  gs_received : list ProcessingRequest;
  gs_sent : list ProcessingResponse;
}.

Record system := mkSystem {
  sy_life : life;
  sy_metrics : metrics;
  sy_calls : list http_call;
  sy_streams : list grpc_stream;
  sy_out : list string;   (** the lines the handlers logged *)
}.

Definition system0 (pr : process) : system := mkSystem (life0 pr) newMetrics [] [] [].

(** The policy behind a pointer. *)
Definition policy_at (s : system) (a : option nat) : option Config :=
  a ≫= λ a, pr_store (lf_pr (sy_life s)) !! a.

Definition set_call (s : system) (i : nat) (c : http_call) (ph : call_phase) (m : metrics)
    (out : list string) : system :=
  mkSystem (sy_life s) m (<[i := mkHttpCall (hc_request c) (hc_duration c) ph]> (sy_calls s))
    (sy_streams s) (sy_out s ++ out).

Definition set_stream (s : system) (i : nat) (g : grpc_stream) (out : list string) : system :=
  mkSystem (sy_life s) (sy_metrics s) (sy_calls s) (<[i := g]> (sy_streams s)) (sy_out s ++ out).

(** The records of a handler go through the logger installed at that moment. *)
Definition written (s : system) (now : Z) (clock : string) (logs : list log_record) :
    outcome (list string) := log_all (pr_log (lf_pr (sy_life s))) now clock logs.

Definition handle_at (s : system) (c : http_call) (a : option nat) : outcome served :=
  handle (mkServer (policy_at s a) (sy_metrics s)) (hc_request c) (hc_duration c).

Definition Process_at (s : system) (g : grpc_stream) (msg : ProcessingRequest) (a : option nat) :
    outcome step_result :=
  Process_step (gs_id g) (policy_at s a) (gs_state g) msg.

(** A panic in the evaluation or while the records are rendered. *)
Definition call_panics (s : system) (c : http_call) (a : option nat) : Prop :=
  handle_at s c a = Panic ∨
  ∃ m w logs now clock, handle_at s c a = Ret (m, w, logs) ∧ written s now clock logs = Panic.

Definition stream_panics (s : system) (g : grpc_stream) (msg : ProcessingRequest) (a : option nat) : Prop :=
  Process_at s g msg a = Panic ∨
  ∃ st logs r now clock, Process_at s g msg a = Ret (st, logs, r) ∧ written s now clock logs = Panic.

(** net/http recovers a panic of a handler, grpc does not: it ends the process. *)
Definition panicked (g : grpc_stream) : bool :=
  match gs_phase g with GPanicked _ => true | _ => false end.

Definition crashed (s : system) : bool := existsb panicked (sy_streams s).

(** ** Steps *)

(** A handler that panics may have counted the request before. *)
Inductive sys_move (f : flags) (watch : bool) (s : system) : system → Prop :=
| sys_process l :
    life_step f watch (sy_life s) l →
    sys_move f watch s (mkSystem l (sy_metrics s) (sy_calls s) (sy_streams s) (sy_out s))
| sys_arrive r dur :
    running (lf_main (sy_life s)) = true → lf_http (sy_life s) = LServing →
    sys_move f watch s (mkSystem (sy_life s) (sy_metrics s) (sy_calls s ++ [mkHttpCall r dur HArrived])
                          (sy_streams s) (sy_out s))
| sys_load i c :
    running (lf_main (sy_life s)) = true → sy_calls s !! i = Some c → hc_phase c = HArrived →
    sys_move f watch s (set_call s i c (HLoaded (pr_http (lf_pr (sy_life s)))) (sy_metrics s) [])
| sys_answer i c a m w logs now clock out :
    running (lf_main (sy_life s)) = true → sy_calls s !! i = Some c → hc_phase c = HLoaded a →
    handle_at s c a = Ret (m, w, logs) → written s now clock logs = Ret out →
    sys_move f watch s (set_call s i c (HAnswered a w) m out)
| sys_panic i c a m :
    running (lf_main (sy_life s)) = true → sy_calls s !! i = Some c → hc_phase c = HLoaded a →
    call_panics s c a →
    m = sy_metrics s ∨ (∃ rule outcome dry, m = record (sy_metrics s) rule outcome dry) →
    sys_move f watch s (set_call s i c HPanicked m [])
| sys_open sid :
    running (lf_main (sy_life s)) = true → lf_grpc (sy_life s) = LServing →
    sys_move f watch s (mkSystem (sy_life s) (sy_metrics s) (sy_calls s)
      (sy_streams s ++ [mkGrpcStream sid (mkStream None None) GReceiving [] []]) (sy_out s))
| sys_receive i g msg :
    running (lf_main (sy_life s)) = true → sy_streams s !! i = Some g → gs_phase g = GReceiving →
    sys_move f watch s (set_stream s i (mkGrpcStream (gs_id g) (gs_state g)
      (GLoaded msg (pr_grpc (lf_pr (sy_life s)))) (gs_received g) (gs_sent g)) [])
| sys_reply i g msg a st logs r now clock out :
    running (lf_main (sy_life s)) = true → sy_streams s !! i = Some g → gs_phase g = GLoaded msg a →
    Process_at s g msg a = Ret (st, logs, r) → written s now clock logs = Ret out →
    sys_move f watch s (set_stream s i
      (mkGrpcStream (gs_id g) st GReceiving (gs_received g ++ [msg]) (gs_sent g ++ [r])) out)
| sys_stream_panic i g msg a :
    running (lf_main (sy_life s)) = true → sy_streams s !! i = Some g → gs_phase g = GLoaded msg a →
    stream_panics s g msg a →
    sys_move f watch s (set_stream s i
      (mkGrpcStream (gs_id g) (gs_state g) (GPanicked msg) (gs_received g) (gs_sent g)) []).

Definition sys_step (f : flags) (watch : bool) (s s' : system) : Prop :=
  crashed s = false ∧ sys_move f watch s s'.

(** ** What stays of a policy *)

(** Two states of one policy: all but the registry of its facts. *)
Definition same_policy (c c' : Config) : Prop :=
  c_Defaults c' = c_Defaults c ∧ c_Logging c' = c_Logging c ∧ c_Facts c' = c_Facts c ∧
  c_Groups c' = c_Groups c ∧ c_env c' = c_env c.

Definition evolves (st st' : list Config) : Prop :=
  ∀ a c, st !! a = Some c → ∃ c', st' !! a = Some c' ∧ same_policy c c'.

#[local] Instance evolves_preorder : PreOrder evolves.
Proof.
  split.
  - intros st a c Hc. by exists c.
  - intros s1 s2 s3 H12 H23 a c Hc. destruct (H12 a c Hc) as (c2 & Hc2 & Hs2).
    destruct (H23 a c2 Hc2) as (c3 & Hc3 & Hs3). exists c3. split; [done|].
    destruct Hs2 as (? & ? & ? & ? & ?), Hs3 as (? & ? & ? & ? & ?). split_and!; by etransitivity.
Qed.

Lemma evolves_app st l : evolves st (st ++ l).
Proof. intros a c Hc. exists c. split; [by apply lookup_app_l_Some|done]. Qed.

Lemma evolves_stop st a : evolves st (alter Config_Stop a st).
Proof.
  intros b c Hc. destruct (decide (b = a)) as [->|Hne].
  - exists (Config_Stop c). by rewrite list_lookup_alter_eq, Hc.
  - exists c. by rewrite list_lookup_alter_ne.
Qed.

Lemma evolves_registry st a c reg : st !! a = Some c → evolves st (<[a := with_registry c reg]> st).
Proof.
  intros Ha b x Hx. destruct (decide (b = a)) as [->|Hne].
  - exists (with_registry c reg). simplify_eq. split; [|done].
    apply list_lookup_insert_eq. by eapply lookup_lt_Some.
  - exists x. by rewrite list_lookup_insert_ne.
Qed.

Lemma evolves_stop_at pr o : evolves (pr_store pr) (pr_store (stop_at pr o)).
Proof. destruct o; [apply evolves_stop|by apply reflexivity]. Qed.

Lemma thread_step_evolves f pr t pr' t' :
  thread_step f pr t = Ret (pr', t') → evolves (pr_store pr) (pr_store pr').
Proof.
  destruct t as [source file|source a|source a|source a old|source a old|source a|]; cbn.
  - destruct (LoadFile getenv file) as [c|]; [|by intros [= <- <-]; reflexivity].
    destruct (Config_Start c) as [[c' [err|]]|]; cbn; [intros [= <- <-]..|done]; apply evolves_app.
  - destruct (pr_store pr !! a) as [c|]; [|done]. intros [= <- <-].
    by rewrite (proj1 (applyLogging_fields pr (c_Logging c) f)).
  - by intros [= <- <-].
  - by intros [= <- <-].
  - intros [= <- <-]. apply evolves_stop_at.
  - destruct (pr_store pr !! a) as [c|]; [|done]. by intros [= <- <-].
  - by intros [= <- <-].
Qed.

Lemma main_next_evolves l sig l' :
  main_next l sig = Some l' → evolves (pr_store (lf_pr l)) (pr_store (lf_pr l')).
Proof.
  unfold main_next. destruct (lf_main l) as [| | | |p|p|p| |code]; try done.
  - destruct sig; [by intros [= <-]|]. destruct (lf_errCh l) as [|[err|] ?]; [done|by intros [= <-]..].
  - by intros [= <-].
  - by intros [= <-].
  - by intros [= <-].
  - intros [= <-]. apply evolves_stop_at.
  - intros E. assert (l' = set_main l (lf_pr l) (MStopped p)) as ->
      by (repeat case_match; by simplify_eq). done.
Qed.

Lemma life_step_evolves f watch l l' :
  life_step f watch l l' → evolves (pr_store (lf_pr l)) (pr_store (lf_pr l')).
Proof.
  intros []; try reflexivity; [by eapply main_next_evolves|by eapply thread_step_evolves|].
  by apply evolves_registry.
Qed.

(** ** Policies in use *)

(** A policy that was accepted and is there to stay. *)
Definition held (l : life) (a : nat) : Prop :=
  (a < length (pr_store (lf_pr l)))%nat ∧ a ∉ lf_refused l.

Lemma held_started l a :
  life_inv l → held l a → ∃ c, pr_store (lf_pr l) !! a = Some c ∧ started c.
Proof.
  intros [_ (_ & _ & _ & Hst) _ _] [Ha Hn]. destruct (lookup_lt_is_Some_2 _ _ Ha) as [c Hc].
  exists c. split; [done|]. by eapply Hst.
Qed.

Lemma http_held l : life_inv l → ∃ a, pr_http (lf_pr l) = Some a ∧ held l a.
Proof.
  intros [[a Ha] (_ & Ho & _) _ _]. exists a. split; [done|]. apply Ho. unfold owned. rewrite Ha. left.
Qed.

Lemma held_step f watch l l' a : life_step f watch l l' → held l a → held l' a.
Proof.
  intros Hs [Ha Hn]. split.
  { destruct (lookup_lt_is_Some_2 _ _ Ha) as [c Hc].
    destruct (life_step_evolves _ _ _ _ Hs a c Hc) as (c' & Hc' & _). by eapply lookup_lt_Some. }
  destruct Hs as [sig l' Hm| | | |i t pr' t' Hrun Hi Hnd Hstep|b c reg reg' Hrun Hb Hreg Hbg| | | | |]; try done.
  - assert (lf_refused l' = lf_refused l) as ->; [|done]. unfold main_next in Hm.
    by repeat case_match; simplify_eq.
  - cbn. rewrite elem_of_app. intros [?|Hin]; [done|]. unfold refused_by in Hin.
    destruct t'; [set_solver..|]. apply elem_of_seq in Hin. lia.
  - cbn. by rewrite app_nil_r.
Qed.

(** The policies the gRPC server and the reloads refer to. *)
Record refs_inv (l : life) : Prop := {
  refs_grpc : ∃ g, pr_grpc (lf_pr l) = Some g ∧ held l g;
  refs_threads : Forall (λ t, ∀ a, a ∈ thread_reads t → held l a) (lf_threads l);
}.

(** Where a step of a reload gets its policy, and what it puts in the gRPC server. *)
Lemma thread_step_refs f pr t pr' t' :
  thread_step f pr t = Ret (pr', t') →
  (∀ a, a ∈ thread_reads t' → a ∈ thread_reads t ∨ a = length (pr_store pr) ∧ t' ≠ TDone ∧
     (a < length (pr_store pr'))%nat) ∧
  (pr_grpc pr' = pr_grpc pr ∨ ∃ a, pr_grpc pr' = Some a ∧ a ∈ thread_reads t).
Proof.
  destruct t as [source file|source a|source a|source a old|source a old|source a|]; cbn.
  - destruct (LoadFile getenv file) as [c|]; [|intros [= <- <-]; set_solver].
    destruct (Config_Start c) as [[c' [err|]]|]; cbn; [intros [= <- <-]..|done]; cbn; [set_solver|].
    rewrite length_app. cbn. split; [|by left]. intros a ->%list_elem_of_singleton. right.
    split_and!; [done|done|lia].
  - destruct (pr_store pr !! a) as [c|]; [|done]. intros [= <- <-]. cbn.
    destruct (applyLogging_fields pr (c_Logging c) f) as (_ & _ & ->). auto.
  - intros [= <- <-]. auto.
  - intros [= <- <-]. cbn. split; [auto|]. right. exists a. set_solver.
  - intros [= <- <-]. destruct old; auto.
  - destruct (pr_store pr !! a) as [c|]; [|done]. intros [= <- <-]. cbn. set_solver.
  - intros [= <- <-]. auto.
Qed.

Lemma thread_refs f watch l i t pr' t' :
  let l' := set_threads l pr' (<[i := t']> (lf_threads l)) (refused_by (lf_pr l) pr' t') in
  life_step f watch l l' → life_inv l → refs_inv l → lf_threads l !! i = Some t →
  thread_step f (lf_pr l) t = Ret (pr', t') → refs_inv l'.
Proof.
  intros l' Hs [_ (_ & _ & Href & _) _ _] [(g & Hg & Hgh) Hts] Hi Hstep.
  destruct (thread_step_refs _ _ _ _ _ Hstep) as [Hreads Hgrpc].
  assert (∀ a, held l a → held l' a) as Hheld by (intros a; by eapply held_step).
  pose proof (Forall_lookup_1 _ _ _ _ Hts Hi) as Ht. split; cbn.
  - destruct Hgrpc as [E|(a & E & Ha)]; rewrite E; eauto.
  - apply Forall_insert.
    + eapply Forall_impl; [exact Hts|]. cbn. intros x Hx a Ha. auto.
    + intros a Ha. destruct (Hreads a Ha) as [Ha'|(-> & Hnd & Hlt)]; [auto|]. split; [done|]. cbn.
      assert (refused_by (lf_pr l) pr' t' = []) as -> by by destruct t'. rewrite app_nil_r.
      intros Hin. apply Href in Hin. lia.
Qed.

Lemma refs_same l l' :
  (∀ a, held l a → held l' a) → pr_grpc (lf_pr l') = pr_grpc (lf_pr l) →
  Forall (λ t, t ∈ lf_threads l ∨ thread_reads t = []) (lf_threads l') → refs_inv l → refs_inv l'.
Proof.
  intros Hh Hg Ht [(g & Eg & Hgh) Hts]. split; [exists g; rewrite Hg; auto|].
  eapply Forall_impl; [exact Ht|]. cbn. intros t [Hin|E] a Ha; [|rewrite E in Ha; set_solver].
  apply Hh. rewrite Forall_forall in Hts. by apply (Hts t Hin).
Qed.

Lemma life_step_refs f watch l l' : life_step f watch l l' → life_inv l → refs_inv l → refs_inv l'.
Proof.
  intros Hs Hi Hr. pose proof (λ a, held_step _ _ _ _ a Hs) as Hh.
  assert (∀ ts : list thread, Forall (λ t, t ∈ ts ∨ thread_reads t = []) ts) as Hall
    by (intros ts; apply Forall_forall; auto).
  destruct Hs as [sig l' Hm| |file Hrun Hhup Hz| file Hrun Hw|i t pr' t' Hrun Hi' Hnd Hstep| | | | | |];
    try (by eapply refs_same; [exact Hh|done|apply Hall|]).
  - eapply refs_same; [exact Hh| | |done]; unfold main_next in Hm;
      repeat case_match; simplify_eq; cbn; try done; try apply Hall. by destruct p.
  - eapply refs_same; [exact Hh|done| |done]. cbn. apply Forall_insert; [apply Hall|by right].
  - eapply refs_same; [exact Hh|done| |done]. cbn. apply Forall_app. split; [apply Hall|].
    apply Forall_singleton. by right.
  - by eapply (thread_refs f watch); [eapply life_thread|..].
Qed.

Lemma boot_refs f file st pr : boot f file st = Ret (Some pr) → refs_inv (life0 pr).
Proof.
  intros (c & Est & _ & Eg & _)%boot_state. split; cbn.
  - exists O. split; [done|]. split; [cbn; rewrite Est; cbn; lia|set_solver].
  - apply Forall_singleton. set_solver.
Qed.

(** ** The invariant of the service *)

(** Settings under which the handlers cannot panic. *)
Definition settings_ok (c : Config) : Prop :=
  reveal_ok (l_RedactReveal (c_Logging c)) ∧ authz_settings_ok c.

Definition all_settings_ok (s : system) : Prop :=
  Forall settings_ok (pr_store (lf_pr (sy_life s))).

Lemma settings_same c c' : same_policy c c' → settings_ok c' → settings_ok c.
Proof. unfold settings_ok, authz_settings_ok. by intros (-> & -> & _). Qed.

Lemma evolves_settings st st' : evolves st st' → Forall settings_ok st' → Forall settings_ok st.
Proof.
  intros He Hs. apply Forall_lookup. intros a c Hc. destruct (He a c Hc) as (c' & Hc' & Hsame).
  eapply settings_same; [done|]. by eapply Forall_lookup_1.
Qed.

(** Every policy loaded so far can log these headers. *)
Definition all_loggable (st : list Config) (h : Header) : Prop :=
  Forall (λ c, loggable (c_Logging c) h = true) st.

Definition call_loggable (st : list Config) (c : http_call) : Prop :=
  all_loggable st (hr_Header (hc_request c)).

(** The messages of a stream, with the one being handled. *)
Definition gs_messages (g : grpc_stream) : list ProcessingRequest :=
  gs_received g ++ match gs_phase g with GLoaded msg _ | GPanicked msg => [msg] | GReceiving => [] end.

Definition stream_loggable (st : list Config) (g : grpc_stream) : Prop :=
  Forall (λ msg, Forall (all_loggable st) (message_headers msg)) (gs_messages g).

(** What the theorems suppose of the policies and of the traffic so far. *)
Record traffic_ok (s : system) : Prop := {
  ok_settings : all_settings_ok s;
  ok_calls : Forall (call_loggable (pr_store (lf_pr (sy_life s)))) (sy_calls s);
  ok_streams : Forall (stream_loggable (pr_store (lf_pr (sy_life s)))) (sy_streams s);
}.

Lemma evolves_loggable st st' h : evolves st st' → all_loggable st' h → all_loggable st h.
Proof.
  intros He Hs. apply Forall_lookup. intros a c Hc. destruct (He a c Hc) as (c' & Hc' & _ & El & _).
  rewrite <- El. by eapply (Forall_lookup_1 (λ c, loggable (c_Logging c) h = true)).
Qed.

Lemma traffic_process s l :
  evolves (pr_store (lf_pr (sy_life s))) (pr_store (lf_pr l)) →
  traffic_ok (mkSystem l (sy_metrics s) (sy_calls s) (sy_streams s) (sy_out s)) → traffic_ok s.
Proof.
  intros He [Hset Hcs Hgs]. split; cbn in *; [by eapply evolves_settings|..].
  - eapply Forall_impl; [exact Hcs|]. intros c. by apply evolves_loggable.
  - eapply Forall_impl; [exact Hgs|]. intros g Hg. eapply Forall_impl; [exact Hg|]. intros msg Hm.
    eapply Forall_impl; [exact Hm|]. intros h. by apply evolves_loggable.
Qed.

Lemma Forall_insert_inv {A} (P : A → Prop) (l : list A) i x y :
  l !! i = Some x → (P y → P x) → Forall P (<[i := y]> l) → Forall P l.
Proof.
  intros Hi Hxy Hl. apply Forall_lookup. intros j z Hz. destruct (decide (i = j)) as [->|Hne].
  - simplify_eq. apply Hxy. eapply Forall_lookup_1; [exact Hl|].
    apply list_lookup_insert_eq. by eapply lookup_lt_Some.
  - eapply Forall_lookup_1; [exact Hl|]. by rewrite list_lookup_insert_ne.
Qed.

Lemma traffic_set_call s i c ph m out :
  sy_calls s !! i = Some c → traffic_ok (set_call s i c ph m out) → traffic_ok s.
Proof. intros Hi [Hset Hcs Hgs]. split; [done| |done]. by eapply (Forall_insert_inv _ _ i c); [..|exact Hcs]. Qed.

Lemma traffic_set_stream s i g g' out :
  sy_streams s !! i = Some g → (∃ l, gs_messages g' = gs_messages g ++ l) →
  traffic_ok (set_stream s i g' out) → traffic_ok s.
Proof.
  intros Hi [l Hl] [Hset Hcs Hgs]. split; [done|done|]. eapply Forall_insert_inv; [done| |exact Hgs].
  unfold stream_loggable. rewrite Hl. by intros [? _]%Forall_app.
Qed.

(** The answer to a request: the contract of [handle] for the policy the HTTP server
    held when the request came, with the facts it had when it was evaluated. *)
Definition answered_by (st : list Config) (a : option nat) (r : http_request) (w : writer) : Prop :=
  ∃ h c p v, a = Some h ∧ st !! h = Some c ∧ same_policy p c ∧ started p ∧
    http_verdict p r = Ret v ∧ response_for p v w.

Definition call_good (l : life) (c : http_call) : Prop :=
  match hc_phase c with
  | HArrived => True
  | HLoaded a => ∃ h, a = Some h ∧ held l h
  | HAnswered a w => answered_by (pr_store (lf_pr l)) a (hc_request c) w
  | HPanicked => False
  end.

Definition stream_good (l : life) (g : grpc_stream) : Prop :=
  Forall2 answers (gs_received g) (gs_sent g) ∧
  Forall (λ h, h = ∅ ∨ h ∈ gs_received g ≫= message_headers) (stream_headers (gs_state g)) ∧
  match gs_phase g with
  | GReceiving => True
  | GLoaded _ a => ∃ h, a = Some h ∧ held l h
  | GPanicked _ => False
  end.

Definition is_answered (c : http_call) : bool :=
  match hc_phase c with HAnswered _ _ => true | _ => false end.

Definition count_answered (cs : list http_call) : nat := length (List.filter is_answered cs).

Record sys_inv (s : system) : Prop := {
  sys_life_inv : life_inv (sy_life s);
  sys_refs_inv : refs_inv (sy_life s);
  sys_good : traffic_ok s →
    Forall (call_good (sy_life s)) (sy_calls s) ∧ Forall (stream_good (sy_life s)) (sy_streams s) ∧
    ∃ ks, sy_metrics s = record_all ks ∧ length ks = count_answered (sy_calls s);
}.

Lemma same_policy_trans c1 c2 c3 : same_policy c1 c2 → same_policy c2 c3 → same_policy c1 c3.
Proof. intros (? & ? & ? & ? & ?) (? & ? & ? & ? & ?). split_and!; by etransitivity. Qed.

Lemma call_good_step f watch l l' c : life_step f watch l l' → call_good l c → call_good l' c.
Proof.
  intros Hs. unfold call_good. destruct (hc_phase c) as [|a|a w|]; try done.
  - intros (h & -> & Hh). exists h. split; [done|]. by eapply held_step.
  - intros (h & x & p & v & -> & Hx & Hsame & Hp & Hv & Hw).
    destruct (life_step_evolves _ _ _ _ Hs h x Hx) as (x' & Hx' & Hsame').
    exists h, x', p, v. split_and!; try done. by eapply same_policy_trans.
Qed.

Lemma stream_good_step f watch l l' g : life_step f watch l l' → stream_good l g → stream_good l' g.
Proof.
  intros Hs (Ha & Hh & Hp). split_and!; [done|done|]. destruct (gs_phase g) as [|msg a|]; try done.
  destruct Hp as (h & -> & Hheld). exists h. split; [done|]. by eapply held_step.
Qed.

Lemma count_answered_insert cs i c c' :
  cs !! i = Some c →
  (count_answered (<[i := c']> cs) + Nat.b2n (is_answered c) = count_answered cs + Nat.b2n (is_answered c'))%nat.
Proof.
  unfold count_answered. revert i. induction cs as [|x cs IH]; intros [|i]; [done|done|..].
  - intros [= ->]. cbn. destruct (is_answered c), (is_answered c'); cbn; lia.
  - intros Hi. specialize (IH i Hi). change (<[S i := c']> (x :: cs)) with (x :: <[i := c']> cs).
    cbn [List.filter]. destruct (is_answered x); cbn [length]; lia.
Qed.

(** The policy a handler has loaded is still a good one when it evaluates. *)
Lemma loaded_ready s h :
  life_inv (sy_life s) → all_settings_ok s → held (sy_life s) h →
  ∃ p, policy_at s (Some h) = Some p ∧ started p ∧ policy_ready p ∧ authz_settings_ok p.
Proof.
  intros Hi Hset Hh. destruct (held_started _ _ Hi Hh) as (c & Hc & Hs). exists c.
  pose proof (Forall_lookup_1 _ _ _ _ Hset Hc) as [Hr Ha]. split_and!; try done.
  split; [by destruct Hs|done].
Qed.

Lemma handle_held s c h :
  life_inv (sy_life s) → traffic_ok s → held (sy_life s) h → c ∈ sy_calls s →
  ∃ k w logs, handle_at s c (Some h) =
      Ret (record (sy_metrics s) (rk_rule k) (rk_outcome k) (rk_dryRun k), w, logs) ∧
    answered_by (pr_store (lf_pr (sy_life s))) (Some h) (hc_request c) w ∧
    ∀ now clock, ∃ out, written s now clock logs = Ret out.
Proof.
  intros Hi [Hset Hcs _] Hh Hc. destruct (loaded_ready s h Hi Hset Hh) as (p & Ep & Hs & [Hl Hrev] & Ha).
  unfold handle_at. rewrite Ep.
  destruct (handle_ok (mkServer (Some p) (sy_metrics s)) p (hc_request c) (hc_duration c) eq_refl Hl Hrev Ha)
    as (v & w & rec & Hv & E & Hw & _). rewrite E.
  exists (mkRuleKey (vd_rule v) (vd_outcome v) (vd_dry v)), w, [rec]. split_and!; [done|by exists h, p, p, v|].
  intros now clock. apply log_all_ok. rewrite (handle_records _ _ _ _ _ _ E) by by intros p' [= <-].
  cbn [sv_policy]. destruct (ReadAll_limited _ _); [|done]. rewrite Forall_forall in Hcs.
  specialize (Hcs c Hc). unfold call_loggable, all_loggable in Hcs.
  by rewrite (Forall_lookup_1 _ _ h p Hcs Ep).
Qed.

Lemma stream_held s g msg h :
  life_inv (sy_life s) → traffic_ok s → stream_good (sy_life s) g → g ∈ sy_streams s →
  gs_phase g = GLoaded msg (Some h) → held (sy_life s) h →
  ∃ st logs r, Process_at s g msg (Some h) = Ret (st, logs, r) ∧ answers msg r ∧
    ∀ now clock, ∃ out, written s now clock logs = Ret out.
Proof.
  intros Hi [Hset _ Hgs] (_ & Hhd & _) Hg Hph Hh.
  destruct (loaded_ready s h Hi Hset Hh) as (p & Ep & _ & Hp & _). unfold Process_at. rewrite Ep.
  destruct (Process_step_ok (gs_id g) (Some p) (gs_state g) msg) as (st & logs & r & E & Ha & _).
  { by intros p' [= <-]. }
  exists st, logs, r. split_and!; [done|done|]. intros now clock. apply log_all_ok.
  rewrite (Process_records _ _ _ _ _ _ _ (proj2 Hp) E). apply existsb_false_iff. intros x Hx.
  apply shown_from in Hx. rewrite negb_false_iff. rewrite Forall_forall in Hgs. specialize (Hgs g Hg).
  assert (∀ m, m ∈ gs_messages g → x ∈ message_headers m → loggable (c_Logging p) x = true) as Hlog.
  { intros m Hm Hxm. unfold stream_loggable in Hgs. rewrite Forall_forall in Hgs. specialize (Hgs m Hm).
    rewrite Forall_forall in Hgs. apply (Forall_lookup_1 _ _ h p (Hgs x Hxm) Ep). }
  unfold gs_messages in Hlog. rewrite Hph in Hlog. apply elem_of_app in Hx as [Hx|Hx].
  - rewrite Forall_forall in Hhd. destruct (Hhd x Hx) as [->|Hin]; [apply loggable_empty|].
    apply list_elem_of_bind in Hin as (m & Hxm & Hm). apply (Hlog m); [|done]. apply elem_of_app. by left.
  - apply (Hlog msg); [|done]. apply elem_of_app. right. by apply list_elem_of_singleton.
Qed.

(** A request moves on. *)
Lemma set_call_good s i c ph m out :
  sy_calls s !! i = Some c →
  (traffic_ok s → call_good (sy_life s) (mkHttpCall (hc_request c) (hc_duration c) ph)) →
  is_answered c = false → sys_inv s →
  (traffic_ok s → ∃ ks, m = record_all ks ∧
     (length ks = count_answered (sy_calls s) +
        Nat.b2n (is_answered (mkHttpCall (hc_request c) (hc_duration c) ph)))%nat) →
  sys_inv (set_call s i c ph m out).
Proof.
  intros Hi Hg Hna [Hl Hr Hgood] Hm. split; [done|done|]. intros Hset%traffic_set_call; [|done].
  destruct (Hgood Hset) as (Hcs & Hgs & _). split_and!; [apply Forall_insert; auto|done|].
  destruct (Hm Hset) as (ks & -> & Hlen). exists ks. split; [done|]. unfold set_call. cbn [sy_calls].
  pose proof (count_answered_insert (sy_calls s) i c (mkHttpCall (hc_request c) (hc_duration c) ph) Hi) as Hc.
  rewrite Hna in Hc. change (Nat.b2n false) with 0%nat in Hc. lia.
Qed.

Lemma set_stream_good s i g g' out :
  sy_streams s !! i = Some g → (∃ l, gs_messages g' = gs_messages g ++ l) →
  (traffic_ok s → stream_good (sy_life s) g → stream_good (sy_life s) g') → sys_inv s →
  sys_inv (set_stream s i g' out).
Proof.
  intros Hi Hm Hg [Hl Hr Hgood]. split; [done|done|]. intros Hset%(traffic_set_stream _ _ g); [|done..].
  destruct (Hgood Hset) as (Hcs & Hgs & Hks). split_and!; [done| |done]. cbn.
  apply Forall_insert; [done|]. apply Hg; [done|]. by eapply Forall_lookup_1.
Qed.

(** Under the invariant a handler that has loaded its policy returns. *)
Lemma call_ready s i c a :
  sys_inv s → traffic_ok s → sy_calls s !! i = Some c → hc_phase c = HLoaded a →
  ∃ k w logs, handle_at s c a =
      Ret (record (sy_metrics s) (rk_rule k) (rk_outcome k) (rk_dryRun k), w, logs) ∧
    answered_by (pr_store (lf_pr (sy_life s))) a (hc_request c) w ∧
    ∀ now clock, ∃ out, written s now clock logs = Ret out.
Proof.
  intros [Hl _ Hgood] Hset Hi Hph. destruct (Hgood Hset) as (Hcs & _).
  pose proof (Forall_lookup_1 _ _ _ _ Hcs Hi) as Hc. unfold call_good in Hc. rewrite Hph in Hc.
  destruct Hc as (h & -> & Hheld). apply handle_held; [done..|]. by eapply list_elem_of_lookup_2.
Qed.

Lemma stream_ready s i g msg a :
  sys_inv s → traffic_ok s → sy_streams s !! i = Some g → gs_phase g = GLoaded msg a →
  ∃ st logs r, Process_at s g msg a = Ret (st, logs, r) ∧ answers msg r ∧
    ∀ now clock, ∃ out, written s now clock logs = Ret out.
Proof.
  intros [Hl _ Hgood] Hset Hi Hph. destruct (Hgood Hset) as (_ & Hgs & _).
  pose proof (Forall_lookup_1 _ _ _ _ Hgs Hi) as Hg. pose proof Hg as (_ & _ & Hh). rewrite Hph in Hh.
  destruct Hh as (h & -> & Hheld). apply stream_held; [done..| |done|done]. by eapply list_elem_of_lookup_2.
Qed.

Lemma call_no_panic s i c a :
  sys_inv s → traffic_ok s → sy_calls s !! i = Some c → hc_phase c = HLoaded a → ¬ call_panics s c a.
Proof.
  intros Hinv Hset Hi Hph. destruct (call_ready s i c a Hinv Hset Hi Hph) as (k & w & logs & E & _ & Hw).
  intros [Hp|(m & w' & logs' & now & clock & E' & Hp)]; [congruence|].
  rewrite E in E'. injection E' as <- <- <-. destruct (Hw now clock) as [out ?]. congruence.
Qed.

Lemma stream_no_panic s i g msg a :
  sys_inv s → traffic_ok s → sy_streams s !! i = Some g → gs_phase g = GLoaded msg a →
  ¬ stream_panics s g msg a.
Proof.
  intros Hinv Hset Hi Hph. destruct (stream_ready s i g msg a Hinv Hset Hi Hph) as (st & logs & r & E & _ & Hw).
  intros [Hp|(st' & logs' & r' & now & clock & E' & Hp)]; [congruence|].
  rewrite E in E'. injection E' as <- <- <-. destruct (Hw now clock) as [out ?]. congruence.
Qed.

Lemma sys_answer_inv s i c a m w logs out :
  sys_inv s → sy_calls s !! i = Some c → hc_phase c = HLoaded a →
  handle_at s c a = Ret (m, w, logs) → sys_inv (set_call s i c (HAnswered a w) m out).
Proof using Type fmt_tables json_tables.
  intros Hinv Hi Hph Hh.
  apply set_call_good; [done| |unfold is_answered; by rewrite Hph|done|]; intros Hset;
    destruct (call_ready s i c a Hinv Hset Hi Hph) as (k & w' & logs' & E & Ha & _);
    rewrite Hh in E; injection E as -> -> ->; [done|].
  destruct Hinv as [_ _ Hgood]. destruct (Hgood Hset) as (_ & _ & ks & -> & Hlen).
  exists (ks ++ [k]). unfold record_all. rewrite foldl_snoc, length_app. split; [done|]. cbn. lia.
Qed.

Lemma sys_reply_inv s i g msg a st logs r out :
  sys_inv s → sy_streams s !! i = Some g → gs_phase g = GLoaded msg a →
  Process_at s g msg a = Ret (st, logs, r) →
  sys_inv (set_stream s i (mkGrpcStream (gs_id g) st GReceiving (gs_received g ++ [msg]) (gs_sent g ++ [r])) out).
Proof using Type fmt_tables json_tables.
  intros Hinv Hi Hph Hp. apply (set_stream_good s i g); [done| | |done].
  { exists []. unfold gs_messages. cbn. by rewrite Hph, !app_nil_r. }
  intros Hset (Ha & Hh & _). destruct (stream_ready s i g msg a Hinv Hset Hi Hph) as (st' & logs' & r' & E & Hr & _).
  rewrite Hp in E. injection E as <- <- <-. split_and!; [|cbn|done].
  { apply Forall2_app; [done|]. by repeat constructor. }
  apply Forall_forall. intros h Hin. apply (Process_headers _ _ _ _ _ _ _ Hp) in Hin.
  rewrite bind_app, elem_of_app. cbn. rewrite app_nil_r. apply elem_of_app in Hin as [Hin|Hin]; [|auto].
  rewrite Forall_forall in Hh. destruct (Hh h Hin); auto.
Qed.

Lemma sys_step_inv f watch s s' : sys_step f watch s s' → sys_inv s → sys_inv s'.
Proof.
  intros [_ Hs] Hinv. pose proof Hinv as [Hl Hr Hgood].
  destruct Hs as [l Hstep|r dur Hrun Hls|i c Hrun Hi Hph|i c a m w logs now clock out Hrun Hi Hph Hh Hw
    |i c a m Hrun Hi Hph Hh Hm|sid Hrun Hls|i g msg Hrun Hi Hph
    |i g msg a st logs r now clock out Hrun Hi Hph Hp Hw|i g msg a Hrun Hi Hph Hp].
  - split; [by eapply life_step_inv|by eapply life_step_refs|].
    intros (Hcs & Hgs & Hks)%traffic_process%Hgood; [|by eapply life_step_evolves].
    split_and!; [| |done]; (eapply Forall_impl; [eassumption|]); cbn; intros x;
      [by eapply call_good_step|by eapply stream_good_step].
  - split; [done|done|]. intros [Hset [Hc _]%Forall_app Hg].
    destruct Hgood as (Hcs & Hgs & ks & Hm & Hlen); [by split|]. cbn.
    split_and!; [apply Forall_app; split; [done|by apply Forall_singleton]|done|].
    exists ks. split; [done|]. unfold count_answered. rewrite List.filter_app, length_app. cbn. by rewrite Nat.add_0_r.
  - destruct (http_held _ Hl) as (h & Eh & Hheld). apply set_call_good; try done.
    + intros _. rewrite Eh. by exists h.
    + unfold is_answered. by rewrite Hph.
    + intros Hset. destruct (Hgood Hset) as (_ & _ & ks & Hm & Hlen). exists ks. split; [done|]. cbn. lia.
  - by eapply sys_answer_inv.
  - split; [done|done|]. intros Hset%traffic_set_call; [|done]. by destruct (call_no_panic s i c a).
  - split; [done|done|]. intros [Hset Hc [Hg _]%Forall_app].
    destruct Hgood as (Hcs & Hgs & Hks); [by split|]. cbn.
    split_and!; [done| |done]. apply Forall_app. split; [done|]. apply Forall_singleton.
    split_and!; [constructor| |done]. by repeat constructor; left.
  - apply (set_stream_good s i g); [done| | |done].
    { exists [msg]. unfold gs_messages. cbn. by rewrite Hph, app_nil_r. }
    intros _ (Ha & Hh & _). split_and!; [done|done|].
    destruct Hr as [(h & Eh & Hheld) _]. rewrite Eh. by exists h.
  - by eapply sys_reply_inv.
  - split; [done|done|]. intros Hset%(traffic_set_stream _ _ g); [|done|].
    { by destruct (stream_no_panic s i g msg a). }
    exists []. unfold gs_messages. cbn. by rewrite Hph, app_nil_r.
Qed.

Lemma sys_reachable_inv f watch file st pr s :
  boot f file st = Ret (Some pr) → rtc (sys_step f watch) (system0 pr) s → sys_inv s.
Proof.
  intros Hb Hs. assert (sys_inv (system0 pr)) as H0'.
  { split; [by eapply boot_inv|by eapply boot_refs|]. intros _. split_and!; [done|done|by exists []]. }
  clear Hb. induction Hs as [|s1 s2 s3 Hstep _ IH]; [done|]. apply IH. by eapply sys_step_inv.
Qed.

(** C11 The ext_authz service as a whole: however requests, reloads from both
    triggers, refreshes of facts and shutdown interleave, no handler panics, a
    handler that has loaded its policy can always go on to answer and to log, and the
    answer keeps the documented contract for the policy that was installed when the
    request came, even if that policy was replaced and stopped meanwhile; each answer
    is counted exactly once.  Supposed is that no policy loaded so far has one of the
    settings that validation fails to check, and that no header called [time] came
    that a policy would log. *)
Theorem requests_answered (f : flags) (watch : bool) (file : result string string) (st : log_state)
    (pr : process) (s : system) :
  boot f file st = Ret (Some pr) → rtc (sys_step f watch) (system0 pr) s → traffic_ok s →
  (∀ c, c ∈ sy_calls s → hc_phase c ≠ HPanicked ∧
     (∀ a w, hc_phase c = HAnswered a w → answered_by (pr_store (lf_pr (sy_life s))) a (hc_request c) w) ∧
     (∀ a, hc_phase c = HLoaded a →
        ∃ m w logs, handle_at s c a = Ret (m, w, logs) ∧
          ∀ now clock, ∃ out, written s now clock logs = Ret out)) ∧
  (∃ ks, sy_metrics s = record_all ks ∧ length ks = count_answered (sy_calls s)).
Proof.
  intros Hb Hs Hset. pose proof (sys_reachable_inv _ _ _ _ _ _ Hb Hs) as Hinv. pose proof Hinv as [Hl _ Hgood].
  destruct (Hgood Hset) as (Hcs & _ & Hks). split; [|done]. intros c Hc.
  pose proof (proj1 (Forall_forall _ _) Hcs c Hc) as Hg. unfold call_good in Hg.
  split_and!; [by intros E; rewrite E in Hg|intros a w E; by rewrite E in Hg|].
  intros a E. apply list_elem_of_lookup in Hc as [i Hi].
  destruct (call_ready s i c a Hinv Hset Hi E) as (k & w & logs & E' & _ & Hw). eauto.
Qed.


(** ** Schedules *)

Inductive sys_event : Type :=
| SLife (e : life_event)
| SServe
| SArrive (r : http_request)
| SLoad (i : nat)
| SAnswer (i : nat)
| SOpen (sid : string)
| SReceive (i : nat) (msg : ProcessingRequest)
| SReply (i : nat).

Definition sys_exec (f : flags) (s : system) (e : sys_event) : option system :=
  if negb (running (lf_main (sy_life s))) || crashed s then None
  else match e with
  | SLife e =>
      l ← life_exec getenv load_error_text facts_error_text version f (sy_life s) e;
      Some (mkSystem l (sy_metrics s) (sy_calls s) (sy_streams s) (sy_out s))
  | SServe =>
      let l := sy_life s in
      if decide (lf_grpc l = LNil) then
        Some (mkSystem (set_main (set_listeners l (lf_http l) LServing [])
            (info (lf_pr l) "starting grpc server" [Attr "addr" (SString ":9090")]) (lf_main l))
          (sy_metrics s) (sy_calls s) (sy_streams s) (sy_out s))
      else None
  | SArrive r =>
      if decide (lf_http (sy_life s) = LServing) then
        Some (mkSystem (sy_life s) (sy_metrics s) (sy_calls s ++ [mkHttpCall r (S754_zero false) HArrived])
          (sy_streams s) (sy_out s))
      else None
  | SLoad i =>
      c ← sy_calls s !! i;
      match hc_phase c with
      | HArrived => Some (set_call s i c (HLoaded (pr_http (lf_pr (sy_life s)))) (sy_metrics s) [])
      | _ => None
      end
  | SAnswer i =>
      c ← sy_calls s !! i;
      match hc_phase c with
      | HLoaded a =>
          match handle_at s c a with
          | Ret (m, w, logs) =>
              match written s 0 "00:00:00.000" logs with
              | Ret out => Some (set_call s i c (HAnswered a w) m out)
              | Panic => Some (set_call s i c HPanicked (sy_metrics s) [])
              end
          | Panic => Some (set_call s i c HPanicked (sy_metrics s) [])
          end
      | _ => None
      end
  | SOpen sid =>
      if decide (lf_grpc (sy_life s) = LServing) then
        Some (mkSystem (sy_life s) (sy_metrics s) (sy_calls s)
          (sy_streams s ++ [mkGrpcStream sid (mkStream None None) GReceiving [] []]) (sy_out s))
      else None
  | SReceive i msg =>
      g ← sy_streams s !! i;
      match gs_phase g with
      | GReceiving => Some (set_stream s i (mkGrpcStream (gs_id g) (gs_state g)
          (GLoaded msg (pr_grpc (lf_pr (sy_life s)))) (gs_received g) (gs_sent g)) [])
      | _ => None
      end
  | SReply i =>
      g ← sy_streams s !! i;
      match gs_phase g with
      | GLoaded msg a =>
          let unwound := set_stream s i
            (mkGrpcStream (gs_id g) (gs_state g) (GPanicked msg) (gs_received g) (gs_sent g)) [] in
          match Process_at s g msg a with
          | Ret (st, logs, r) =>
              match written s 0 "00:00:00.000" logs with
              | Ret out => Some (set_stream s i
                  (mkGrpcStream (gs_id g) st GReceiving (gs_received g ++ [msg]) (gs_sent g ++ [r])) out)
              | Panic => Some unwound
              end
          | Panic => Some unwound
          end
      | _ => None
      end
  end.

Fixpoint sys_run (f : flags) (s : system) (es : list sys_event) : option system :=
  match es with
  | [] => Some s
  | e :: es' => s' ← sys_exec f s e; sys_run f s' es'
  end.

Lemma sys_exec_step f s e s' : sys_exec f s e = Some s' → sys_step f true s s'.
Proof.
  unfold sys_exec. destruct (running (lf_main (sy_life s))) eqn:Hrun; [|done].
  destruct (crashed s) eqn:Hcr; [done|]. cbn [negb orb]. intros E. split; [done|]. revert E.
  destruct e as [e| |r|i|i|sid|i msg|i].
  - destruct (life_exec _ _ _ _ f (sy_life s) e) as [l|] eqn:E; [|done]. intros [= <-].
    apply sys_process. by eapply life_exec_step.
  - destruct (decide _) as [Hl|]; [|done]. intros [= <-]. apply sys_process. by apply life_grpc_start.
  - destruct (decide _) as [Hl|]; [|done]. intros [= <-]. by apply sys_arrive.
  - destruct (sy_calls s !! i) as [c|] eqn:Hi; [|done]. cbn. destruct (hc_phase c) eqn:Hp; try done.
    intros [= <-]. by apply sys_load.
  - destruct (sy_calls s !! i) as [c|] eqn:Hi; [|done]. cbn. destruct (hc_phase c) eqn:Hp; try done.
    destruct (handle_at s c a) as [[[m w] logs]|] eqn:Hh;
      [|intros [= <-]; apply (sys_panic _ _ _ i c a); [done..|by left|by left]].
    destruct (written _ _ _ logs) as [out|] eqn:Hw; intros [= <-]; [by eapply sys_answer|].
    apply (sys_panic _ _ _ i c a); [done..| |by left]. right. by eexists _, _, _, _, _.
  - destruct (decide _) as [Hl|]; [|done]. intros [= <-]. by apply sys_open.
  - destruct (sy_streams s !! i) as [g|] eqn:Hi; [|done]. cbn. destruct (gs_phase g) eqn:Hp; try done.
    intros [= <-]. by apply sys_receive.
  - destruct (sy_streams s !! i) as [g|] eqn:Hi; [|done]. cbn. destruct (gs_phase g) eqn:Hp; try done.
    destruct (Process_at s g msg a) as [[[st logs] r]|] eqn:Hh;
      [|intros [= <-]; eapply sys_stream_panic; [done..|by left]].
    destruct (written _ _ _ logs) as [out|] eqn:Hw; intros [= <-]; [by eapply sys_reply|].
    eapply sys_stream_panic; [done..|]. right. by eexists _, _, _, _, _.
Qed.

Lemma sys_run_rtc f s es s' : sys_run f s es = Some s' → rtc (sys_step f true) s s'.
Proof.
  revert s. induction es as [|e es IH]; intros s; cbn; [intros [= ->]; apply rtc_refl|].
  destruct (sys_exec f s e) as [s1|] eqn:E; [|done]. cbn. intros Hs.
  eapply rtc_l; [by eapply sys_exec_step|auto].
Qed.

End system.

(** ** Witnesses *)

Definition settings_okb (c : Config) : bool :=
  let n := 2 * l_RedactReveal (c_Logging c) in
  let ea := d_ExtAuthz (c_Defaults c) in
  (int64_min <=? n) && (n <=? int64_max) && (0 <=? ea_MaxBodyBytes ea) && (ea_MaxBodyBytes ea <? int64_max) &&
  (200 <=? ea_DenyStatus ea) && (ea_DenyStatus ea <=? 999).

Lemma settings_okb_ok c : settings_okb c = true → settings_ok c.
Proof.
  unfold settings_okb, settings_ok, reveal_ok, int64_ok, authz_settings_ok.
  rewrite !andb_true_iff, !Z.leb_le, Z.ltb_lt. lia.
Qed.

Definition all_loggableb (st : list Config) (h : Header) : bool :=
  forallb (λ c, loggable (c_Logging c) h) st.

Definition traffic_okb (s : system) : bool :=
  let st := pr_store (lf_pr (sy_life s)) in
  forallb settings_okb st &&
  forallb (λ c, all_loggableb st (hr_Header (hc_request c))) (sy_calls s) &&
  forallb (λ g, forallb (λ msg, forallb (all_loggableb st) (message_headers msg)) (gs_messages g)) (sy_streams s).

Lemma forallb_impl {A} (p : A → bool) (P : A → Prop) l :
  (∀ x, p x = true → P x) → forallb p l = true → Forall P l.
Proof.
  intros HP Hl. rewrite forallb_forall in Hl. apply Forall_forall. intros x Hx. apply HP, Hl.
  by apply list_elem_of_In.
Qed.

Lemma traffic_okb_ok s : traffic_okb s = true → traffic_ok s.
Proof.
  unfold traffic_okb. intros [[Hp Hc]%andb_true_iff Hg]%andb_true_iff.
  assert (∀ st h, all_loggableb st h = true → all_loggable st h) as Hl by (intros st h; by apply forallb_impl).
  split.
  - eapply forallb_impl; [exact settings_okb_ok|exact Hp].
  - eapply forallb_impl; [|exact Hc]. intros c. apply Hl.
  - eapply forallb_impl; [|exact Hg]. intros g. apply forallb_impl. intros msg. apply forallb_impl, Hl.
Qed.

(** A request and a stream message are under way while SIGHUP replaces the policy. *)
Definition busy : list sys_event :=
  [SLife (EHttpStart ":8080"); SServe; SArrive (http_get "GET" "/a" (mkBody "x" None)); SLoad 0;
   SOpen "s1"; SReceive 0 (ProcessingRequest_RequestHeaders get_headers);
   SLife ESighup; SLife (EHup (Ok "sample")); SLife (EThread 0); SLife (EThread 0); SLife (EThread 0);
   SLife (EThread 0); SLife (EThread 0); SLife (EThread 0); SAnswer 0; SReply 0;
   SReceive 0 (ProcessingRequest_RequestBody "abc")].

Definition served_system : system :=
  default (system0 booted)
    (sys_run no_env no_load_text no_facts_text "dev" sample_flags (system0 booted) busy).

Lemma served_reachable :
  rtc (sys_step no_env no_load_text no_facts_text "dev" sample_flags true) (system0 booted) served_system.
Proof.
  unfold served_system.
  destruct (sys_run no_env no_load_text no_facts_text "dev" sample_flags (system0 booted) busy) as [s|] eqn:E.
  - by eapply sys_run_rtc.
  - apply rtc_refl.
Qed.

Lemma served_traffic : traffic_ok served_system.
Proof. apply traffic_okb_ok. by vm_compute. Qed.

Lemma requests_answered_witness :
  map is_answered (sy_calls served_system) = [true] ∧ pr_http (lf_pr (sy_life served_system)) = Some 1%nat ∧
  ∃ ks, sy_metrics served_system = record_all ks ∧ length ks = count_answered (sy_calls served_system).
Proof.
  split; [by vm_compute|]. split; [by vm_compute|].
  exact (proj2 (requests_answered no_env no_load_text no_facts_text "dev" sample_flags true (Ok "sample")
    quiet_log booted served_system boot_booted served_reachable served_traffic)).
Defined.


(** One message with a header called [time] ends a process that runs with the
    defaults. *)
Definition crash : list sys_event := [SServe; SOpen "s1"; SReceive 0 time_message; SReply 0].

Theorem time_header_crash :
  ∃ s, rtc (sys_step no_env no_load_text no_facts_text "dev" sample_flags true) (system0 booted) s ∧
    crashed s = true.
Proof.
  exists (default (system0 booted)
    (sys_run no_env no_load_text no_facts_text "dev" sample_flags (system0 booted) crash)).
  split; [|by vm_compute].
  destruct (sys_run no_env no_load_text no_facts_text "dev" sample_flags (system0 booted) crash) as [s|] eqn:E.
  - by eapply sys_run_rtc.
  - apply rtc_refl.
Qed.
