(* ===== verification/CelLibrary.v ===== *)
(** * internal/celenv: the declared functions and their types

    The six libraries of the package (net.go, strings.go, encoding.go, time.go,
    data.go, http.go) as the overloads their [CompileOptions] declare: name,
    identifier, types of the arguments and of the result, and the binding, which is
    one of the functions of Net, Glob, Url and CelFunctions.  The process-wide cache
    of glob patterns is threaded through, and the clock is an argument. *)

From S2P Require Import Prelude GoStrings GoHttp GoValues CelEnv Facts Policy Evaluate.
From S2P Require Import GoNet Net GoRegexp Glob GoEncoding JsonPath CelFunctions Url.
From S2P Require Import Instances.
Local Open Scope Z_scope.

Section library.
Context `{UnicodeTables, Decoders, GoRegexp, CelAdapter, IPLiterals}.

Abbreviation glob_cache := (gmap string regexp).

(** ** Declarations *)

(** [cel.UnaryBinding], [cel.BinaryBinding] and [cel.FunctionBinding]. *)
Inductive binding : Type :=
| UnaryBinding (f : glob_cache → refval → refval * glob_cache)
| BinaryBinding (f : glob_cache → refval → refval → refval * glob_cache)
| FunctionBinding (f : Z → list refval → outcome refval).

(** [cel.Overload] inside a [cel.Function]. *)
Record overload := mkOverload {
  ov_function : string;
  ov_id : string;
  ov_args : list cel_type;
  ov_result : cel_type;
  ov_binding : binding;
}.

(** A binding that leaves the cache alone. *)
Definition unary (f : refval → refval) : binding := UnaryBinding (λ cache v, (f v, cache)).
Definition binary (f : refval → refval → refval) : binding :=
  BinaryBinding (λ cache v w, (f v w, cache)).

(** [args[i]] of a variadic binding. *)
Definition arg (args : list refval) (i : nat) : outcome refval :=
  match args !! i with Some v => Ret v | None => Panic end.

Definition listOfStrings : cel_type := ListType StringType.
Definition mapStringDyn : cel_type := MapType StringType DynType.
Definition mapStringStr : cel_type := MapType StringType StringType.
Definition mapStringListStr : cel_type := MapType StringType (ListType StringType).

(** ** The libraries *)

Definition netLib : list overload :=
  [mkOverload "inCIDR" "inCIDR_string_listofstring" [StringType; listOfStrings] BoolType
     (binary (λ ipv cidrsv, types_Bool (inCIDR ipv cidrsv)));
   mkOverload "ipFamily" "ipFamily_string" [StringType] StringType
     (unary (λ v, types_String (ipFamily v)));
   mkOverload "isPrivateIP" "isPrivateIP_string" [StringType] BoolType
     (unary (λ v, types_Bool (isPrivateIP v)));
   mkOverload "isLoopbackIP" "isLoopbackIP_string" [StringType] BoolType
     (unary (λ v, types_Bool (isLoopbackIP v)));
   mkOverload "parseURL" "parseURL_string" [StringType] mapStringDyn (unary parseURL)].

Definition stringLib : list overload :=
  [mkOverload "glob" "glob_string_string" [StringType; StringType] BoolType
     (BinaryBinding (λ cache sv pv, let '(b, cache) := glob cache sv pv in (types_Bool b, cache)));
   mkOverload "globAny" "globAny_string_listofstring" [StringType; listOfStrings] BoolType
     (BinaryBinding (λ cache sv psv, let '(b, cache) := globAny cache sv psv in (types_Bool b, cache)))].

Definition encodingLib : list overload :=
  [mkOverload "sha256Hex" "sha256Hex_string" [StringType] StringType
     (unary (λ v, types_String (sha256Hex v)));
   mkOverload "parseJWTUnverified" "parseJWTUnverified_string" [StringType] mapStringDyn
     (unary parseJWTUnverified)].

(** [now] reads the clock. *)
Definition timeLib : list overload :=
  [mkOverload "now" "now_no_args" [] TimestampType
     (FunctionBinding (λ clock _, Ret (types_Timestamp clock)))].

Definition dataLib : list overload :=
  [mkOverload "jsonPath" "jsonPath_dyn_string" [DynType; StringType] (ListType DynType) (binary jsonPath);
   mkOverload "parseJSON" "parseJSON_dyn" [DynType] DynType (unary parseJSONFromAny);
   mkOverload "parseYAML" "parseYAML_dyn" [DynType] DynType (unary parseYAMLFromAny)].

Definition httpShortLib : list overload :=
  [mkOverload "has" "has_string_mapStringListString" [StringType; mapStringListStr] BoolType
     (binary (λ nameV bucketV, types_Bool (has nameV bucketV)));
   mkOverload "firstOr" "firstOr_mapStringString_string_string" [mapStringStr; StringType; StringType]
     StringType
     (FunctionBinding (λ _ args,
        b ← arg args 0; name ← arg args 1; def ← arg args 2;
        Ret (types_String (firstOr_string b name def))));
   mkOverload "firstOr" "firstOr_mapStringListString_string_string"
     [mapStringListStr; StringType; StringType] StringType
     (FunctionBinding (λ _ args,
        b ← arg args 0; name ← arg args 1; def ← arg args 2;
        Ret (types_String (firstOr_list b name def))))].

(** What [New] adds to cel-go's own libraries, in the order of [commonOpts]. *)
Definition libraries : list (string * list overload) :=
  [("rv.net", netLib); ("rv.strings", stringLib); ("rv.encoding", encodingLib); ("rv.time", timeLib);
   ("rv.data", dataLib); ("rv.http", httpShortLib)].

Definition overloads : list overload := flat_map snd libraries.

(** A call of an overload: a unary or binary binding is only given as many
    arguments as it takes. *)
Definition call_overload (o : overload) (clock : Z) (cache : glob_cache) (args : list refval) :
    option (outcome (refval * glob_cache)) :=
  match ov_binding o, args with
  | UnaryBinding f, [v] => Some (Ret (f cache v))
  | BinaryBinding f, [v; w] => Some (Ret (f cache v w))
  | FunctionBinding f, _ => Some (r ← f clock args; Ret (r, cache))
  | _, _ => None
  end.

(** ** Types of values *)

(** The native value is of a CEL type. *)
Fixpoint has_type (t : cel_type) (v : gval) {struct t} : bool :=
  match t with
  | DynType => true
  | BoolType => match v with GBool _ => true | _ => false end
  | StringType => match v with GString _ => true | _ => false end
  | IntType => match v with GInt _ | GInt32 _ | GInt64 _ => true | _ => false end
  | TimestampType => match v with GOpaque t => String.eqb t "time.Time" | _ => false end
  | ListType e =>
      match v with
      | GStrings l => forallb (λ s, has_type e (GString s)) l
      | GList l | GRefList l => forallb (has_type e) l
      | _ => false
      end
  | MapType k e =>
      match v with
      | GMap m => forallb (λ kv, has_type k (GString kv.1) && has_type e kv.2) m
      | GMapString m => forallb (λ kv, has_type k (GString kv.1) && has_type e (GString kv.2)) (map_to_list m)
      | GMapStrings m => forallb (λ kv, has_type k (GString kv.1) && has_type e (GStrings kv.2)) (map_to_list m)
      | GMapAny m | GRefMap m => forallb (λ kv, has_type k kv.1 && has_type e kv.2) m
      | _ => false
      end
  | OtherType _ => false
  end.

Definition of_type (t : cel_type) (v : refval) : bool := has_type t (Value v).

(** ** Every call of a declared function *)

(** What a declaration promises: a call with arguments of the declared types returns,
    and its result is of the declared type and depends on the arguments and the clock
    only, not on what the cache holds; the cache stays coherent. *)
Definition overload_sound (o : overload) : Prop :=
  ∀ clock args, Forall2 (λ t v, of_type t v = true) (ov_args o) args →
  ∃ r, of_type (ov_result o) r = true ∧
    ∀ cache, glob_cache_ok cache →
      ∃ cache', call_overload o clock cache args = Some (Ret (r, cache')) ∧ glob_cache_ok cache'.

Lemma unary_sound fn id t res f :
  (∀ v, of_type t v = true → of_type res (f v) = true) →
  overload_sound (mkOverload fn id [t] res (unary f)).
Proof.
  intros Hf clock args Ha. cbn in Ha. apply Forall2_cons_inv_l in Ha as (v & l & Hv & Hl & ->).
  apply Forall2_nil_inv_l in Hl as ->. exists (f v). split; [by apply Hf|]. intros cache Hc.
  exists cache. by split.
Qed.

Lemma binary_sound fn id t1 t2 res (f : glob_cache → refval → refval → refval * glob_cache) r :
  (∀ v w, of_type t1 v = true → of_type t2 w = true → of_type res (r v w) = true) →
  (∀ cache v w, glob_cache_ok cache → (f cache v w).1 = r v w ∧ glob_cache_ok (f cache v w).2) →
  overload_sound (mkOverload fn id [t1; t2] res (BinaryBinding f)).
Proof.
  intros Hr Hf clock args Ha. cbn in Ha. apply Forall2_cons_inv_l in Ha as (v & l & Hv & Hl & ->).
  apply Forall2_cons_inv_l in Hl as (w & l' & Hw & Hl & ->). apply Forall2_nil_inv_l in Hl as ->.
  exists (r v w). split; [by apply Hr|]. intros cache Hc. destruct (Hf cache v w Hc) as [<- Hc'].
  exists (f cache v w).2. split; [|done]. cbn. by rewrite <- surjective_pairing.
Qed.

Lemma binary_pure_sound fn id t1 t2 res f :
  (∀ v w, of_type t1 v = true → of_type t2 w = true → of_type res (f v w) = true) →
  overload_sound (mkOverload fn id [t1; t2] res (binary f)).
Proof. intros Hf. by apply (binary_sound _ _ _ _ _ _ f). Qed.

Lemma first_or_sound id t f :
  overload_sound (mkOverload "firstOr" id [t; StringType; StringType] StringType
    (FunctionBinding (λ _ args,
       b ← arg args 0; name ← arg args 1; def ← arg args 2; Ret (types_String (f b name def))))).
Proof.
  intros clock args Ha. cbn in Ha. apply Forall2_cons_inv_l in Ha as (b & l & Hb & Hl & ->).
  apply Forall2_cons_inv_l in Hl as (n & l' & Hn & Hl & ->).
  apply Forall2_cons_inv_l in Hl as (d & l'' & Hd & Hl & ->). apply Forall2_nil_inv_l in Hl as ->.
  exists (types_String (f b n d)). split; [done|]. intros cache Hc. by exists cache.
Qed.

(** Maps of native values, as the functions that return one build them. *)
Lemma string_map_typed m : of_type mapStringDyn (NewStringInterfaceMap m) = true.
Proof.
  unfold of_type. rewrite Value_string_map. cbn. apply forallb_forall. by intros [k v] _.
Qed.

Lemma dynamic_list_typed l : of_type (ListType DynType) (NewDynamicList l) = true.
Proof. unfold of_type. rewrite Value_dynamic_list. cbn. by apply forallb_forall. Qed.

Lemma net_sound : Forall overload_sound netLib.
Proof.
  repeat apply Forall_cons_2; [..|apply Forall_nil_2].
  - by apply binary_pure_sound.
  - by apply unary_sound.
  - by apply unary_sound.
  - by apply unary_sound.
  - apply unary_sound. intros v _. unfold parseURL.
    destruct (url_Parse (stringOf v)) as [u|]; [destruct (default (ε, ε) (u_User u))|];
      apply string_map_typed.
Qed.

Lemma string_sound : Forall overload_sound stringLib.
Proof.
  assert (∀ cache : glob_cache, glob_cache_ok cache → glob_cache_ok (∅ : glob_cache)) as He
    by (intros _ _ p re; by rewrite lookup_empty).
  repeat apply Forall_cons_2; [..|apply Forall_nil_2].
  - apply (binary_sound _ _ _ _ _ _ (λ sv pv, types_Bool (glob_match (stringOf sv) (stringOf pv)))); [done|].
    intros cache sv pv Hc. destruct (matchGlob_ok cache (stringOf sv) (stringOf pv) Hc) as [E Hc'].
    unfold glob. destruct (matchGlob _ _ _) as [b c']. cbn in *. by subst.
  - apply (binary_sound _ _ _ _ _ _ (λ sv psv, types_Bool (globAny ∅ sv psv).1)); [done|].
    intros cache sv psv Hc. unfold globAny.
    destruct (Value psv) as [| | | | | | | |l|l| | | | | |]; try done;
      destruct (globAny_loop_ok cache (stringOf sv) l Hc) as [E Hc'];
      destruct (globAny_loop_ok ∅ (stringOf sv) l (He cache Hc)) as [E0 _];
      destruct (globAny_loop cache (stringOf sv) l) as [b c']; cbn [fst snd] in *;
      (split; [by rewrite E, E0|done]).
Qed.

Lemma other_sound : Forall overload_sound (encodingLib ++ timeLib ++ dataLib ++ httpShortLib).
Proof.
  repeat apply Forall_cons_2; [..|apply Forall_nil_2].
  - by apply unary_sound.
  - apply unary_sound. intros v _. unfold parseJWTUnverified. repeat case_match; apply string_map_typed.
  - intros clock args Ha. cbn in Ha. apply Forall2_nil_inv_l in Ha as ->.
    exists (types_Timestamp clock). split; [done|]. intros cache Hc. by exists cache.
  - apply binary_pure_sound. intros v w _ _. unfold jsonPath. case_match; apply dynamic_list_typed.
  - by apply unary_sound.
  - by apply unary_sound.
  - by apply binary_pure_sound.
  - apply first_or_sound.
  - apply first_or_sound.
Qed.


(** Of the representations a list of strings has, [inCIDR] and [globAny] look into
    [[]ref.Val] (a list written in the expression) and [[]any] (decoded data), with
    the same answer, and find nothing in a [[]string], which is how
    [request.headers] and [request.queries] hold their values and how cel-go's own
    [split] returns its parts. *)
Theorem list_representations (cache : glob_cache) (s : string) (l : list string) :
  glob_cache_ok cache →
  let native := NativeToValue (GStrings l) in
  of_type listOfStrings native = true ∧
  inCIDR (types_String s) native = false ∧ (globAny cache (types_String s) native).1 = false ∧
  inCIDR (types_String s) (ref_other (GList (map GString l))) =
    inCIDR (types_String s) (ref_other (GRefList (map GString l))) ∧
  (globAny cache (types_String s) (ref_other (GList (map GString l)))).1 =
    existsb (glob_match s) l.
Proof.
  intros Hc native. subst native. unfold of_type, inCIDR, globAny. rewrite Value_native by done.
  cbn [stringOf Value]. split_and!; [|by destruct (ParseIP _)|done|done|].
  - cbn. by apply forallb_forall.
  - rewrite (proj1 (globAny_loop_ok cache _ _ Hc)). unfold stringOf. cbn [Value].
    induction l as [|p l IH]; cbn; [done|]. by rewrite IH.
Qed.

End library.

(** ** Witnesses *)

